(* ===== verification/_CoqProject ===== *)
-Q . S2P
Prelude.v
Define.v
Walk.v
Chunker.v
Chunking.v
Tar.v
Truncated.v
MultiHeader.v
Termination.v
LruCache.v
ReadCache.v
Lz4.v
Lz4Mem.v
Lz4Format.v
Lz4Decode.v
Lz4Read.v
Lz4Count.v
Lz4Search.v
Lz4Write.v
Codec.v
Lz4Use.v
DataWrite.v
Store.v
Reports.v
Restore.v
HeaderRestore.v
Double.v
XXHash.v
PolyHash.v
Features.v
AbsMethod.v
MethodSpec.v
Dedup.v
DeltaSpec.v
Finesse.v
NTrans.v
Palantir.v
Locality.v
Odess.v
Interleave.v
RwQueue.v
RwQueueSpec.v
RwQueueProof.v
RwQueueUse.v
Queue.v
Logs.v
System.v
Modes.v
Main.v
Accounts.v
WellFormed.v
Migration.v
Program.v
