(* ===== verification/Prelude.v ===== *)
(** * A verification development of MCompression

    MCompression backs up files (tar archives or raw files): it cuts them into
    chunks, stores each distinct chunk once, compressed on its own with LZ4 or
    as an xdelta difference against a similar chunk, in 4 MiB container files,
    and restores them from per-file recipes.  A second program groups similar
    chunks next to each other and compresses the result as a whole.

    ** How the program is put together

    For every file, [main] starts two threads.  One runs [Chunker::Chunking]:
    it reads the file window by window, asks a cut-point function where the next
    chunk ends, and pushes the chunks on a [MessageQueue].  The other runs the
    [ProcessTrace] of the chosen [AbsMethod]: it pops the chunks, looks their
    fingerprints up, and hands unique ones to [dataWrite], whole (through LZ4)
    or as differences against a chunk that its similarity index proposes.
    [dataWrite] appends to the current container, rolls full containers out to
    files, reads chunks back through a cache, keeps the recipes, and restores a
    file by walking its recipe.

    ** Where each part is modelled

    - [Prelude] (this file): buffers, fixed-width integers, result and state
      monads with triples, with or without exceptional postconditions.  [Define]: [include/define.h],
      [struct.h], [tarType.h].  [Walk]: [tool::traverse_dir] of [define.h].
    - Chunking, [src/chunking/chunker.cc].  [Chunker]: the cut-point functions.
      [Chunking]: the loops over a file, [CutPointTarHeader], [MTar].  [Tar]:
      archives, and what chunking and [MTar] do to them.  [MultiHeader]: archives
      whose headers are gathered in chunks of their own.  [Truncated]: archives
      that end too early.  [Termination]: files of any bytes at all.
    - Caches.  [LruCache]: [include/lruCache.h].  [ReadCache]:
      [src/util/readCache.cc].
    - LZ4, [src/util/lz4.c].  [Lz4]: the compressor and the decoder, every
      access checked.  [Lz4Format]: the block format as an inductive relation,
      the specification of both.  [Lz4Mem], [Lz4Decode], [Lz4Read]: the copies,
      the safety and the correctness of the decoder.  [Lz4Count], [Lz4Search],
      [Lz4Write]: match lengths, the hash table, the correctness of the
      compressor.  [Lz4Use]: both together, as an instance of the interface.
    - The store, [src/datawrite/datawrite.cc].  [DataWrite]: the state and the
      operations.  [Store]: the invariant that relates containers, caches and
      records to the list of stored contents.  [Reports]: the tables it can write
      as text.  [Restore]: reading back, the
      cutters of the restore side.  [HeaderRestore]: archives whose headers are
      stored apart.
    - Similarity.  [XXHash]: [src/util/xxhash.cc].  [PolyHash]: the rolling
      hashes of Finesse and of the N-transform.  [Features]:
      [src/method/odess_similarity_detection.cc].  [Double]: quotients of sizes
      in double precision.
    - Methods, [src/method/].  [AbsMethod]: the shared base.  [Dedup], [Finesse],
      [NTrans], [Palantir], [Odess], [Locality]: one file each.  [MethodSpec]
      and [DeltaSpec]: what a method guarantees, and the steps their proofs share.
    - Threads.  [Interleave]: programs as trees of atomic accesses, and
      rely-guarantee reasoning.  [RwQueue], [RwQueueSpec], [RwQueueProof],
      [RwQueueUse]: [include/readerwriterqueue.h], one access at a time, its
      invariant, the proof of every operation, and sequential use.  [Queue]:
      [include/messageQueue.h] and the loops of the two threads.
    - Entry points, [src/app/].  [System]: the loop over the files for any
      method.  [Modes]: what each way of chunking queues for a file.  [Main]: the
      methods behind the interface, whole runs.  [Accounts]: the counters of a
      run, by partial correctness over the counters alone.  [WellFormed]: the
      state a run leaves, by a check that can be run.  [Migration]: runs with the
      Odess method, which regroups the chunks and stores nothing.  [Logs]: what
      is printed and logged.  [Program]: both [main] functions, from the command
      line to the reports.

    ** Interfaces

    [Codec] has the classes [Lz4], [Xdelta] and [Digest] and their laws.  The
    LZ4 of the repository is proved to be an instance; xdelta (a prebuilt
    library) and SHA-256 (OpenSSL) are not code of the repository, and their
    laws state documented behaviour.  [MethodSpec] has [MethodStep], what
    [ProcessTrace] owes for one chunk and the faults it may stop with, and [Kinds], which contents are header
    chunks; [System] has [Method] and [MethodLaws], what a method owes for a
    whole trace, and [chunks], what a way of chunking owes for a file;
    [Accounts] has [Quiet], the operations that count nothing.  The theorems
    about the store, the loops and [main] are proved against these.

    ** What the theorems show

    - Round trips: [delta.cc] on a directory tree, with any files (fixed-size,
      FastCDC, tar-aware chunking, or archives with their headers apart) and
      deduplication, Finesse, the N-transform, Palantir (up to four files) or the
      locality method (one), leaves a store from which each file is restored as it was (unless xdelta
      reports an error for two chunks of the run, which the program ignores, or,
      with Finesse and the N-transform, a delta of two of them is larger than its
      chunk: both are part of the conclusions, [Main.outcome]); a recipe
      is restored to the contents it names, and an archive with its headers
      stored apart to the archive; LZ4 decompresses what it compresses;
      whole-file compression can be read back, and
      migratory compression, [main.cc], keeps every byte; a report of the
      store tells its records.
    - Refinement: the store is a list of contents; the caches and the queue are
      the obvious lists; the decoder reads the block format; the drivers of the
      chunker cut as if the whole file were in memory.
    - Equivalences: rolling hashes with window hashes, streaming with one-shot
      xxHash, the restore-side cutter with the chunker's, the match counter of
      LZ4 with a byte-by-byte one.
    - Invariants: the similarity index; the statistics, which account for every
      byte of the input, and what the log of every version says of them; the
      state after a run, whose records point to bytes and records that exist.
    - Safety and termination: the LZ4 decoder on any input at all; the chunker,
      which ends on any file; the queue under every interleaving of its two
      threads, and that a run can always be completed; pointers into the read
      cache.
    - Faults the program does have: a delta
      larger than its chunk, an aged Palantir entry, [MTar] followed by
      [Chunking], an archive cut off in a big member, a link that hides
      files, the bases of the locality
      method, the file-name order, the reduction speed of a version.

    ** Faults, fuel and bounds

    Undefined behaviour (an access out of bounds, a dangling pointer, a read of
    an uninitialised member, a failed assertion) is a [fault] of the [result]
    monad, so a theorem that a run ends in [Ok] also says there is none.  Loops
    that do not recurse on their data take fuel: the number of bytes left for
    loops that consume input (the chunker, LZ4, xxHash), the number of entries
    for loops over structures.  Running out is the fault [OutOfFuel], which the
    same theorems exclude.  Integers are [Z] at their C widths ([w32], [w64],
    [s32]) wherever they can wrap; sizes are bounded by [CONTAINER_MAX_SIZE]
    (chunks), [LZ4_MAX_INPUT_SIZE] (LZ4) and [2 ^ 31] chunks.

    ** Not modelled

    [getopt] and [std::sort], which are parameters (nothing is assumed of the
    sorting, since [compareNat] is not the order it requires), the
    signal handler, thread start-up and the clocks; the sum [DCESum] of integer
    quotients, a [double] that is only printed (its divisions are modelled, with
    the fault of a division by zero), and how doubles are printed;
    [PrintMetrics] and the progress lines of the methods, which go to the
    terminal; xdelta and OpenSSL, which are not in the repository; the
    dictionary, streaming, partial and destination-size variants of LZ4, which
    nothing calls, and big-endian or 32-bit builds; weak memory (the accesses of
    the queue interleave, its fences are those that make this adequate on the
    target), its blocking variant and its move operations; [Odess_Multi_Layered],
    which is declared and has no body.  Modelled without a theorem of
    its own: the allocating [enqueue] of the queue for one thread at a time (its
    concurrent use has one), and Palantir over more than four files, whose index
    the end of the fourth may break. *)

From Stdlib Require Export ZArith Lia.
From stdpp Require Export base tactics numbers list gmap strings pretty fin_maps.

(** ** Byte buffers

    A buffer is the list of its bytes, each a [Z]; lengths, offsets and sizes
    are [Z], as the program's [size_t]/[uint64_t] values are. *)

#[global] Open Scope Z_scope.

Abbreviation bytes := (list Z).

Definition len {A} (l : list A) : Z := Z.of_nat (length l).
Definition ztake {A} (n : Z) (l : list A) : list A := take (Z.to_nat n) l.
Definition zdrop {A} (n : Z) (l : list A) : list A := drop (Z.to_nat n) l.

(** [sub off n l]: the [n] bytes of [l] that start at offset [off]. *)
Definition sub {A} (off n : Z) (l : list A) : list A := ztake n (zdrop off l).

Definition is_byte (b : Z) : bool := (0 <=? b) && (b <? 256).
Definition is_bytes (bs : bytes) : bool := forallb is_byte bs.

(** [memcpy(dst + off, src, |src|)] on a buffer whose known contents are [dst]
    (the bytes after them were never written). *)
Definition blit (dst : bytes) (off : Z) (src : bytes) : bytes :=
  ztake off dst ++ src ++ zdrop (off + len src) dst.

Lemma is_bytes_app (l k : bytes) : is_bytes (l ++ k) <-> is_bytes l /\ is_bytes k.
Proof. unfold is_bytes. rewrite forallb_app. apply andb_True. Qed.

Lemma Forall2_impl_in {A B} (P Q : A -> B -> Prop) l k :
  Forall2 P l k -> (forall x y, x ∈ l -> P x y -> Q x y) -> Forall2 Q l k.
Proof.
  intros H HPQ. induction H as [|x y l k Hxy _ IH]; constructor.
  - apply HPQ; [by left|done].
  - apply IH. intros x' y' Hx'. apply HPQ. by right.
Qed.

Lemma Forall2_zip_in {A B} (P : A -> B -> Prop) l k x y : Forall2 P l k -> (x, y) ∈ zip l k -> P x y.
Proof.
  induction 1 as [|a b l k Hab _ IH]; cbn; [by intros ?%not_elem_of_nil|].
  intros [[= -> ->]|Hin]%elem_of_cons; auto.
Qed.

Lemma Forall2_zip_ex {A B} (P : A -> B -> Prop) l k x : Forall2 P l k -> x ∈ l -> exists y, (x, y) ∈ zip l k /\ P x y.
Proof.
  induction 1 as [|a b l k Hab _ IH]; [by intros ?%not_elem_of_nil|]. cbn.
  intros [->|Hin]%elem_of_cons; [exists b; split; [by left|done]|].
  destruct (IH Hin) as (y & Hy & Hp). exists y. split; [by right|done].
Qed.

Lemma elem_of_concat {A} (x : A) ls : x ∈ concat ls <-> exists l, l ∈ ls /\ x ∈ l.
Proof.
  rewrite list_elem_of_In, in_concat. by setoid_rewrite list_elem_of_In.
Qed.

Section Buffers.
Context {A : Type}.
Implicit Types l k : list A.

Lemma len_nonneg l : 0 <= len l.
Proof. unfold len. lia. Qed.

Lemma len_length l : len l = Z.of_nat (length l).
Proof. reflexivity. Qed.

Lemma len_nil : len (@nil A) = 0.
Proof. reflexivity. Qed.

Lemma len_cons x l : len (x :: l) = 1 + len l.
Proof. unfold len. simpl length. lia. Qed.

Lemma len_app l k : len (l ++ k) = len l + len k.
Proof. unfold len. rewrite length_app. lia. Qed.

Lemma len_0_nil l : len l = 0 -> l = [].
Proof. destruct l; [done|]. rewrite len_cons. pose proof (len_nonneg l). lia. Qed.

Lemma len_ztake n l : len (ztake n l) = Z.max 0 (Z.min n (len l)).
Proof. unfold len, ztake. rewrite length_take. lia. Qed.

Lemma len_zdrop n l : len (zdrop n l) = Z.max 0 (len l - Z.max 0 n).
Proof. unfold len, zdrop. rewrite length_drop. lia. Qed.

Lemma len_sub off n l :
  0 <= off -> 0 <= n -> off + n <= len l -> len (sub off n l) = n.
Proof. intros. unfold sub. rewrite len_ztake, len_zdrop. lia. Qed.

Lemma ztake_zdrop n l : ztake n l ++ zdrop n l = l.
Proof. apply take_drop. Qed.

Lemma ztake_all n l : len l <= n -> ztake n l = l.
Proof. intros. apply take_ge. unfold len in *. lia. Qed.

Lemma zdrop_all n l : len l <= n -> zdrop n l = [].
Proof. intros. apply drop_ge. unfold len in *. lia. Qed.

Lemma ztake_nonpos n l : n <= 0 -> ztake n l = [].
Proof. intros. unfold ztake. replace (Z.to_nat n) with 0%nat by lia. done. Qed.

Lemma zdrop_nonpos n l : n <= 0 -> zdrop n l = l.
Proof. intros. unfold zdrop. replace (Z.to_nat n) with 0%nat by lia. done. Qed.

Lemma ztake_app_le n l k : n <= len l -> ztake n (l ++ k) = ztake n l.
Proof. intros. unfold ztake. apply take_app_le. unfold len in *. lia. Qed.

Lemma ztake_app_len l k : ztake (len l) (l ++ k) = l.
Proof. rewrite ztake_app_le by lia. apply ztake_all. lia. Qed.

Lemma zdrop_app_len l k : zdrop (len l) (l ++ k) = k.
Proof. unfold zdrop, len. rewrite Nat2Z.id. apply drop_app_length. Qed.

Lemma zdrop_app_ge n l k : len l <= n -> zdrop n (l ++ k) = zdrop (n - len l) k.
Proof.
  intros. unfold zdrop, len in *. rewrite drop_app_ge by lia. f_equal. lia.
Qed.

Lemma zdrop_app_le n l k : n <= len l -> zdrop n (l ++ k) = zdrop n l ++ k.
Proof. intros. unfold zdrop, len in *. apply drop_app_le. lia. Qed.

Lemma zdrop_zdrop a b l : 0 <= a -> 0 <= b -> zdrop a (zdrop b l) = zdrop (b + a) l.
Proof. intros. unfold zdrop. rewrite drop_drop. f_equal. lia. Qed.

Lemma ztake_ztake a b l : a <= b -> ztake a (ztake b l) = ztake a l.
Proof. intros. unfold ztake. rewrite take_take. f_equal. lia. Qed.

Lemma zdrop_ztake a b l : 0 <= a -> zdrop a (ztake b l) = ztake (b - a) (zdrop a l).
Proof. intros. unfold ztake, zdrop. rewrite skipn_firstn_comm. f_equal. lia. Qed.

Lemma ztake_min_len n l : ztake (Z.min n (len l)) l = ztake n l.
Proof.
  destruct (Z.le_gt_cases n (len l)); [by rewrite Z.min_l|].
  rewrite Z.min_r, !ztake_all by lia. done.
Qed.

Lemma sub_app_l off n l k :
  0 <= off -> 0 <= n -> off + n <= len l -> sub off n (l ++ k) = sub off n l.
Proof.
  intros. unfold sub. rewrite zdrop_app_le by lia. apply ztake_app_le.
  rewrite len_zdrop. lia.
Qed.

Lemma sub_app_r l k : sub (len l) (len k) (l ++ k) = k.
Proof. unfold sub. rewrite zdrop_app_len. apply ztake_all. lia. Qed.

Lemma sub_split a b n l : 0 <= a -> 0 <= b -> 0 <= n ->
  sub a (b + n) l = sub a b l ++ sub (a + b) n l.
Proof.
  intros. unfold sub. rewrite <- (zdrop_zdrop b a) by lia.
  unfold ztake, zdrop. rewrite Z2Nat.inj_add by lia. by rewrite take_take_drop.
Qed.
End Buffers.

Lemma len_map {A B} (f : A -> B) (l : list A) : len (f <$> l) = len l.
Proof. unfold len. by rewrite length_fmap. Qed.

Lemma len_replicate {A} n (x : A) : len (replicate n x) = Z.of_nat n.
Proof. unfold len. by rewrite length_replicate. Qed.

#[global] Opaque len.

Create HintDb mcomp.
#[export] Hint Resolve len_nonneg : mcomp.
#[export] Hint Rewrite @len_cons @len_app @len_map @len_replicate : mcomp.

(** [slia]: [lia] after the lengths of the buffers in sight were computed. *)
Ltac simp_len :=
  autorewrite with mcomp in *;
  repeat match goal with
  | |- context [len (@nil ?A)] => rewrite (@len_nil A)
  | H : context [len (@nil ?A)] |- _ => rewrite (@len_nil A) in H
  end.
Ltac pose_lens :=
  repeat match goal with
  | |- context [len ?l] =>
      lazymatch goal with
      | _ : 0 <= len l |- _ => fail
      | _ => pose proof (len_nonneg l)
      end
  | _ : context [len ?l] |- _ =>
      lazymatch goal with
      | _ : 0 <= len l |- _ => fail
      | _ => pose proof (len_nonneg l)
      end
  end.
Ltac slia := simp_len; pose_lens; lia.

Lemma blit_at_end dst src : blit dst (len dst) src = dst ++ src.
Proof.
  unfold blit. rewrite ztake_all by lia.
  rewrite zdrop_all by slia. by rewrite app_nil_r.
Qed.

Lemma len_blit dst off src :
  0 <= off -> off + len src <= len dst -> len (blit dst off src) = len dst.
Proof.
  intros. unfold blit. rewrite !len_app, len_ztake, len_zdrop. slia.
Qed.

Lemma sub_blit_0 dst src : sub 0 (len src) (blit dst 0 src) = src.
Proof.
  unfold sub, blit. rewrite zdrop_nonpos, (ztake_nonpos 0) by lia.
  simpl. apply ztake_app_len.
Qed.

(** Two buffers that agree up to [n] agree on every slice below [n]. *)
Lemma sub_ztake off k n (l : bytes) :
  0 <= off -> 0 <= k -> off + k <= n -> sub off k (ztake n l) = sub off k l.
Proof.
  intros. unfold sub, ztake, zdrop. rewrite skipn_firstn_comm, take_take.
  f_equal. lia.
Qed.

(** ** Machine words *)

Definition w8 (x : Z) : Z := x mod 2 ^ 8.
Definition w32 (x : Z) : Z := x mod 2 ^ 32.
Definition w64 (x : Z) : Z := x mod 2 ^ 64.

(** [int]: the signed 32-bit value of a 32-bit pattern. *)
Definition s32 (x : Z) : Z := (x + 2 ^ 31) mod 2 ^ 32 - 2 ^ 31.

Definition UINT32_MAX : Z := 2 ^ 32 - 1.
Definition UINT64_MAX : Z := 2 ^ 64 - 1.

Declare Scope u32_scope.
Delimit Scope u32_scope with u32.
Notation "x + y" := (w32 (x + y)) : u32_scope.
Notation "x - y" := (w32 (x - y)) : u32_scope.
Notation "x * y" := (w32 (x * y)) : u32_scope.

Declare Scope u64_scope.
Delimit Scope u64_scope with u64.
Notation "x + y" := (w64 (x + y)) : u64_scope.
Notation "x - y" := (w64 (x - y)) : u64_scope.
Notation "x * y" := (w64 (x * y)) : u64_scope.

Lemma w32_bound x : 0 <= w32 x < 2 ^ 32.
Proof. apply Z.mod_pos_bound. lia. Qed.

Lemma w64_bound x : 0 <= w64 x < 2 ^ 64.
Proof. apply Z.mod_pos_bound. lia. Qed.

Lemma w32_small x : 0 <= x < 2 ^ 32 -> w32 x = x.
Proof. apply Z.mod_small. Qed.

Lemma w64_small x : 0 <= x < 2 ^ 64 -> w64 x = x.
Proof. apply Z.mod_small. Qed.

Lemma w64_add_l x y : w64 (w64 x + y) = w64 (x + y).
Proof. apply Zplus_mod_idemp_l. Qed.

Lemma w64_add_r x y : w64 (x + w64 y) = w64 (x + y).
Proof. apply Zplus_mod_idemp_r. Qed.

Lemma w64_mul_l x y : w64 (w64 x * y) = w64 (x * y).
Proof. apply Zmult_mod_idemp_l. Qed.

Lemma w64_mul_r x y : w64 (x * w64 y) = w64 (x * y).
Proof. apply Zmult_mod_idemp_r. Qed.

Lemma w64_sub_l x y : w64 (w64 x - y) = w64 (x - y).
Proof. apply Zminus_mod_idemp_l. Qed.

Lemma w64_sub_r x y : w64 (x - w64 y) = w64 (x - y).
Proof. apply Zminus_mod_idemp_r. Qed.

(** Equality modulo [2 ^ 64]: what a counter that wraps still says. *)
Abbreviation eqm64 := (eqm (2 ^ 64)).

#[export] Instance eqm64_equiv : Equivalence eqm64 := eqm_setoid _.
#[export] Instance eqm64_add : Proper (eqm64 ==> eqm64 ==> eqm64) Z.add := Zplus_eqm _.
#[export] Instance eqm64_sub : Proper (eqm64 ==> eqm64 ==> eqm64) Z.sub := Zminus_eqm _.

Lemma w64_eqm x : eqm64 (w64 x) x.
Proof. apply Zmod_eqm. Qed.

#[export] Hint Resolve w32_bound w64_bound : mcomp.
#[export] Hint Rewrite w64_add_l w64_add_r w64_mul_l w64_mul_r w64_sub_l w64_sub_r : w64.

(** Little-endian words in memory, [n] bytes wide. *)
Fixpoint le_get (bs : bytes) : Z :=
  match bs with
  | [] => 0
  | b :: bs' => b + 2 ^ 8 * le_get bs'
  end.

Fixpoint le_put (n : nat) (x : Z) : bytes :=
  match n with
  | O => []
  | S n' => x mod 2 ^ 8 :: le_put n' (x / 2 ^ 8)
  end.

Lemma len_le_put n x : len (le_put n x) = Z.of_nat n.
Proof.
  revert x. induction n as [|n IH]; intros x; [done|].
  cbn [le_put]. rewrite len_cons, IH. lia.
Qed.

Lemma le_get_put n x : le_get (le_put n x) = x mod 2 ^ (8 * Z.of_nat n).
Proof.
  revert x. induction n as [|n IH]; intros x.
  { cbn. by rewrite Z.mod_1_r. }
  cbn [le_put le_get]. rewrite IH.
  replace (8 * Z.of_nat (S n)) with (8 + 8 * Z.of_nat n) by lia.
  rewrite Z.pow_add_r by lia.
  rewrite Z.rem_mul_r by lia. done.
Qed.

(** ** Faults, results and the state monad of the stateful components

    [fault] lists the ways a call leaves the modelled behaviour: an access the
    C++ object does not own, a read of memory never written, a thrown
    exception, an [exit], a failed [assert], or a loop that did not finish in
    its fuel. *)

Inductive fault :=
  | OobRead
  | OobWrite
  | Uninit
  | BadPointer
  | EmptyAccess
  | KeyNotFound
  | ExitFailure
  | AssertFailed
  | DivideByZero
  | OutOfFuel.

#[export] Instance fault_eq_dec : EqDecision fault.
Proof. solve_decision. Defined.

Inductive result (A : Type) :=
  | Ok (a : A)
  | Err (e : fault).
Arguments Ok {_} _.
Arguments Err {_} _.

#[export] Instance result_ret : MRet result := @Ok.
#[export] Instance result_bind : MBind result := fun A B f m =>
  match m with Ok a => f a | Err e => Err e end.

Definition from_option_or {A} (e : fault) (o : option A) : result A :=
  match o with Some a => Ok a | None => Err e end.

(** [a / b] of unsigned integers. *)
Definition divide (a b : Z) : result Z := if b =? 0 then Err DivideByZero else Ok (a / b).

(** [M S A]: a computation over the shared state [S]. *)
Definition M (S A : Type) : Type := S -> result (A * S).

#[export] Instance M_ret {S} : MRet (M S) := fun A a s => Ok (a, s).
#[export] Instance M_bind {S} : MBind (M S) := fun A B f m s =>
  match m s with Ok (a, s') => f a s' | Err e => Err e end.

Definition gets {S A} (f : S -> A) : M S A := fun s => Ok (f s, s).
Definition modify {S} (f : S -> S) : M S unit := fun s => Ok (tt, f s).
Definition throw {S A} (e : fault) : M S A := fun _ => Err e.
Definition lift {S A} (r : result A) : M S A := fun s =>
  match r with Ok a => Ok (a, s) | Err e => Err e end.
Definition guard_or {S} (b : bool) (e : fault) : M S unit :=
  if b then mret tt else throw e.

Fixpoint for_each {S A} (l : list A) (f : A -> M S unit) : M S unit :=
  match l with
  | [] => mret tt
  | x :: l' => f x ;; for_each l' f
  end.

(** Triples with an exceptional postcondition: [wpe E m Q s] says that [m], run
    from [s], finishes in a state where [Q] holds, or stops with a fault that [E]
    allows.  [wp] allows none. *)
Definition wpe {S A} (E : fault -> Prop) (m : M S A) (Q : A -> S -> Prop) (s : S) : Prop :=
  match m s with Ok (a, s') => Q a s' | Err e => E e end.

Notation wp := (wpe (fun _ : fault => False)).

Section Wp.
Context {S : Type}.
Implicit Types E : fault -> Prop.

Lemma wp_ret {A} E (a : A) (Q : A -> S -> Prop) s : Q a s -> wpe E (mret a) Q s.
Proof. done. Qed.

Lemma wp_bind {A B} E (m : M S A) (f : A -> M S B) (Q : B -> S -> Prop) s :
  wpe E m (fun a s' => wpe E (f a) Q s') s -> wpe E (m ≫= f) Q s.
Proof. unfold wpe, mbind, M_bind. destruct (m s) as [[a s']|]; done. Qed.

Lemma wp_mono {A} E (m : M S A) (P Q : A -> S -> Prop) s :
  wpe E m P s -> (forall a s', P a s' -> Q a s') -> wpe E m Q s.
Proof. unfold wpe. destruct (m s) as [[a s']|]; eauto. Qed.

(** More faults may be allowed. *)
Lemma wpe_mono {A} E E' (m : M S A) (P Q : A -> S -> Prop) s :
  wpe E m P s -> (forall e, E e -> E' e) -> (forall a s', P a s' -> Q a s') -> wpe E' m Q s.
Proof. unfold wpe. destruct (m s) as [[a s']|]; eauto. Qed.

Lemma wp_throw {A} E e (Q : A -> S -> Prop) s : E e -> wpe E (throw e) Q s.
Proof. done. Qed.

Lemma wp_result {A} (m : M S A) (Q : A -> S -> Prop) s :
  wp m Q s -> exists a s', m s = Ok (a, s') /\ Q a s'.
Proof. unfold wpe. destruct (m s) as [[a s']|]; [eauto|done]. Qed.

Lemma bind_ok {A B} (m : M S A) (f : A -> M S B) s a s' :
  m s = Ok (a, s') -> (m ≫= f) s = f a s'.
Proof. unfold mbind, M_bind. by intros ->. Qed.

Lemma wp_gets {A} E (f : S -> A) (Q : A -> S -> Prop) s : Q (f s) s -> wpe E (gets f) Q s.
Proof. done. Qed.

Lemma wp_modify E (f : S -> S) (Q : unit -> S -> Prop) s : Q tt (f s) -> wpe E (modify f) Q s.
Proof. done. Qed.

Lemma wp_guard E b e (Q : unit -> S -> Prop) s : b = true -> Q tt s -> wpe E (guard_or b e) Q s.
Proof. by intros ->. Qed.

Lemma wp_lift_ok {A} E (r : result A) a (Q : A -> S -> Prop) s :
  r = Ok a -> Q a s -> wpe E (lift r) Q s.
Proof. by intros ->. Qed.

(** The loop rule: an invariant on the elements already handled. *)
Lemma wp_for_each {A} E (l : list A) (f : A -> M S unit) (I : list A -> S -> Prop)
    (Q : unit -> S -> Prop) s :
  I [] s ->
  (forall done_ x todo s', l = done_ ++ x :: todo -> I done_ s' ->
     wpe E (f x) (fun _ s'' => I (done_ ++ [x]) s'') s') ->
  (forall s', I l s' -> Q tt s') ->
  wpe E (for_each l f) Q s.
Proof.
  intros H0 Hstep HQ.
  assert (forall todo done_ s', l = done_ ++ todo -> I done_ s' ->
    wpe E (for_each todo f) Q s') as Hgen.
  { induction todo as [|x todo IH]; intros done_ s' Hl HI.
    - rewrite app_nil_r in Hl. subst. apply wp_ret. auto.
    - cbn [for_each]. apply wp_bind. eapply wp_mono; [eapply Hstep; eauto|].
      intros [] s'' HI'. eapply IH; [|done]. by rewrite <- app_assoc. }
  by apply (Hgen l []).
Qed.
End Wp.

(** [wp_step] takes one step of a program whose head is a primitive. *)
Ltac wp_step :=
  lazymatch goal with
  | |- wpe _ (mbind _ _) _ _ => apply wp_bind
  | |- wpe _ (mret _) _ _ => apply wp_ret
  | |- wpe _ (gets _) _ _ => apply wp_gets
  | |- wpe _ (modify _) _ _ => apply wp_modify
  | |- wpe _ (guard_or _ _) _ _ => apply wp_guard
  end.
Ltac wp_steps := repeat (wp_step; cbn beta).
