(* ===== verification/Walk.v ===== *)
(** * The files of a directory

    [tool::traverse_dir] in [include/define.h], with which [main] fills
    [readfileList]: it lists the regular files below a directory, those of a
    subdirectory in the place of the subdirectory, and leaves a directory at the
    first entry that is neither.  The recipes are kept under the names of the
    files, so that it matters that no name is listed twice. *)

From S2P Require Import Prelude.
From Stdlib Require Import Ascii.

(** A directory as [opendir] finds it, and its entries in the order of
    [readdir]: [d_type] 8, [d_type] 4, and any other ([DT_LNK], [DT_UNKNOWN]). *)
Inductive directory :=
  | NotOpened
  | Opened (es : entries)
with entries :=
  | End
  | Regular (d_name : string) (es : entries)
  | Directory (d_name : string) (dir : directory) (es : entries)
  | Other (d_name : string) (es : entries).

Scheme directory_entries_ind := Induction for directory Sort Prop
  with entries_directory_ind := Induction for entries Sort Prop.

Definition sub_file (root d_name : string) : string := root +:+ "/" +:+ d_name.

(** [strcmp(d_name, ".") != 0 && strcmp(d_name, "..") != 0]. *)
Definition not_dots (d_name : string) : bool := negb (String.eqb d_name ".") && negb (String.eqb d_name "..").

Section Traverse.
Context (filter_ : string -> bool).

Fixpoint traverse_dir (root : string) (dir : directory) (files : list string) : list string :=
  match dir with
  | NotOpened => files
  | Opened es => traverse_loop root es files
  end
with traverse_loop (root : string) (es : entries) (files : list string) : list string :=
  match es with
  | End => files
  | Other _ _ => files
  | Regular n es' =>
      traverse_loop root es'
        (if not_dots n then if filter_ (sub_file root n) then files ++ [sub_file root n] else files else files)
  | Directory n dir es' =>
      traverse_loop root es' (if not_dots n then traverse_dir (sub_file root n) dir files else files)
  end.
End Traverse.

(** ** What is listed *)

(** The regular files below a directory, in the order they are met. *)
Fixpoint regular_files (root : string) (dir : directory) : list string :=
  match dir with
  | NotOpened => []
  | Opened es => regular_entries root es
  end
with regular_entries (root : string) (es : entries) : list string :=
  match es with
  | End => []
  | Other _ es' => regular_entries root es'
  | Regular n es' => (if not_dots n then [sub_file root n] else []) ++ regular_entries root es'
  | Directory n dir es' => (if not_dots n then regular_files (sub_file root n) dir else []) ++ regular_entries root es'
  end.

(** The part of a directory that is looked at. *)
Fixpoint seen (dir : directory) : directory :=
  match dir with
  | NotOpened => NotOpened
  | Opened es => Opened (seen_entries es)
  end
with seen_entries (es : entries) : entries :=
  match es with
  | End => End
  | Other _ _ => End
  | Regular n es' => Regular n (seen_entries es')
  | Directory n dir es' => Directory n (seen dir) (seen_entries es')
  end.

(** No entry of another type. *)
Fixpoint all_plain (dir : directory) : bool :=
  match dir with NotOpened => true | Opened es => plain_entries es end
with plain_entries (es : entries) : bool :=
  match es with
  | End => true
  | Other _ _ => false
  | Regular _ es' => plain_entries es'
  | Directory _ dir es' => all_plain dir && plain_entries es'
  end.

Lemma traverse_seen f dir : forall root files,
  traverse_dir f root dir files = files ++ filter (fun p => f p) (regular_files root (seen dir)).
Proof.
  apply (directory_entries_ind
    (fun dir => forall root files, traverse_dir f root dir files = files ++ filter (fun p => f p) (regular_files root (seen dir)))
    (fun es => forall root files, traverse_loop f root es files = files ++ filter (fun p => f p) (regular_entries root (seen_entries es))));
    cbn; intros; try by rewrite app_nil_r.
  - done.
  - rewrite H, filter_app, app_assoc. f_equal. destruct (not_dots _); [|by rewrite app_nil_r].
    rewrite filter_cons, filter_nil. destruct (f _); [by rewrite decide_True by done|]. rewrite decide_False by (intros []). by rewrite app_nil_r.
  - rewrite H0, filter_app, app_assoc. f_equal. destruct (not_dots _); [|by rewrite app_nil_r]. apply H.
Qed.

Lemma seen_plain dir : all_plain dir -> seen dir = dir.
Proof.
  apply (directory_entries_ind (fun dir => all_plain dir -> seen dir = dir) (fun es => plain_entries es -> seen_entries es = es)); cbn; intros.
  - done.
  - by rewrite H.
  - done.
  - by rewrite H.
  - apply andb_True in H1 as [? ?]. by rewrite H, H0.
  - done.
Qed.

(** ** No file is listed twice *)

Fixpoint entry_names (es : entries) : list string :=
  match es with
  | End => []
  | Regular n es' | Directory n _ es' | Other n es' => n :: entry_names es'
  end.

Definition no_slash (n : string) : Prop := "/"%char ∉ String.list_ascii_of_string n.

(** What a file system guarantees: in a directory, names are distinct, and have
    no slash. *)
Fixpoint well_named (dir : directory) : Prop :=
  match dir with NotOpened => True | Opened es => NoDup (entry_names es) /\ well_named_entries es end
with well_named_entries (es : entries) : Prop :=
  match es with
  | End => True
  | Regular n es' | Other n es' => no_slash n /\ well_named_entries es'
  | Directory n dir es' => no_slash n /\ well_named dir /\ well_named_entries es'
  end.

(** [p] is the path of the entry [n] of [root], or goes through it. *)
Definition through (root n p : string) : Prop := exists t, (t = "" \/ exists s, t = "/" +:+ s) /\ p = sub_file root n +:+ t.

Lemma split_at_slash n n' t t' : no_slash n -> no_slash n' -> (t = "" \/ exists s, t = "/" +:+ s) ->
  (t' = "" \/ exists s, t' = "/" +:+ s) -> n +:+ t = n' +:+ t' -> n = n'.
Proof.
  unfold no_slash. revert n'. induction n as [|c n IH]; intros [|c' n'] Hn Hn' Ht Ht'; cbn in *; intros He.
  - done.
  - exfalso. destruct Ht as [->|[s ->]]; [done|]. injection He as <- _. apply Hn'. by left.
  - exfalso. destruct Ht' as [->|[s ->]]; [done|]. injection He as -> _. apply Hn. by left.
  - injection He as <- He. f_equal. apply not_elem_of_cons in Hn as [_ Hn]. apply not_elem_of_cons in Hn' as [_ Hn']. by apply IH.
Qed.

Lemma string_app_inj_l (a b c : string) : a +:+ b = a +:+ c -> b = c.
Proof. induction a as [|x a IH]; [done|]. cbn. intros [= H]. by apply IH. Qed.

Lemma string_app_assoc (a b c : string) : (a +:+ b) +:+ c = a +:+ (b +:+ c).
Proof. induction a as [|x a IH]; [done|]. exact (f_equal (String x) IH). Qed.

Lemma through_same root n n' p : no_slash n -> no_slash n' -> through root n p -> through root n' p -> n = n'.
Proof.
  intros Hn Hn' (t & Ht & ->) (t' & Ht' & He). unfold sub_file in He. rewrite !string_app_assoc in He.
  apply string_app_inj_l, string_app_inj_l in He. exact (split_at_slash n n' t t' Hn Hn' Ht Ht' He).
Qed.

Lemma through_self root n : through root n (sub_file root n).
Proof. exists "". split; [by left|]. unfold sub_file. rewrite !string_app_assoc. do 2 f_equal. symmetry. clear. induction n as [|c n IH]; [done|]. exact (f_equal (String c) IH). Qed.

Lemma regular_below dir : forall root p, p ∈ regular_files root dir -> exists s, p = root +:+ "/" +:+ s.
Proof.
  apply (directory_entries_ind
    (fun dir => forall root p, p ∈ regular_files root dir -> exists s, p = root +:+ "/" +:+ s)
    (fun es => forall root p, p ∈ regular_entries root es -> exists s, p = root +:+ "/" +:+ s)); cbn.
  - by intros root p ?%not_elem_of_nil.
  - done.
  - by intros root p ?%not_elem_of_nil.
  - intros n es IH root p [Hp|Hp]%elem_of_app; [|by apply IH].
    destruct (not_dots n); [|by apply not_elem_of_nil in Hp]. apply list_elem_of_singleton in Hp as ->. by exists n.
  - intros n dir' IHd es IH root p [Hp|Hp]%elem_of_app; [|by apply IH].
    destruct (not_dots n); [|by apply not_elem_of_nil in Hp]. destruct (IHd _ _ Hp) as [s ->]. exists (n +:+ "/" +:+ s).
    unfold sub_file. by rewrite !string_app_assoc.
  - intros n es IH root p Hp. by apply IH.
Qed.

Lemma regular_through root es p : p ∈ regular_entries root es -> exists n, n ∈ entry_names es /\ through root n p.
Proof.
  induction es as [|n es IH|n dir es IH|n es IH]; cbn; [by intros ?%not_elem_of_nil| | |].
  - intros [Hp|Hp]%elem_of_app.
    + destruct (not_dots n); [|by apply not_elem_of_nil in Hp]. apply list_elem_of_singleton in Hp as ->.
      exists n. split; [by left|apply through_self].
    + destruct (IH Hp) as (n' & Hn & Ht). exists n'. split; [by right|done].
  - intros [Hp|Hp]%elem_of_app.
    + destruct (not_dots n); [|by apply not_elem_of_nil in Hp]. destruct (regular_below _ _ _ Hp) as [s ->].
      exists n. split; [by left|]. exists ("/" +:+ s). split; [|done]. right. by exists s.
    + destruct (IH Hp) as (n' & Hn & Ht). exists n'. split; [by right|done].
  - intros Hp. destruct (IH Hp) as (n' & Hn & Ht). exists n'. split; [by right|done].
Qed.

Lemma well_named_slash es n : well_named_entries es -> n ∈ entry_names es -> no_slash n.
Proof.
  induction es as [|m es IH|m dir es IH|m es IH]; cbn; [by intros _ ?%not_elem_of_nil| | |].
  - intros [H1 H2] [->|Hn]%elem_of_cons; auto.
  - intros (H1 & H2 & H3) [->|Hn]%elem_of_cons; auto.
  - intros [H1 H2] [->|Hn]%elem_of_cons; auto.
Qed.

(** The paths of the first entry are not those of the others. *)
Lemma through_rest root n es p : no_slash n -> well_named_entries es -> n ∉ entry_names es -> through root n p ->
  p ∉ regular_entries root es.
Proof.
  intros Hn Hes Hnin Ht Hp. destruct (regular_through _ _ _ Hp) as (n' & Hn' & Ht'). apply Hnin.
  rewrite (through_same root n n' p); try done. by eapply well_named_slash.
Qed.

Lemma regular_files_distinct dir : forall root, well_named dir -> NoDup (regular_files root dir).
Proof.
  apply (directory_entries_ind
    (fun dir => forall root, well_named dir -> NoDup (regular_files root dir))
    (fun es => forall root, NoDup (entry_names es) -> well_named_entries es -> NoDup (regular_entries root es))); cbn.
  - constructor.
  - intros es IH root [H1 H2]. by apply IH.
  - constructor.
  - intros n es IH root [Hn Hnd]%NoDup_cons [Hs Hes]. apply NoDup_app. split_and!.
    + destruct (not_dots n); [apply NoDup_singleton|constructor].
    + intros p Hp. destruct (not_dots n); [|by apply not_elem_of_nil in Hp]. apply list_elem_of_singleton in Hp as ->.
      eapply through_rest; [done..|apply through_self].
    + by apply IH.
  - intros n dir' IHd es IH root [Hn Hnd]%NoDup_cons (Hs & Hd & Hes). apply NoDup_app. split_and!.
    + destruct (not_dots n); [by apply IHd|constructor].
    + intros p Hp. destruct (not_dots n); [|by apply not_elem_of_nil in Hp]. destruct (regular_below _ _ _ Hp) as [s ->].
      eapply through_rest; [done..|]. exists ("/" +:+ s). split; [|done]. right. by exists s.
    + by apply IH.
  - intros n es IH root [Hn Hnd]%NoDup_cons [Hs Hes]. by apply IH.
Qed.

Lemma seen_names es n : n ∈ entry_names (seen_entries es) -> n ∈ entry_names es.
Proof.
  induction es as [|m es IH|m dir es IH|m es IH]; cbn; [done| | |by intros ?%not_elem_of_nil];
    (intros [->|Hn]%elem_of_cons; [by left|right; by apply IH]).
Qed.

Lemma seen_well_named dir : well_named dir -> well_named (seen dir).
Proof.
  apply (directory_entries_ind (fun dir => well_named dir -> well_named (seen dir))
    (fun es => NoDup (entry_names es) -> well_named_entries es ->
       NoDup (entry_names (seen_entries es)) /\ well_named_entries (seen_entries es))); cbn.
  - done.
  - intros es IH [H1 H2]. by apply IH.
  - by split; [constructor|].
  - intros n es IH [Hn Hnd]%NoDup_cons [Hs Hes]. destruct (IH Hnd Hes) as [I1 I2].
    split; [|by split]. apply NoDup_cons. split; [|done]. intros ?%seen_names. done.
  - intros n dir' IHd es IH [Hn Hnd]%NoDup_cons (Hs & Hd & Hes). destruct (IH Hnd Hes) as [I1 I2].
    split; [|split_and!; [done|by apply IHd|done]]. apply NoDup_cons. split; [|done]. intros ?%seen_names. done.
  - intros. by split; [constructor|].
Qed.

(** The filter of [main]. *)
Definition nofilter (name : string) : bool := true.

Lemma nofilter_all (l : list string) : filter (fun p => nofilter p) l = l.
Proof. induction l as [|p l IH]; [done|]. by rewrite filter_cons_True, IH by done. Qed.

(** ** Properties *)

(** C23: [traverse_dir] lists the regular files below a directory in the order
    of the entries, the files of a subdirectory in its place, and none twice
    (names in a directory being distinct); a directory is left at its first
    entry that is neither a file nor a directory, so that what is listed are the
    files that come before such entries in their directories; when the tree has
    no such entry, they are all the files. *)
Theorem traverse_dir_lists_files (root : string) (dir : directory) (Hn : well_named dir) :
  let readfileList := traverse_dir nofilter root dir [] in
  readfileList = regular_files root (seen dir) /\ NoDup readfileList /\
  (all_plain dir -> readfileList = regular_files root dir).
Proof.
  cbv zeta. rewrite traverse_seen, nofilter_all. cbn [app]. split; [done|]. split.
  - by apply regular_files_distinct, seen_well_named.
  - intros Hp. by rewrite seen_plain.
Qed.

(** A link in front hides the files behind it, but not those of the parent. *)
Definition demo_tree (inner : entries) : directory :=
  Opened (Directory "." NotOpened (Regular "a" (Directory "sub" (Opened inner) (Regular "z" End)))).

Lemma traverse_dir_lists_files_witness :
  let dir := demo_tree (Regular "b" (Other "link" (Regular "c" End))) in
  traverse_dir nofilter "in" dir [] = ["in/a"; "in/sub/b"; "in/z"]%string /\
  traverse_dir nofilter "in" dir [] = regular_files "in" (seen dir) /\ NoDup (traverse_dir nofilter "in" dir []) /\
  (all_plain dir -> traverse_dir nofilter "in" dir [] = regular_files "in" dir).
Proof.
  intros dir. split; [reflexivity|]. apply (traverse_dir_lists_files "in" dir).
  cbn. unfold no_slash. split_and!; try done; apply (bool_decide_unpack _); by vm_compute.
Defined.
