(* ===== verification/Chunker.v ===== *)
(** * The chunker's state and its cut-point functions

    [include/chunker.h] and the cut-point half of [src/chunking/chunker.cc]:
    the mask and size arithmetic, [ChunkerInit], and the functions that decide
    where the next chunk ends ([CutPointFastCDC], [CutPointGear],
    [CutPointTarFast]).  The loops that drive them over a file are in
    [Chunking.v].

    Memory: a cut-point function gets [src], the known bytes at the pointer,
    and [room], the number of bytes allocated from the pointer on.  The bytes
    of the read buffer after the data of the last [read] are zero ([memset]);
    a read at or beyond [room] is the fault [OobRead].  Members the
    constructor leaves uninitialised are [option]s. *)

From S2P Require Import Prelude Define.

Inductive ChunkTypeNum :=
  | FIXED_SIZE | FASTCDC | GEARCDC | TAR | TAR_MultiHeader | MTAR.

#[export] Instance ChunkTypeNum_eq_dec : EqDecision ChunkTypeNum.
Proof. solve_decision. Defined.

(** The chunk sizes and masks of a [Chunker]. *)
Record CdcCfg := mkCdc {
  minChunkSize : Z;
  avgChunkSize : Z;
  maxChunkSize : Z;
  normalSize : option Z;
  bits : option Z;
  maskS : option Z;
  maskL : option Z
}.

(** The part of the state that follows a tar archive from one cut to the next. *)
Record TarState := mkTar {
  Next_Chunk_Type : FILE_TYPE_OPTION;
  Next_Chunk_Size : Z;
  Big_Chunk_Size : Z;
  Big_Chunk_Offset : Z
}.

Definition tar_init : TarState := mkTar FILE_HEADER 0 0 0.

Definition set_type (t : FILE_TYPE_OPTION) (s : TarState) : TarState :=
  mkTar t (Next_Chunk_Size s) (Big_Chunk_Size s) (Big_Chunk_Offset s).
Definition set_size (n : Z) (s : TarState) : TarState :=
  mkTar (Next_Chunk_Type s) n (Big_Chunk_Size s) (Big_Chunk_Offset s).
Definition set_big (size off : Z) (s : TarState) : TarState :=
  mkTar (Next_Chunk_Type s) (Next_Chunk_Size s) size off.

(** ** Size and mask arithmetic *)

Definition CompareLimit (input lower upper : Z) : Z :=
  if input <=? lower then lower
  else if upper <=? input then upper
  else input.

Definition DivCeil (a b : Z) : Z :=
  let tmp := a / b in
  if a mod b =? 0 then tmp else (tmp + 1)%u32.

Definition CalNormalSize (min av max : Z) : Z :=
  let off := (min + DivCeil min 2)%u32 in
  let off := if av <? off then av else off in
  let diff := (av - off)%u32 in
  if max <? diff then max else diff.

Definition GenerateFastCDCMask (bits : Z) : Z :=
  w32 (Z.shiftl 1 (CompareLimit bits 1 31) - 1).

(** [(uint32_t)round(log2(x))] for an integer [x >= 1]: [log2 x] is never
    halfway between two integers, and it rounds up exactly when
    [x >= 2^(k + 1/2)] with [k = floor(log2 x)]. *)
Definition round_log2 (x : Z) : Z :=
  let k := Z.log2 x in
  if 2 ^ (2 * k + 1) <=? x * x then k + 1 else k.

(** The masks and the normal size [ChunkerInit] computes from the sizes; the
    sizes are narrowed to [uint32_t] by the call of [CalNormalSize]. *)
Definition cdc_init (c : CdcCfg) : CdcCfg :=
  let normal := CalNormalSize (w32 (minChunkSize c)) (w32 (avgChunkSize c)) (w32 (maxChunkSize c)) in
  let b := round_log2 (avgChunkSize c) in
  mkCdc (minChunkSize c) (avgChunkSize c) (maxChunkSize c)
    (Some normal) (Some b)
    (Some (GenerateFastCDCMask (b + 1)%u32))
    (Some (GenerateFastCDCMask (b - 1)%u32)).

(** [ChunkerInit]: which members each chunking type initialises.  The result
    also says whether [headerBuffer] was allocated.  An unknown chunking type
    ends the process. *)
Definition ChunkerInit (chunkType : option ChunkTypeNum) (c : CdcCfg) : result (CdcCfg * bool) :=
  match chunkType with
  | Some MTAR | Some FIXED_SIZE => Ok (c, false)
  | Some FASTCDC => Ok (cdc_init c, false)
  | Some GEARCDC => Ok (c, false)
  | Some TAR => Ok (cdc_init c, false)
  | Some TAR_MultiHeader => Ok (cdc_init c, true)
  | None => Err ExitFailure
  end.

(** The member initialisers of the class. *)
Definition cdc_default : CdcCfg := mkCdc 4096 8192 16384 None None None None.

(** [changeChunkSize(int size)]. *)
Definition changeChunkSize (size : Z) (c : CdcCfg) : CdcCfg :=
  mkCdc (Z.quot size 2) size (size * 2) (normalSize c) (bits c) (maskS c) (maskL c).

(** ** The Gear scan

    One [for] loop of the content-defined cutters: it rolls the fingerprint
    over the bytes [src[i] .. src[n-1]] and stops at the first position where
    the masked fingerprint is zero.  [src] is the memory from position [i] on. *)
Inductive scan :=
  | Cut (cp : Z)
  | Scanned (fp i : Z) (rest : bytes).

Definition gear_step (fp b : Z) : Z := (Z.shiftr fp 1 + gear b)%u32.

Fixpoint gear_loop (fuel : nat) (mask : option Z) (n room : Z)
    (src : bytes) (fp i : Z) : result scan :=
  if n <=? i then Ok (Scanned fp i src)
  else match fuel with
  | O => Err OutOfFuel
  | S fuel' =>
      if room <=? i then Err OobRead
      else
        let fp := gear_step fp (hd 0 src) in
        m ← from_option_or Uninit mask;
        if Z.land fp m =? 0 then Ok (Cut (i + 1))
        else gear_loop fuel' mask n room (tail src) fp (i + 1)
  end.

(** The loop runs at most [n - i] times. *)
Definition gear_scan (mask : option Z) (n room : Z) (src : bytes) (fp i : Z) : result scan :=
  gear_loop (Z.to_nat (n - i)) mask n room src fp i.

Definition CutPointFastCDC (c : CdcCfg) (src : bytes) (room l : Z) : result Z :=
  let i := Z.min l (minChunkSize c) in
  normal ← from_option_or Uninit (normalSize c);
  let n := Z.min normal l in
  r ← gear_scan (maskS c) n room (zdrop i src) 0 i;
  match r with
  | Cut cp => Ok cp
  | Scanned fp i rest =>
      let n := Z.min (maxChunkSize c) l in
      r ← gear_scan (maskL c) n room rest fp i;
      match r with
      | Cut cp => Ok cp
      | Scanned _ i _ => Ok i
      end
  end.

(** [uint32_t CutPointGear]: the position is narrowed to 32 bits on return. *)
Definition CutPointGear (src : bytes) (room l : Z) : result Z :=
  r ← gear_scan (Some MASK_GEAR) l room src 0 0;
  match r with
  | Cut cp => Ok (w32 cp)
  | Scanned _ i _ => Ok (w32 i)
  end.

(** ** Tar headers *)

(** The byte at [src[i]] of a zero-padded buffer. *)
Definition peek (src : bytes) (i : Z) : Z := nth (Z.to_nat i) src 0.

(** [for (i = 0; i < 11; i++) n = n * 8 + data[i] - 48;] over [uint64_t]. *)
Definition octal (data : bytes) : Z :=
  fold_left (fun n d => w64 (n * 8 + d - 48)) data 0.

(** The same loop without the [- 48]. *)
Definition octal_raw (data : bytes) : Z :=
  fold_left (fun n d => w64 (n * 8 + d)) data 0.

(** The eleven bytes of the size field, [src[124] .. src[134]]. *)
Definition size_field (src : bytes) : bytes :=
  (fun k => peek src (124 + Z.of_nat k)) <$> seq 0 11.

Definition round512 (n : Z) : Z := ((n + 511)%u64 / 512 * 512)%u64.

(** The [FILE_HEADER] case of [Chunker::CutPointTarFast], up to the returned
    length. *)
Definition tar_header (src : bytes) (s : TarState) : TarState :=
  let data := size_field src in
  let flag := peek src 156 in
  let s := set_size (octal data) s in
  let s :=
    if flag =? REGTYPE then
      if Next_Chunk_Size s <=? CONTAINER_MAX_SIZE then set_type FILE_CHUNK s
      else set_big (round512 (Next_Chunk_Size s)) 0 (set_type BIG_CHUNK s)
    else s in
  let s :=
    if flag =? AREGTYPE then
      let s := set_size (octal_raw data) s in
      let s := set_size 0 s in
      if Next_Chunk_Size s <=? CONTAINER_MAX_SIZE then set_type FILE_CHUNK s
      else
        let s := set_size (octal data) (set_type BIG_CHUNK s) in
        set_big (round512 (Next_Chunk_Size s)) 0 s
    else s in
  if (flag =? XHDTYPE) || (flag =? GNUTYPE_LONGNAME) then set_type FILE_CHUNK s else s.

Definition CutPointTarFast (c : CdcCfg) (s : TarState) (src : bytes) (room l : Z)
    : result (Z * TarState) :=
  match Next_Chunk_Type s with
  | FILE_HEADER =>
      if room <=? 156 then Err OobRead
      else
        let s := tar_header src s in
        Ok (if 512 <=? l then 512 else l, s)
  | FILE_CHUNK =>
      let roundedUp := round512 (Next_Chunk_Size s) in
      let s := set_size 512 (set_type FILE_HEADER s) in
      Ok (if roundedUp <? l then roundedUp else l, s)
  | BIG_CHUNK =>
      let left := (Big_Chunk_Size s - Big_Chunk_Offset s)%u64 in
      if maxChunkSize c <? left then
        cp ← CutPointFastCDC c src room left;
        Ok (cp, set_big (Big_Chunk_Size s) (Big_Chunk_Offset s + cp)%u64 s)
      else Ok (left, set_type FILE_HEADER s)
  end.

(** ** What a cut point is

    [fp_of bs] is the fingerprint after the bytes [bs]; [cdc_cut mask s e src cp]
    says that [cp] is the first position after [s] whose fingerprint (of the
    bytes from [s] on) is zero under the mask in force at that position, and
    [e] when there is none up to [e]. *)
Definition fp_from (fp : Z) (bs : bytes) : Z := fold_left gear_step bs fp.
Definition fp_of (bs : bytes) : Z := fp_from 0 bs.

Record cdc_cut (mask : Z -> Z) (s e : Z) (src : bytes) (cp : Z) : Prop := {
  cut_range : s <= cp <= e;
  cut_first : forall k, s < k < cp -> Z.land (fp_of (sub s (k - s) src)) (mask k) <> 0;
  cut_hit : cp < e -> s < cp /\ Z.land (fp_of (sub s (cp - s) src)) (mask cp) = 0
}.

(** The mask in force at a position: the strict one up to the normal size. *)
Definition mask_at (normal mS mL : Z) (k : Z) : Z := if k <=? normal then mS else mL.

Lemma cdc_cut_unique mask s e src cp1 cp2 :
  cdc_cut mask s e src cp1 -> cdc_cut mask s e src cp2 -> cp1 = cp2.
Proof.
  intros [R1 F1 H1] [R2 F2 H2].
  destruct (Z.lt_trichotomy cp1 cp2) as [Hlt|[->|Hlt]]; [|done|].
  - destruct H1 as [? H1]; [lia|]. exfalso. apply (F2 cp1); [lia|done].
  - destruct H2 as [? H2]; [lia|]. exfalso. apply (F1 cp2); [lia|done].
Qed.

Lemma gear_step_bound fp b : 0 <= fp < 2 ^ 32 -> 0 <= gear_step fp b < 2 ^ 32.
Proof. intros _. apply w32_bound. Qed.

(** The addition of the scan never wraps. *)
Lemma gear_step_no_wrap fp b :
  0 <= fp < 2 ^ 32 -> gear_step fp b = Z.shiftr fp 1 + gear b.
Proof.
  intros H. apply w32_small. rewrite Z.shiftr_div_pow2 by lia.
  pose proof (gear_bound b). split; [|].
  - pose proof (Z.div_pos fp (2 ^ 1)). lia.
  - assert (fp / 2 ^ 1 < 2 ^ 31) by (apply Z.div_lt_upper_bound; lia). lia.
Qed.

Lemma fp_from_bound bs fp : 0 <= fp < 2 ^ 32 -> 0 <= fp_from fp bs < 2 ^ 32.
Proof.
  revert fp. induction bs as [|b bs IH]; intros fp H; [done|].
  apply IH. by apply gear_step_bound.
Qed.

Lemma fp_from_app bs1 bs2 fp : fp_from fp (bs1 ++ bs2) = fp_from (fp_from fp bs1) bs2.
Proof. apply fold_left_app. Qed.

Lemma fp_from_ztake_cons b src fp k :
  1 <= k -> fp_from fp (ztake k (b :: src)) = fp_from (gear_step fp b) (ztake (k - 1) src).
Proof.
  intros. unfold ztake. replace (Z.to_nat k) with (S (Z.to_nat (k - 1))) by lia. done.
Qed.

Lemma zdrop_cons {A} (b : A) src k : 1 <= k -> zdrop k (b :: src) = zdrop (k - 1) src.
Proof.
  intros. unfold zdrop. replace (Z.to_nat k) with (S (Z.to_nat (k - 1))) by lia. done.
Qed.

(** What one scan returns: the first hit after [i], or the state at the end. *)
Definition scan_ok (m n : Z) (src : bytes) (fp i : Z) (r : scan) : Prop :=
  match r with
  | Cut cp =>
      i < cp <= n /\ Z.land (fp_from fp (ztake (cp - i) src)) m = 0 /\
      (forall k, i < k < cp -> Z.land (fp_from fp (ztake (k - i) src)) m <> 0)
  | Scanned fp' i' rest =>
      i' = Z.max i n /\ rest = zdrop (i' - i) src /\
      fp' = fp_from fp (ztake (i' - i) src) /\
      (forall k, i < k <= n -> Z.land (fp_from fp (ztake (k - i) src)) m <> 0)
  end.

Lemma gear_loop_ok fuel m n room src fp i :
  n <= room -> n - i <= len src -> (Z.to_nat (n - i) <= fuel)%nat ->
  exists r, gear_loop fuel (Some m) n room src fp i = Ok r /\ scan_ok m n src fp i r.
Proof.
  revert src fp i. induction fuel as [|fuel IH]; intros src fp i Hroom Hlen Hfuel;
    cbn [gear_loop].
  { rewrite (proj2 (Z.leb_le n i)) by lia. eexists; split; [done|]. cbn.
    replace (Z.max i n - i) with 0 by lia. rewrite zdrop_nonpos, ztake_nonpos by lia.
    repeat split; try done; lia. }
  destruct (Z.leb_spec n i) as [Hni|Hni].
  { eexists; split; [done|]. cbn. replace (Z.max i n - i) with 0 by lia.
    rewrite zdrop_nonpos, ztake_nonpos by lia. repeat split; try done; lia. }
  rewrite (proj2 (Z.leb_gt room i)) by lia. cbn.
  destruct src as [|b src]; [exfalso; slia|]. cbn [hd tail].
  destruct (Z.eqb_spec (Z.land (gear_step fp b) m) 0) as [Hz|Hz].
  { eexists; split; [done|]. cbn.
    rewrite fp_from_ztake_cons, ztake_nonpos by lia. repeat split; try lia; done. }
  rewrite len_cons in Hlen.
  destruct (IH src (gear_step fp b) (i + 1)) as (r & Hr & Hok); [lia..|].
  exists r. split; [done|].
  assert (forall k, i < k -> fp_from fp (ztake (k - i) (b :: src)) =
            fp_from (gear_step fp b) (ztake (k - (i + 1)) src)) as Hshift.
  { intros k Hk. rewrite fp_from_ztake_cons by lia. do 2 f_equal. lia. }
  assert (Z.land (fp_from fp (ztake (i + 1 - i) (b :: src))) m <> 0) as Hfirst.
  { rewrite Hshift, ztake_nonpos by lia. done. }
  destruct r as [cp|fp' i' rest]; cbn in Hok |- *.
  - destruct Hok as (H1 & H2 & H3). rewrite Hshift by lia. repeat split; try lia; try done.
    intros k Hk. destruct (decide (k = i + 1)) as [->|]; [done|].
    rewrite Hshift by lia. apply H3. lia.
  - destruct Hok as (H1 & H2 & H3 & H4).
    rewrite Hshift, zdrop_cons by lia.
    replace (i' - i - 1) with (i' - (i + 1)) by lia.
    repeat split; try lia; try done.
    intros k Hk. destruct (decide (k = i + 1)) as [->|]; [done|].
    rewrite Hshift by lia. apply H4. lia.
Qed.

Lemma gear_scan_ok m n room src fp i :
  n <= room -> n - i <= len src ->
  exists r, gear_scan (Some m) n room src fp i = Ok r /\ scan_ok m n src fp i r.
Proof. intros. apply gear_loop_ok; lia. Qed.

(** ** [CutPointFastCDC] *)

Record cdc_wf (c : CdcCfg) (normal mS mL : Z) : Prop := {
  wf_min : 0 < minChunkSize c;
  wf_max : minChunkSize c <= maxChunkSize c;
  wf_normal : normalSize c = Some normal;
  wf_normal_max : normal <= maxChunkSize c;
  wf_maskS : maskS c = Some mS;
  wf_maskL : maskL c = Some mL
}.

Lemma fastcdc_spec c normal mS mL src room l :
  cdc_wf c normal mS mL -> 0 <= l ->
  Z.min l (maxChunkSize c) <= len src -> Z.min l (maxChunkSize c) <= room ->
  exists cp, CutPointFastCDC c src room l = Ok cp /\
    cdc_cut (mask_at normal mS mL) (Z.min l (minChunkSize c)) (Z.min l (maxChunkSize c)) src cp.
Proof.
  intros [Hmin Hmax Hn Hnm HS HL] Hl Hsrc Hroom. unfold CutPointFastCDC.
  rewrite Hn, HS, HL. cbn [from_option_or mbind result_bind].
  set (i := Z.min l (minChunkSize c)). set (n := Z.min normal l).
  assert (n - i <= len (zdrop i src)) as Hlen by (rewrite len_zdrop; lia).
  assert (forall k, i < k -> fp_from 0 (ztake (k - i) (zdrop i src)) = fp_of (sub i (k - i) src))
    as Hsub by done.
  destruct (gear_scan_ok mS n room (zdrop i src) 0 i) as (r & -> & Hr); [lia|done|].
  destruct r as [cp|fp' i' rest]; cbn [scan_ok] in Hr.
  { destruct Hr as (Hcp & Hz & Hfirst). exists cp. split; [done|]. split; [lia|..].
    - intros k Hk. unfold mask_at. rewrite (proj2 (Z.leb_le k normal)) by lia.
      rewrite <- Hsub by lia. by apply Hfirst.
    - intros _. split; [lia|]. unfold mask_at.
      rewrite (proj2 (Z.leb_le cp normal)) by lia. by rewrite <- Hsub by lia. }
  destruct Hr as (Hi' & -> & -> & Hfirst).
  set (e := Z.min (maxChunkSize c) l).
  assert (e - i' <= len (zdrop (i' - i) (zdrop i src))) as Hlen'.
  { rewrite !len_zdrop. lia. }
  destruct (gear_scan_ok mL e room (zdrop (i' - i) (zdrop i src))
    (fp_from 0 (ztake (i' - i) (zdrop i src))) i') as (r & Hscan & Hr); [lia|done|].
  assert (forall k, i' < k -> fp_from (fp_from 0 (ztake (i' - i) (zdrop i src)))
      (ztake (k - i') (zdrop (i' - i) (zdrop i src))) = fp_of (sub i (k - i) src)) as Hcat.
  { intros k Hk. rewrite <- fp_from_app. unfold fp_of. f_equal.
    replace (k - i) with ((i' - i) + (k - i')) by lia.
    rewrite sub_split by lia. unfold sub. f_equal. rewrite zdrop_zdrop by lia. done. }
  assert (forall k, i < k <= Z.max i n -> Z.land (fp_of (sub i (k - i) src)) (mask_at normal mS mL k) <> 0)
    as Hbefore.
  { intros k Hk. unfold mask_at. rewrite (proj2 (Z.leb_le k normal)) by lia.
    apply Hfirst. lia. }
  assert (forall k, i' < k <= e -> mask_at normal mS mL k = mL) as Hm.
  { intros k Hk. unfold mask_at. destruct (Z.leb_spec k normal); [lia|done]. }
  cbn [mbind result_bind]. fold e. rewrite Hscan.
  destruct r as [cp|fp'' i'' rest]; cbn [scan_ok] in Hr.
  - destruct Hr as (Hcp & Hz & Hnz). exists cp. split; [done|]. split; [lia|..].
    + intros k Hk. destruct (decide (k <= i')); [apply Hbefore; lia|].
      rewrite Hm, <- Hcat by lia. apply Hnz. lia.
    + intros _. split; [lia|]. rewrite Hm by lia. by rewrite <- Hcat by lia.
  - destruct Hr as (-> & _ & _ & Hnz). exists (Z.max i' e). split; [done|]. split; [lia|..].
    + intros k Hk. destruct (decide (k <= i')); [apply Hbefore; lia|].
      rewrite Hm, <- Hcat by lia. apply Hnz. lia.
    + lia.
Qed.

(** ** The shipped configurations

    [cdc_sizes size] is what [changeChunkSize size; ChunkerInit()] leaves: the
    default member sizes are those of [size = 8192], and the sub-chunker of the
    compression methods uses [size = 4096]. *)
Definition cdc_sizes (size : Z) : CdcCfg := cdc_init (changeChunkSize size cdc_default).

Definition size_mask (size : Z) : Z := GenerateFastCDCMask (round_log2 size - 1)%u32.

Lemma DivCeil_2 a : 0 <= a < 2 ^ 31 -> a <= 2 * DivCeil a 2 <= a + 1.
Proof.
  intros. unfold DivCeil.
  pose proof (Z.div_mod a 2). pose proof (Z.mod_pos_bound a 2).
  destruct (Z.eqb_spec (a mod 2) 0); [lia|].
  rewrite w32_small; lia.
Qed.

(** With [min = size/2], [avg = size], [max = 2*size] the "normal size" is
    below the minimum chunk size. *)
Lemma cdc_sizes_normal size :
  2 <= size < 2 ^ 30 ->
  exists normal, normalSize (cdc_sizes size) = Some normal /\
    0 <= normal <= minChunkSize (cdc_sizes size).
Proof.
  intros Hs. cbn [cdc_sizes cdc_init changeChunkSize normalSize minChunkSize avgChunkSize maxChunkSize].
  eexists; split; [done|].
  rewrite Z.quot_div_nonneg by lia.
  pose proof (Z.div_mod size 2). pose proof (Z.mod_pos_bound size 2).
  rewrite !w32_small by lia. unfold CalNormalSize.
  pose proof (DivCeil_2 (size / 2)).
  rewrite (w32_small (size / 2 + _)) by lia.
  destruct (Z.ltb_spec size (size / 2 + DivCeil (size / 2) 2)).
  - rewrite w32_small by lia. destruct (Z.ltb_spec (size * 2) (size - size)); lia.
  - rewrite w32_small by lia.
    destruct (Z.ltb_spec (size * 2) (size - (size / 2 + DivCeil (size / 2) 2))); lia.
Qed.

Lemma cdc_sizes_wf size :
  2 <= size < 2 ^ 30 ->
  exists normal, normal <= minChunkSize (cdc_sizes size) /\
    cdc_wf (cdc_sizes size) normal (GenerateFastCDCMask (round_log2 size + 1)%u32) (size_mask size).
Proof.
  intros Hs. destruct (cdc_sizes_normal size Hs) as (normal & Hn & Hle).
  exists normal. split; [lia|].
  assert (1 <= Z.quot size 2 <= size * 2).
  { rewrite Z.quot_div_nonneg by lia.
    pose proof (Z.div_mod size 2). pose proof (Z.mod_pos_bound size 2). lia. }
  split; try done; cbn in *; lia.
Qed.

Lemma cdc_cut_mask_ext m1 m2 s e src cp :
  (forall k, s < k -> m1 k = m2 k) -> cdc_cut m1 s e src cp -> cdc_cut m2 s e src cp.
Proof.
  intros Hm [R F H]. split; [done|..].
  - intros k Hk. rewrite <- Hm by lia. by apply F.
  - intros Hlt. destruct H as [? H]; [done|]. split; [done|]. by rewrite <- Hm by lia.
Qed.

Lemma fastcdc_sizes_spec size src room l :
  2 <= size < 2 ^ 30 -> 0 <= l ->
  Z.min l (size * 2) <= len src -> Z.min l (size * 2) <= room ->
  exists cp, CutPointFastCDC (cdc_sizes size) src room l = Ok cp /\
    cdc_cut (fun _ => size_mask size) (Z.min l (minChunkSize (cdc_sizes size)))
      (Z.min l (maxChunkSize (cdc_sizes size))) src cp.
Proof.
  intros Hs H1 H2 H3. destruct (cdc_sizes_wf size Hs) as (normal & Hle & Hwf).
  destruct (fastcdc_spec _ _ _ _ src room l Hwf H1 H2 H3) as (cp & Hcp & Hcut).
  exists cp. split; [done|].
  destruct (Z.le_gt_cases l (minChunkSize (cdc_sizes size))).
  - pose proof (wf_max _ _ _ _ Hwf). destruct Hcut as [R _ _]. split; [done|lia..].
  - eapply cdc_cut_mask_ext; [|exact Hcut]. intros k Hk. unfold mask_at.
    destruct (Z.leb_spec k normal); [lia|done].
Qed.

(** ** Properties *)

(** With the sizes the program ships ([8192] for the chunker, [4096] for
    the sub-chunker), and with every size [changeChunkSize] can be given, the
    FastCDC cut is the first position from the minimum size on whose
    fingerprint is zero under the loose mask [maskL] alone, and the maximum
    (or the end of the data) when there is none: normalised chunking, the
    strict mask [maskS] below the normal size, never takes effect. *)
Theorem fastcdc_single_mask (size room l : Z) (src : bytes)
    (Hsize : 2 <= size < 2 ^ 30) (Hl : 0 <= l)
    (Hsrc : Z.min l (size * 2) <= len src) (Hroom : Z.min l (size * 2) <= room) :
  exists cp, CutPointFastCDC (cdc_sizes size) src room l = Ok cp /\
    cdc_cut (fun _ => size_mask size) (Z.min l (Z.quot size 2)) (Z.min l (size * 2)) src cp.
Proof. apply fastcdc_sizes_spec; lia. Qed.

Lemma fastcdc_single_mask_witness :
  exists cp, CutPointFastCDC (cdc_sizes 8192) (replicate 100%nat 7) 4200 100 = Ok cp /\
    cdc_cut (fun _ => size_mask 8192) (Z.min 100 (Z.quot 8192 2)) (Z.min 100 (8192 * 2))
      (replicate 100%nat 7) cp.
Proof. apply (fastcdc_single_mask 8192 4200 100); [lia|lia|by vm_compute|lia]. Defined.

(** Content-defined boundaries: a cut strictly inside the data depends on
    nothing but the bytes before it.  Any other data with the same prefix is
    cut at the same place. *)
Theorem fastcdc_prefix_stable (size room l room' l' cp : Z) (src src' : bytes)
    (Hsize : 2 <= size < 2 ^ 30) (Hl : 0 <= l <= len src) (Hroom : l <= room)
    (Hl' : cp <= l' <= len src') (Hroom' : l' <= room')
    (Hcp : CutPointFastCDC (cdc_sizes size) src room l = Ok cp)
    (Hinside : cp < l) (Hprefix : ztake cp src' = ztake cp src) :
  CutPointFastCDC (cdc_sizes size) src' room' l' = Ok cp.
Proof.
  destruct (cdc_sizes_wf size Hsize) as (normal & _ & Hwf).
  pose proof (wf_min _ _ _ _ Hwf) as Hmin. pose proof (wf_max _ _ _ _ Hwf) as Hmax.
  destruct (fastcdc_sizes_spec size src room l) as (cp1 & Hcp1 & [R F H]); [lia..|].
  assert (cp1 = cp) as -> by congruence.
  destruct (fastcdc_sizes_spec size src' room' l') as (cp2 & Hcp2 & Hcut2); [lia..|].
  rewrite Hcp2. f_equal. symmetry. eapply cdc_cut_unique; [|exact Hcut2].
  set (mn := minChunkSize (cdc_sizes size)) in *. set (mx := maxChunkSize (cdc_sizes size)) in *.
  replace (Z.min l' mn) with (Z.min l mn) by lia.
  assert (forall k, Z.min l mn < k <= cp ->
    sub (Z.min l mn) (k - Z.min l mn) src' = sub (Z.min l mn) (k - Z.min l mn) src) as Hsame.
  { intros k Hk. rewrite <- (sub_ztake _ _ cp src'), <- (sub_ztake _ _ cp src) by lia.
    by rewrite Hprefix. }
  split; [lia|..].
  - intros k Hk. rewrite Hsame by lia. by apply F.
  - intros Hlt. destruct H as [H1 H2]; [lia|]. split; [lia|]. by rewrite Hsame by lia.
Qed.

Lemma fastcdc_prefix_stable_witness :
  CutPointFastCDC (cdc_sizes 4) [1; 2; 3; 4; 0] 9 5 = Ok 4.
Proof.
  apply (fastcdc_prefix_stable 4 10 10 9 5 4 [1; 2; 3; 4; 5; 6; 7; 8; 9; 10]);
    by vm_compute.
Defined.

(** ** [CutPointGear] *)

Lemma gear_spec src room l :
  0 <= l -> l <= len src -> l <= room -> l < 2 ^ 32 ->
  exists cp, CutPointGear src room l = Ok cp /\ cdc_cut (fun _ => MASK_GEAR) 0 l src cp.
Proof.
  intros Hl Hsrc Hroom Hsmall. unfold CutPointGear.
  destruct (gear_scan_ok MASK_GEAR l room src 0 0) as (r & -> & Hr); [lia..|].
  assert (forall k, sub 0 (k - 0) src = ztake (k - 0) src) as Hsub.
  { intros k. unfold sub. by rewrite zdrop_nonpos by lia. }
  cbn. destruct r as [cp|fp' i' rest]; cbn in Hr.
  - destruct Hr as (Hcp & Hz & Hnz). rewrite w32_small by lia.
    exists cp. split; [done|]. split; [lia|..].
    + intros k Hk. rewrite Hsub. by apply Hnz.
    + intros _. split; [lia|]. by rewrite Hsub.
  - destruct Hr as (-> & _ & _ & Hnz). rewrite w32_small by lia.
    exists (Z.max 0 l). split; [done|]. split; [lia|..]; [|lia].
    intros k Hk. rewrite Hsub. apply Hnz. lia.
Qed.

(** The fingerprint of a run of zero bytes, from its fixed point on. *)
Lemma fp_zeros_stable n : fp_from 3106636015 (replicate n 0) = 3106636015.
Proof. induction n as [|n IH]; [done|]. cbn [replicate fp_from fold_left]. exact IH. Qed.

Lemma fp_zeros_nonzero n : (0 < n)%nat -> Z.land (fp_of (replicate n 0)) MASK_GEAR <> 0.
Proof.
  intros Hn. destruct (decide (n < 40)%nat) as [Hlt|Hge].
  - assert (forallb (fun n => negb (Z.land (fp_of (replicate (S n) 0)) MASK_GEAR =? 0)) (seq 0 40)
      = true) as Hall by (vm_compute; reflexivity).
    rewrite forallb_forall in Hall. specialize (Hall (n - 1)%nat).
    replace (S (n - 1)) with n in Hall by lia.
    apply Z.eqb_neq, negb_true_iff, Hall, in_seq. lia.
  - replace n with (40 + (n - 40))%nat by lia. rewrite replicate_add.
    unfold fp_of. rewrite fp_from_app.
    replace (fp_from 0 (replicate 40 0)) with 3106636015 by (vm_compute; reflexivity).
    rewrite fp_zeros_stable. by vm_compute.
Qed.

Lemma ztake_replicate {A} k n (x : A) : k <= Z.of_nat n -> ztake k (replicate n x) = replicate (Z.to_nat k) x.
Proof. intros. unfold ztake. rewrite take_replicate. f_equal. lia. Qed.

(** The Gear chunker has no maximum size: a run of zero bytes of any
    length below 2^32 is one chunk, however much longer than
    [MAX_CHUNK_SIZE] (16 KiB) or [CONTAINER_MAX_SIZE] (4 MiB) it is. *)
Theorem gear_zero_run_uncut (n : nat) (room : Z)
    (Hn : Z.of_nat n < 2 ^ 32) (Hroom : Z.of_nat n <= room) :
  CutPointGear (replicate n 0) room (Z.of_nat n) = Ok (Z.of_nat n).
Proof.
  destruct (gear_spec (replicate n 0) room (Z.of_nat n)) as (cp & -> & [R F H]);
    [lia|rewrite len_replicate; lia|lia|lia|].
  f_equal. destruct (Z.le_gt_cases (Z.of_nat n) cp) as [|Hlt]; [lia|]. exfalso.
  destruct H as [Hpos Hz]; [lia|]. revert Hz.
  unfold sub. rewrite zdrop_nonpos, ztake_replicate by lia. apply fp_zeros_nonzero. lia.
Qed.

Lemma gear_zero_run_uncut_witness :
  CutPointGear (replicate 70000%nat 0) READ_FILE_SIZE 70000 = Ok 70000.
Proof. apply (gear_zero_run_uncut 70000%nat READ_FILE_SIZE); by vm_compute. Defined.
