(* ===== verification/Chunking.v ===== *)
(** * Driving the cut-point functions over a file

    The loops of [src/chunking/chunker.cc]: [Chunker::Chunking] (read a window
    of the input, cut chunks while enough of it is left, seek back to the first
    byte not cut), [Chunker::CutPointTarHeader] (collect several tar headers
    into one header chunk) and [Chunker::MTar] (rewrite an archive with its
    contents first and its headers last).

    The two reading loops of the file differ only in their body and in the
    amount of data they insist on before cutting, so both are instances of
    [drive].  [localOffset] is a member in the source but is reset at every
    window and used in no other function: it is the loop variable [lo] here. *)

From Stdlib Require Import Ascii.
From S2P Require Import Prelude Define Chunker.

(** ** State *)

(** A message of the output queue: the [malloc]ed chunk, which the receiver
    owns, and its [HeaderFlag]; [chunkSize] is the length of the block. *)
Record Msg := mkMsg { msg_data : bytes; msg_header : bool }.

Record Chunker := mkChunker {
  chunkType : option ChunkTypeNum;
  cdc : CdcCfg;
  tar : TarState;
  localType : FILE_TYPE_OPTION;
  HeaderCp : Z;
  headerBuffer : option bytes;   (* None: not allocated for this type *)
  outputMQ : list Msg;
  done_ : bool
}.

Definition HEADER_BUFFER_SIZE : Z := 512 * 32.

Definition set_tar (t : TarState) (c : Chunker) : Chunker :=
  mkChunker (chunkType c) (cdc c) t (localType c) (HeaderCp c) (headerBuffer c) (outputMQ c) (done_ c).
Definition set_localType (t : FILE_TYPE_OPTION) (c : Chunker) : Chunker :=
  mkChunker (chunkType c) (cdc c) (tar c) t (HeaderCp c) (headerBuffer c) (outputMQ c) (done_ c).
Definition set_header (n : Z) (b : option bytes) (c : Chunker) : Chunker :=
  mkChunker (chunkType c) (cdc c) (tar c) (localType c) n b (outputMQ c) (done_ c).
Definition push (m : Msg) (c : Chunker) : Chunker :=
  mkChunker (chunkType c) (cdc c) (tar c) (localType c) (HeaderCp c) (headerBuffer c)
    (outputMQ c ++ [m]) (done_ c).
Definition set_done (b : bool) (c : Chunker) : Chunker :=
  mkChunker (chunkType c) (cdc c) (tar c) (localType c) (HeaderCp c) (headerBuffer c) (outputMQ c) b.
Definition set_chunkType (t : option ChunkTypeNum) (c : Chunker) : Chunker :=
  mkChunker t (cdc c) (tar c) (localType c) (HeaderCp c) (headerBuffer c) (outputMQ c) (done_ c).

Definition chunk_type_of_int (z : Z) : option ChunkTypeNum :=
  match z with
  | 0 => Some FIXED_SIZE | 1 => Some FASTCDC | 2 => Some GEARCDC
  | 3 => Some TAR | 4 => Some TAR_MultiHeader | 5 => Some MTAR
  | _ => None
  end.

(** [Chunker::Chunker(int chunkType_)]. *)
Definition new_Chunker (chunkType_ : Z) : result Chunker :=
  let t := chunk_type_of_int chunkType_ in
  r ← ChunkerInit t cdc_default;
  Ok (mkChunker t r.1 tar_init FILE_HEADER 0 (if (r.2 : bool) then Some [] else None) [] false).

(** ** Memory *)

(** [memcpy] of [n] bytes out of a buffer with [room] bytes from [src] on. *)
Definition read_block (src : bytes) (room n : Z) : result bytes :=
  if room <? n then Err OobRead
  else
    let s := ztake n src in
    Ok (s ++ replicate (Z.to_nat (n - len s)) 0).

(** ** The windowed reading loop *)

Section Drive.
Context {S : Type}.
(** [iter w l lo s]: the loop body at offset [lo] of a window with the [l]
    data bytes [w]; it returns the new offset. *)
Variable iter : bytes -> Z -> Z -> S -> result (Z * S).
(** The loop cuts only while this many bytes are left, or at end of file. *)
Variable threshold : Z.

Fixpoint inner_loop (fuel : nat) (w : bytes) (l : Z) (end_ : bool) (lo : Z) (s : S)
    : result (Z * S) :=
  if (threshold <=? w64 (l - lo)) || (end_ && (lo <? l)) then
    match fuel with
    | O => Err OutOfFuel
    | Datatypes.S fuel' =>
        r ← iter w l lo s;
        inner_loop fuel' w l end_ r.1 r.2
    end
  else Ok (lo, s).

(** [inputFile.read] of [READ_FILE_SIZE] bytes at [totalOffset]; a short read
    sets [eof]. *)
Fixpoint outer_loop (fuel : nat) (file : bytes) (totalOffset : Z) (s : S) : result S :=
  match fuel with
  | O => Err OutOfFuel
  | Datatypes.S fuel' =>
      let w := sub totalOffset READ_FILE_SIZE file in
      let end_ := len w <? READ_FILE_SIZE in
      let l := len w in
      if l =? 0 then Ok s
      else
        r ← inner_loop fuel w l end_ 0 s;
        let totalOffset := totalOffset + r.1 in
        if end_ then Ok r.2 else outer_loop fuel' file totalOffset r.2
  end.

Definition drive (fuel : nat) (file : bytes) (s : S) : result S := outer_loop fuel file 0 s.
End Drive.

(** ** [CutPointTarHeader] *)

(** The loop of the header branch; [cpSum] is the offset reached. *)
Fixpoint tar_header_loop (fuel : nat) (src : bytes) (room l : Z) (cpSum : Z) (c : Chunker)
    : result (Z * Chunker) :=
  let next := Next_Chunk_Type (tar c) in
  if ((HeaderCp c <? MultiHeaderSize)
      || (bool_decide (localType c = FILE_HEADER) && bool_decide (next = FILE_CHUNK)))
     && negb (bool_decide (next = BIG_CHUNK))
  then
    match fuel with
    | O => Err OutOfFuel
    | S fuel' =>
        let c := set_localType next c in
        r ← CutPointTarFast (cdc c) (tar c) (zdrop cpSum src) (room - cpSum) (w64 (l - cpSum));
        let cp := w32 r.1 in
        let c := set_tar r.2 c in
        if bool_decide (localType c = FILE_HEADER) then
          hb ← from_option_or BadPointer (headerBuffer c);
          blk ← read_block (zdrop cpSum src) (room - cpSum) cp;
          if HEADER_BUFFER_SIZE <? HeaderCp c + cp then Err OobWrite
          else
            let c := set_header (HeaderCp c + cp) (Some (blit hb (HeaderCp c) blk)) c in
            let cpSum := cpSum + cp in
            if cpSum =? l then Ok (cpSum, set_tar (set_type FILE_HEADER (tar c)) c)
            else tar_header_loop fuel' src room l cpSum c
        else if cp =? 0 then tar_header_loop fuel' src room l cpSum c
        else
          blk ← read_block (zdrop cpSum src) (room - cpSum) cp;
          let c := push (mkMsg blk false) c in
          let cpSum := cpSum + cp in
          if cpSum =? l then Ok (cpSum, set_tar (set_type FILE_HEADER (tar c)) c)
          else tar_header_loop fuel' src room l cpSum c
    end
  else Ok (cpSum, c).

(** The loop of the big-chunk branch. *)
Fixpoint tar_big_loop (fuel : nat) (src : bytes) (room l : Z) (cpSum : Z) (c : Chunker)
    : result (Z * Chunker) :=
  let next := Next_Chunk_Type (tar c) in
  if negb (bool_decide (next = FILE_HEADER)) && (cpSum <? CONTAINER_MAX_SIZE - MAX_CHUNK_SIZE)
  then
    match fuel with
    | O => Err OutOfFuel
    | S fuel' =>
        let c := set_localType next c in
        r ← CutPointTarFast (cdc c) (tar c) (zdrop cpSum src) (room - cpSum) (w64 (l - cpSum));
        let cp := w32 r.1 in
        let c := set_tar r.2 c in
        blk ← read_block (zdrop cpSum src) (room - cpSum) cp;
        let c := push (mkMsg blk false) c in
        let cpSum := cpSum + cp in
        if cpSum =? l then Ok (cpSum, c)
        else tar_big_loop fuel' src room l cpSum c
    end
  else Ok (cpSum, c).

(** The locals [blockTypeMask] and [loopTime] are left out: nothing reads them
    since the mask queue was commented out. *)
Definition CutPointTarHeader (fuel : nat) (c : Chunker) (src : bytes) (room l : Z)
    : result (Z * Chunker) :=
  if bool_decide (Next_Chunk_Type (tar c) = FILE_HEADER) then
    r ← tar_header_loop fuel src room l 0 c;
    let c := r.2 in
    hb ← from_option_or BadPointer (headerBuffer c);
    let c := push (mkMsg (ztake (HeaderCp c) hb) true) c in
    Ok (r.1, set_header 0 (headerBuffer c) c)
  else tar_big_loop fuel src room l 0 c.

(** ** [Chunking] *)

(** The [switch] of the loop body, except for [TAR_MultiHeader], which pushes
    its chunks itself. *)
Definition cut_point (c : Chunker) (src : bytes) (room left : Z) : result (Z * Chunker) :=
  match chunkType c with
  | Some FIXED_SIZE => Ok (Z.min (avgChunkSize (cdc c)) left, c)
  | Some FASTCDC => cp ← CutPointFastCDC (cdc c) src room left; Ok (cp, c)
  | Some GEARCDC => cp ← CutPointGear src room left; Ok (cp, c)
  | Some TAR =>
      r ← CutPointTarFast (cdc c) (tar c) src room left;
      Ok (r.1, set_tar r.2 c)
  | _ => Ok (0, c)
  end.

Definition chunk_iter (fuel : nat) (w : bytes) (l lo : Z) (c : Chunker) : result (Z * Chunker) :=
  let src := zdrop lo w in
  let room := READ_FILE_SIZE - lo in
  let left := w64 (l - lo) in
  if bool_decide (chunkType c = Some TAR_MultiHeader) then
    r ← CutPointTarHeader fuel c src room left;
    Ok (lo + r.1, r.2)
  else
    r ← cut_point c src room left;
    let cp := r.1 in
    blk ← read_block src room cp;
    if cp =? 0 then Ok (lo, r.2)
    else Ok (lo + cp, push (mkMsg blk false) r.2).

(** [Chunker::Chunking] on the loaded file. *)
Definition Chunking (fuel : nat) (file : bytes) (c : Chunker) : result Chunker :=
  c ← drive (chunk_iter fuel) (CONTAINER_MAX_SIZE * 16) fuel file c;
  Ok (set_done true c).

(** ** [MTar] *)

(** The body of the two rewriting loops: the first pass ([header = false])
    writes the cuts that are not headers, the second the headers. *)
Definition mtar_iter (header : bool) (w : bytes) (l lo : Z) (s : Chunker * bytes)
    : result (Z * (Chunker * bytes)) :=
  let '(c, out) := s in
  let src := zdrop lo w in
  let room := READ_FILE_SIZE - lo in
  let c := set_localType (Next_Chunk_Type (tar c)) c in
  r ← CutPointTarFast (cdc c) (tar c) src room (w64 (l - lo));
  let cp := w32 r.1 in
  let c := set_tar r.2 c in
  if cp =? 0 then Ok (lo, (c, out))
  else if Bool.eqb (bool_decide (localType c = FILE_HEADER)) header then
    blk ← read_block src room cp;
    Ok (lo + cp, (c, out ++ blk))
  else Ok (lo + cp, (c, out)).

Definition reset_types (c : Chunker) : Chunker :=
  set_tar (set_type FILE_HEADER (tar c)) (set_localType FILE_HEADER c).

(** One archive: contents, then headers. *)
Definition mtar_file (fuel : nat) (file : bytes) (c : Chunker) : result (Chunker * bytes) :=
  r ← drive (mtar_iter false) CONTAINER_MAX_SIZE fuel file (c, []);
  r ← drive (mtar_iter true) CONTAINER_MAX_SIZE fuel file (reset_types r.1, r.2);
  Ok (reset_types r.1, r.2).

(** The part of a path after its last ['/']. *)
Fixpoint after_slash (s : string) : option string :=
  match s with
  | EmptyString => None
  | String a s' =>
      match after_slash s' with
      | Some r => Some r
      | None => if bool_decide (a = "/"%char) then Some s' else None
      end
  end.

Definition base_name (path : string) : string :=
  match after_slash path with Some n => n | None => path end.

Definition mtar_path (path : string) : string := "./mTarFile/" +:+ base_name path +:+ ".m".

(** [Chunker::MTar]: every archive of the list is rewritten on disk and replaced
    in the list by its rewriting; an unreadable file reads as empty.  (Writing
    under [./mTarFile] is taken to succeed.) *)
Fixpoint MTar_loop (fuel : nat) (paths : list string) (disk : gmap string bytes) (c : Chunker)
    : result (list string * gmap string bytes * Chunker) :=
  match paths with
  | [] => Ok ([], disk, c)
  | p :: ps =>
      r ← mtar_file fuel (default [] (disk !! p)) c;
      q ← MTar_loop fuel ps (<[mtar_path p := r.2]> disk) r.1;
      Ok (mtar_path p :: q.1.1, q.1.2, q.2)
  end.

Definition MTar (fuel : nat) (paths : list string) (backupNum : nat)
    (disk : gmap string bytes) (c : Chunker) : result (list string * gmap string bytes * Chunker) :=
  _ ← (if (length paths <? backupNum)%nat then Err OobRead else Ok tt);
  r ← MTar_loop fuel (take backupNum paths) disk c;
  Ok (r.1.1 ++ drop backupNum paths, r.1.2,
      reset_types (set_chunkType (Some FASTCDC) r.2)).

(** ** Windows *)

(** The window of a file [F], and what is left of it from [lo] on. *)
Lemma window_of (F w : bytes) lo : w = ztake READ_FILE_SIZE F -> 0 <= lo <= len w ->
  len w <= READ_FILE_SIZE /\ len w <= len F /\ (len w < READ_FILE_SIZE -> w = F) /\
  zdrop lo w = ztake (len w - lo) (zdrop lo F).
Proof.
  intros Hw Hlo. pose proof (len_nonneg F).
  assert (len w = Z.min READ_FILE_SIZE (len F)) as Hl
    by (rewrite Hw, len_ztake; unfold READ_FILE_SIZE; lia).
  repeat split; try lia.
  - intros Hlt. rewrite Hw. apply ztake_all. lia.
  - rewrite Hw at 1. rewrite zdrop_ztake by lia.
    rewrite <- (ztake_min_len (READ_FILE_SIZE - lo)), len_zdrop, Hl. f_equal. lia.
Qed.

Lemma window_left (w : bytes) lo : 0 <= lo <= len w -> len w <= READ_FILE_SIZE -> w64 (len w - lo) = len w - lo.
Proof. intros H1 H2. apply w64_small. unfold READ_FILE_SIZE in *. lia. Qed.

(** ** The windowed loop refines cutting the whole file

    [runs n s file s']: starting in [s], [n] cuts in a row consume [file] and
    end in [s'], where [step s rest cp s1] describes one cut of the whole rest
    of the file. *)
Section DriveRefines.
Context {S : Type}.
Variable step : S -> bytes -> Z -> S -> Prop.

Inductive runs : nat -> S -> bytes -> S -> Prop :=
  | runs_nil s : runs 0 s [] s
  | runs_step n s r cp s1 s2 :
      r <> [] -> 0 <= cp <= len r -> step s r cp s1 -> runs n s1 (zdrop cp r) s2 ->
      runs (Datatypes.S n) s r s2.

Variable iter : bytes -> Z -> Z -> S -> result (Z * S).
Variable threshold : Z.
Hypothesis Hthr : 0 < threshold <= READ_FILE_SIZE.

(** The loop body makes the whole-file cut from a window that holds either
    the rest of the file or at least [threshold] bytes of it. *)
Hypothesis iter_step : forall w lo s r cp s1,
  0 <= lo < len w -> len w <= READ_FILE_SIZE -> r <> [] -> 0 <= cp <= len r ->
  zdrop lo w = ztake (len w - lo) r ->
  len w - lo = len r \/ threshold <= len w - lo <= len r ->
  step s r cp s1 ->
  iter w (len w) lo s = Ok (lo + cp, s1) /\ cp <= len w - lo.

Lemma inner_loop_runs n s r s2 :
  runs n s r s2 -> forall (F w : bytes) lo fuel,
  w = ztake READ_FILE_SIZE F -> r = zdrop lo F -> 0 <= lo <= len w -> (n <= fuel)%nat ->
  exists lo' s' n',
    inner_loop iter threshold fuel w (len w) (len w <? READ_FILE_SIZE) lo s = Ok (lo', s') /\
    lo <= lo' <= len w /\ runs n' s' (zdrop lo' F) s2 /\ (n' <= n)%nat /\
    (lo' <> lo -> n' < n)%nat /\
    (if len w <? READ_FILE_SIZE then lo' = len w else len w - lo' < threshold).
Proof.
  induction 1 as [s|n s r cp s1 s2 Hr Hcp Hstep Hruns IH]; intros F w lo fuel Hw HrF Hlo Hfuel;
    destruct (window_of F w lo Hw Hlo) as (HwR & HwF & Hend & Hslice).
  - assert (len (zdrop lo F) = 0) as Hz by (rewrite <- HrF; done).
    rewrite len_zdrop in Hz. assert (lo = len w) as -> by lia.
    exists (len w), s, 0%nat. split.
    { destruct fuel; cbn [inner_loop]; rewrite window_left, Z.sub_diag, Z.ltb_irrefl, andb_false_r by lia;
        (rewrite (proj2 (Z.leb_gt threshold 0)) by lia); done. }
    rewrite <- HrF. repeat split; [lia..|constructor|lia|lia|].
    destruct (Z.ltb_spec (len w) READ_FILE_SIZE); lia.
  - destruct ((threshold <=? w64 (len w - lo)) || ((len w <? READ_FILE_SIZE) && (lo <? len w)))
      eqn:Hc.
    + destruct fuel as [|fuel]; [lia|]. cbn [inner_loop]. rewrite Hc.
      rewrite window_left in Hc by lia.
      assert (len r = Z.max 0 (len F - lo)) as Hlr by (rewrite HrF, len_zdrop; lia).
      destruct (iter_step w lo s r cp s1) as (Hit & Hle); [|done|done|done| | |done|].
      { apply orb_true_iff in Hc. destruct Hc as [Hc|Hc];
          [apply Z.leb_le in Hc; lia|apply andb_true_iff in Hc; lia]. }
      { by rewrite HrF. }
      { apply orb_true_iff in Hc. destruct Hc as [Hc|Hc];
          [apply Z.leb_le in Hc; lia|].
        apply andb_true_iff in Hc. rewrite !Z.ltb_lt in Hc. left.
        rewrite <- Hend in Hlr by lia. lia. }
      rewrite Hit. cbn [mbind result_bind fst snd].
      destruct (IH F w (lo + cp) fuel) as (lo' & s' & n' & Hl & Hlo' & Hr' & Hn' & Hlt & Hex);
        [done| |lia|lia|].
      { rewrite HrF, zdrop_zdrop by lia. done. }
      exists lo', s', n'. split_and!; [exact Hl|lia|lia|exact Hr'|lia|lia|exact Hex].
    + exists lo, s, (Datatypes.S n). split.
      { destruct fuel; cbn [inner_loop]; rewrite Hc; done. }
      apply orb_false_iff in Hc. destruct Hc as [Hc1 Hc2]. rewrite window_left in Hc1 by lia.
      apply Z.leb_gt in Hc1. apply andb_false_iff in Hc2. rewrite !Z.ltb_ge in Hc2.
      repeat split; [lia..| |lia|lia|].
      { rewrite <- HrF. by econstructor. }
      destruct (Z.ltb_spec (len w) READ_FILE_SIZE); lia.
Qed.

Lemma outer_loop_runs fuel : forall n s file total s2,
  0 <= total -> runs n s (zdrop total file) s2 -> (n < fuel)%nat ->
  outer_loop iter threshold fuel file total s = Ok s2.
Proof.
  induction fuel as [|fuel IH]; intros n s file total s2 Htot Hruns Hfuel; [lia|].
  cbn [outer_loop]. unfold sub. set (F := zdrop total file) in *.
  set (w := ztake READ_FILE_SIZE F).
  assert (len w = Z.min READ_FILE_SIZE (len F)) as Hlw.
  { unfold w. rewrite len_ztake. pose proof (len_nonneg F). unfold READ_FILE_SIZE. lia. }
  destruct (Z.eqb_spec (len w) 0) as [Hz|Hz].
  { assert (F = []) as HF by (apply len_0_nil; unfold READ_FILE_SIZE in *; lia).
    rewrite HF in Hruns. inversion Hruns; subst; [done|congruence]. }
  destruct (inner_loop_runs n s F s2 Hruns F w 0 (Datatypes.S fuel))
    as (lo' & s' & n' & Hl & Hlo' & Hr' & Hn' & Hlt & Hex);
    [done|by rewrite zdrop_nonpos by lia|pose proof (len_nonneg w); lia|lia|].
  rewrite Hl. cbn [mbind result_bind fst snd].
  destruct (Z.ltb_spec (len w) READ_FILE_SIZE) as [He|He].
  - rewrite zdrop_all in Hr' by lia.
    inversion Hr'; subst; [done|congruence].
  - apply (IH n'); [lia| |lia].
    unfold F in Hr'. by rewrite zdrop_zdrop in Hr' by lia.
Qed.

Lemma drive_runs n s file s2 fuel :
  runs n s file s2 -> (n < fuel)%nat -> drive iter threshold fuel file s = Ok s2.
Proof.
  intros Hruns Hfuel. apply (outer_loop_runs fuel n); [lia|by rewrite zdrop_nonpos by lia|done].
Qed.
End DriveRefines.

(** A file shorter than the buffer is one window. *)
Definition one_window (fuel : nat) (file : bytes) (c : Chunker) : result Chunker :=
  if len file =? 0 then Ok (set_done true c)
  else
    r ← inner_loop (chunk_iter fuel) (CONTAINER_MAX_SIZE * 16) fuel file (len file) true 0 c;
    Ok (set_done true r.2).

Lemma Chunking_small fuel file c :
  (0 < fuel)%nat -> len file < READ_FILE_SIZE -> Chunking fuel file c = one_window fuel file c.
Proof.
  intros Hf Hl. destruct fuel as [|fuel]; [lia|]. unfold Chunking, drive, one_window. cbn [outer_loop].
  assert (sub 0 READ_FILE_SIZE file = file) as -> by (unfold sub; rewrite zdrop_nonpos, ztake_all by lia; done).
  destruct (len file =? 0); [done|]. rewrite (proj2 (Z.ltb_lt _ _) Hl).
  by destruct (inner_loop _ _ _ _ _ _ _ _).
Qed.

(** An invariant of the loop body is an invariant of the loop. *)
Section DriveInvariant.
Context {S : Type} (iter : bytes -> Z -> Z -> S -> result (Z * S)) (threshold : Z).
Variable P : S -> Prop.
Hypothesis iter_inv : forall w l lo s r, P s -> iter w l lo s = Ok r -> P r.2.

Lemma inner_loop_inv fuel w l e lo s r :
  P s -> inner_loop iter threshold fuel w l e lo s = Ok r -> P r.2.
Proof.
  revert lo s. induction fuel as [|fuel IH]; intros lo s Hs; cbn [inner_loop];
    destruct (_ || _); try by intros [= <-].
  destruct (iter w l lo s) as [q|] eqn:Hq; [|done]. cbn. apply IH. by eapply iter_inv.
Qed.

Lemma drive_inv fuel file s s' : P s -> drive iter threshold fuel file s = Ok s' -> P s'.
Proof.
  unfold drive. generalize 0. revert s. induction fuel as [|fuel IH]; intros s total Hs; [done|].
  cbn [outer_loop]. destruct (_ =? 0); [by intros [= <-]|].
  destruct (inner_loop _ _ _ _ _ _ _ s) as [q|] eqn:Hq; [|done].
  apply inner_loop_inv in Hq; [|done]. cbn. destruct (_ <? _); [by intros [= <-]|by apply IH].
Qed.
End DriveInvariant.

(** ** Fixed-size and FastCDC chunking *)

(** The reference: cut the whole file in memory, with no windows. *)
Definition next_cut (t : ChunkTypeNum) (cfg : CdcCfg) (r : bytes) : result Z :=
  match t with
  | FIXED_SIZE => Ok (Z.min (avgChunkSize cfg) (len r))
  | FASTCDC => CutPointFastCDC cfg r (len r) (len r)
  | _ => Err ExitFailure
  end.

Fixpoint whole_chunks (fuel : nat) (next : bytes -> result Z) (file : bytes) : result (list bytes) :=
  match file with
  | [] => Ok []
  | _ =>
      match fuel with
      | O => Err OutOfFuel
      | S fuel' =>
          cp ← next file;
          cs ← whole_chunks fuel' next (zdrop cp file);
          Ok (ztake cp file :: cs)
      end
  end.

Lemma whole_chunks_step fuel next file :
  file <> [] ->
  whole_chunks (S fuel) next file =
    (cp ← next file; cs ← whole_chunks fuel next (zdrop cp file); Ok (ztake cp file :: cs)).
Proof. by destruct file. Qed.

Definition push_chunks (cs : list bytes) (c : Chunker) : Chunker :=
  fold_left (fun c b => push (mkMsg b false) c) cs c.

Lemma push_chunks_out cs c :
  push_chunks cs c =
  mkChunker (chunkType c) (cdc c) (tar c) (localType c) (HeaderCp c) (headerBuffer c)
    (outputMQ c ++ ((fun b => mkMsg b false) <$> cs)) (done_ c).
Proof.
  revert c. induction cs as [|b cs IH]; intros c; cbn.
  - rewrite app_nil_r. by destruct c.
  - etransitivity; [apply IH|]. cbn. by rewrite <- app_assoc.
Qed.

Lemma read_block_ok src room n :
  0 <= n <= len src -> n <= room -> read_block src room n = Ok (ztake n src).
Proof.
  intros Hn Hr. unfold read_block. rewrite (proj2 (Z.ltb_ge room n)) by lia.
  rewrite len_ztake. replace (Z.to_nat _) with 0%nat by lia. cbn. by rewrite app_nil_r.
Qed.

(** A cutter that makes progress, respects [mx] and decides from a prefix of
    [CONTAINER_MAX_SIZE * 16] bytes as it does from the whole rest. *)
Record good_cutter (t : ChunkTypeNum) (cfg : CdcCfg) (mx : Z) : Prop := {
  good_plain : t <> TAR_MultiHeader;
  good_total : forall r, r <> [] -> exists cp, next_cut t cfg r = Ok cp /\ 1 <= cp <= Z.min mx (len r);
  good_window : forall c r p room cp,
    chunkType c = Some t -> cdc c = cfg -> p = ztake (len p) r ->
    (len p = len r \/ CONTAINER_MAX_SIZE * 16 <= len p <= len r) -> len p <= room ->
    next_cut t cfg r = Ok cp -> cut_point c p room (len p) = Ok (cp, c) /\ cp <= len p
}.

Lemma fixed_good cfg mx :
  avgChunkSize cfg = mx -> 0 < mx <= CONTAINER_MAX_SIZE -> good_cutter FIXED_SIZE cfg mx.
Proof.
  intros Havg Hmx. split; [done|..].
  - intros r Hr. eexists; split; [done|]. rewrite Havg.
    assert (len r <> 0) by (intros ?%len_0_nil; done). pose proof (len_nonneg r). lia.
  - intros c r p room cp Ht Hcfg Hp Hl Hroom [= <-]. unfold cut_point. rewrite Ht, Hcfg, Havg.
    unfold CONTAINER_MAX_SIZE in *. split; [do 2 f_equal; lia|lia].
Qed.

Lemma fastcdc_good size :
  2 <= size -> size * 2 <= CONTAINER_MAX_SIZE -> good_cutter FASTCDC (cdc_sizes size) (size * 2).
Proof.
  intros H2 Hmx. unfold CONTAINER_MAX_SIZE in *.
  assert (2 <= size < 2 ^ 30) as Hs by lia.
  destruct (cdc_sizes_wf size Hs) as (normal & _ & Hwf).
  pose proof (wf_min _ _ _ _ Hwf) as Hmin. pose proof (wf_max _ _ _ _ Hwf) as Hle.
  change (maxChunkSize (cdc_sizes size)) with (size * 2) in *.
  set (mn := minChunkSize (cdc_sizes size)) in *.
  split; [done|..].
  - intros r Hr. destruct (fastcdc_sizes_spec size r (len r) (len r)) as (cp & Hcp & [R _ _]);
      [done|slia|lia|lia|].
    exists cp. split; [done|]. change (maxChunkSize (cdc_sizes size)) with (size * 2) in R. fold mn in R.
    assert (len r <> 0) by (intros ?%len_0_nil; done). slia.
  - intros c r p room cp Ht Hcfg Hp Hl Hroom Hcp. unfold cut_point. rewrite Ht, Hcfg.
    cbn [next_cut] in Hcp.
    destruct (fastcdc_sizes_spec size r (len r) (len r)) as (cp1 & Hcp1 & Hcut1);
      [done|slia|lia|lia|].
    destruct (fastcdc_sizes_spec size p room (len p)) as (cp2 & Hcp2 & Hcut2);
      [done|slia|lia|lia|].
    assert (cp1 = cp) as -> by congruence.
    change (maxChunkSize (cdc_sizes size)) with (size * 2) in *. fold mn in Hcut1, Hcut2.
    unfold CONTAINER_MAX_SIZE in Hl.
    replace (Z.min (len r) mn) with (Z.min (len p) mn) in Hcut1 by lia.
    replace (Z.min (len r) (size * 2)) with (Z.min (len p) (size * 2)) in Hcut1 by lia.
    destruct Hcut1 as [R1 F1 H1]. pose proof (len_nonneg p).
    assert (cp = cp2) as <-.
    { eapply cdc_cut_unique; [|exact Hcut2].
      assert (forall k, Z.min (len p) mn < k <= cp ->
        sub (Z.min (len p) mn) (k - Z.min (len p) mn) p = sub (Z.min (len p) mn) (k - Z.min (len p) mn) r)
        as Hsub.
      { intros k Hk. rewrite <- (sub_ztake _ _ (len p) r) by lia. by rewrite <- Hp. }
      split; [done|..].
      - intros k Hk. rewrite Hsub by lia. by apply F1.
      - intros Hlt. destruct H1 as [? H1]; [lia|]. split; [lia|]. by rewrite Hsub by lia. }
    rewrite Hcp2. split; [done|lia].
Qed.

Section PlainChunking.
Context (t : ChunkTypeNum) (cfg : CdcCfg) (mx : Z).
Hypothesis Hgood : good_cutter t cfg mx.

Definition plain_step (c : Chunker) (r : bytes) (cp : Z) (c1 : Chunker) : Prop :=
  chunkType c = Some t /\ cdc c = cfg /\ next_cut t cfg r = Ok cp /\ 1 <= cp /\
  c1 = push (mkMsg (ztake cp r) false) c.

Lemma plain_iter fuel w lo c r cp c1 :
  0 <= lo < len w -> len w <= READ_FILE_SIZE -> r <> [] -> 0 <= cp <= len r ->
  zdrop lo w = ztake (len w - lo) r ->
  len w - lo = len r \/ CONTAINER_MAX_SIZE * 16 <= len w - lo <= len r ->
  plain_step c r cp c1 ->
  chunk_iter fuel w (len w) lo c = Ok (lo + cp, c1) /\ cp <= len w - lo.
Proof.
  intros Hlo HlR Hr Hcp Hslice Hleft (Ht & Hc & Hnext & Hpos & ->).
  unfold chunk_iter. rewrite Ht, Hslice.
  rewrite bool_decide_false by (intros [= ?]; by apply (good_plain _ _ _ Hgood)).
  rewrite w64_small by (unfold READ_FILE_SIZE in *; lia).
  set (p := ztake (len w - lo) r).
  assert (len p = len w - lo) as Hlp by (unfold p; rewrite len_ztake; lia).
  destruct (good_window _ _ _ Hgood c r p (READ_FILE_SIZE - lo) cp) as [Hcut Hle];
    [done|done|by rewrite Hlp|by rewrite Hlp|lia|done|].
  rewrite Hlp in Hcut. rewrite Hcut. cbn [mbind result_bind fst snd].
  rewrite read_block_ok by lia. cbn [mbind result_bind].
  rewrite (proj2 (Z.eqb_neq cp 0)) by lia.
  unfold p. rewrite ztake_ztake by lia. split; [done|lia].
Qed.

(** Cutting the whole file terminates, covers it, and respects the bounds. *)
Lemma whole_chunks_ok fuel file :
  (length file <= fuel)%nat ->
  exists cs, whole_chunks fuel (next_cut t cfg) file = Ok cs /\ concat cs = file /\
    Forall (fun b => 1 <= len b <= mx) cs /\
    forall c, chunkType c = Some t -> cdc c = cfg ->
      runs plain_step (length cs) c file (push_chunks cs c) /\ (length cs <= length file)%nat.
Proof.
  revert file. induction fuel as [|fuel IH]; intros file Hfuel.
  { destruct file; [|cbn in Hfuel; lia]. exists []. repeat split; [constructor|constructor|done]. }
  destruct (decide (file = [])) as [->|Hne].
  { exists []. repeat split; [constructor|constructor|cbn; lia]. }
  assert (length file <> 0%nat) by (by destruct file).
  rename file into f.
  destruct (good_total _ _ _ Hgood f) as (cp & Hcp & Hrange); [done|].
  assert (length (zdrop cp f) = (length f - Z.to_nat cp)%nat) as Hlen
    by (unfold zdrop; apply length_drop).
  destruct (IH (zdrop cp f)) as (cs & Hcs & Hcat & Hall & Hruns).
  { lia. }
  exists (ztake cp f :: cs). rewrite whole_chunks_step by done.
  rewrite Hcp. cbn [mbind result_bind]. rewrite Hcs. repeat split.
  - cbn. by rewrite Hcat, ztake_zdrop.
  - constructor; [rewrite len_ztake; lia|done].
  - destruct (Hruns (push (mkMsg (ztake cp f) false) c)) as [Hr _]; [done..|].
    cbn [length]. apply (runs_step _ _ _ _ cp _ _ Hne ltac:(lia)) with (2 := Hr).
    by split_and!; [..|lia|].
  - destruct (Hruns c) as [_ Hl]; [done..|]. cbn [length]. lia.
Qed.

Lemma chunking_plain fuel file c :
  (length file < fuel)%nat -> chunkType c = Some t -> cdc c = cfg ->
  exists cs, whole_chunks fuel (next_cut t cfg) file = Ok cs /\ concat cs = file /\
    Forall (fun b => 1 <= len b <= mx) cs /\
    Chunking fuel file c = Ok (set_done true (push_chunks cs c)).
Proof.
  intros Hfuel Ht Hc.
  destruct (whole_chunks_ok fuel file) as (cs & Hcs & Hcat & Hall & Hruns); [lia|].
  exists cs. repeat split; try done. destruct (Hruns c Ht Hc) as [Hr Hl].
  unfold Chunking. rewrite (drive_runs plain_step (chunk_iter fuel) (CONTAINER_MAX_SIZE * 16)
    ltac:(by vm_compute) (plain_iter fuel) (length cs) c file _ fuel Hr) by lia.
  done.
Qed.
End PlainChunking.

Lemma cdc_default_sizes : cdc_init cdc_default = cdc_sizes 8192.
Proof. reflexivity. Qed.

(** The types that cut by size or content alone, as [main] numbers them. *)
Definition plain_type (z : Z) : option (ChunkTypeNum * CdcCfg * Z) :=
  match z with
  | 0 => Some (FIXED_SIZE, cdc_default, 8192)
  | 1 => Some (FASTCDC, cdc_sizes 8192, 16384)
  | _ => None
  end.

Lemma plain_type_good z t cfg mx :
  plain_type z = Some (t, cfg, mx) ->
  good_cutter t cfg mx /\
  new_Chunker z = Ok (mkChunker (Some t) cfg tar_init FILE_HEADER 0 None [] false).
Proof.
  destruct z as [|[]|]; cbn; intros [= <- <- <-]; split; try reflexivity.
  - by apply fixed_good.
  - by apply fastcdc_good.
Qed.

(** C18: the windowed reading loop refines whole-file chunking: for fixed-size
    and FastCDC chunking of a file of any length (longer than the 192 MiB read
    buffer, too) [Chunking] terminates without a fault, and the chunks it
    queues, in order, are those of cutting the whole file in memory. *)
Theorem chunking_refines_whole_file (z : Z) (t : ChunkTypeNum) (cfg : CdcCfg) (mx : Z)
    (file : bytes) (fuel : nat)
    (Hz : plain_type z = Some (t, cfg, mx)) (Hfuel : (length file < fuel)%nat) :
  exists c0 c1 cs,
    new_Chunker z = Ok c0 /\ Chunking fuel file c0 = Ok c1 /\
    whole_chunks fuel (next_cut t cfg) file = Ok cs /\
    outputMQ c1 = ((fun b => mkMsg b false) <$> cs) /\ done_ c1 = true.
Proof.
  destruct (plain_type_good z t cfg mx Hz) as [Hgood Hnew].
  destruct (chunking_plain t cfg mx Hgood fuel file
    (mkChunker (Some t) cfg tar_init FILE_HEADER 0 None [] false)) as (cs & H1 & _ & _ & H2); [done..|].
  do 3 eexists. split; [exact Hnew|]. split; [exact H2|]. split; [exact H1|].
  rewrite push_chunks_out. done.
Qed.

Lemma chunking_refines_whole_file_witness :
  exists c0 c1 cs,
    new_Chunker 1 = Ok c0 /\ Chunking 8 [1; 2; 3; 4; 5] c0 = Ok c1 /\
    whole_chunks 8 (next_cut FASTCDC (cdc_sizes 8192)) [1; 2; 3; 4; 5] = Ok cs /\
    outputMQ c1 = ((fun b => mkMsg b false) <$> cs) /\ done_ c1 = true.
Proof.
  apply (chunking_refines_whole_file 1 FASTCDC (cdc_sizes 8192) 16384); [done|cbn; lia].
Defined.

(** C17: the queued chunks partition the file: concatenated they give it back,
    none is empty, and none exceeds the maximum size of the chunking type
    (8 KiB fixed-size, 16 KiB FastCDC). *)
Theorem chunking_partitions_file (z : Z) (t : ChunkTypeNum) (cfg : CdcCfg) (mx : Z)
    (file : bytes) (fuel : nat)
    (Hz : plain_type z = Some (t, cfg, mx)) (Hfuel : (length file < fuel)%nat) :
  exists c0 c1, new_Chunker z = Ok c0 /\ Chunking fuel file c0 = Ok c1 /\
    concat (msg_data <$> outputMQ c1) = file /\
    Forall (fun m => 1 <= len (msg_data m) <= mx /\ msg_header m = false) (outputMQ c1).
Proof.
  destruct (plain_type_good z t cfg mx Hz) as [Hgood Hnew].
  destruct (chunking_plain t cfg mx Hgood fuel file
    (mkChunker (Some t) cfg tar_init FILE_HEADER 0 None [] false)) as (cs & _ & Hcat & Hall & H2); [done..|].
  do 2 eexists. split; [exact Hnew|]. split; [exact H2|].
  rewrite push_chunks_out. cbn [set_done outputMQ app]. split.
  - rewrite <- list_fmap_compose. cbn. by rewrite list_fmap_id.
  - rewrite Forall_fmap. eapply Forall_impl; [exact Hall|]. done.
Qed.

Lemma chunking_partitions_file_witness :
  exists c0 c1, new_Chunker 0 = Ok c0 /\ Chunking 8 [1; 2; 3; 4; 5] c0 = Ok c1 /\
    concat (msg_data <$> outputMQ c1) = [1; 2; 3; 4; 5] /\
    Forall (fun m => 1 <= len (msg_data m) <= 8192 /\ msg_header m = false) (outputMQ c1).
Proof.
  apply (chunking_partitions_file 0 FIXED_SIZE cdc_default 8192); [done|cbn; lia].
Defined.
