(* ===== verification/Tar.v ===== *)
(** * Chunking and rewriting tar archives

    What [CutPointTarFast] does on the headers and contents of an archive, and
    what the loops built on it ([Chunking] in [TAR] mode, [MTar]) make of a
    well-formed one.  All program definitions are in [Chunker.v] and
    [Chunking.v]; this file holds the archive format and the theorems. *)

From S2P Require Import Prelude Define Chunker Chunking.

(** ** Octal size fields *)

(** The [k]-digit octal numeral of [n], as [tar] writes it. *)
Fixpoint octal_put (k : nat) (n : Z) : bytes :=
  match k with
  | O => []
  | S k' => octal_put k' (n / 8) ++ [48 + n mod 8]
  end.

Lemma octal_fold k n a :
  0 <= a -> (a + 1) * 8 ^ Z.of_nat k <= 2 ^ 64 ->
  fold_left (fun n d => w64 (n * 8 + d - 48)) (octal_put k n) a
  = a * 8 ^ Z.of_nat k + n mod 8 ^ Z.of_nat k.
Proof.
  revert n. induction k as [|k IH]; intros n Ha Hb.
  { cbn. rewrite Z.mod_1_r. lia. }
  cbn [octal_put]. rewrite fold_left_app.
  replace (Z.of_nat (S k)) with (1 + Z.of_nat k) in * by lia.
  rewrite Z.pow_add_r in * by lia. rewrite Z.pow_1_r in *.
  set (p := 8 ^ Z.of_nat k) in *. assert (0 < p) by (apply Z.pow_pos_nonneg; lia).
  rewrite IH by nia. cbn [fold_left]. rewrite Z.rem_mul_r by lia.
  pose proof (Z.mod_pos_bound n 8). pose proof (Z.mod_pos_bound (n / 8) p).
  rewrite w64_small by nia. nia.
Qed.

Lemma octal_put_value n : 0 <= n < 8 ^ 11 -> octal (octal_put 11 n) = n.
Proof.
  intros Hn. unfold octal. rewrite octal_fold by (cbn; lia).
  change (8 ^ Z.of_nat 11) with (8 ^ 11). rewrite Z.mod_small by lia. lia.
Qed.

Lemma round512_spec n :
  0 <= n < 2 ^ 64 - 511 -> n <= round512 n < n + 512 /\ round512 n mod 512 = 0.
Proof.
  intros Hn. unfold round512. rewrite (w64_small (n + 511)) by lia.
  pose proof (Z.div_mod (n + 511) 512). pose proof (Z.mod_pos_bound (n + 511) 512).
  rewrite w64_small by lia. split; [lia|]. by rewrite Z.mod_mul by lia.
Qed.

(** ** Header bytes *)

Lemma peek_ztake src k i : 0 <= i < k -> peek (ztake k src) i = peek src i.
Proof.
  intros. unfold peek, ztake. rewrite !nth_lookup, lookup_take_lt; [done|lia].
Qed.

Lemma tar_header_ext p r s :
  (forall i, 0 <= i < 512 -> peek p i = peek r i) -> tar_header p s = tar_header r s.
Proof.
  intros H. unfold tar_header.
  assert (size_field p = size_field r) as ->.
  { unfold size_field. apply list_fmap_ext. intros i x [-> Hx]%lookup_seq. apply H. lia. }
  by rewrite (H 156) by lia.
Qed.

Lemma tar_header_window p r s :
  p = ztake (len p) r -> 512 <= len p -> tar_header p s = tar_header r s.
Proof.
  intros Hp Hl. apply tar_header_ext. intros i Hi. rewrite Hp. apply peek_ztake. lia.
Qed.

(** ** Archives *)

Record Member := mkMember { m_header : bytes; m_size : Z; m_content : bytes }.

Definition m_flag (m : Member) : Z := peek (m_header m) 156.

(** The header announces content that follows it. *)
Definition carries (m : Member) : bool :=
  (m_flag m =? REGTYPE) || (m_flag m =? XHDTYPE) || (m_flag m =? GNUTYPE_LONGNAME).

Record member_wf (m : Member) : Prop := {
  mw_header : len (m_header m) = 512;
  mw_size : 0 <= m_size m < 8 ^ 11;
  mw_field : carries m = true -> size_field (m_header m) = octal_put 11 (m_size m);
  mw_content : carries m = true -> len (m_content m) = round512 (m_size m);
  mw_none : carries m = false -> m_content m = [];
  mw_ext : m_flag m <> REGTYPE -> m_size m <= CONTAINER_MAX_SIZE
}.

Definition archive (ms : list Member) : bytes :=
  concat ((fun m => m_header m ++ m_content m) <$> ms).

(** What a well-formed header leaves in the state. *)
Lemma tar_header_member m rest s :
  member_wf m -> Next_Chunk_Type s = FILE_HEADER ->
  let s' := tar_header (m_header m ++ rest) s in
  if carries m then
    if m_size m <=? CONTAINER_MAX_SIZE
    then Next_Chunk_Type s' = FILE_CHUNK /\ Next_Chunk_Size s' = m_size m
    else Next_Chunk_Type s' = BIG_CHUNK /\ Big_Chunk_Size s' = round512 (m_size m) /\
         Big_Chunk_Offset s' = 0
  else Next_Chunk_Type s' = FILE_HEADER \/
       Next_Chunk_Type s' = FILE_CHUNK /\ Next_Chunk_Size s' = 0.
Proof.
  intros [Hh Hsz Hf Hc Hn Hx] Ht s'. unfold s'.
  rewrite (tar_header_ext _ (m_header m)).
  2: { intros i Hi. rewrite <- (peek_ztake (m_header m ++ rest) 512 i) by lia.
       rewrite ztake_app_le, ztake_all by lia. done. }
  assert (carries m = true -> octal (size_field (m_header m)) = m_size m) as Ho.
  { intros Hcar. rewrite Hf by done. by apply octal_put_value. }
  unfold tar_header. fold (m_flag m). unfold carries in *.
  unfold REGTYPE, AREGTYPE, XHDTYPE, GNUTYPE_LONGNAME in *.
  destruct (Z.eqb_spec (m_flag m) 48) as [E|E1]; [rewrite !E in *|];
    [|destruct (Z.eqb_spec (m_flag m) 120) as [E|E2]; [rewrite !E in *|];
      [|destruct (Z.eqb_spec (m_flag m) 76) as [E|E3]; [rewrite !E in *|];
        [|destruct (Z.eqb_spec (m_flag m) 0) as [E|E4]; [rewrite !E in *|]]]];
    cbn -[Z.leb CONTAINER_MAX_SIZE octal size_field round512] in Ho |- *; rewrite ?Ho by done.
  - destruct (Z.leb_spec (m_size m) CONTAINER_MAX_SIZE); cbn; rewrite ?Ho by done; done.
  - rewrite (proj2 (Z.leb_le (m_size m) CONTAINER_MAX_SIZE)) by (apply Hx; lia). done.
  - rewrite (proj2 (Z.leb_le (m_size m) CONTAINER_MAX_SIZE)) by (apply Hx; lia). done.
  - by right.
  - by left.
Qed.

(** ** Cuts that do not depend on the window

    The cut of the rest [r] is [cp], and every window on it that holds all of
    [r], or the piece and at least the largest content-defined chunk, gives the
    same. *)

Definition stable_cut (cfg : CdcCfg) (t : TarState) (r : bytes) (cp : Z) (t' : TarState) : Prop :=
  0 <= cp <= len r /\ cp <= CONTAINER_MAX_SIZE /\
  forall p room, p = ztake (len p) r ->
    len p = len r \/ Z.max MAX_CHUNK_SIZE cp <= len p <= len r -> len p <= room ->
    CutPointTarFast cfg t p room (len p) = Ok (cp, t') /\ cp <= len p.

Lemma header_stable cfg t r :
  Next_Chunk_Type t = FILE_HEADER -> 512 <= len r -> stable_cut cfg t r 512 (tar_header r t).
Proof.
  intros Ht Hr. unfold stable_cut, CONTAINER_MAX_SIZE, MAX_CHUNK_SIZE.
  split; [lia|]. split; [lia|]. intros p room Hp Hl Hroom. unfold CutPointTarFast. rewrite Ht.
  rewrite (proj2 (Z.leb_gt room 156)), (proj2 (Z.leb_le 512 (len p))) by lia.
  rewrite (tar_header_window p r) by (done || lia). split; [done|lia].
Qed.

Lemma content_stable cfg t r :
  Next_Chunk_Type t = FILE_CHUNK -> 0 <= Next_Chunk_Size t <= CONTAINER_MAX_SIZE ->
  round512 (Next_Chunk_Size t) <= len r ->
  stable_cut cfg t r (round512 (Next_Chunk_Size t)) (set_size 512 (set_type FILE_HEADER t)).
Proof.
  intros Ht Hn Hr. unfold CONTAINER_MAX_SIZE in *.
  destruct (round512_spec (Next_Chunk_Size t)) as [Hrd Hmod]; [lia|].
  assert (round512 (Next_Chunk_Size t) <= 4194304).
  { pose proof (Z.div_mod (round512 (Next_Chunk_Size t)) 512). lia. }
  unfold stable_cut, CONTAINER_MAX_SIZE, MAX_CHUNK_SIZE.
  split; [lia|]. split; [lia|]. intros p room Hp Hl Hroom. unfold CutPointTarFast. rewrite Ht.
  destruct (Z.ltb_spec (round512 (Next_Chunk_Size t)) (len p)); (split; [|lia]).
  - done.
  - do 2 f_equal. lia.
Qed.

Definition big_left (t : TarState) : Z := Big_Chunk_Size t - Big_Chunk_Offset t.

Record big_wf (t : TarState) (r : bytes) : Prop := {
  bw_type : Next_Chunk_Type t = BIG_CHUNK;
  bw_off : 0 <= Big_Chunk_Offset t;
  bw_size : Big_Chunk_Size t < 2 ^ 64;
  bw_left : 0 < big_left t <= len r
}.

Lemma big_stable_last size t r :
  2 <= size -> size * 2 <= MAX_CHUNK_SIZE ->
  big_wf t r -> big_left t <= size * 2 ->
  stable_cut (cdc_sizes size) t r (big_left t) (set_type FILE_HEADER t).
Proof.
  intros H2 Hs [Ht Ho Hsz Hl] Hle. unfold stable_cut, big_left, CONTAINER_MAX_SIZE, MAX_CHUNK_SIZE in *.
  split; [lia|]. split; [lia|]. intros p room Hp Hlp Hroom. unfold CutPointTarFast. rewrite Ht, w64_small by lia.
  change (maxChunkSize (cdc_sizes size)) with (size * 2).
  rewrite (proj2 (Z.ltb_ge (size * 2) (Big_Chunk_Size t - Big_Chunk_Offset t))) by lia.
  split; [done|lia].
Qed.

Lemma big_stable_more size t r :
  2 <= size -> size * 2 <= MAX_CHUNK_SIZE ->
  big_wf t r -> size * 2 < big_left t ->
  exists cp, 1 <= cp <= size * 2 /\
    stable_cut (cdc_sizes size) t r cp
      (set_big (Big_Chunk_Size t) (Big_Chunk_Offset t + cp) t).
Proof.
  intros H2 Hs [Ht Ho Hsz Hl] Hgt. unfold stable_cut, CONTAINER_MAX_SIZE, MAX_CHUNK_SIZE in *.
  assert (2 <= size < 2 ^ 30) as Hsize by lia.
  destruct (cdc_sizes_wf size Hsize) as (normal & _ & Hwf).
  pose proof (wf_min _ _ _ _ Hwf) as Hmin. pose proof (wf_max _ _ _ _ Hwf) as Hmax.
  change (maxChunkSize (cdc_sizes size)) with (size * 2) in Hmax.
  set (mn := minChunkSize (cdc_sizes size)) in *.
  destruct (fastcdc_sizes_spec size r (len r) (big_left t)) as (cp & Hcp & Hcut); [done|lia..|].
  change (maxChunkSize (cdc_sizes size)) with (size * 2) in Hcut. fold mn in Hcut.
  rewrite (Z.min_r _ mn), (Z.min_r _ (size * 2)) in Hcut by lia.
  pose proof (cut_range _ _ _ _ _ Hcut) as Hrange.
  exists cp. split; [lia|]. split; [lia|]. split; [lia|].
  intros p room Hp Hlp Hroom. unfold CutPointTarFast. rewrite Ht. unfold big_left in *.
  rewrite w64_small by lia. change (maxChunkSize (cdc_sizes size)) with (size * 2).
  rewrite (proj2 (Z.ltb_lt (size * 2) (Big_Chunk_Size t - Big_Chunk_Offset t))) by lia.
  destruct (fastcdc_sizes_spec size p room (Big_Chunk_Size t - Big_Chunk_Offset t))
    as (cp' & Hcp' & Hcut'); [done|lia..|].
  change (maxChunkSize (cdc_sizes size)) with (size * 2) in Hcut'. fold mn in Hcut'.
  rewrite (Z.min_r _ mn), (Z.min_r _ (size * 2)) in Hcut' by lia.
  assert (cp' = cp) as ->.
  { eapply cdc_cut_unique; [exact Hcut'|]. destruct Hcut as [R F H].
    assert (forall k, mn < k <= cp -> sub mn (k - mn) p = sub mn (k - mn) r) as Hsub.
    { intros k Hk. rewrite <- (sub_ztake _ _ (len p) r) by lia. by rewrite <- Hp. }
    split; [done|..].
    - intros k Hk. rewrite Hsub by lia. by apply F.
    - intros Hlt. destruct H as [? H]; [lia|]. split; [lia|]. by rewrite Hsub by lia. }
  rewrite Hcp'. cbn [mbind result_bind]. rewrite w64_small by lia. split; [done|lia].
Qed.

(** ** Walking an archive *)

Lemma archive_cons m ms : archive (m :: ms) = m_header m ++ m_content m ++ archive ms.
Proof. unfold archive. cbn. by rewrite app_assoc. Qed.

Lemma archive_nil_inv ms : Forall member_wf ms -> archive ms = [] -> ms = [].
Proof.
  intros Hwf Hnil. destruct ms as [|m ms]; [done|]. exfalso.
  apply Forall_cons in Hwf as [[Hh _ _ _ _ _] _].
  rewrite archive_cons in Hnil. apply (f_equal len) in Hnil. slia.
Qed.

(** After the header of a member whose content is small, the next cut is the
    content (possibly empty), or the next header follows at once. *)
Lemma small_member_header m rest s :
  member_wf m -> m_size m <= CONTAINER_MAX_SIZE -> Next_Chunk_Type s = FILE_HEADER ->
  let s' := tar_header (m_header m ++ rest) s in
  Next_Chunk_Type s' = FILE_HEADER /\ m_content m = [] \/
  Next_Chunk_Type s' = FILE_CHUNK /\ 0 <= Next_Chunk_Size s' <= CONTAINER_MAX_SIZE /\
    round512 (Next_Chunk_Size s') = len (m_content m).
Proof.
  intros Hwf Hsmall Ht s'. pose proof (tar_header_member m rest s Hwf Ht) as H.
  fold s' in H. cbn beta in H. destruct Hwf as [Hh Hsz Hf Hc Hn Hx].
  destruct (carries m).
  - rewrite (proj2 (Z.leb_le _ _) Hsmall) in H. destruct H as [H1 H2]. right.
    rewrite H2, Hc by done. split; [done|]. split; [lia|done].
  - rewrite Hn by done. destruct H as [H|[H1 H2]]; [by left|right].
    rewrite H2. split; [done|]. split; [by vm_compute|reflexivity].
Qed.

(** ** The cuts of an archive

    [cuts t r ps t' r']: cutting [r] from the state [t] gives the pieces [ps],
    each with the type the state announced for it, and leaves [r'] to be cut
    from the state [t'].  The three drivers of [CutPointTarFast] differ in what
    they do with a piece, not in where they cut. *)

Section Cuts.
Context (cfg : CdcCfg).

Notation piece := (FILE_TYPE_OPTION * bytes)%type.

Inductive cuts : TarState -> bytes -> list piece -> TarState -> bytes -> Prop :=
  | cuts_nil t r : cuts t r [] t r
  | cuts_cons t r cp t1 ps t' r' :
      r <> [] -> stable_cut cfg t r cp t1 -> cuts t1 (zdrop cp r) ps t' r' ->
      cuts t r ((Next_Chunk_Type t, ztake cp r) :: ps) t' r'.

Lemma cuts_app t r ps t1 r1 ps' t' r' :
  cuts t r ps t1 r1 -> cuts t1 r1 ps' t' r' -> cuts t r (ps ++ ps') t' r'.
Proof using Type. induction 1; [done|]. intros. eapply cuts_cons; eauto. Qed.

(** The pieces put together, and how big they are. *)
Lemma cuts_pieces t r ps t' r' : cuts t r ps t' r' ->
  r = concat ps.*2 ++ r' /\ Forall (fun p => len p.2 <= CONTAINER_MAX_SIZE) ps.
Proof using Type.
  induction 1 as [|t r cp t1 ps t' r' _ (Hcp & Hle & _) _ [E HF]]; [done|]. cbn. split.
  - by rewrite <- app_assoc, <- E, ztake_zdrop.
  - constructor; [cbn; rewrite len_ztake; lia|done].
Qed.

Lemma cuts_one ty x t rest t1 :
  x ++ rest <> [] -> Next_Chunk_Type t = ty -> stable_cut cfg t (x ++ rest) (len x) t1 ->
  cuts t (x ++ rest) [(ty, x)] t1 rest.
Proof using Type.
  intros Hne <- Hst. rewrite <- (ztake_app_len x rest) at 2. eapply cuts_cons; [done..|].
  rewrite zdrop_app_len. constructor.
Qed.

(** The pieces of a big member. *)
Definition big_piece (d : piece) : Prop := d.1 = BIG_CHUNK /\ 1 <= len d.2 <= 16384.

Lemma cuts_big k : cfg = cdc_sizes 8192 -> forall t r,
  big_wf t r -> big_left t <= Z.of_nat k ->
  exists ds t', concat ds.*2 = ztake (big_left t) r /\ Forall big_piece ds /\
    Next_Chunk_Type t' = FILE_HEADER /\ cuts t r ds t' (zdrop (big_left t) r).
Proof using Type.
  intros Hc. induction k as [|k IH]; intros t r Hbw Hk; [destruct Hbw; lia|].
  pose proof (bw_left _ _ Hbw) as Hl. pose proof (bw_type _ _ Hbw) as Ht.
  assert (r <> []) as Hr by (intros ->; rewrite (@len_nil Z) in Hl; lia).
  destruct (Z.le_gt_cases (big_left t) (8192 * 2)) as [Hle|Hgt].
  - exists [(BIG_CHUNK, ztake (big_left t) r)], (set_type FILE_HEADER t). split_and!; [by cbn; rewrite app_nil_r| |done|].
    { constructor; [split; [done|]; cbn; rewrite len_ztake; lia|done]. }
    rewrite <- Ht. eapply cuts_cons; [done| |constructor]. rewrite Hc. by apply big_stable_last; [lia|by vm_compute|..].
  - destruct (big_stable_more 8192 t r) as (cp & Hcp & Hst); [lia|by vm_compute|done|done|].
    set (t1 := set_big (Big_Chunk_Size t) (Big_Chunk_Offset t + cp) t) in *.
    assert (big_left t1 = big_left t - cp) as Hl1 by (unfold big_left, t1; cbn; lia).
    assert (big_wf t1 (zdrop cp r)) as Hbw1.
    { destruct Hbw. split; cbn; [done|lia|done|]. rewrite Hl1, len_zdrop. lia. }
    destruct (IH t1 (zdrop cp r) Hbw1 ltac:(lia)) as (ds & t' & Hcat & Hall & Ht' & Hcuts).
    exists ((BIG_CHUNK, ztake cp r) :: ds), t'. split_and!; [| |done|].
    + cbn. rewrite Hcat, Hl1. unfold ztake, zdrop.
      replace (Z.to_nat (big_left t)) with (Z.to_nat cp + Z.to_nat (big_left t - cp))%nat by lia.
      by rewrite take_take_drop.
    + constructor; [split; [done|]; cbn; rewrite len_ztake; lia|done].
    + rewrite <- Ht. eapply cuts_cons; [done|by rewrite Hc|].
      rewrite Hl1, zdrop_zdrop in Hcuts by lia. by replace (cp + (big_left t - cp)) with (big_left t) in Hcuts by lia.
Qed.

(** The pieces of a member: the header, then the content, of which a small
    member may have no piece when it is empty. *)
Definition member_cuts (m : Member) (ps : list piece) : Prop :=
  exists ds, ps = (FILE_HEADER, m_header m) :: ds /\ concat ds.*2 = m_content m /\
    if m_size m <=? CONTAINER_MAX_SIZE then ds = [] \/ ds = [(FILE_CHUNK, m_content m)]
    else Forall big_piece ds.

(** Members of at most 4 MiB are never given to the content-defined cutter. *)
Definition cuttable (m : Member) : Prop :=
  member_wf m /\ (m_size m <= CONTAINER_MAX_SIZE \/ cfg = cdc_sizes 8192).

(** Between two files: a header is expected, or a content of no bytes. *)
Definition resting (t : TarState) : Prop :=
  Next_Chunk_Type t = FILE_HEADER \/ Next_Chunk_Type t = FILE_CHUNK /\ Next_Chunk_Size t = 0.

Lemma cuts_header m rest t :
  member_wf m -> Next_Chunk_Type t = FILE_HEADER ->
  cuts t (m_header m ++ rest) [(FILE_HEADER, m_header m)] (tar_header (m_header m ++ rest) t) rest.
Proof using Type.
  intros Hwf Ht. pose proof (mw_header _ Hwf) as Hh. pose proof (len_nonneg rest).
  apply cuts_one; [|done|].
  - intros E%(f_equal len). rewrite len_app, len_nil in E. lia.
  - rewrite Hh. apply header_stable; [done|]. rewrite len_app. lia.
Qed.

Lemma cuts_member_small m rest t :
  member_wf m -> m_size m <= CONTAINER_MAX_SIZE -> Next_Chunk_Type t = FILE_HEADER ->
  exists ps t', member_cuts m ps /\ cuts t (m_header m ++ m_content m ++ rest) ps t' rest /\
    resting t' /\ (rest = [] \/ Next_Chunk_Type t' = FILE_HEADER).
Proof using Type.
  intros Hwf Hs Ht. pose proof (cuts_header m (m_content m ++ rest) t Hwf Ht) as Hcut.
  destruct (small_member_header m (m_content m ++ rest) t Hwf Hs Ht) as [[Hnext Hnil]|(Hnext & Hsz & Hrd)];
    set (t1 := tar_header _ t) in *.
  - exists [(FILE_HEADER, m_header m)], t1. rewrite Hnil in *. split; [|by split_and!; [|left|right]].
    exists []. rewrite (proj2 (Z.leb_le _ _) Hs), Hnil. by split_and!; [..|left].
  - destruct (decide (m_content m ++ rest = [])) as [E|Hne].
    + exists [(FILE_HEADER, m_header m)], t1. apply app_eq_nil in E as [Hc Hn]. rewrite Hc, Hn in *.
      assert (Next_Chunk_Size t1 = 0).
      { rewrite (@len_nil Z) in Hrd. unfold CONTAINER_MAX_SIZE in Hsz. destruct (round512_spec (Next_Chunk_Size t1)); lia. }
      split; [|by split_and!; [|right|left]]. exists []. rewrite (proj2 (Z.leb_le _ _) Hs), Hc. by split_and!; [..|left].
    + pose proof (content_stable cfg t1 (m_content m ++ rest) Hnext Hsz) as Hst. rewrite Hrd in Hst.
      specialize (Hst ltac:(slia)). exists ([(FILE_HEADER, m_header m)] ++ [(FILE_CHUNK, m_content m)]), (set_size 512 (set_type FILE_HEADER t1)).
      split; [|split; [|by split; [left|right]]].
      * exists [(FILE_CHUNK, m_content m)]. rewrite (proj2 (Z.leb_le _ _) Hs). split_and!; [done|cbn; by rewrite app_nil_r|by right].
      * eapply cuts_app; [exact Hcut|]. by apply cuts_one.
Qed.

Lemma cuts_member m rest t :
  cuttable m -> Next_Chunk_Type t = FILE_HEADER ->
  exists ps t', member_cuts m ps /\ cuts t (m_header m ++ m_content m ++ rest) ps t' rest /\
    resting t' /\ (rest = [] \/ Next_Chunk_Type t' = FILE_HEADER).
Proof using Type.
  intros [Hwf Hcfg] Ht. destruct (Z.leb_spec (m_size m) CONTAINER_MAX_SIZE) as [Hsmall|Hbig];
    [by apply cuts_member_small|]. destruct Hcfg as [?|Hcfg]; [lia|].
  pose proof (cuts_header m (m_content m ++ rest) t Hwf Ht) as Hcut.
  pose proof (tar_header_member m (m_content m ++ rest) t Hwf Ht) as Hth. cbn beta zeta in Hth.
  set (t1 := tar_header _ t) in *. destruct (carries m) eqn:Hcar.
  2: { exfalso. pose proof (mw_ext _ Hwf) as Hx. unfold carries in Hcar.
       destruct (Z.eqb_spec (m_flag m) REGTYPE); [done|]. specialize (Hx ltac:(done)). lia. }
  rewrite (proj2 (Z.leb_gt _ _) Hbig) in Hth. destruct Hth as (Hb1 & Hb2 & Hb3).
  pose proof (mw_size _ Hwf) as Hsz. pose proof (mw_content _ Hwf Hcar) as Hmc.
  destruct (round512_spec (m_size m)) as [Hrd _]; [lia|].
  assert (big_left t1 = len (m_content m)) as Hbl by (unfold big_left; lia).
  destruct (cuts_big (length (m_content m)) Hcfg t1 (m_content m ++ rest)) as (ds & t2 & Hcat & Hds & Ht2 & Hcuts).
  - unfold CONTAINER_MAX_SIZE in Hbig. split; [done|lia|lia|]. rewrite Hbl. slia.
  - rewrite Hbl, len_length. lia.
  - rewrite Hbl, ztake_app_len in Hcat. rewrite Hbl, zdrop_app_len in Hcuts.
    exists ([(FILE_HEADER, m_header m)] ++ ds), t2. split; [|split; [by eapply cuts_app|by split; [left|right]]].
    exists ds. by rewrite (proj2 (Z.leb_gt _ _) Hbig).
Qed.

Lemma cuts_archive ms : Forall cuttable ms -> forall t, Next_Chunk_Type t = FILE_HEADER ->
  exists pss t', Forall2 member_cuts ms pss /\ cuts t (archive ms) (concat pss) t' [] /\ resting t'.
Proof using Type.
  induction 1 as [|m ms Hm Hms IH]; intros t Ht; [exists [], t; split_and!; [constructor|constructor|by left]|].
  destruct (cuts_member m (archive ms) t Hm Ht) as (ps & t1 & Hps & Hcuts & Hrst & Hend). rewrite archive_cons.
  destruct Hend as [Hnil|Ht1].
  - assert (ms = []) as ->.
    { apply archive_nil_inv; [|done]. eapply Forall_impl; [exact Hms|]. by intros x []. }
    exists [ps], t1. split; [by repeat constructor|]. cbn [concat]. by rewrite (app_nil_r ps).
  - destruct (IH t1 Ht1) as (pss & t' & Hpss & Hcuts' & Hrst'). exists (ps :: pss), t'.
    split_and!; [by constructor|by eapply cuts_app|done].
Qed.

(** From the state between two files, a left over content of no bytes is cut
    first. *)
Lemma cuts_rested ms t : Forall cuttable ms -> resting t -> archive ms <> [] ->
  exists pre pss t', (pre = [] \/ pre = [(FILE_CHUNK, [])]) /\ Forall2 member_cuts ms pss /\
    cuts t (archive ms) (pre ++ concat pss) t' [] /\ resting t'.
Proof using Type.
  intros Hms [Ht|[Ht Hsz]] Hne.
  - destruct (cuts_archive ms Hms t Ht) as (pss & t' & H1 & H2 & H3). exists [], pss, t'. by split_and!; [left|..].
  - destruct (cuts_archive ms Hms (set_size 512 (set_type FILE_HEADER t)) eq_refl) as (pss & t' & H1 & H2 & H3).
    exists [(FILE_CHUNK, [])], pss, t'. split_and!; [by right|done| |done].
    eapply cuts_app; [|exact H2]. apply (cuts_one FILE_CHUNK [] t (archive ms)); [done|done|].
    pose proof (content_stable cfg t (archive ms) Ht) as Hst. rewrite Hsz in Hst. change (round512 0) with 0 in Hst.
    apply Hst; [by vm_compute|apply len_nonneg].
Qed.
End Cuts.

Lemma member_cuts_count m ps : member_wf m -> member_cuts m ps ->
  (length ps <= 2 + length (m_content m))%nat /\ (m_size m <= CONTAINER_MAX_SIZE -> (length ps <= 2)%nat).
Proof.
  intros Hwf (ds & -> & Hcat & Hds). cbn [length].
  destruct (Z.leb_spec (m_size m) CONTAINER_MAX_SIZE); [by destruct Hds as [-> | ->]; cbn; lia|].
  split; [|lia]. rewrite <- Hcat. clear Hcat. induction Hds as [|d ds [_ Hd] _ IH]; [cbn; lia|].
  cbn. rewrite length_app. rewrite len_length in Hd. lia.
Qed.

(** How many pieces there are. *)
Lemma cuts_count ms pss : Forall member_wf ms -> Forall2 member_cuts ms pss ->
  (length (concat pss) <= length (archive ms) + 2 * length ms)%nat /\
  (Forall (fun m => m_size m <= CONTAINER_MAX_SIZE) ms -> (length (concat pss) <= 2 * length ms)%nat).
Proof.
  intros Hwf H. induction H as [|m ps ms pss Hm _ IH]; [cbn; lia|].
  apply Forall_cons in Hwf as [Hm' Hwf]. destruct (IH Hwf) as [I1 I2].
  destruct (member_cuts_count m ps Hm' Hm) as [C1 C2]. rewrite archive_cons. cbn [concat length]. rewrite !length_app.
  split; [lia|]. intros [Hs Hall]%Forall_cons. specialize (C2 Hs). specialize (I2 Hall). lia.
Qed.

(** ** [MTar] *)

Definition mtar_step (header : bool) (s : Chunker * bytes) (r : bytes) (cp : Z)
    (s' : Chunker * bytes) : Prop :=
  let '(c, out) := s in
  let next := Next_Chunk_Type (tar c) in
  exists t', stable_cut (cdc c) (tar c) r cp t' /\
    s' = (set_tar t' (set_localType next c),
          if negb (cp =? 0) && Bool.eqb (bool_decide (next = FILE_HEADER)) header
          then out ++ ztake cp r else out).

Lemma mtar_iter_step header w lo s r cp s1 :
  0 <= lo < len w -> len w <= READ_FILE_SIZE -> r <> [] -> 0 <= cp <= len r ->
  zdrop lo w = ztake (len w - lo) r ->
  len w - lo = len r \/ CONTAINER_MAX_SIZE <= len w - lo <= len r ->
  mtar_step header s r cp s1 ->
  mtar_iter header w (len w) lo s = Ok (lo + cp, s1) /\ cp <= len w - lo.
Proof.
  destruct s as [c out]. intros Hlo HlR Hr Hcp Hslice Hleft (t' & (_ & H32 & Hst) & ->).
  unfold mtar_iter. cbv zeta. cbn [tar cdc set_localType].
  rewrite Hslice. rewrite w64_small by (unfold READ_FILE_SIZE in *; lia).
  set (p := ztake (len w - lo) r).
  assert (len p = len w - lo) as Hlp by (unfold p; rewrite len_ztake; lia).
  destruct (Hst p (READ_FILE_SIZE - lo)) as [Hcut Hle]; [by rewrite Hlp|rewrite Hlp; unfold CONTAINER_MAX_SIZE, MAX_CHUNK_SIZE in *; lia|lia|].
  rewrite Hlp in Hcut. rewrite Hcut. cbn [mbind result_bind fst snd].
  unfold CONTAINER_MAX_SIZE in H32. rewrite w32_small by lia. split; [|lia].
  destruct (Z.eqb_spec cp 0) as [->|Hnz]; cbn [negb andb]; [by rewrite Z.add_0_r|].
  cbn [localType set_tar set_localType]. destruct (Bool.eqb _ header); [|done].
  rewrite read_block_ok by lia. cbn [mbind result_bind]. unfold p. by rewrite ztake_ztake by lia.
Qed.

(** The headers of an archive ([header = true]), or the rest. *)
Definition selected (header : bool) (m : Member) : bytes :=
  if header then m_header m else m_content m.

Definition select (header : bool) (ps : list (FILE_TYPE_OPTION * bytes)) : bytes :=
  concat ((fun p => if Bool.eqb (bool_decide (p.1 = FILE_HEADER)) header then p.2 else []) <$> ps).

Lemma select_member header m ps : member_cuts m ps -> select header ps = selected header m.
Proof.
  unfold select, selected. intros (ds & -> & <- & Hds).
  assert (Forall (fun d => d.1 <> FILE_HEADER) ds) as Hne.
  { destruct (_ <=? _); [destruct Hds as [-> | ->]; by repeat constructor|].
    eapply Forall_impl; [exact Hds|]. by intros [ty b] [-> _]. }
  clear Hds. destruct header; cbn [fmap list_fmap concat fst snd]; rewrite bool_decide_eq_true_2 by done; cbn [Bool.eqb app].
  - transitivity (m_header m ++ []); [f_equal|apply app_nil_r]. induction Hne as [|d ds Hd _ IH]; [done|]. cbn. by rewrite bool_decide_false.
  - induction Hne as [|d ds Hd _ IH]; [done|]. cbn. rewrite bool_decide_false by done. cbn. by rewrite IH.
Qed.

Lemma select_archive header ms pss : Forall2 member_cuts ms pss ->
  select header (concat pss) = concat (selected header <$> ms).
Proof.
  induction 1 as [|m ps ms pss Hm _ IH]; [done|]. cbn [concat fmap list_fmap].
  rewrite <- IH, <- (select_member header m ps Hm). unfold select. by rewrite fmap_app, concat_app.
Qed.

Definition small_member (m : Member) : Prop := member_wf m /\ m_size m <= CONTAINER_MAX_SIZE.

Lemma cuts_mtar header cfg t r ps t' r' : cuts cfg t r ps t' r' -> r' = [] ->
  forall c out, cdc c = cfg -> tar c = t ->
  exists c', cdc c' = cfg /\ runs (mtar_step header) (length ps) (c, out) r (c', out ++ select header ps).
Proof.
  induction 1 as [t r|t r cp t1 ps t' r' Hr Hst _ IH]; intros -> c out Hc Ht.
  { exists c. rewrite app_nil_r. split; [done|constructor]. }
  set (out1 := out ++ if Bool.eqb (bool_decide (Next_Chunk_Type t = FILE_HEADER)) header then ztake cp r else []).
  destruct (IH eq_refl (set_tar t1 (set_localType (Next_Chunk_Type t) c)) out1 Hc eq_refl) as (c' & Hc' & Hruns).
  exists c'. split; [done|]. cbn [length]. eapply runs_step; [done|apply Hst| |].
  - exists t1. rewrite Hc, Ht. split; [exact Hst|reflexivity].
  - cbn [select]. replace (out ++ select header ((Next_Chunk_Type t, ztake cp r) :: ps)) with (out1 ++ select header ps)
      by (unfold out1, select; cbn; by rewrite app_assoc).
    replace (if _ && _ then _ else _) with out1; [exact Hruns|]. unfold out1.
    destruct (Z.eqb_spec cp 0) as [->|]; [|by destruct (Bool.eqb _ _); rewrite ?app_nil_r].
    destruct (Bool.eqb _ _); cbn; by rewrite ?app_nil_r.
Qed.

Lemma mtar_runs header ms c out :
  Forall small_member ms -> Next_Chunk_Type (tar c) = FILE_HEADER ->
  exists n c', (n <= 2 * length ms)%nat /\ cdc c' = cdc c /\
    runs (mtar_step header) n (c, out) (archive ms) (c', out ++ concat (selected header <$> ms)).
Proof.
  intros Hall Ht. destruct (cuts_archive (cdc c) ms) with (tar c) as (pss & t' & Hpss & Hcuts & _); [|done|].
  { eapply Forall_impl; [exact Hall|]. intros m [? ?]. split; [done|by left]. }
  destruct (cuts_mtar header _ _ _ _ _ _ Hcuts eq_refl c out eq_refl eq_refl) as (c' & Hc' & Hruns).
  rewrite (select_archive header ms) in Hruns by done. exists (length (concat pss)), c'. split; [|done].
  apply Forall_and in Hall as [Hwf Hs]. by apply (cuts_count ms pss).
Qed.

Lemma mtar_file_small ms c fuel :
  Forall small_member ms -> Next_Chunk_Type (tar c) = FILE_HEADER -> (2 * length ms < fuel)%nat ->
  exists c', mtar_file fuel (archive ms) c =
      Ok (c', concat (m_content <$> ms) ++ concat (m_header <$> ms)) /\
    Next_Chunk_Type (tar c') = FILE_HEADER /\ cdc c' = cdc c.
Proof.
  intros Hall Ht Hfuel. unfold mtar_file.
  destruct (mtar_runs false ms c [] Hall Ht) as (n1 & c1 & Hn1 & Hc1 & Hr1).
  rewrite (drive_runs (mtar_step false) (mtar_iter false) CONTAINER_MAX_SIZE ltac:(by vm_compute)
    (mtar_iter_step false) n1 _ _ _ fuel Hr1) by lia.
  cbn [mbind result_bind fst snd].
  change ([] ++ concat (selected false <$> ms)) with (concat (m_content <$> ms)).
  destruct (mtar_runs true ms (reset_types c1) (concat (m_content <$> ms)) Hall eq_refl)
    as (n2 & c2 & Hn2 & Hc2 & Hr2).
  rewrite (drive_runs (mtar_step true) (mtar_iter true) CONTAINER_MAX_SIZE ltac:(by vm_compute)
    (mtar_iter_step true) n2 (reset_types c1, concat (m_content <$> ms)) _ _ fuel Hr2) by lia.
  cbn [mbind result_bind fst snd].
  eexists. split; [done|]. split; [done|]. cbn. by rewrite Hc2, <- Hc1.
Qed.

(** ** [Chunking] in [TAR] mode *)

Definition tar_step (c : Chunker) (r : bytes) (cp : Z) (c' : Chunker) : Prop :=
  chunkType c = Some TAR /\
  exists t', stable_cut (cdc c) (tar c) r cp t' /\
    c' = if cp =? 0 then set_tar t' c else push (mkMsg (ztake cp r) false) (set_tar t' c).

Lemma tar_iter_step fuel w lo c r cp c1 :
  0 <= lo < len w -> len w <= READ_FILE_SIZE -> r <> [] -> 0 <= cp <= len r ->
  zdrop lo w = ztake (len w - lo) r ->
  len w - lo = len r \/ CONTAINER_MAX_SIZE * 16 <= len w - lo <= len r ->
  tar_step c r cp c1 ->
  chunk_iter fuel w (len w) lo c = Ok (lo + cp, c1) /\ cp <= len w - lo.
Proof.
  intros Hlo HlR Hr Hcp Hslice Hleft (Ht & t' & (_ & H32 & Hst) & ->).
  unfold chunk_iter, cut_point. cbv zeta. rewrite Ht, Hslice.
  rewrite bool_decide_false by done.
  rewrite w64_small by (unfold READ_FILE_SIZE in *; lia).
  set (p := ztake (len w - lo) r).
  assert (len p = len w - lo) as Hlp by (unfold p; rewrite len_ztake; lia).
  destruct (Hst p (READ_FILE_SIZE - lo)) as [Hcut Hle];
    [by rewrite Hlp|rewrite Hlp; unfold CONTAINER_MAX_SIZE, MAX_CHUNK_SIZE in *; lia|lia|].
  rewrite Hlp in Hcut. rewrite Hcut. cbn [mbind result_bind fst snd].
  rewrite read_block_ok by lia. cbn [mbind result_bind fst snd]. split; [|lia].
  destruct (Z.eqb_spec cp 0) as [->|Hnz]; [by rewrite Z.add_0_r|].
  unfold p. by rewrite ztake_ztake by lia.
Qed.

(** The chunks of one member: its header, then pieces of its content. *)
Definition member_pieces (m : Member) (cs : list bytes) : Prop :=
  exists ps, cs = m_header m :: ps /\ concat ps = m_content m /\
    if m_size m <=? CONTAINER_MAX_SIZE then (length ps <= 1)%nat
    else Forall (fun b => 1 <= len b <= 16384) ps.

Definition archive_pieces (ms : list Member) (cs : list bytes) : Prop :=
  exists css, Forall2 member_pieces ms css /\ cs = concat css.

(** Empty pieces are not queued. *)
Definition queued (ps : list (FILE_TYPE_OPTION * bytes)) : list bytes := filter (fun b => b <> []) ps.*2.

Lemma queued_app ps ps' : queued (ps ++ ps') = queued ps ++ queued ps'.
Proof. unfold queued. by rewrite fmap_app, filter_app. Qed.

Lemma queued_big ds : Forall big_piece ds -> queued ds = ds.*2.
Proof.
  unfold queued. induction 1 as [|d ds [_ Hd] _ IH]; [done|]. cbn [fmap list_fmap snd]. rewrite filter_cons_True, IH; [done|].
  intros E. rewrite E, (@len_nil Z) in Hd. lia.
Qed.

Lemma queued_member m ps : member_wf m -> member_cuts m ps -> member_pieces m (queued ps).
Proof.
  intros Hwf (ds & -> & Hcat & Hds). pose proof (mw_header _ Hwf) as Hh.
  exists (queued ds). rewrite <- Hcat. split_and!.
  - unfold queued. cbn [fmap list_fmap snd]. rewrite filter_cons_True; [done|]. intros E. by rewrite E, (@len_nil Z) in Hh.
  - unfold queued. clear. induction ds as [|[ty b] ds IH]; [done|]. cbn [fmap list_fmap snd]. rewrite filter_cons.
    destruct (decide (b <> [])) as [_|Hb]; cbn; [by rewrite IH|]. by apply dec_stable in Hb as ->.
  - destruct (_ <=? _).
    + etransitivity; [apply length_filter|]. destruct Hds as [-> | ->]; cbn; lia.
    + rewrite queued_big by done. apply Forall_fmap. eapply Forall_impl; [exact Hds|]. by intros d [_ ?].
Qed.

Lemma queued_archive ms pss : Forall member_wf ms -> Forall2 member_cuts ms pss ->
  archive_pieces ms (queued (concat pss)).
Proof.
  intros Hwf H. exists (queued <$> pss). split.
  - apply Forall2_fmap_r. induction H; [constructor|]. apply Forall_cons in Hwf as [? ?].
    constructor; [by apply queued_member|auto].
  - clear. induction pss as [|ps pss IH]; [done|]. cbn [concat fmap list_fmap]. by rewrite queued_app, IH.
Qed.

Lemma cuts_tar cfg t r ps t' r' : cuts cfg t r ps t' r' -> r' = [] ->
  forall c, cdc c = cfg -> tar c = t -> chunkType c = Some TAR ->
  exists c', outputMQ c' = outputMQ c ++ ((fun b => mkMsg b false) <$> queued ps) /\
    cdc c' = cfg /\ tar c' = t' /\ chunkType c' = Some TAR /\
    runs tar_step (length ps) c r c'.
Proof.
  induction 1 as [t r|t r cp t1 ps t' r' Hr Hst _ IH]; intros -> c Hc Ht Hty.
  { exists c. split_and!; [by rewrite app_nil_r|done..|constructor]. }
  destruct (IH eq_refl (if cp =? 0 then set_tar t1 c else push (mkMsg (ztake cp r) false) (set_tar t1 c)))
    as (c' & Hout & H1 & H2 & H3 & Hruns); [by destruct (cp =? 0)..|].
  exists c'. split_and!; [|done..|].
  - rewrite Hout. unfold queued. cbn [fmap list_fmap snd]. rewrite filter_cons. pose proof Hst as [[Hcp Hle] _].
    destruct (Z.eqb_spec cp 0) as [->|Hnz]; [by rewrite decide_False by (cbn; tauto)|].
    rewrite decide_True; [cbn; by rewrite <- app_assoc|]. intros E%(f_equal len). rewrite len_ztake, (@len_nil Z) in E. lia.
  - cbn [length]. eapply runs_step; [done|apply Hst| |exact Hruns]. split; [done|]. exists t1. by rewrite Hc, Ht.
Qed.

(** The chunker between two files. *)
Record tar_ready (c : Chunker) : Prop := {
  ty_type : chunkType c = Some TAR;
  ty_cfg : cdc c = cdc_sizes 8192;
  ty_rest : resting (tar c)
}.

Lemma archive_pieces_concat ms cs : archive_pieces ms cs -> concat cs = archive ms.
Proof.
  intros (css & Hall & ->). induction Hall as [|m cs' ms css Hm Hall IH]; [done|].
  destruct Hm as (ps & -> & Hps & _). rewrite archive_cons. cbn.
  by rewrite concat_app, Hps, IH.
Qed.

Lemma queued_small ps : Forall (fun p : FILE_TYPE_OPTION * bytes => len p.2 <= CONTAINER_MAX_SIZE) ps ->
  Forall (fun b => len b <= CONTAINER_MAX_SIZE /\ b <> []) (queued ps).
Proof.
  rewrite !Forall_forall. intros H b [Hne Hb]%list_elem_of_filter. apply list_elem_of_fmap in Hb as (p & -> & Hp). by split; [apply H|].
Qed.

Lemma tar_chunking ms c fuel :
  Forall member_wf ms -> tar_ready c -> (length (archive ms) + 2 * length ms + 1 < fuel)%nat ->
  exists c' cs, Chunking fuel (archive ms) c = Ok c' /\ tar_ready c' /\
    outputMQ c' = outputMQ c ++ ((fun b => mkMsg b false) <$> cs) /\ archive_pieces ms cs /\
    Forall (fun b => len b <= CONTAINER_MAX_SIZE /\ b <> []) cs.
Proof.
  intros Hwf [Hty Hc Hrest] Hf.
  assert (forall n c' cs, runs tar_step n c (archive ms) c' -> (n < fuel)%nat -> cdc c' = cdc_sizes 8192 -> resting (tar c') ->
    chunkType c' = Some TAR -> outputMQ c' = outputMQ c ++ ((fun b => mkMsg b false) <$> cs) -> archive_pieces ms cs ->
    Forall (fun b => len b <= CONTAINER_MAX_SIZE /\ b <> []) cs ->
    exists c' cs, Chunking fuel (archive ms) c = Ok c' /\ tar_ready c' /\
      outputMQ c' = outputMQ c ++ ((fun b => mkMsg b false) <$> cs) /\ archive_pieces ms cs /\
      Forall (fun b => len b <= CONTAINER_MAX_SIZE /\ b <> []) cs) as Hfin.
  { intros n c' cs Hruns Hn H1 H2 H3 H4 H5 H6. exists (set_done true c'), cs. split_and!; [|by split|done..].
    unfold Chunking. by rewrite (drive_runs tar_step (chunk_iter fuel) (CONTAINER_MAX_SIZE * 16)
      ltac:(by vm_compute) (tar_iter_step fuel) n c _ _ fuel Hruns) by lia. }
  destruct (decide (archive ms = [])) as [Hnil|Hne].
  - apply (Hfin 0%nat c []); [rewrite Hnil; constructor|lia|done..|by rewrite app_nil_r| |constructor].
    apply archive_nil_inv in Hnil as ->; [|done]. by exists [].
  - destruct (cuts_rested (cdc c) ms (tar c)) as (pre & pss & t' & Hpre & Hpss & Hcuts & Hrst); [|done|done|].
    { eapply Forall_impl; [exact Hwf|]. intros m ?. split; [done|by right]. }
    destruct (cuts_count ms pss Hwf Hpss) as [Hcount _]. destruct (cuts_pieces _ _ _ _ _ _ Hcuts) as [_ Hsmall].
    destruct (cuts_tar _ _ _ _ _ _ Hcuts eq_refl c eq_refl eq_refl Hty) as (c' & Hout & H1 & H2 & H3 & Hruns).
    assert (queued (pre ++ concat pss) = queued (concat pss)) as Hq by (by destruct Hpre as [-> | ->]).
    assert (length (pre ++ concat pss) <= S (length (concat pss)))%nat by (destruct Hpre as [-> | ->]; cbn; lia).
    apply (Hfin _ c' (queued (concat pss)) Hruns); [lia|congruence|by rewrite H2|done|by rewrite Hout, Hq|by apply queued_archive|].
    rewrite <- Hq. by apply queued_small.
Qed.

(** ** Properties *)

(** A one-file archive used by the witnesses: a regular file of three bytes,
    padded to a block. *)
Definition demo_member : Member := mkMember
  (replicate 124%nat 0 ++ octal_put 11 3 ++ replicate 21%nat 0 ++ [REGTYPE] ++ replicate 355%nat 0)
  3 ([7; 8; 9] ++ replicate 509%nat 0).

Lemma demo_member_wf : member_wf demo_member.
Proof. by split; vm_compute. Qed.

(** Reading the size field of a tar header inverts writing it: for every
    size the 11-digit field can hold, the loop of [CutPointTarFast] returns the
    size that was written. *)
Theorem octal_roundtrip (n : Z) (Hn : 0 <= n < 8 ^ 11) : octal (octal_put 11 n) = n.
Proof. by apply octal_put_value. Qed.

Lemma octal_roundtrip_witness : octal (octal_put 11 4194305) = 4194305.
Proof. apply octal_roundtrip. lia. Defined.

(** C19: chunking a well-formed archive in [TAR] mode, with members of any size:
    it terminates, and the queued chunks are, member by member, the header on
    its own and then the padded content, which is one chunk when the member has
    at most 4 MiB and FastCDC pieces of at most 16 KiB when it is bigger.  The
    chunks concatenate to the archive. *)
Theorem tar_chunking_follows_members (ms : list Member) (fuel : nat)
    (Hms : Forall member_wf ms) (Hfuel : (length (archive ms) + 2 * length ms + 1 < fuel)%nat) :
  exists c0 c1 cs, new_Chunker 3 = Ok c0 /\ Chunking fuel (archive ms) c0 = Ok c1 /\
    outputMQ c1 = ((fun b => mkMsg b false) <$> cs) /\ archive_pieces ms cs /\
    concat cs = archive ms.
Proof.
  set (c0 := mkChunker (Some TAR) (cdc_sizes 8192) tar_init FILE_HEADER 0 None [] false).
  destruct (tar_chunking ms c0 fuel Hms) as (c1 & cs & H1 & _ & H2 & H3 & _); [split; [done|done|by left]|done|].
  exists c0, c1, cs. split_and!; [done|done|done|done|by apply archive_pieces_concat].
Qed.

Lemma tar_chunking_follows_members_witness :
  exists c0 c1 cs, new_Chunker 3 = Ok c0 /\ Chunking 1100 (archive [demo_member]) c0 = Ok c1 /\
    outputMQ c1 = ((fun b => mkMsg b false) <$> cs) /\ archive_pieces [demo_member] cs /\
    concat cs = archive [demo_member].
Proof.
  apply tar_chunking_follows_members; [constructor; [apply demo_member_wf|constructor]|].
  vm_compute. lia.
Defined.

(** C22: [MTar] on a well-formed archive whose members have at most 4 MiB each
    terminates and writes all the contents, in order, and then all the
    headers, in order: nothing is lost, added or reordered within the two
    groups.  The masks of the content-defined cutter play no part. *)
Theorem mtar_moves_headers_last (ms : list Member) (c : Chunker) (fuel : nat)
    (Hms : Forall small_member ms) (Hc : Next_Chunk_Type (tar c) = FILE_HEADER)
    (Hfuel : (2 * length ms < fuel)%nat) :
  exists c', mtar_file fuel (archive ms) c =
      Ok (c', concat (m_content <$> ms) ++ concat (m_header <$> ms)) /\
    Next_Chunk_Type (tar c') = FILE_HEADER.
Proof.
  destruct (mtar_file_small ms c fuel Hms Hc Hfuel) as (c' & H1 & H2 & _). eauto.
Qed.

Lemma mtar_moves_headers_last_witness :
  exists c c', new_Chunker 5 = Ok c /\
    mtar_file 3 (archive [demo_member]) c =
      Ok (c', concat (m_content <$> [demo_member]) ++ concat (m_header <$> [demo_member])) /\
    Next_Chunk_Type (tar c') = FILE_HEADER.
Proof.
  exists (mkChunker (Some MTAR) cdc_default tar_init FILE_HEADER 0 None [] false).
  destruct (mtar_moves_headers_last [demo_member]
    (mkChunker (Some MTAR) cdc_default tar_init FILE_HEADER 0 None [] false) 3) as (c' & H);
    [constructor; [split; [apply demo_member_wf|by vm_compute]|constructor]|reflexivity|cbn; lia|].
  exists c'. split; [reflexivity|exact H].
Defined.

(** ** The masks in [MTAR] mode *)

Lemma mtar_iter_cdc header w l lo s r : mtar_iter header w l lo s = Ok r -> cdc r.2.1 = cdc s.1.
Proof.
  destruct s as [c out]. unfold mtar_iter.
  destruct (CutPointTarFast _ _ _ _ _) as [[cp t']|]; [|done]. cbn.
  destruct (_ =? 0); [by intros [= <-]|]. destruct (Bool.eqb _ _); [|by intros [= <-]].
  destruct (read_block _ _ _); [|done]. by intros [= <-].
Qed.

Lemma mtar_file_cdc fuel file c r : mtar_file fuel file c = Ok r -> cdc r.1 = cdc c.
Proof.
  unfold mtar_file. intros H.
  destruct (drive (mtar_iter false) _ _ _ _) as [q1|] eqn:H1; [|done].
  apply (drive_inv _ _ (fun s => cdc s.1 = cdc c)) in H1;
    [|intros ????? Hs Hi; by rewrite (mtar_iter_cdc _ _ _ _ _ _ Hi)|done].
  cbn in H. destruct (drive (mtar_iter true) _ _ _ _) as [q2|] eqn:H2; [|done].
  apply (drive_inv _ _ (fun s => cdc s.1 = cdc c)) in H2;
    [|intros ????? Hs Hi; by rewrite (mtar_iter_cdc _ _ _ _ _ _ Hi)|done].
  by injection H as <-.
Qed.

Lemma MTar_loop_cdc fuel ps disk c r : MTar_loop fuel ps disk c = Ok r -> cdc r.2 = cdc c.
Proof.
  revert disk c r. induction ps as [|p ps IH]; intros disk c r; cbn [MTar_loop];
    [by intros [= <-]|].
  destruct (mtar_file _ _ c) as [[c1 out]|] eqn:Hf; [|done]. cbn.
  destruct (MTar_loop _ _ _ c1) as [[[ps' d'] c2]|] eqn:Hl; [|done].
  intros [= <-]. apply IH in Hl. apply mtar_file_cdc in Hf. cbn in *. congruence.
Qed.

(** C36: [main] runs [MTar] and then [Chunking] on the same [Chunker] when the
    chunking type is [MTAR].  [MTar] switches the type to FastCDC, but no
    constructor path of [MTAR] ever computed [normalSize], [maskS] and
    [maskL], so chunking any non-empty file afterwards reads uninitialised
    members. *)
Theorem mtar_then_chunking_uninit (paths : list string) (n fuel fuel' : nat)
    (disk disk' : gmap string bytes) (ps : list string) (c0 c1 : Chunker) (file : bytes)
    (Hnew : new_Chunker 5 = Ok c0) (Hmtar : MTar fuel paths n disk c0 = Ok (ps, disk', c1))
    (Hfile : file <> []) (Hfuel : (0 < fuel')%nat) :
  Chunking fuel' file c1 = Err Uninit.
Proof.
  assert (chunkType c1 = Some FASTCDC /\ normalSize (cdc c1) = None) as [Hty Hns].
  { injection Hnew as <-. unfold MTar in Hmtar.
    destruct (_ <? _)%nat; [done|]. cbn in Hmtar.
    destruct (MTar_loop _ _ _ _) as [[[ps' d'] c2]|] eqn:Hl; [|done].
    apply MTar_loop_cdc in Hl. injection Hmtar as _ _ <-. split; [done|]. cbn in *. by rewrite Hl. }
  destruct fuel' as [|fuel']; [lia|].
  assert (len file <> 0) as Hne by (intros ?%len_0_nil; done). pose proof (len_nonneg file).
  unfold Chunking, drive. cbn [outer_loop].
  set (w := sub 0 READ_FILE_SIZE file).
  assert (len w = Z.min READ_FILE_SIZE (len file)) as Hw.
  { unfold w, sub. rewrite zdrop_nonpos, len_ztake by lia. unfold READ_FILE_SIZE. lia. }
  unfold READ_FILE_SIZE in Hw. rewrite (proj2 (Z.eqb_neq (len w) 0)) by lia.
  cbn [inner_loop]. rewrite Z.sub_0_r, w64_small by lia.
  replace ((_ <=? len w) || _) with true.
  2: { symmetry. apply orb_true_iff. rewrite andb_true_iff, Z.leb_le, !Z.ltb_lt.
       unfold CONTAINER_MAX_SIZE, READ_FILE_SIZE. lia. }
  unfold chunk_iter, cut_point. rewrite Hty, bool_decide_false by done.
  unfold CutPointFastCDC. by rewrite Hns.
Qed.

Lemma mtar_then_chunking_uninit_witness :
  exists c0 c1 ps disk', new_Chunker 5 = Ok c0 /\ MTar 1 [] 0 ∅ c0 = Ok (ps, disk', c1) /\
    Chunking 10 [1; 2; 3] c1 = Err Uninit.
Proof.
  do 4 eexists. split; [reflexivity|]. split; [reflexivity|].
  eapply (mtar_then_chunking_uninit [] 0 1 10); [reflexivity|reflexivity|done|lia].
Defined.
