(* ===== verification/Truncated.v ===== *)
(** * Archives that end too early

    [Chunker::Chunking] in [TAR] mode on an archive that ends inside a big
    member.  The [BIG_CHUNK] case of [CutPointTarFast] looks at what is left of
    the member and not at what is left of the window, so that the offset passes
    the end of the data; [len - localOffset] then wraps around, and the loop
    does not stop before it has left the buffer. *)

From S2P Require Import Prelude Define Chunker Chunking Tar.

(** ** Scanning past the data *)

(** Without a bound on the data a scan may only leave the buffer. *)
Lemma gear_loop_any fuel m n room src fp i : (Z.to_nat (n - i) <= fuel)%nat ->
  gear_loop fuel (Some m) n room src fp i = Err OobRead \/
  exists r, gear_loop fuel (Some m) n room src fp i = Ok r /\
    match r with Cut cp => i < cp <= Z.min n room | Scanned _ j _ => j = Z.max i n /\ j <= Z.max i room end.
Proof.
  revert src fp i. induction fuel as [|fuel IH]; intros src fp i Hf; cbn [gear_loop];
    destruct (Z.leb_spec n i); try (right; eexists; split; [done|]; cbn; lia); [lia|].
  destruct (Z.leb_spec room i); [by left|]. cbn [from_option_or mbind result_bind].
  destruct (_ =? 0); [right; eexists; split; [done|]; cbn; lia|].
  destruct (IH (tail src) (gear_step fp (hd 0 src)) (i + 1)) as [->|(r & -> & Hr)]; [lia|by left|].
  right. exists r. split; [done|]. destruct r; lia.
Qed.

(** Within the buffer it does not. *)
Lemma gear_loop_room fuel m n room src fp i : n <= room -> gear_loop fuel (Some m) n room src fp i <> Err OobRead.
Proof.
  intros Hr. revert src fp i. induction fuel as [|fuel IH]; intros src fp i; cbn [gear_loop];
    destruct (Z.leb_spec n i); try done. rewrite (proj2 (Z.leb_gt room i)) by lia. cbn [from_option_or mbind result_bind].
  destruct (_ =? 0); [done|]. apply IH.
Qed.

(** With the sizes of the program only the second scan does anything. *)
Lemma fastcdc_second_scan src room l : 0 < l ->
  CutPointFastCDC (cdc_sizes 8192) src room l =
    (r ← gear_scan (Some 4095) (Z.min MAX_CHUNK_SIZE l) room (zdrop (Z.min l 4096) src) 0 (Z.min l 4096);
     match r with Cut cp => Ok cp | Scanned _ i _ => Ok i end).
Proof.
  intros Hl. unfold CutPointFastCDC.
  change (normalSize (cdc_sizes 8192)) with (Some 2048). change (maskS (cdc_sizes 8192)) with (Some 16383).
  change (maskL (cdc_sizes 8192)) with (Some 4095). change (minChunkSize (cdc_sizes 8192)) with 4096.
  change (maxChunkSize (cdc_sizes 8192)) with MAX_CHUNK_SIZE. cbn [from_option_or mbind result_bind].
  assert (forall s, gear_scan (Some 16383) (Z.min 2048 l) room s 0 (Z.min l 4096) = Ok (Scanned 0 (Z.min l 4096) s)) as ->; [|done].
  intros s. unfold gear_scan. replace (Z.to_nat _) with 0%nat by lia. cbn [gear_loop]. by rewrite (proj2 (Z.leb_le _ _)) by lia.
Qed.

Lemma fastcdc_any src room l : 0 < l ->
  CutPointFastCDC (cdc_sizes 8192) src room l = Err OobRead \/
  exists cp, CutPointFastCDC (cdc_sizes 8192) src room l = Ok cp /\ Z.min l 4096 <= cp <= Z.min l MAX_CHUNK_SIZE.
Proof.
  intros Hl. rewrite fastcdc_second_scan by done. unfold gear_scan, MAX_CHUNK_SIZE.
  edestruct gear_loop_any as [->|(r & -> & Hr)]; [apply le_n|by left|]. right. cbn [mbind result_bind].
  destruct r; eexists; (split; [reflexivity|]); lia.
Qed.

Lemma fastcdc_room src room l : 0 < l -> MAX_CHUNK_SIZE <= room -> CutPointFastCDC (cdc_sizes 8192) src room l <> Err OobRead.
Proof.
  intros Hl Hr. rewrite fastcdc_second_scan by done. unfold gear_scan.
  destruct (gear_loop _ _ _ _ _ _ _) as [[]|e] eqn:E; try done. intros [= ->]. by apply gear_loop_room in E; [|lia].
Qed.

(** ** Past the end of the data *)

(** The states the cutter can be in behind the data, where it reads zeros. *)
Definition stray (t : TarState) : Prop :=
  match Next_Chunk_Type t with
  | FILE_HEADER => True
  | FILE_CHUNK => Next_Chunk_Size t = 0
  | BIG_CHUNK => 0 < (Big_Chunk_Size t - Big_Chunk_Offset t)%u64
  end.

(** Each turn advances, but for the empty content between two headers. *)
Definition turns (t : TarState) (lo : Z) : Z :=
  2 * (READ_FILE_SIZE - lo) + if bool_decide (Next_Chunk_Type t = FILE_CHUNK) then 1 else 0.

Lemma stray_cut t room l : stray t -> MAX_CHUNK_SIZE < l < 2 ^ 64 ->
  CutPointTarFast (cdc_sizes 8192) t [] room l = Err OobRead \/
  exists cp t1, CutPointTarFast (cdc_sizes 8192) t [] room l = Ok (cp, t1) /\ stray t1 /\ 0 <= cp <= MAX_CHUNK_SIZE /\
    (cp = 0 -> Next_Chunk_Type t = FILE_CHUNK /\ Next_Chunk_Type t1 = FILE_HEADER).
Proof.
  unfold stray, MAX_CHUNK_SIZE. intros Hs Hl. unfold CutPointTarFast. destruct (Next_Chunk_Type t) eqn:Ht.
  - right. rewrite Hs. change (round512 0) with 0. rewrite (proj2 (Z.ltb_lt 0 l)) by lia. eexists _, _. split; [done|].
    cbn. split; [done|]. split; [lia|done].
  - destruct (room <=? 156); [by left|]. right. rewrite (proj2 (Z.leb_le 512 l)) by lia. eexists _, _. split; [done|].
    split; [done|]. split; [lia|done].
  - change (maxChunkSize (cdc_sizes 8192)) with 16384. set (left := (_ - _)%u64) in *.
    pose proof (w64_bound (Big_Chunk_Size t - Big_Chunk_Offset t)) as Hb. fold left in Hb.
    destruct (Z.ltb_spec 16384 left) as [Hlt|Hle].
    + destruct (fastcdc_any [] room left Hs) as [->|(cp & -> & Hcp)]; [by left|]. unfold MAX_CHUNK_SIZE in Hcp. right. cbn [mbind result_bind].
      eexists _, _. split; [done|]. cbn. rewrite Ht. rewrite w64_sub_r.
      replace (w64 (Big_Chunk_Size t - (Big_Chunk_Offset t + cp))) with (left - cp); [split; [lia|]; split; [lia|lia]|].
      symmetry. replace (Big_Chunk_Size t - (Big_Chunk_Offset t + cp)) with (Big_Chunk_Size t - Big_Chunk_Offset t - cp) by lia.
      rewrite <- w64_sub_l. fold left. apply w64_small. lia.
    + right. eexists _, _. split; [done|]. cbn. split; [done|]. split; [lia|lia].
Qed.

Lemma past_the_end fuel w : forall n c lo,
  len w < lo <= READ_FILE_SIZE -> chunkType c = Some TAR -> cdc c = cdc_sizes 8192 -> stray (tar c) ->
  (Z.to_nat (turns (tar c) lo) < n)%nat ->
  inner_loop (chunk_iter fuel) (CONTAINER_MAX_SIZE * 16) n w (len w) true lo c = Err OobRead.
Proof.
  induction n as [|n IH]; intros c lo Hlo Ht Hc Hs Hn; [lia|]. pose proof (len_nonneg w).
  assert (w64 (len w - lo) = len w - lo + 2 ^ 64) as Hw.
  { rewrite <- (w64_small (len w - lo + 2 ^ 64)) by (unfold READ_FILE_SIZE in *; lia). unfold w64. by rewrite <- (Z.mod_add (len w - lo) 1) by lia. }
  cbn [inner_loop]. rewrite Hw, (proj2 (Z.leb_le _ _)) by (unfold READ_FILE_SIZE, CONTAINER_MAX_SIZE in *; lia). cbn [orb].
  assert (chunk_iter fuel w (len w) lo c = Err OobRead \/ exists cp t1 c1, chunk_iter fuel w (len w) lo c = Ok (lo + cp, c1) /\
    chunkType c1 = Some TAR /\ cdc c1 = cdc_sizes 8192 /\ tar c1 = t1 /\ stray t1 /\ 0 <= cp /\ lo + cp <= READ_FILE_SIZE /\
    (cp = 0 -> Next_Chunk_Type (tar c) = FILE_CHUNK /\ Next_Chunk_Type t1 = FILE_HEADER)) as [->|(cp & t1 & c1 & -> & H1 & H2 & H3 & H4 & H5 & H6 & H7)].
  - unfold chunk_iter, cut_point. rewrite Ht, bool_decide_eq_false_2, (zdrop_all lo w), Hw, Hc by (done || lia).
    destruct (stray_cut (tar c) (READ_FILE_SIZE - lo) (len w - lo + 2 ^ 64) Hs) as [->|(cp & t1 & -> & H1 & H2 & H3)];
      [unfold MAX_CHUNK_SIZE, READ_FILE_SIZE in *; lia|by left|]. cbn [mbind result_bind fst snd].
    unfold read_block. destruct (Z.ltb_spec (READ_FILE_SIZE - lo) cp); [by left|]. right. cbn [mbind result_bind].
    exists cp, t1. destruct (Z.eqb_spec cp 0) as [->|]; eexists; (split; [rewrite ?Z.add_0_r; reflexivity|]); cbn; split_and!; try done; lia.
  - done.
  - cbn [mbind result_bind fst snd]. apply IH; [lia|done|done|by rewrite H3|]. rewrite H3. unfold turns in *.
    destruct (Z.eq_dec cp 0) as [->|Hz].
    + destruct (H7 eq_refl) as [E1 E2]. rewrite E1, bool_decide_eq_true_2 in Hn by done. rewrite E2, bool_decide_eq_false_2 by done. lia.
    + repeat case_bool_decide; lia.
Qed.

(** A turn of the loop whose cut fits the buffer. *)
Lemma tar_turn fuel w lo c cp t1 :
  chunkType c = Some TAR ->
  CutPointTarFast (cdc c) (tar c) (zdrop lo w) (READ_FILE_SIZE - lo) (w64 (len w - lo)) = Ok (cp, t1) ->
  0 < cp -> lo + cp <= READ_FILE_SIZE ->
  exists m, chunk_iter fuel w (len w) lo c = Ok (lo + cp, push m (set_tar t1 c)).
Proof.
  intros Ht Hcut Hcp Hlo. unfold chunk_iter, cut_point. rewrite Ht, bool_decide_eq_false_2, Hcut by done.
  cbn [mbind result_bind fst snd]. unfold read_block. rewrite (proj2 (Z.ltb_ge _ _)) by lia. cbn [mbind result_bind].
  rewrite (proj2 (Z.eqb_neq cp 0)) by lia. by eexists.
Qed.

(** The first cut of a big member looks at no more than the member. *)
Lemma big_cut t src room l left :
  Next_Chunk_Type t = BIG_CHUNK -> (Big_Chunk_Size t - Big_Chunk_Offset t)%u64 = left -> 4 * MAX_CHUNK_SIZE < left < 2 ^ 64 ->
  MAX_CHUNK_SIZE <= room ->
  exists cp t1, CutPointTarFast (cdc_sizes 8192) t src room l = Ok (cp, t1) /\ 4096 <= cp <= MAX_CHUNK_SIZE /\ stray t1.
Proof.
  unfold MAX_CHUNK_SIZE. intros Ht Hleft Hl Hroom. unfold CutPointTarFast. rewrite Ht, Hleft.
  change (maxChunkSize (cdc_sizes 8192)) with 16384. rewrite (proj2 (Z.ltb_lt _ _)) by lia.
  destruct (fastcdc_any src room left) as [E|(cp & -> & Hcp)]; [lia|by apply fastcdc_room in E; [|lia|]|].
  unfold MAX_CHUNK_SIZE in Hcp. cbn [mbind result_bind]. eexists _, _. split; [done|]. split; [lia|].
  unfold stray. cbn. rewrite Ht, w64_sub_r.
  replace (Big_Chunk_Size t - (Big_Chunk_Offset t + cp)) with (Big_Chunk_Size t - Big_Chunk_Offset t - cp) by lia.
  rewrite <- w64_sub_l, Hleft, w64_small by lia. lia.
Qed.

(** ** Properties *)

(** C37: a file that consists of one tar header, which announces a regular member
    of more than 4 MiB, and of at least one but less than 4 KiB of the member's
    bytes, cannot be chunked: instead of stopping at the end of the data the loop
    of [Chunking] goes on over the rest of its buffer until it reads outside of
    it. *)
Theorem truncated_archive_overruns (h data : bytes) (size : Z) (fuel : nat)
    (Hh : len h = 512) (Hflag : peek h 156 = REGTYPE) (Hfield : size_field h = octal_put 11 size)
    (Hsize : CONTAINER_MAX_SIZE < size < 8 ^ 11) (Hdata : 0 < len data < 4096)
    (Hfuel : (Z.to_nat (2 * READ_FILE_SIZE) + 2 < fuel)%nat) :
  exists c0, new_Chunker 3 = Ok c0 /\ Chunking fuel (h ++ data) c0 = Err OobRead.
Proof.
  set (c0 := mkChunker (Some TAR) (cdc_sizes 8192) tar_init FILE_HEADER 0 None [] false). exists c0. split; [done|].
  assert (len (h ++ data) = 512 + len data) as Hl by slia.
  rewrite Chunking_small by (unfold READ_FILE_SIZE in *; lia). unfold one_window. rewrite (proj2 (Z.eqb_neq _ 0)) by lia.
  assert (exists t1, tar_header (h ++ data) tar_init = t1 /\ Next_Chunk_Type t1 = BIG_CHUNK /\
    Big_Chunk_Size t1 = round512 size /\ Big_Chunk_Offset t1 = 0) as (t1 & Et1 & B1 & B2 & B3).
  { rewrite (tar_header_ext _ h).
    2: { intros i Hi. rewrite <- (peek_ztake (h ++ data) 512 i), ztake_app_le, ztake_all by lia. done. }
    eexists. split; [reflexivity|]. unfold tar_header. rewrite Hflag, Hfield. cbn -[Z.leb octal octal_put round512 CONTAINER_MAX_SIZE].
    unfold CONTAINER_MAX_SIZE in *. rewrite octal_put_value by lia. by rewrite (proj2 (Z.leb_gt _ _)) by lia. }
  assert (exists n, fuel = S (S n)) as (n & En) by (exists (pred (pred fuel)); lia). rewrite En at 2. cbn [inner_loop].
  rewrite (proj2 (Z.ltb_lt 0 _)), orb_true_r by lia.
  destruct (tar_turn fuel (h ++ data) 0 c0 512 t1) as (m1 & ->); [done| |lia|by vm_compute|].
  { change (CutPointTarFast (cdc_sizes 8192) tar_init (h ++ data) READ_FILE_SIZE (w64 (len (h ++ data) - 0)) = Ok (512, t1)).
    rewrite Z.sub_0_r, w64_small by lia. unfold CutPointTarFast. cbn [Next_Chunk_Type tar_init]. rewrite Et1.
    rewrite (proj2 (Z.leb_gt READ_FILE_SIZE 156)) by by vm_compute. by rewrite (proj2 (Z.leb_le 512 _)) by lia. }
  cbn [mbind result_bind fst snd]. rewrite (proj2 (Z.ltb_lt (0 + 512) _)), orb_true_r by lia.
  set (c1 := push m1 (set_tar t1 c0)).
  unfold CONTAINER_MAX_SIZE in Hsize. destruct (round512_spec size) as [Hr _]; [lia|].
  destruct (big_cut t1 (zdrop (0 + 512) (h ++ data)) (READ_FILE_SIZE - (0 + 512)) (w64 (len (h ++ data) - (0 + 512))) (round512 size))
    as (cp & t2 & Hcut & Hcp & Hstray); [done|rewrite B2, B3, Z.sub_0_r, w64_small; lia|unfold MAX_CHUNK_SIZE; lia|by vm_compute|].
  destruct (tar_turn fuel (h ++ data) (0 + 512) c1 cp t2) as (m2 & ->); [done|exact Hcut|lia|unfold MAX_CHUNK_SIZE, READ_FILE_SIZE in *; lia|].
  cbn [mbind result_bind fst snd]. rewrite past_the_end; [done| |done|done|done|].
  - unfold MAX_CHUNK_SIZE, READ_FILE_SIZE in *. lia.
  - unfold turns. case_bool_decide; lia.
Qed.

(** A header that announces 4 MiB and one byte, and 16 bytes of them. *)
Definition big_header : bytes := replicate 124 0 ++ octal_put 11 4194305 ++ replicate 21 0 ++ [48] ++ replicate 355 0.

Lemma truncated_archive_overruns_witness :
  exists c0, new_Chunker 3 = Ok c0 /\
    Chunking (Z.to_nat (3 * READ_FILE_SIZE)) (big_header ++ replicate 16 7) c0 = Err OobRead.
Proof.
  apply (truncated_archive_overruns big_header (replicate 16 7) 4194305).
  - reflexivity.
  - reflexivity.
  - by vm_compute.
  - by vm_compute.
  - by vm_compute.
  - unfold READ_FILE_SIZE. lia.
Defined.
