(* ===== verification/MultiHeader.v ===== *)
(** * Chunking an archive with its headers apart

    [Chunker::Chunking] in [TAR_MultiHeader] mode on a well-formed archive:
    [CutPointTarHeader] gathers up to 16 headers into one header message and
    queues the contents as data messages of their own.  The definitions of the
    program are in [Chunking.v]; here are the messages they queue. *)

From S2P Require Import Prelude Define Chunker Chunking Tar.

(** ** Messages *)

Definition data_msgs (ms : list Msg) : list bytes := msg_data <$> filter (fun m => msg_header m = false) ms.
Definition header_msgs (ms : list Msg) : list bytes := msg_data <$> filter (fun m => msg_header m = true) ms.

Lemma data_msgs_app a b : data_msgs (a ++ b) = data_msgs a ++ data_msgs b.
Proof. unfold data_msgs. by rewrite filter_app, fmap_app. Qed.

Lemma header_msgs_app a b : header_msgs (a ++ b) = header_msgs a ++ header_msgs b.
Proof. unfold header_msgs. by rewrite filter_app, fmap_app. Qed.

Lemma plain_msgs bs : data_msgs ((fun b => mkMsg b false) <$> bs) = bs /\ header_msgs ((fun b => mkMsg b false) <$> bs) = [].
Proof.
  unfold data_msgs, header_msgs. induction bs as [|b bs [I1 I2]]; [done|]. cbn [fmap list_fmap].
  rewrite filter_cons_True, filter_cons_False by done. cbn [fmap list_fmap msg_data]. by rewrite I1, I2.
Qed.

(** A header chunk: some headers, as many as fit. *)
Definition header_chunk (t : bytes) : Prop := 0 < len t <= 16 * 512 /\ len t mod 512 = 0.

(** The chunks of the data of [m]. *)
Definition data_of (m : Member) (ps : list bytes) : Prop :=
  if carries m && (0 <? m_size m) then
    if m_size m <=? CONTAINER_MAX_SIZE then ps = [m_content m]
    else concat ps = m_content m /\ Forall (fun p => p <> []) ps
  else ps = [].

(** ** Pieces *)

Notation piece := (FILE_TYPE_OPTION * bytes)%type.

(** The messages of the pieces that are not headers. *)
Definition data_pieces (ps : list piece) : list bytes := queued (filter (fun p => p.1 <> FILE_HEADER) ps).

Lemma data_pieces_app a b : data_pieces (a ++ b) = data_pieces a ++ data_pieces b.
Proof. unfold data_pieces. by rewrite filter_app, queued_app. Qed.

Lemma data_pieces_header b ps : data_pieces ((FILE_HEADER, b) :: ps) = data_pieces ps.
Proof. unfold data_pieces. rewrite filter_cons_False; [done|]. cbn. tauto. Qed.

Lemma data_pieces_data ty b ps : ty <> FILE_HEADER ->
  data_pieces ((ty, b) :: ps) = (if len b =? 0 then [] else [b]) ++ data_pieces ps.
Proof.
  intros Hty. unfold data_pieces. rewrite filter_cons_True by done. unfold queued. cbn [fmap list_fmap snd].
  destruct (Z.eqb_spec (len b) 0) as [->%len_0_nil|Hne].
  - rewrite filter_cons_False; [done|]. cbn. tauto.
  - rewrite filter_cons_True; [done|]. intros ->. by rewrite (@len_nil Z) in Hne.
Qed.

Lemma select_app h a b : select h (a ++ b) = select h a ++ select h b.
Proof. unfold select. by rewrite fmap_app, concat_app. Qed.

Lemma select_header b : select true [(FILE_HEADER, b)] = b.
Proof. apply app_nil_r. Qed.

(** How a piece may follow one of type [prev]: a header has its block, a small
    content follows its header and fits with it in a container less a block. *)
Definition piece_ok (prev : FILE_TYPE_OPTION) (p : piece) : Prop :=
  match p.1 with
  | FILE_HEADER => len p.2 = 512
  | FILE_CHUNK => prev = FILE_HEADER /\ len p.2 <= CONTAINER_MAX_SIZE - 1024
  | BIG_CHUNK => 1 <= len p.2 <= MAX_CHUNK_SIZE
  end.

Fixpoint shaped (prev : FILE_TYPE_OPTION) (ps : list piece) : Prop :=
  match ps with
  | [] => True
  | p :: ps' => piece_ok prev p /\ shaped p.1 ps'
  end.

Lemma shaped_big prev ds rest : Forall big_piece ds -> (forall q, shaped q rest) -> shaped prev (ds ++ rest).
Proof. intros Hds Hr. revert prev. induction Hds as [|[ty b] ds Hb _ IH]; intros prev; [apply Hr|]. destruct Hb as [E Hb]. cbn in E. subst ty. by split. Qed.

(** The members the loop handles inside its window: with 16 contents of more
    than 4 MiB less two blocks it would run past the bytes it may count on. *)
Definition windowed (m : Member) : Prop :=
  member_wf m /\ (m_size m <= CONTAINER_MAX_SIZE - 1024 \/ CONTAINER_MAX_SIZE < m_size m).

Lemma shaped_archive ms pss : Forall windowed ms -> Forall2 member_cuts ms pss -> forall prev, shaped prev (concat pss).
Proof.
  intros Hw H. induction H as [|m ps ms pss (ds & -> & Hcat & Hds) _ IH]; [done|]. intros prev.
  apply Forall_cons in Hw as [[Hwf Hsz] Hw]. specialize (IH Hw). cbn [concat app].
  split; [apply (mw_header _ Hwf)|]. destruct (Z.leb_spec (m_size m) CONTAINER_MAX_SIZE); [|by apply shaped_big].
  destruct Hds as [-> | ->]; [done|]. split; [|done]. split; [done|]. cbn.
  destruct Hsz as [Hsz|]; [|lia]. pose proof (mw_size _ Hwf). destruct (carries m) eqn:Hc.
  - rewrite (mw_content _ Hwf Hc). destruct (round512_spec (m_size m)) as [Hr Hm]; [unfold CONTAINER_MAX_SIZE in *; lia|].
    apply Z.div_exact in Hm; [|done]. unfold CONTAINER_MAX_SIZE in *. lia.
  - rewrite (mw_none _ Hwf Hc), (@len_nil Z). by vm_compute.
Qed.

(** ** One call of [CutPointTarHeader]

    [R] is what is left of the file when the function is called, and [p] the
    part of it in the window. *)

Definition CALL_SIZE : Z := CONTAINER_MAX_SIZE * 16.

Record window (R p : bytes) (room : Z) : Prop := {
  wi_prefix : p = ztake (len p) R;
  wi_len : len p = len R \/ CALL_SIZE <= len p <= len R;
  wi_room : len p <= room;
  wi_small : len p < 2 ^ 64
}.

(** Cutting at offset [off] of the window as on the rest of the file. *)
Lemma window_cut R p room cfg t off cp t1 :
  window R p room -> 0 <= off -> stable_cut cfg t (zdrop off R) cp t1 -> off <= len R -> off + Z.max MAX_CHUNK_SIZE cp <= CALL_SIZE ->
  CutPointTarFast cfg t (zdrop off p) (room - off) (w64 (len p - off)) = Ok (cp, t1) /\ w32 cp = cp /\
  read_block (zdrop off p) (room - off) cp = Ok (ztake cp (zdrop off R)).
Proof.
  intros [W1 W2 W3 W4] Hoff (Hcp & Hle & Hst) HoR Hb. rewrite len_zdrop in Hcp. pose proof (len_nonneg p).
  assert (off <= len p) as Hop by (unfold MAX_CHUNK_SIZE in Hb; lia).
  assert (zdrop off p = ztake (len p - off) (zdrop off R)) as Hz by (rewrite W1 at 1; by apply zdrop_ztake).
  assert (len (zdrop off p) = len p - off) as Hl by (rewrite len_zdrop; lia).
  destruct (Hst (zdrop off p) (room - off)) as [H1 H2]; [by rewrite Hl|rewrite Hl, len_zdrop; lia|lia|].
  rewrite Hl in H1. rewrite w64_small by lia. split; [exact H1|].
  split; [apply w32_small; unfold CONTAINER_MAX_SIZE in Hle; lia|].
  rewrite read_block_ok by lia. rewrite Hz, ztake_ztake; [done|lia].
Qed.

(** The window ends exactly at the end of the file. *)
Lemma window_end R p room off : window R p room -> 0 <= off < CALL_SIZE -> (off =? len p) = (off =? len R).
Proof. intros [_ W2 _ _] Ho. destruct (Z.eqb_spec off (len p)), (Z.eqb_spec off (len R)); lia. Qed.

(** The headers gathered so far. *)
Record gathered (c : Chunker) (hd : bytes) : Prop := {
  ga_buf : exists hb, headerBuffer c = Some hb /\ HeaderCp c <= len hb /\ ztake (HeaderCp c) hb = hd;
  ga_cp : 0 <= HeaderCp c <= 16 * 512;
  ga_mod : HeaderCp c mod 512 = 0
}.

Lemma gathered_len c hd : gathered c hd -> len hd = HeaderCp c.
Proof. intros [(hb & _ & Hl & <-) Hc _]. rewrite len_ztake. lia. Qed.

Lemma gathered_more c hd h hb : gathered c hd -> headerBuffer c = Some hb -> len h = 512 -> HeaderCp c < 16 * 512 ->
  forall c', HeaderCp c' = HeaderCp c + 512 -> headerBuffer c' = Some (blit hb (HeaderCp c) h) -> gathered c' (hd ++ h).
Proof.
  intros [(hb' & E & Hl & Hhd) Hc Hm] Hb Hh Hlt c' H1 H2. assert (hb' = hb) as -> by congruence.
  pose proof (Z.div_mod (HeaderCp c) 512). split; rewrite ?H1; [|lia|].
  - eexists. split; [exact H2|].
    assert (blit hb (HeaderCp c) h = (hd ++ h) ++ zdrop (HeaderCp c + 512) hb) as ->.
    { unfold blit. by rewrite Hhd, Hh, <- app_assoc. }
    assert (len (hd ++ h) = HeaderCp c + 512) as Hlen by (rewrite len_app, Hh, <- Hhd, len_ztake; lia).
    rewrite <- Hlen, ztake_app_len, (len_app (hd ++ h)). pose proof (len_nonneg (zdrop (len (hd ++ h)) hb)). split; [lia|done].
  - rewrite Zplus_mod, Hm. done.
Qed.

(** How far into the window the loop can be: a header and its content take at
    most a container less a block. *)
Definition in_budget (c : Chunker) (off : Z) : Prop :=
  0 <= off /\ if bool_decide (Next_Chunk_Type (tar c) = FILE_CHUNK)
              then off <= (HeaderCp c - 512) * 8191 + 512
              else off <= HeaderCp c * 8191.

(** What a loop did with the pieces [ps1] of [ps = ps1 ++ ps2], up to the offset
    [off1]; the next call does not begin with a small content. *)
Record walked (cfg : CdcCfg) (R : bytes) (c : Chunker) (ps : list piece) (c1 : Chunker) (off1 : Z)
    (ps1 ps2 : list piece) : Prop := {
  wk_split : ps = ps1 ++ ps2;
  wk_cuts : exists t2, cuts cfg (tar c1) (zdrop off1 R) ps2 t2 [] /\ Next_Chunk_Type t2 <> BIG_CHUNK;
  wk_off : 0 <= off1 <= len R /\ off1 < CALL_SIZE;
  wk_cfg : cdc c1 = cdc c;
  wk_type : chunkType c1 = chunkType c;
  wk_out : outputMQ c1 = outputMQ c ++ ((fun b => mkMsg b false) <$> data_pieces ps1);
  wk_shaped : shaped (localType c1) ps2;
  wk_next : Next_Chunk_Type (tar c1) <> FILE_CHUNK;
  wk_end : ps2 = [] -> Next_Chunk_Type (tar c1) = FILE_HEADER
}.

Lemma walked_cons cfg R c c' x ps c1 off1 ps1 ps2 :
  outputMQ c' = outputMQ c ++ ((fun b => mkMsg b false) <$> data_pieces [x]) -> cdc c' = cdc c -> chunkType c' = chunkType c ->
  walked cfg R c' ps c1 off1 ps1 ps2 -> walked cfg R c (x :: ps) c1 off1 (x :: ps1) ps2.
Proof.
  intros Ho Hc Ht [W1 W2 W3 W4 W5 W6 W7 W8 W9]. split; try done; [by rewrite W1|congruence|congruence|].
  change (x :: ps1) with ([x] ++ ps1). by rewrite W6, Ho, data_pieces_app, fmap_app, app_assoc.
Qed.

(** The headers of an archive are gathered while there is room, and the content
    of the last one is cut with it. *)
Definition loop_goes (c : Chunker) : bool :=
  ((HeaderCp c <? MultiHeaderSize)
   || (bool_decide (localType c = FILE_HEADER) && bool_decide (Next_Chunk_Type (tar c) = FILE_CHUNK)))
  && negb (bool_decide (Next_Chunk_Type (tar c) = BIG_CHUNK)).

(** The state after a cut, before its piece is dealt with. *)
Definition after_cut (c : Chunker) (t1 : TarState) : Chunker := set_tar t1 (set_localType (Next_Chunk_Type (tar c)) c).

Lemma header_loop_stops fuel p room l off c : loop_goes c = false -> tar_header_loop fuel p room l off c = Ok (off, c).
Proof. unfold loop_goes. intros H. destruct fuel; cbn [tar_header_loop]; by rewrite H. Qed.

Section Walk.
Context (cfg : CdcCfg) (R : bytes).

Lemma loop_takes_header fuel p room off c t1 hb :
  window R p room -> cdc c = cfg -> stable_cut cfg (tar c) (zdrop off R) 512 t1 -> 0 <= off <= len R -> off + MAX_CHUNK_SIZE < CALL_SIZE ->
  loop_goes c = true -> Next_Chunk_Type (tar c) = FILE_HEADER -> headerBuffer c = Some hb -> 0 <= HeaderCp c < 16 * 512 ->
  let c1 := set_header (HeaderCp c + 512) (Some (blit hb (HeaderCp c) (ztake 512 (zdrop off R)))) (after_cut c t1) in
  tar_header_loop (S fuel) p room (len p) off c =
    if off + 512 =? len R then Ok (off + 512, set_tar (set_type FILE_HEADER t1) c1)
    else tar_header_loop fuel p room (len p) (off + 512) c1.
Proof using Type.
  intros Hw Hc Hst Hoff Hb Hgo Ht Hhb Hcp. cbv zeta.
  destruct (window_cut R p room cfg (tar c) off 512 t1 Hw) as (H1 & H2 & H3); [lia|done|lia|unfold MAX_CHUNK_SIZE in *; lia|].
  cbn [tar_header_loop]. unfold loop_goes in Hgo. rewrite Hgo. cbn [cdc tar set_localType]. rewrite Hc, H1.
  cbn [mbind result_bind fst snd]. rewrite H2, Ht. cbn [localType set_tar set_localType].
  rewrite bool_decide_eq_true_2 by done. cbn [headerBuffer set_tar set_localType]. rewrite Hhb. cbn [from_option_or mbind result_bind].
  rewrite H3. cbn [mbind result_bind HeaderCp set_tar set_localType].
  rewrite (proj2 (Z.ltb_ge HEADER_BUFFER_SIZE (HeaderCp c + 512))) by (unfold HEADER_BUFFER_SIZE; lia).
  rewrite (window_end R p room) by (done || (unfold MAX_CHUNK_SIZE in *; lia)). unfold after_cut. by rewrite Ht.
Qed.

Lemma loop_takes_content fuel p room off c t1 cp :
  window R p room -> cdc c = cfg -> stable_cut cfg (tar c) (zdrop off R) cp t1 -> 0 <= off <= len R -> off + Z.max MAX_CHUNK_SIZE cp < CALL_SIZE ->
  loop_goes c = true -> Next_Chunk_Type (tar c) = FILE_CHUNK ->
  let x := ztake cp (zdrop off R) in
  let c1 := if cp =? 0 then after_cut c t1 else push (mkMsg x false) (after_cut c t1) in
  tar_header_loop (S fuel) p room (len p) off c =
    if negb (cp =? 0) && (off + cp =? len R) then Ok (off + cp, set_tar (set_type FILE_HEADER t1) c1)
    else tar_header_loop fuel p room (len p) (off + cp) c1.
Proof using Type.
  intros Hw Hc Hst Hoff Hb Hgo Ht. cbv zeta. pose proof Hst as [[Hcp _] _].
  destruct (window_cut R p room cfg (tar c) off cp t1 Hw) as (H1 & H2 & H3); [lia|done|lia|unfold MAX_CHUNK_SIZE in *; lia|].
  cbn [tar_header_loop]. unfold loop_goes in Hgo. rewrite Hgo. cbn [cdc tar set_localType]. rewrite Hc, H1.
  cbn [mbind result_bind fst snd]. rewrite H2, Ht. cbn [localType set_tar set_localType].
  rewrite bool_decide_eq_false_2 by done. unfold after_cut. rewrite Ht.
  destruct (Z.eqb_spec cp 0) as [->|Hnz]; [cbn [negb andb]; by rewrite Z.add_0_r|]. rewrite H3. cbn [mbind result_bind negb andb].
  by rewrite (window_end R p room) by (done || lia).
Qed.

(** The rest of the archive, cut from [c] at [off]: the pieces are still to be
    cut as [cuts] says, and they are shaped as an archive. *)
Record ahead (c : Chunker) (off : Z) (ps : list piece) : Prop := {
  ah_cuts : exists t2, cuts cfg (tar c) (zdrop off R) ps t2 [] /\ Next_Chunk_Type t2 <> BIG_CHUNK;
  ah_cfg : cdc c = cfg;
  ah_shaped : shaped (localType c) ps;
  ah_off : 0 <= off <= len R
}.

Lemma walked_none c off ps : ahead c off ps -> ps <> [] -> off < CALL_SIZE -> Next_Chunk_Type (tar c) <> FILE_CHUNK ->
  walked cfg R c ps c off [] ps.
Proof using Type. intros [A1 A2 A3 A4] Hne Ho Ht. split; try done. by rewrite app_nil_r. Qed.

(** After the last piece the cutter expects a header. *)
Lemma walked_last c c' t1 x off :
  outputMQ c' = outputMQ c ++ ((fun b => mkMsg b false) <$> data_pieces [x]) -> cdc c' = cdc c -> chunkType c' = chunkType c ->
  off = len R -> off < CALL_SIZE ->
  walked cfg R c [x] (set_tar (set_type FILE_HEADER t1) c') off [x] [].
Proof using Type.
  intros Ho Hc Ht -> Hoff. pose proof (len_nonneg R). split; try done.
  exists (set_type FILE_HEADER t1). rewrite zdrop_all by lia. split; [constructor|done].
Qed.

(** The first of the pieces ahead. *)
Lemma ahead_cons c off ps : ahead c off ps -> off < len R ->
  exists cp t1 ps', ps = (Next_Chunk_Type (tar c), ztake cp (zdrop off R)) :: ps' /\ stable_cut cfg (tar c) (zdrop off R) cp t1 /\
    piece_ok (localType c) (Next_Chunk_Type (tar c), ztake cp (zdrop off R)) /\ len (ztake cp (zdrop off R)) = cp /\ off + cp <= len R /\
    (off + cp = len R -> ps' = [] /\ Next_Chunk_Type t1 <> BIG_CHUNK) /\
    forall c', tar c' = t1 -> cdc c' = cfg -> localType c' = Next_Chunk_Type (tar c) -> ahead c' (off + cp) ps'.
Proof using Type.
  intros [(t2 & Hcuts & Ht2) A2 A3 A4] Hlt. inversion Hcuts as [? ? E|? ? cp t1 ps' ? ? Hne Hst Hrest E1 E2]; subst.
  - exfalso. apply (f_equal len) in H. rewrite len_zdrop, (@len_nil Z) in H. lia.
  - pose proof Hst as [Hcp _]. rewrite len_zdrop in Hcp. rewrite zdrop_zdrop in Hrest by lia. destruct A3 as [A3 A5].
    exists cp, t1, ps'. split_and!; [done|done|done|rewrite len_ztake, len_zdrop; lia|lia| |].
    + intros E. rewrite zdrop_all in Hrest by lia. by inversion Hrest; subst.
    + intros c' <- H2 H3. split; [by exists t2|done|by rewrite H3|lia].
Qed.

Lemma stable_next t r cp t1 : stable_cut cfg t r cp t1 ->
  match Next_Chunk_Type t with
  | FILE_HEADER => True
  | FILE_CHUNK => Next_Chunk_Type t1 = FILE_HEADER
  | BIG_CHUNK => Next_Chunk_Type t1 <> FILE_CHUNK
  end.
Proof using Type.
  intros (_ & _ & Hst). destruct (Hst r (len r)) as [H _]; [by rewrite ztake_all by lia|by left|lia|].
  unfold CutPointTarFast in H. destruct (Next_Chunk_Type t) eqn:Ht; [by injection H as _ <-|done|].
  destruct (_ <? _); [|by injection H as _ <-]. destruct (CutPointFastCDC _ _ _ _); [|done]. injection H as _ <-. cbn. by rewrite Ht.
Qed.

Definition walks (c : Chunker) (off : Z) (ps : list piece) (hd : bytes) : Prop :=
  exists c1 off1 ps1 ps2, walked cfg R c ps c1 off1 ps1 ps2 /\ gathered c1 (hd ++ select true ps1) /\
    (loop_goes c = true -> ps1 <> []) /\
    forall fuel p room, (length ps <= fuel)%nat -> window R p room ->
      tar_header_loop fuel p room (len p) off c = Ok (off1, c1).

(** The loop deals with one piece and stops at the end of the file, or goes on. *)
Lemma walks_cons c c' off cp t1 x ps hd (fin : bool) :
  outputMQ c' = outputMQ c ++ ((fun b => mkMsg b false) <$> data_pieces [x]) -> cdc c' = cdc c -> chunkType c' = chunkType c ->
  off + cp < CALL_SIZE -> gathered c' (hd ++ select true [x]) ->
  (forall fuel p room, window R p room -> tar_header_loop (S fuel) p room (len p) off c =
     if fin then Ok (off + cp, set_tar (set_type FILE_HEADER t1) c') else tar_header_loop fuel p room (len p) (off + cp) c') ->
  (fin = true -> off + cp = len R /\ ps = []) -> (fin = false -> walks c' (off + cp) ps (hd ++ select true [x])) ->
  walks c off (x :: ps) hd.
Proof using Type.
  intros Ho Hc Ht Hs Hg Hloop Hfin Hgo. destruct fin.
  - destruct Hfin as [HR ->]; [done|]. exists (set_tar (set_type FILE_HEADER t1) c'), (off + cp), [x], [].
    split; [by apply walked_last|]. split; [destruct Hg; by split|]. split; [done|].
    intros [|fuel] p room Hf Hw; [cbn in Hf; lia|]. by apply Hloop.
  - destruct Hgo as (c1 & off1 & ps1 & ps2 & H1 & H2 & _ & H4); [done|]. exists c1, off1, (x :: ps1), ps2.
    split; [by eapply walked_cons|]. split; [change (x :: ps1) with ([x] ++ ps1); by rewrite select_app, app_assoc|]. split; [done|].
    intros [|fuel] p room Hf Hw; [cbn in Hf; lia|]. rewrite Hloop by done. apply H4; [cbn in Hf; lia|done].
Qed.

Lemma header_walk ps : forall c off hd,
  ahead c off ps -> off < len R -> gathered c hd -> in_budget c off -> walks c off ps hd.
Proof using Type.
  induction ps as [|x ps IH]; intros c off hd Ha Hlt Hg [Hoff Hb];
    destruct (ahead_cons _ _ _ Ha Hlt) as (cp & t1 & ps' & Eps & Hst & Hok & Hcp & Hend & Hlast & Hnext); [done|].
  injection Eps as Ex <-. pose proof (ga_cp _ _ Hg) as Hmax. pose proof (stable_next _ _ _ _ Hst) as Hn1.
  pose proof (Z.div_mod (HeaderCp c) 512) as Hdiv. rewrite (ga_mod _ _ Hg) in Hdiv.
  unfold piece_ok in Hok. cbn [fst snd] in Hok. rewrite Hcp in Hok. pose proof (ah_off _ _ _ Ha) as HoR.
  assert (off < CALL_SIZE /\ MAX_CHUNK_SIZE = 16384 /\ CONTAINER_MAX_SIZE = 4194304 /\ CALL_SIZE = 67108864) as (HoC & E1 & E2 & E3).
  { unfold CALL_SIZE, CONTAINER_MAX_SIZE. destruct (bool_decide _); split_and!; try done; lia. }
  destruct (loop_goes c) eqn:Hgo.
  2: { exists c, off, [], (x :: ps). split; [|split; [by rewrite app_nil_r|split; [congruence|intros; by apply header_loop_stops]]].
       apply walked_none; [done..|]. intros Ht. rewrite Ht in Hok. destruct Hok as [Hl _]. unfold loop_goes in Hgo.
       rewrite Ht, Hl in Hgo. cbn in Hgo. by rewrite orb_true_r in Hgo. }
  destruct (Next_Chunk_Type (tar c)) eqn:Ht; [| |by unfold loop_goes in Hgo; rewrite Ht, andb_false_r in Hgo].
  - destruct Hok as [_ Hok]. rewrite bool_decide_eq_true_2 in Hb by done. pose proof (len_nonneg (ztake cp (zdrop off R))).
    subst x. eapply (walks_cons c (if cp =? 0 then after_cut c t1 else push (mkMsg (ztake cp (zdrop off R)) false) (after_cut c t1))
      off cp t1 _ ps hd (negb (cp =? 0) && (off + cp =? len R))); try (by destruct (cp =? 0)).
    + rewrite data_pieces_data by done. rewrite Hcp. destruct (cp =? 0); [by rewrite app_nil_r|done].
    + lia.
    + cbn. rewrite !app_nil_r. destruct (cp =? 0), Hg; by split.
    + intros fuel p room Hw. apply loop_takes_content; try done; [apply (ah_cfg _ _ _ Ha)|lia].
    + intros [_ HR%Z.eqb_eq]%andb_true_iff. destruct (Hlast HR). auto.
    + intros Hfin. apply IH; [apply Hnext; destruct (cp =? 0); try done; apply (ah_cfg _ _ _ Ha)| | |].
      * apply andb_false_iff in Hfin as [Hz|Hne%Z.eqb_neq]; [|lia]. apply negb_false_iff, Z.eqb_eq in Hz. lia.
      * cbn. rewrite !app_nil_r. destruct (cp =? 0), Hg; by split.
      * split; [lia|]. replace (tar _) with t1 by (by destruct (cp =? 0)). replace (HeaderCp _) with (HeaderCp c) by (by destruct (cp =? 0)).
        rewrite Hn1, bool_decide_eq_false_2 by done. lia.
  - assert (HeaderCp c < 16 * 512) as Hlow.
    { unfold loop_goes in Hgo. rewrite Ht in Hgo. rewrite (bool_decide_eq_false_2 (FILE_HEADER = FILE_CHUNK)), andb_false_r, orb_false_r in Hgo by done.
      apply andb_true_iff in Hgo as [Hgo%Z.ltb_lt _]. exact Hgo. }
    subst cp. destruct (ga_buf _ _ Hg) as (hb & Hhb & _). rewrite bool_decide_eq_false_2 in Hb by done.
    set (c' := set_header (HeaderCp c + 512) (Some (blit hb (HeaderCp c) (ztake 512 (zdrop off R)))) (after_cut c t1)).
    assert (gathered c' (hd ++ select true [(FILE_HEADER, ztake 512 (zdrop off R))])) as Hg'.
    { cbn. rewrite app_nil_r. by eapply (gathered_more c hd (ztake 512 (zdrop off R)) hb). }
    subst x. eapply (walks_cons c c' off 512 t1 _ ps hd (off + 512 =? len R)); try done.
    + rewrite data_pieces_header. by rewrite app_nil_r.
    + lia.
    + intros fuel p room Hw. apply loop_takes_header; try done; [apply (ah_cfg _ _ _ Ha)|lia|lia].
    + intros HR%Z.eqb_eq. destruct (Hlast HR). auto.
    + intros Hne%Z.eqb_neq. apply IH; [by apply Hnext; [|apply (ah_cfg _ _ _ Ha)|]|lia|done|].
      split; [lia|]. cbn [tar c' set_header after_cut set_tar HeaderCp]. destruct (bool_decide _); lia.
Qed.

Lemma big_loop_takes fuel p room off c t1 cp :
  window R p room -> cdc c = cfg -> stable_cut cfg (tar c) (zdrop off R) cp t1 -> 0 <= off <= len R -> off + Z.max MAX_CHUNK_SIZE cp < CALL_SIZE ->
  Next_Chunk_Type (tar c) = BIG_CHUNK -> off < CONTAINER_MAX_SIZE - MAX_CHUNK_SIZE ->
  let c1 := push (mkMsg (ztake cp (zdrop off R)) false) (after_cut c t1) in
  tar_big_loop (S fuel) p room (len p) off c =
    if off + cp =? len R then Ok (off + cp, c1) else tar_big_loop fuel p room (len p) (off + cp) c1.
Proof using Type.
  intros Hw Hc Hst Hoff Hb Ht Hlow. cbv zeta. pose proof Hst as [[Hcp _] _].
  destruct (window_cut R p room cfg (tar c) off cp t1 Hw) as (H1 & H2 & H3); [lia|done|lia|unfold MAX_CHUNK_SIZE in *; lia|].
  cbn [tar_big_loop]. rewrite Ht, bool_decide_eq_false_2, (proj2 (Z.ltb_lt _ _) Hlow) by done. cbn [negb andb cdc tar set_localType].
  rewrite Hc, H1. cbn [mbind result_bind fst snd]. rewrite H2, H3. cbn [mbind result_bind].
  rewrite (window_end R p room) by (done || lia). unfold after_cut. by rewrite Ht.
Qed.

Lemma big_walk ps : forall c off, ahead c off ps -> off < len R -> off < CONTAINER_MAX_SIZE -> Next_Chunk_Type (tar c) <> FILE_CHUNK ->
  exists c1 off1 ps1 ps2, walked cfg R c ps c1 off1 ps1 ps2 /\ HeaderCp c1 = HeaderCp c /\ headerBuffer c1 = headerBuffer c /\
    select true ps1 = [] /\ (Next_Chunk_Type (tar c) = BIG_CHUNK -> off < CONTAINER_MAX_SIZE - MAX_CHUNK_SIZE -> ps1 <> []) /\
    forall fuel p room, (length ps <= fuel)%nat -> window R p room ->
      tar_big_loop fuel p room (len p) off c = Ok (off1, c1).
Proof using Type.
  assert (MAX_CHUNK_SIZE = 16384 /\ CONTAINER_MAX_SIZE = 4194304 /\ CALL_SIZE = 67108864) as (E1 & E2 & E3) by done.
  induction ps as [|x ps IH]; intros c off Ha Hlt Hoff Hn;
    destruct (ahead_cons _ _ _ Ha Hlt) as (cp & t1 & ps' & Eps & Hst & Hok & Hcp & Hend & Hlast & Hnext); [done|].
  injection Eps as Ex <-. pose proof (stable_next _ _ _ _ Hst) as Hn1. pose proof (ah_off _ _ _ Ha) as HoR.
  destruct (decide (Next_Chunk_Type (tar c) = BIG_CHUNK /\ off < CONTAINER_MAX_SIZE - MAX_CHUNK_SIZE)) as [[Ht Hlow]|Hstop].
  2: { exists c, off, [], (x :: ps). split; [apply walked_none; [done..|lia|done]|]. split_and!; [done..|tauto|].
       intros fuel p room _ _. destruct fuel; cbn [tar_big_loop]; replace (_ && _) with false; try done; symmetry;
         apply andb_false_iff; destruct (Next_Chunk_Type (tar c)); try done; ((by left) || (right; apply Z.ltb_ge; apply Z.nlt_ge; tauto)). }
  rewrite Ht in *. unfold piece_ok in Hok. cbn [fst snd] in Hok. rewrite Hcp in Hok. subst x.
  set (c' := push (mkMsg (ztake cp (zdrop off R)) false) (after_cut c t1)).
  assert (outputMQ c' = outputMQ c ++ ((fun b => mkMsg b false) <$> data_pieces [(BIG_CHUNK, ztake cp (zdrop off R))])) as Ho.
  { rewrite data_pieces_data, Hcp, (proj2 (Z.eqb_neq cp 0)) by (done || lia). done. }
  destruct (Z.eqb_spec (off + cp) (len R)) as [HR|HR].
  - destruct (Hlast HR) as [-> Hn2]. exists c', (off + cp), [(BIG_CHUNK, ztake cp (zdrop off R))], [].
    split; [|split_and!; [done..|]].
    + pose proof (len_nonneg R). split; try done; [|lia|]; cbn [tar c' push after_cut set_tar].
      * exists t1. rewrite zdrop_all by lia. split; [constructor|done].
      * intros _. by destruct (Next_Chunk_Type t1).
    + intros [|fuel] p room Hf Hw; [cbn in Hf; lia|]. rewrite (big_loop_takes _ _ _ _ _ t1 cp); try done; [|apply (ah_cfg _ _ _ Ha)|lia].
      by rewrite (proj2 (Z.eqb_eq _ _) HR).
  - destruct (IH c' (off + cp)) as (c1 & off1 & ps1 & ps2 & W1 & W2 & W3 & W4 & _ & W6); [|lia|lia|done|].
    { apply Hnext; [done|apply (ah_cfg _ _ _ Ha)|cbn; by rewrite Ht]. }
    exists c1, off1, ((BIG_CHUNK, ztake cp (zdrop off R)) :: ps1), ps2.
    split; [by eapply walked_cons|]. split_and!; [done..| |done|].
    + change (?x :: ps1) with ([x] ++ ps1). by rewrite select_app, W4.
    + intros [|fuel] p room Hf Hw; [cbn in Hf; lia|]. rewrite (big_loop_takes _ _ _ _ _ t1 cp); try done; [|apply (ah_cfg _ _ _ Ha)|lia].
      rewrite (proj2 (Z.eqb_neq _ _) HR). apply W6; [cbn in Hf; lia|done].
Qed.
End Walk.

(** A call deals with some of the pieces ahead: it queues their contents and,
    when it began with a header, the headers it gathered as one message. *)
Record called (cfg : CdcCfg) (R : bytes) (c : Chunker) (ps : list piece) (c1 : Chunker) (off1 : Z) (ps2 : list piece) : Prop := {
  cd_msgs : exists ps1 msgs, ps = ps1 ++ ps2 /\ ps1 <> [] /\ outputMQ c1 = outputMQ c ++ msgs /\
    data_msgs msgs = data_pieces ps1 /\ concat (header_msgs msgs) = select true ps1 /\ Forall header_chunk (header_msgs msgs);
  cd_ahead : ahead cfg (zdrop off1 R) c1 0 ps2;
  cd_off : 0 <= off1 <= len R /\ off1 < CALL_SIZE;
  cd_type : chunkType c1 = chunkType c;
  cd_next : Next_Chunk_Type (tar c1) <> FILE_CHUNK;
  cd_end : ps2 = [] -> Next_Chunk_Type (tar c1) = FILE_HEADER;
  cd_buf : HeaderCp c1 = 0 /\ is_Some (headerBuffer c1)
}.

Section Call.
Context (cfg : CdcCfg) (R : bytes).

Lemma called_walked c ps c1 off1 ps1 ps2 c2 msgs :
  walked cfg R c ps c1 off1 ps1 ps2 -> cdc c = cfg -> ps1 <> [] ->
  chunkType c2 = chunkType c1 -> cdc c2 = cdc c1 -> tar c2 = tar c1 -> localType c2 = localType c1 ->
  outputMQ c2 = outputMQ c1 ++ msgs -> data_msgs msgs = [] -> concat (header_msgs msgs) = select true ps1 ->
  Forall header_chunk (header_msgs msgs) -> HeaderCp c2 = 0 -> is_Some (headerBuffer c2) ->
  called cfg R c ps c2 off1 ps2.
Proof using Type.
  intros [W1 W2 W3 W4 W5 W6 W7 W8 W9] Hc Hne E1 E2 E3 E4 Ho Hd Hh HF Hcp Hb.
  destruct (plain_msgs (data_pieces ps1)) as [P1 P2].
  split; rewrite ?E1, ?E3; try done.
  - exists ps1, (((fun b => mkMsg b false) <$> data_pieces ps1) ++ msgs). rewrite data_msgs_app, header_msgs_app, P1, P2, Hd, Ho, W6.
    split_and!; [done|done|by rewrite app_assoc|by rewrite app_nil_r|done|done].
  - split; rewrite ?E2, ?E3, ?E4; [by rewrite zdrop_nonpos by lia|congruence|done|]. pose proof (len_nonneg (zdrop off1 R)). lia.
Qed.

Lemma call_walk c ps :
  ahead cfg R c 0 ps -> R <> [] -> Next_Chunk_Type (tar c) <> FILE_CHUNK -> HeaderCp c = 0 -> is_Some (headerBuffer c) ->
  exists c1 off1 ps2, called cfg R c ps c1 off1 ps2 /\
    forall fuel p room, (length ps <= fuel)%nat -> window R p room ->
      CutPointTarHeader fuel c p room (len p) = Ok (off1, c1).
Proof using Type.
  intros Ha HR Hn Hcp [hb Hhb]. assert (0 < len R) as Hlt.
  { pose proof (len_nonneg R). assert (len R <> 0) by (by intros ?%len_0_nil). lia. }
  destruct (decide (Next_Chunk_Type (tar c) = FILE_HEADER)) as [Ht|Ht].
  - assert (gathered c []) as Hg.
    { split; rewrite ?Hcp; [|lia|done]. exists hb. split; [done|]. split; [apply len_nonneg|by rewrite ztake_nonpos by lia]. }
    destruct (header_walk cfg R ps c 0 [] Ha Hlt Hg) as (c1 & off1 & ps1 & ps2 & W1 & W2 & W3 & W4).
    { split; [lia|]. rewrite Ht, Hcp. by vm_compute. }
    assert (ps1 <> []) as Hne by (apply W3; unfold loop_goes; by rewrite Ht, Hcp).
    pose proof (gathered_len _ _ W2) as Hlen. pose proof W2 as [(hb1 & Hb1 & Hl1 & Hhd) Hmax Hmod]. cbn [app] in *.
    set (m := mkMsg (select true ps1) true). exists (push m (set_header 0 (headerBuffer c1) c1)), off1, ps2. split.
    + assert (header_chunk (select true ps1)) as Hhc.
      { unfold header_chunk. rewrite Hlen. split; [|done]. split; [|lia].
        destruct (ahead_cons _ _ _ _ _ Ha Hlt) as (cp & t1 & ps' & Eps & _ & Hok & _). rewrite (wk_split _ _ _ _ _ _ _ _ W1) in Eps.
        destruct ps1 as [|x ps1]; [done|]. injection Eps as Ex _. rewrite Ht in Ex, Hok. unfold piece_ok in Hok. cbn [fst snd] in Hok.
        rewrite <- Hlen, Ex. change (?x :: ps1) with ([x] ++ ps1). rewrite select_app, len_app.
        rewrite select_header, Hok. pose proof (len_nonneg (select true ps1)). lia. }
      apply (called_walked c ps c1 off1 ps1 ps2 _ [m]); try done; [apply (ah_cfg _ _ _ _ _ Ha)|exact (app_nil_r _)|apply Forall_singleton; exact Hhc].
    + intros fuel p room Hf Hw. unfold CutPointTarHeader. rewrite bool_decide_eq_true_2 by done. rewrite W4 by done.
      cbn [mbind result_bind fst snd]. rewrite Hb1. cbn [from_option_or mbind result_bind]. by rewrite Hhd, <- Hb1.
  - destruct (big_walk cfg R ps c 0 Ha Hlt) as (c1 & off1 & ps1 & ps2 & W1 & W2 & W3 & W4 & W5 & W6); [by vm_compute|done|].
    exists c1, off1, ps2. split.
    + apply (called_walked c ps c1 off1 ps1 ps2 c1 []); try done; [apply (ah_cfg _ _ _ _ _ Ha)| |by rewrite app_nil_r|congruence|by rewrite W3].
      apply W5; [by destruct (Next_Chunk_Type (tar c))|by vm_compute].
    + intros fuel p room Hf Hw. unfold CutPointTarHeader. rewrite bool_decide_eq_false_2 by done. by apply W6.
Qed.
End Call.

(** ** A whole archive *)

(** What a call does with the rest of a file, from any window on it. *)
Definition mh_step (fuel : nat) (c : Chunker) (r : bytes) (cp : Z) (c' : Chunker) : Prop :=
  chunkType c = Some TAR_MultiHeader /\ cp < CALL_SIZE /\
  forall p room, window r p room -> CutPointTarHeader fuel c p room (len p) = Ok (cp, c').

Lemma mh_iter_step fuel w lo c r cp c1 :
  0 <= lo < len w -> len w <= READ_FILE_SIZE -> r <> [] -> 0 <= cp <= len r ->
  zdrop lo w = ztake (len w - lo) r ->
  len w - lo = len r \/ CALL_SIZE <= len w - lo <= len r ->
  mh_step fuel c r cp c1 ->
  chunk_iter fuel w (len w) lo c = Ok (lo + cp, c1) /\ cp <= len w - lo.
Proof.
  intros Hlo HlR Hr Hcp Hslice Hleft (Ht & Hsz & Hst). unfold chunk_iter. cbv zeta.
  rewrite Ht, bool_decide_eq_true_2, Hslice by done. rewrite w64_small by (unfold READ_FILE_SIZE in *; lia).
  assert (len (ztake (len w - lo) r) = len w - lo) as Hl by (rewrite len_ztake; lia).
  assert (window r (ztake (len w - lo) r) (READ_FILE_SIZE - lo)) as Hw.
  { split; rewrite ?Hl; [done|done|lia|unfold READ_FILE_SIZE in *; lia]. }
  apply Hst in Hw. rewrite Hl in Hw. rewrite Hw. cbn [mbind result_bind fst snd]. split; [done|lia].
Qed.

(** The chunker between two files. *)
Record mh_ready (c : Chunker) : Prop := {
  mr_type : chunkType c = Some TAR_MultiHeader;
  mr_cfg : cdc c = cdc_sizes 8192;
  mr_next : Next_Chunk_Type (tar c) = FILE_HEADER;
  mr_buf : HeaderCp c = 0 /\ is_Some (headerBuffer c)
}.

Lemma mh_runs fuel cfg n : forall ps c r,
  (length ps <= n)%nat -> (length ps <= fuel)%nat -> ahead cfg r c 0 ps -> chunkType c = Some TAR_MultiHeader ->
  Next_Chunk_Type (tar c) <> FILE_CHUNK -> (ps = [] -> Next_Chunk_Type (tar c) = FILE_HEADER) ->
  HeaderCp c = 0 -> is_Some (headerBuffer c) ->
  exists k c' msgs, (k <= length ps)%nat /\ runs (mh_step fuel) k c r c' /\ outputMQ c' = outputMQ c ++ msgs /\
    data_msgs msgs = data_pieces ps /\ concat (header_msgs msgs) = select true ps /\ Forall header_chunk (header_msgs msgs) /\
    chunkType c' = Some TAR_MultiHeader /\ cdc c' = cfg /\ Next_Chunk_Type (tar c') = FILE_HEADER /\
    HeaderCp c' = 0 /\ is_Some (headerBuffer c').
Proof.
  induction n as [|n IH]; intros ps c r Hn Hf Ha Ht Hnx Hend Hcp Hb;
    (destruct (decide (r = [])) as [->|Hr];
      [assert (ps = []) as -> by (destruct Ha as [(t2 & Hc & _) _ _ _]; by inversion Hc);
       exists 0%nat, c, []; rewrite app_nil_r; split_and!; try done; [constructor|apply (ah_cfg _ _ _ _ _ Ha)|by apply Hend]|]).
  all: destruct (call_walk cfg r c ps) as (c1 & off1 & ps2 & [(ps1 & msgs & D1 & D2 & D3 & D4 & D5 & D6) C2 C3 C4 C5 C6 [C7 C8]] & Hcall); try done.
  { destruct ps1; [done|]. rewrite D1 in Hn. cbn in Hn. lia. }
  assert (length ps = length ps1 + length ps2)%nat as Hlen by (rewrite D1; apply length_app).
  assert (0 < length ps1)%nat by (destruct ps1; [done|cbn; lia]).
  destruct (IH ps2 c1 (zdrop off1 r)) as (k & c' & msgs' & K & R & M1 & M2 & M3 & M4 & M5 & M6 & M7 & M8 & M9); [lia|lia|done|congruence|done..|].
  exists (S k), c', (msgs ++ msgs'). rewrite data_msgs_app, header_msgs_app, concat_app, D1, data_pieces_app, select_app, D4, D5, M2, M3.
  split_and!; try done; [rewrite length_app; lia| |by rewrite M1, D3, app_assoc|by apply Forall_app].
  eapply runs_step; [done|exact (proj1 C3)| |exact R]. split; [done|]. split; [apply C3|]. intros p room Hw. by apply Hcall.
Qed.

(** The messages of an archive: the headers, in order, in chunks of at most 16,
    and the data of every member. *)
Record split_archive (ms : list Member) (msgs : list Msg) : Prop := {
  sa_chunks : Forall header_chunk (header_msgs msgs);
  sa_headers : concat (header_msgs msgs) = concat (m_header <$> ms);
  sa_data : exists dss, data_msgs msgs = concat dss /\ Forall2 data_of ms dss;
  sa_small : Forall (fun b => len b <= CONTAINER_MAX_SIZE) (data_msgs msgs)
}.

Lemma member_data_pieces m ps : member_wf m -> member_cuts m ps -> data_of m (data_pieces ps).
Proof.
  intros Hwf (ds & -> & Hcat & Hds). rewrite data_pieces_header. unfold data_of.
  pose proof (mw_size _ Hwf) as Hsz. destruct (Z.leb_spec (m_size m) CONTAINER_MAX_SIZE) as [Hle|Hgt].
  - assert (len (m_content m) = 0 <-> carries m && (0 <? m_size m) = false) as Hc.
    { destruct (carries m) eqn:E; [|by rewrite (mw_none _ Hwf E)]. rewrite (mw_content _ Hwf E). cbn [andb].
      destruct (round512_spec (m_size m)) as [Hr _]; [lia|]. rewrite Z.ltb_ge. split; [lia|]. intros. by replace (m_size m) with 0 by lia. }
    destruct (carries m && (0 <? m_size m)) eqn:E; destruct Hds as [-> | ->]; try done.
    + cbn in Hcat. rewrite <- Hcat in Hc. discriminate (proj1 Hc eq_refl).
    + rewrite data_pieces_data by done. destruct (Z.eqb_spec (len (m_content m)) 0) as [H|_]; [|done]. by apply Hc in H.
    + by rewrite data_pieces_data, (proj2 Hc).
  - assert (carries m = true) as ->.
    { pose proof (mw_ext _ Hwf) as Hx. unfold carries. destruct (Z.eqb_spec (m_flag m) REGTYPE); [done|]. specialize (Hx ltac:(done)). lia. }
    rewrite (proj2 (Z.ltb_lt 0 (m_size m))) by (unfold CONTAINER_MAX_SIZE in Hgt; lia). cbn [andb].
    assert (data_pieces ds = ds.*2) as ->.
    { clear Hcat. induction Hds as [|[ty b] ds [Hty Hb] _ IH]; [done|]. cbn in Hty, Hb. subst ty.
      rewrite data_pieces_data, IH by done. by rewrite (proj2 (Z.eqb_neq _ _)) by lia. }
    split; [done|]. apply Forall_fmap. eapply Forall_impl; [exact Hds|]. intros [ty b] [_ Hb]. cbn in *. intros ->.
    rewrite (@len_nil Z) in Hb. lia.
Qed.

Lemma archive_data_pieces ms pss : Forall member_wf ms -> Forall2 member_cuts ms pss ->
  exists dss, data_pieces (concat pss) = concat dss /\ Forall2 data_of ms dss.
Proof.
  intros Hwf H. induction H as [|m ps ms pss Hm _ IH]; [by exists []|]. apply Forall_cons in Hwf as [Hm' Hwf].
  destruct (IH Hwf) as (dss & E & HF). exists (data_pieces ps :: dss). cbn [concat]. rewrite data_pieces_app, E.
  split; [done|]. constructor; [by apply member_data_pieces|done].
Qed.

Lemma mh_chunking ms c fuel :
  Forall windowed ms -> mh_ready c -> (length (archive ms) + 2 * length ms < fuel)%nat ->
  exists c' msgs, Chunking fuel (archive ms) c = Ok c' /\ mh_ready c' /\ outputMQ c' = outputMQ c ++ msgs /\ split_archive ms msgs.
Proof.
  intros Hw [R1 R2 R3 [R4 R5]] Hf. destruct (cuts_archive (cdc_sizes 8192) ms) with (tar c) as (pss & t' & Hpss & Hcuts & Hrst); [|done|].
  { eapply Forall_impl; [exact Hw|]. intros m [? _]. split; [done|by right]. }
  assert (Forall member_wf ms) as Hwf by (eapply Forall_impl; [exact Hw|by intros m []]).
  destruct (cuts_count ms pss Hwf Hpss) as [Hcount _].
  destruct (mh_runs fuel (cdc_sizes 8192) (length (concat pss)) (concat pss) c (archive ms)) as (k & c' & msgs & K & Hruns & M1 & M2 & M3 & M4 & M5 & M6 & M7 & M8);
    try done; [lia| |congruence|].
  { pose proof (len_nonneg (archive ms)). split; [exists t'|done|by apply (shaped_archive ms)|lia]. rewrite zdrop_nonpos by lia.
    split; [done|]. destruct Hrst as [-> | [-> _]]; done. }
  exists (set_done true c'), msgs. split; [|split; [by split|split; [done|]]].
  - unfold Chunking. change (CONTAINER_MAX_SIZE * 16) with CALL_SIZE.
    rewrite (drive_runs (mh_step fuel) (chunk_iter fuel) CALL_SIZE ltac:(by vm_compute) (mh_iter_step fuel) k c _ _ fuel Hruns) by lia. done.
  - destruct (cuts_pieces _ _ _ _ _ _ Hcuts) as [_ Hsmall].
    split; [done| |rewrite M2; by apply (archive_data_pieces ms)|].
    + rewrite M3. by rewrite (select_archive true ms) by done.
    + rewrite M2. eapply Forall_impl; [apply queued_small, Forall_forall|by intros b []]. intros p [_ Hp]%list_elem_of_filter. rewrite Forall_forall in Hsmall. by apply Hsmall.
Qed.

(** ** Properties *)

(** C20: chunking a well-formed archive of any length with its headers apart
    terminates, provided that no member has a size between 4 MiB - 1023 and 4 MiB
    (sixteen of them and their headers pass the end of the window that one call of
    [CutPointTarHeader] may count on, and the last content is cut short); and what
    is queued is the archive taken apart without loss: the header messages hold the
    headers of all members, in order and at most 16 to a message, and the data
    messages, in the order of the members, are the padded content of every small
    member in one piece, the content of every big one in non-empty pieces, and
    nothing for a member without content. *)
Theorem multi_header_chunking_splits (ms : list Member) (fuel : nat)
    (Hms : Forall windowed ms) (Hfuel : (length (archive ms) + 2 * length ms < fuel)%nat) :
  exists c0 c1, new_Chunker 4 = Ok c0 /\ Chunking fuel (archive ms) c0 = Ok c1 /\ split_archive ms (outputMQ c1).
Proof.
  set (c0 := mkChunker (Some TAR_MultiHeader) (cdc_sizes 8192) tar_init FILE_HEADER 0 (Some []) [] false).
  destruct (mh_chunking ms c0 fuel Hms) as (c1 & msgs & H1 & _ & H2 & H3); [by split|done|].
  exists c0, c1. split; [reflexivity|]. split; [done|]. by rewrite H2.
Qed.

Lemma multi_header_chunking_splits_witness :
  exists c0 c1, new_Chunker 4 = Ok c0 /\ Chunking 2100 (archive [demo_member; demo_member]) c0 = Ok c1 /\
    split_archive [demo_member; demo_member] (outputMQ c1).
Proof.
  apply multi_header_chunking_splits; [|vm_compute; lia].
  assert (windowed demo_member) as H by (split; [apply demo_member_wf|left; by vm_compute]). by repeat constructor.
Defined.
