(* ===== verification/Termination.v ===== *)
(** * No file makes the chunker run forever

    The loops of [Chunker::Chunking] consume what the cutters say, and the tar
    cutter believes the sizes it finds in headers.  Whatever bytes a file is
    made of, each turn either moves on in the buffer, or leaves a member for the
    next header, or faults: so every run ends, and [2 * READ_FILE_SIZE] turns
    for a window are enough. *)

From S2P Require Import Prelude Define Chunker Chunking Tar Truncated MultiHeader.

(** ** Runs that end *)

(** [ends P r]: the run does not run out of fuel, and [P] holds of what it
    returns. *)
Definition ends {A} (P : A -> Prop) (r : result A) : Prop :=
  match r with Ok x => P x | Err e => e <> OutOfFuel end.

Lemma ends_bind {A B} (P : A -> Prop) (Q : B -> Prop) r (f : A -> result B) :
  ends P r -> (forall x, P x -> ends Q (f x)) -> ends Q (r ≫= f).
Proof. destruct r; cbn; auto. Qed.

Lemma ends_mono {A} (P Q : A -> Prop) r : ends P r -> (forall x, P x -> Q x) -> ends Q r.
Proof. destruct r; cbn; auto. Qed.

Lemma read_block_ends src room n (P : bytes -> Prop) :
  (n <= room -> forall b, P b) -> ends P (read_block src room n).
Proof. unfold read_block. destruct (Z.ltb_spec room n); cbn; auto. Qed.

Lemma from_option_ends {A} e (o : option A) : e <> OutOfFuel -> ends (fun _ => True) (from_option_or e o).
Proof. by destruct o. Qed.

(** The turns left before [room] bytes are used up, when one without progress
    may be [due]. *)
Definition turns_left (room off : Z) (due : bool) : nat := Z.to_nat (2 * (room - off)) + Nat.b2n due.

Section Drive.
Context {S : Type} (iter : bytes -> Z -> Z -> S -> result (Z * S)) (threshold : Z).
(** What holds between turns, and whether a turn without progress is due. *)
Context (I : S -> Prop) (due : S -> bool).
Hypothesis Hthreshold : threshold <= READ_FILE_SIZE.
Hypothesis Hiter : forall w lo s, I s -> 0 <= lo <= READ_FILE_SIZE -> len w <= READ_FILE_SIZE -> len w <> lo ->
  ends (fun r => I r.2 /\ lo <= r.1 <= READ_FILE_SIZE /\ (turns_left READ_FILE_SIZE r.1 (due r.2) < turns_left READ_FILE_SIZE lo (due s))%nat) (iter w (len w) lo s).

Lemma inner_ends w end_ : len w <= READ_FILE_SIZE -> 0 < threshold -> forall n lo s,
  I s -> 0 <= lo <= READ_FILE_SIZE -> (turns_left READ_FILE_SIZE lo (due s) < n)%nat ->
  ends (fun r => I r.2 /\ lo <= r.1 <= READ_FILE_SIZE /\ w64 (len w - r.1) < threshold)
    (inner_loop iter threshold n w (len w) end_ lo s).
Proof.
  intros Hw Hthr. induction n as [|n IH]; intros lo s Hs Hlo Hn; [lia|]. cbn [inner_loop].
  destruct (orb _ _) eqn:Hc; [|cbn; apply orb_false_iff in Hc as [Hc _]; split_and!; [done|lia..|by apply Z.leb_gt]].
  eapply ends_bind.
  - apply Hiter; [done|done|done|]. intros E. rewrite E in Hc. apply orb_true_iff in Hc as [Hc%Z.leb_le|[_ Hc%Z.ltb_lt]%andb_true_iff]; [|lia].
    rewrite Z.sub_diag in Hc. by apply (Z.lt_le_trans _ _ 0) in Hthr.
  - intros [lo' s'] (H1 & H2 & H3). cbn [fst snd] in *.
    eapply ends_mono; [apply IH; [done|lia|lia]|intros ? (?&?&?); split_and!; [done|lia..]].
Qed.

Lemma outer_ends file : 0 < threshold -> forall n off s,
  I s -> 0 <= off -> (Z.to_nat (2 * READ_FILE_SIZE + 2) + Z.to_nat (len file - off) < n)%nat ->
  ends I (outer_loop iter threshold n file off s).
Proof.
  intros Hthr. induction n as [|n IH]; intros off s Hs Hoff Hn; [lia|]. cbn [outer_loop].
  assert (len (sub off READ_FILE_SIZE file) = Z.max 0 (Z.min READ_FILE_SIZE (Z.max 0 (len file - off)))) as Hl
    by (unfold sub; rewrite len_ztake, len_zdrop; lia).
  set (w := sub off READ_FILE_SIZE file) in *.
  destruct (Z.eqb_spec (len w) 0); [done|].
  assert (len w <= READ_FILE_SIZE) by (unfold READ_FILE_SIZE in *; lia).
  eapply ends_bind; [apply inner_ends; [done|done|done|unfold READ_FILE_SIZE; lia|]|].
  { unfold turns_left, READ_FILE_SIZE in *. destruct (due s); cbn [Nat.b2n]; lia. }
  intros [lo s'] (H1 & H2 & H3). cbn [fst snd] in *. destruct (Z.ltb_spec (len w) READ_FILE_SIZE); [done|].
  apply IH; [done|lia|]. rewrite w64_small in H3 by (unfold READ_FILE_SIZE in *; lia). unfold READ_FILE_SIZE in *. lia.
Qed.
End Drive.

(** ** The cutters *)

(** A tar cut: at least one byte, or a member left for the next header. *)
Definition tar_moves (t t1 : TarState) (cp : Z) : Prop :=
  0 < cp \/ Next_Chunk_Type t <> FILE_HEADER /\ Next_Chunk_Type t1 = FILE_HEADER.

Lemma tar_cut_ends t src room l : 0 < l < 2 ^ 64 ->
  ends (fun r => 0 <= r.1 /\ tar_moves t r.2 (w32 r.1)) (CutPointTarFast (cdc_sizes 8192) t src room l).
Proof.
  intros Hl. unfold CutPointTarFast, tar_moves. pose proof (w64_bound (Big_Chunk_Size t - Big_Chunk_Offset t)) as Hleft.
  change (maxChunkSize (cdc_sizes 8192)) with MAX_CHUNK_SIZE.
  destruct (Next_Chunk_Type t) eqn:Et.
  - cbn [ends fst snd]. pose proof (w64_bound ((Next_Chunk_Size t + 511)%u64 / 512 * 512)). unfold round512.
    split; [case_match; lia|by right].
  - destruct (Z.leb_spec room 156); [by cbn|]. cbn [ends fst]. destruct (Z.leb_spec 512 l); rewrite w32_small; lia.
  - destruct (Z.ltb_spec MAX_CHUNK_SIZE (w64 (Big_Chunk_Size t - Big_Chunk_Offset t))) as [H|H]; unfold MAX_CHUNK_SIZE in *.
    + destruct (fastcdc_any src room (w64 (Big_Chunk_Size t - Big_Chunk_Offset t))) as [->|(cp & -> & Hcp)]; [lia|by cbn|].
      unfold MAX_CHUNK_SIZE in *. cbn. rewrite w32_small; lia.
    + cbn. split; [lia|by right].
Qed.

(** ** Collected headers *)

(** What no step of the chunker changes; the loop over a big member [keeps] the
    gathered headers too. *)
Definition alike (keeps : bool) (c c1 : Chunker) : Prop :=
  chunkType c1 = chunkType c /\ cdc c1 = cdc c /\ (keeps = true -> HeaderCp c1 = HeaderCp c).

(** A member is open: the next cut may be empty. *)
Definition member_open (c : Chunker) : bool := negb (bool_decide (Next_Chunk_Type (tar c) = FILE_HEADER)).

Lemma moves_turns c c1 off cp room :
  tar_moves (tar c) (tar c1) cp -> 0 <= cp -> off + cp <= room ->
  (turns_left room (off + cp) (member_open c1) < turns_left room off (member_open c))%nat.
Proof.
  unfold turns_left, member_open. intros [H|[H1 H2]] Hcp Hroom.
  - destruct (negb _), (negb _); cbn [Nat.b2n]; lia.
  - rewrite (bool_decide_eq_true_2 _ H2), (bool_decide_eq_false_2 _ H1). cbn [Nat.b2n negb]. lia.
Qed.

Lemma left_pos l off room : 0 <= l < 2 ^ 64 -> 0 <= off <= room -> room <= READ_FILE_SIZE -> off <> l ->
  0 < w64 (l - off) < 2 ^ 64.
Proof.
  unfold READ_FILE_SIZE. intros Hl Hoff Hroom Hne. pose proof (w64_bound (l - off)). split; [|lia].
  destruct (Z.eq_dec (w64 (l - off)) 0) as [E|]; [|lia]. unfold w64 in E. apply Z.mod_divide in E as [k Hk]; lia.
Qed.

Lemma next_turn c c1 off cp room n :
  (turns_left room off (member_open c) < S n)%nat -> tar_moves (tar c) (tar c1) cp -> 0 <= cp -> off + cp <= room ->
  (turns_left room (off + cp) (member_open c1) < n)%nat.
Proof. intros Hn Hm Hcp Hr. pose proof (moves_turns c c1 off cp room Hm Hcp Hr). lia. Qed.

(** What the loops of [CutPointTarHeader] leave behind; [turned] says whether
    one turn was made at least. *)
Definition moved (keeps turned : bool) (c : Chunker) (off room : Z) (r : Z * Chunker) : Prop :=
  alike keeps c r.2 /\ off <= r.1 <= room /\
  (turns_left room r.1 (member_open r.2) + Nat.b2n turned <= turns_left room off (member_open c))%nat.

Lemma moved_step kp b c c1 off cp room r :
  alike kp c c1 -> tar_moves (tar c) (tar c1) cp -> 0 <= cp -> off + cp <= room ->
  moved kp b c1 (off + cp) room r -> moved kp true c off room r.
Proof.
  intros (A1 & A2 & A3) Hm Hcp Hroom ((B1 & B2 & B3) & H1 & H2). pose proof (moves_turns c c1 off cp room Hm Hcp Hroom).
  unfold moved, alike. rewrite B1, B2. split_and!; try done; try lia; [intros Hk; by rewrite B3, A3|]. destruct b; cbn [Nat.b2n] in *; lia.
Qed.

Lemma moved_still kp b c c1 off room r : alike kp c c1 -> tar_moves (tar c) (tar c1) 0 -> off <= room ->
  moved kp b c1 off room r -> moved kp true c off room r.
Proof. intros Ha Hm Hr H. apply (moved_step kp b c c1 off 0); rewrite ?Z.add_0_r; done || lia. Qed.

Lemma moved_stop kp c off room : 0 <= off <= room -> moved kp false c off room (off, c).
Proof. intros H. unfold moved, alike. cbn [fst snd Nat.b2n]. split_and!; try done; lia. Qed.

Lemma moved_close kp c t off room : 0 <= off <= room -> Next_Chunk_Type t = FILE_HEADER ->
  moved kp false c off room (off, set_tar t c).
Proof.
  intros H Ht. unfold moved, alike. cbn [fst snd Nat.b2n]. split_and!; try done; try lia.
  unfold turns_left, member_open. cbn [tar set_tar]. rewrite (bool_decide_eq_true_2 _ Ht). cbn [negb Nat.b2n]. lia.
Qed.

Section Loops.
Context (src : bytes) (room l : Z).
Hypotheses (Hl : 0 <= l < 2 ^ 64) (Hroom : room <= READ_FILE_SIZE).

(** A turn of either loop: it ends at the end of the data, or goes on. *)
Lemma turn_ends kp b c c1 c2 off cp k :
  alike kp c c1 -> tar_moves (tar c) (tar c1) cp -> 0 <= cp -> 0 <= off -> off + cp <= room ->
  moved kp false c1 (off + cp) room (off + cp, c2) ->
  (off + cp <> l -> ends (moved kp b c1 (off + cp) room) k) ->
  ends (moved kp true c off room) (if off + cp =? l then Ok (off + cp, c2) else k).
Proof.
  intros Ha Hm Hcp Hoff Hr Hstop Hk. destruct (Z.eqb_spec (off + cp) l) as [_|Hne].
  - by apply (moved_step kp false c c1 off cp).
  - eapply ends_mono; [by apply Hk|]. intros r. by apply moved_step.
Qed.

Lemma tar_header_loop_ends : forall n off c,
  0 <= off <= room -> off <> l -> cdc c = cdc_sizes 8192 ->
  (turns_left room off (member_open c) < n)%nat ->
  ends (moved false (loop_goes c) c off room) (tar_header_loop n src room l off c).
Proof.
  induction n as [|n IH]; intros off c Hoff Hne Hc Hn; [lia|]. cbn [tar_header_loop]. fold (loop_goes c).
  destruct (loop_goes c); [|by apply moved_stop]. cbn [cdc tar localType set_localType]. rewrite Hc.
  eapply ends_bind; [apply tar_cut_ends, (left_pos l off room); done|].
  intros [cut t1] [Hcut Hm]. cbn [fst snd] in *. pose proof (w32_bound cut) as Hcp. set (cp := w32 cut) in *.
  cbn [localType set_localType set_tar]. destruct (bool_decide (Next_Chunk_Type (tar c) = FILE_HEADER)).
  - eapply ends_bind; [by apply from_option_ends|]. intros hb _.
    apply ends_bind with (P := fun _ => off + cp <= room).
    { apply read_block_ends. intros. lia. }
    intros blk Hr. destruct (_ <? _); [by cbn|]. eapply turn_ends; [| | | | |apply moved_close; [lia|done]|]; [done|exact Hm|lia..|].
    intros Hne'. apply IH; [lia|done|done|]. eapply next_turn; [exact Hn|exact Hm|lia..].
  - destruct (Z.eqb_spec cp 0) as [Hz|Hz].
    + rewrite Hz in Hm. eapply ends_mono; [apply IH|intros r; apply moved_still]; try done; [|lia].
      rewrite <- (Z.add_0_r off). eapply next_turn; [exact Hn|exact Hm|lia..].
    + apply ends_bind with (P := fun _ => off + cp <= room); [apply read_block_ends; lia|]. intros blk Hr.
      eapply turn_ends; [| | | | |apply moved_close; [lia|done]|]; [done|exact Hm|lia..|].
      intros Hne'. apply IH; [lia|done|done|]. eapply next_turn; [exact Hn|exact Hm|lia..].
Qed.

(** The condition of the loop over a big member. *)
Definition more_big (off : Z) (c : Chunker) : bool := member_open c && (off <? CONTAINER_MAX_SIZE - MAX_CHUNK_SIZE).

Lemma tar_big_loop_ends : forall n off c,
  0 <= off <= room -> off <> l -> cdc c = cdc_sizes 8192 ->
  (turns_left room off (member_open c) < n)%nat ->
  ends (moved true (more_big off c) c off room) (tar_big_loop n src room l off c).
Proof.
  induction n as [|n IH]; intros off c Hoff Hne Hc Hn; [lia|]. cbn [tar_big_loop]. fold (member_open c). fold (more_big off c).
  destruct (more_big off c); [|by apply moved_stop]. cbn [cdc tar set_localType]. rewrite Hc.
  eapply ends_bind; [apply tar_cut_ends, (left_pos l off room); done|].
  intros [cut t1] [Hcut Hm]. cbn [fst snd] in *. pose proof (w32_bound cut) as Hcp. set (cp := w32 cut) in *.
  apply ends_bind with (P := fun _ => off + cp <= room); [apply read_block_ends; lia|]. intros blk Hr.
  eapply turn_ends; [| | | | |apply moved_stop; lia|]; [done|exact Hm|lia..|].
  intros Hne'. apply IH; [lia|done|done|]. eapply next_turn; [exact Hn|exact Hm|lia..].
Qed.
End Loops.

(** ** [Chunking] *)

(** The chunker between two turns: set up for its type, no header pending. *)
Definition ready_for (ty : ChunkTypeNum) (c : Chunker) : Prop :=
  chunkType c = Some ty /\ HeaderCp c = 0 /\
  match ty with
  | FIXED_SIZE => cdc c = cdc_default
  | GEARCDC => True
  | FASTCDC | TAR | TAR_MultiHeader => cdc c = cdc_sizes 8192
  | MTAR => False
  end.

Lemma tar_header_ends fuel c src room l :
  0 < l < 2 ^ 64 -> 0 <= room <= READ_FILE_SIZE -> ready_for TAR_MultiHeader c ->
  (Z.to_nat (2 * READ_FILE_SIZE) + 1 < fuel)%nat ->
  ends (fun r => ready_for TAR_MultiHeader r.2 /\ moved false true c 0 room r) (CutPointTarHeader fuel c src room l).
Proof.
  intros Hl Hroom (H1 & H2 & H3) Hf.
  assert (turns_left room 0 (member_open c) < fuel)%nat as Hn by (unfold turns_left; destruct (member_open c); cbn [Nat.b2n]; lia).
  unfold CutPointTarHeader. case_bool_decide as Ht.
  - eapply ends_bind; [apply tar_header_loop_ends; done || lia|]. intros r ((A1 & A2 & _) & B1 & B2).
    eapply ends_bind; [by apply from_option_ends|]. intros hb _.
    assert (loop_goes c = true) as Hg by (unfold loop_goes; by rewrite H2, Ht). rewrite Hg in B2.
    split; [unfold ready_for; cbn; by rewrite A1, A2|]. split; [by split_and!|exact (conj B1 B2)].
  - eapply ends_mono; [apply tar_big_loop_ends; done || lia|]. intros r ((A1 & A2 & A3) & B1 & B2).
    assert (more_big 0 c = true) as Hg by (unfold more_big, member_open; by rewrite (bool_decide_eq_false_2 _ Ht)). rewrite Hg in B2.
    split; [unfold ready_for; by rewrite A1, A2, A3|]. split; [by split_and!|exact (conj B1 B2)].
Qed.

Lemma fastcdc_ends src room l : 0 < l -> ends (fun cp => 0 < cp) (CutPointFastCDC (cdc_sizes 8192) src room l).
Proof. intros Hl. destruct (fastcdc_any src room l Hl) as [->|(cp & -> & Hcp)]; cbn; [done|lia]. Qed.

Lemma gear_ends src room l : 0 < l < 2 ^ 64 -> room <= READ_FILE_SIZE -> ends (fun cp => 0 < cp) (CutPointGear src room l).
Proof.
  unfold READ_FILE_SIZE. intros Hl Hr. unfold CutPointGear, gear_scan.
  edestruct gear_loop_any as [->|(r & -> & H)]; [apply le_n|by cbn|]. destruct r; cbn; rewrite w32_small; lia.
Qed.

(** What a turn of [Chunking] owes. *)
Definition turn_made (ty : ChunkTypeNum) (c : Chunker) (lo : Z) (r : Z * Chunker) : Prop :=
  ready_for ty r.2 /\ lo <= r.1 <= READ_FILE_SIZE /\
  (turns_left READ_FILE_SIZE r.1 (member_open r.2) < turns_left READ_FILE_SIZE lo (member_open c))%nat.

Lemma cut_point_ends ty c src room l : ready_for ty c -> ty <> TAR_MultiHeader -> 0 < l < 2 ^ 64 -> room <= READ_FILE_SIZE ->
  ends (fun r => 0 <= r.1 /\ ready_for ty r.2 /\ tar_moves (tar c) (tar r.2) r.1) (cut_point c src room l).
Proof.
  intros (H1 & H2 & H3) Hty Hl Hroom. unfold cut_point. rewrite H1. destruct ty; try done; rewrite ?H3.
  - change (avgChunkSize cdc_default) with 8192. split_and!; [cbn; lia|done|left; cbn; lia].
  - eapply ends_bind; [apply fastcdc_ends; lia|]. intros cp Hcp. cbn in Hcp. split_and!; [cbn; lia|done|left; cbn; lia].
  - eapply ends_bind; [by apply gear_ends|]. intros cp Hcp. cbn in Hcp. split_and!; [cbn; lia|done|left; cbn; lia].
  - eapply ends_bind; [by apply tar_cut_ends|]. intros [cp t1] [Hcp Hm]. cbn in *. split_and!; [done..|].
    destruct Hm as [Hm|Hm]; [left|by right]. destruct (Z.eq_dec cp 0) as [->|]; [done|lia].
Qed.

Lemma chunk_iter_ends ty fuel w lo c :
  ready_for ty c -> 0 <= lo <= READ_FILE_SIZE -> len w <= READ_FILE_SIZE -> len w <> lo ->
  (Z.to_nat (2 * READ_FILE_SIZE) + 1 < fuel)%nat -> ends (turn_made ty c lo) (chunk_iter fuel w (len w) lo c).
Proof.
  intros Hc Hlo Hw Hne Hf. pose proof (len_nonneg w).
  assert (0 < w64 (len w - lo) < 2 ^ 64) as Hl by (apply (left_pos _ _ READ_FILE_SIZE); unfold READ_FILE_SIZE in *; lia).
  unfold chunk_iter. case_bool_decide as Hty.
  - assert (ty = TAR_MultiHeader) as -> by (destruct Hc as [E _]; congruence).
    eapply ends_bind; [apply tar_header_ends; [done|lia|done|done]|]. intros r (H1 & _ & H2 & H3).
    split; [done|]. cbn [fst snd]. split; [lia|]. unfold turns_left in *. cbn [Nat.b2n] in *. lia.
  - assert (ty <> TAR_MultiHeader) as Hnty by (destruct Hc as [E _]; congruence).
    eapply ends_bind; [apply cut_point_ends; [done|done|done|lia]|]. intros r (Hcp & Hr & Hm).
    apply ends_bind with (P := fun _ => lo + r.1 <= READ_FILE_SIZE); [apply read_block_ends; lia|]. intros blk Hroom.
    pose proof (moves_turns c r.2 lo r.1 READ_FILE_SIZE Hm Hcp Hroom) as Ht.
    destruct (Z.eqb_spec r.1 0) as [Hz|Hz]; (split; [done|]; cbn [fst snd]; split; [lia|]).
    + by rewrite Hz, Z.add_0_r in Ht.
    + done.
Qed.

(** ** Properties *)

(** C21: chunking ends whatever the file: a new chunker of any type of
    [Chunking] is ready; and for a ready chunker and any bytes at all, with fuel
    beyond a bound that depends on the length only, [Chunking] returns with the
    chunker ready for the next file, or faults; it never goes on without end. *)
Theorem chunking_always_ends :
  (forall (chunkType_ : Z) (c : Chunker), new_Chunker chunkType_ = Ok c -> chunkType_ <> 5 -> exists ty, ready_for ty c) /\
  (forall (ty : ChunkTypeNum) (c : Chunker) (file : bytes) (fuel : nat), ready_for ty c ->
    (Z.to_nat (2 * READ_FILE_SIZE + 2) + length file < fuel)%nat ->
    match Chunking fuel file c with Ok c1 => ready_for ty c1 | Err e => e <> OutOfFuel end).
Proof.
  split.
  - intros z c Hnew Hz. unfold new_Chunker, chunk_type_of_int in Hnew.
    destruct z as [|[[[]|[]|]|[[]|[]|]|]|]; cbn -[cdc_init] in Hnew; simplify_eq; eexists; by split_and!.
  - intros ty c file fuel Hc Hf. change (ends (ready_for ty) (Chunking fuel file c)). unfold Chunking.
    eapply ends_bind; [apply (outer_ends (chunk_iter fuel) _ (ready_for ty) member_open)|by intros c1 H1].
    + by apply Z.leb_le.
    + intros w lo s Hs Hlo Hw Hne. apply chunk_iter_ends; [done..|lia].
    + by apply Z.ltb_lt.
    + done.
    + lia.
    + rewrite Z.sub_0_r, len_length, Nat2Z.id. lia.
Qed.

Lemma chunking_always_ends_witness :
  match Chunking (Z.to_nat (2 * READ_FILE_SIZE + 3) + 1024) (replicate 1024 255)
    (mkChunker (Some TAR) (cdc_sizes 8192) tar_init FILE_HEADER 0 None [] false) with
  | Ok c1 => ready_for TAR c1 | Err e => e <> OutOfFuel end.
Proof.
  apply (proj2 chunking_always_ends); [by split_and!|]. rewrite length_replicate. unfold READ_FILE_SIZE. lia.
Defined.
