(* ===== verification/LruCache.v ===== *)
(** * The LRU cache template

    [include/lruCache.h], [lru11::Cache]: a list of key/value nodes in recency
    order and a map from keys to list iterators.  An iterator is the identity
    of a node (it survives [splice], as in [std::list]); using one whose node
    is gone is the fault [BadPointer].  The lock is left out: the program uses
    the default [NullLock] from one thread.

    The second half relates the two structures to one recency list
    ([abs]): every operation of the class refines its obvious counterpart on
    that list. *)

From S2P Require Import Prelude.

Section Cache.
Context {K V : Type} `{Countable K}.

(** A list node: its identity, its key and its value. *)
Definition node : Type := nat * (K * V).

Record Cache := mkCache {
  cache_ : gmap K nat;
  keys_ : list node;
  maxSize_ : nat;
  elasticity_ : nat;
  next_node : nat           (* the next unused node identity *)
}.

Definition new_Cache (maxSize elasticity : nat) : Cache := mkCache ∅ [] maxSize elasticity 0.

Definition cache_size (c : Cache) : nat := size (cache_ c).
Definition cache_empty (c : Cache) : bool := bool_decide (cache_ c = ∅).
Definition clear (c : Cache) : Cache :=
  mkCache ∅ [] (maxSize_ c) (elasticity_ c) (next_node c).
Definition contains (k : K) (c : Cache) : bool := bool_decide (is_Some (cache_ c !! k)).
Definition getMaxAllowedSize (c : Cache) : nat := (maxSize_ c + elasticity_ c)%nat.

Definition with_keys (ks : list node) (c : Cache) : Cache :=
  mkCache (cache_ c) ks (maxSize_ c) (elasticity_ c) (next_node c).

(** Dereferencing an iterator. *)
Fixpoint deref (it : nat) (ks : list node) : option (K * V) :=
  match ks with
  | [] => None
  | (i, kv) :: ks' => if decide (i = it) then Some kv else deref it ks'
  end.

Definition unlink (it : nat) (ks : list node) : list node := filter (fun n => n.1 <> it) ks.

(** [keys_.splice(keys_.begin(), keys_, it)]. *)
Definition splice_front (it : nat) (ks : list node) : result (list node) :=
  kv ← from_option_or BadPointer (deref it ks);
  Ok ((it, kv) :: unlink it ks).

(** [it->value = v]. *)
Definition set_value (it : nat) (v : V) (ks : list node) : list node :=
  (fun n => if decide (n.1 = it) then (n.1, (n.2.1, v)) else n) <$> ks.

(** The loop of [prune]; [keys_.back()] of an empty list is [EmptyAccess]. *)
Fixpoint prune_loop (fuel : nat) (m : gmap K nat) (ks : list node) (maxSize count : nat)
    : result (gmap K nat * list node * nat) :=
  if (maxSize <? size m)%nat then
    match fuel with
    | O => Err OutOfFuel
    | S fuel' =>
        b ← from_option_or EmptyAccess (last ks);
        prune_loop fuel' (delete b.2.1 m) (removelast ks) maxSize (S count)
    end
  else Ok (m, ks, count).

Definition prune (c : Cache) : result (Cache * nat) :=
  let maxAllowed := (maxSize_ c + elasticity_ c)%nat in
  if bool_decide (maxSize_ c = 0%nat) || (size (cache_ c) <? maxAllowed)%nat then Ok (c, 0%nat)
  else
    r ← prune_loop (S (length (keys_ c))) (cache_ c) (keys_ c) (maxSize_ c) 0;
    Ok (mkCache r.1.1 r.1.2 (maxSize_ c) (elasticity_ c) (next_node c), r.2).

Definition insert (k : K) (v : V) (c : Cache) : result Cache :=
  match cache_ c !! k with
  | Some it =>
      _ ← from_option_or BadPointer (deref it (keys_ c));
      ks ← splice_front it (set_value it v (keys_ c));
      Ok (with_keys ks c)
  | None =>
      let it := next_node c in
      let c := mkCache (<[k := it]> (cache_ c)) ((it, (k, v)) :: keys_ c)
                 (maxSize_ c) (elasticity_ c) (S it) in
      r ← prune c;
      Ok r.1
  end.

Definition tryGet (k : K) (c : Cache) : result (option V * Cache) :=
  match cache_ c !! k with
  | None => Ok (None, c)
  | Some it =>
      ks ← splice_front it (keys_ c);
      kv ← from_option_or BadPointer (deref it ks);
      Ok (Some kv.2, with_keys ks c)
  end.

Definition get (k : K) (c : Cache) : result (V * Cache) :=
  match cache_ c !! k with
  | None => Err KeyNotFound
  | Some it =>
      ks ← splice_front it (keys_ c);
      kv ← from_option_or BadPointer (deref it ks);
      Ok (kv.2, with_keys ks c)
  end.

Definition remove (k : K) (c : Cache) : result (bool * Cache) :=
  match cache_ c !! k with
  | None => Ok (false, c)
  | Some it =>
      _ ← from_option_or BadPointer (deref it (keys_ c));
      Ok (true, mkCache (delete k (cache_ c)) (unlink it (keys_ c))
                  (maxSize_ c) (elasticity_ c) (next_node c))
  end.

Definition pruneValue (c : Cache) : result V :=
  b ← from_option_or EmptyAccess (last (keys_ c));
  match cache_ c !! b.2.1 with
  | None => Err KeyNotFound
  | Some it =>
      kv ← from_option_or BadPointer (deref it (keys_ c));
      Ok kv.2
  end.

(** ** The abstract cache: one recency list, most recent first *)

Definition abs (c : Cache) : list (K * V) := snd <$> keys_ c.

Fixpoint a_find (k : K) (l : list (K * V)) : option V :=
  match l with
  | [] => None
  | (k', v) :: l' => if decide (k' = k) then Some v else a_find k l'
  end.

Definition a_del (k : K) (l : list (K * V)) : list (K * V) := filter (fun kv => kv.1 <> k) l.

Definition a_prune (maxSize elasticity : nat) (l : list (K * V)) : list (K * V) :=
  if bool_decide (maxSize = 0%nat) || (length l <? maxSize + elasticity)%nat then l
  else take maxSize l.

Definition a_insert (maxSize elasticity : nat) (k : K) (v : V) (l : list (K * V)) : list (K * V) :=
  if decide (k ∈ fst <$> l) then (k, v) :: a_del k l
  else a_prune maxSize elasticity ((k, v) :: l).

(** ** Well-formed caches *)

(** The map and the list hold the same nodes, each identity and key once. *)
Record lru_ok (m : gmap K nat) (ks : list node) (next : nat) : Prop := {
  ok_ids : NoDup (fst <$> ks);
  ok_keys : NoDup (fst <$> (snd <$> ks));
  ok_fresh : Forall (fun n => n.1 < next)%nat ks;
  ok_map : forall k it, m !! k = Some it <-> exists v, (it, (k, v)) ∈ ks
}.

Definition lru_wf (c : Cache) : Prop := lru_ok (cache_ c) (keys_ c) (next_node c).

Implicit Types (m : gmap K nat) (ks : list node) (c : Cache).

Lemma NoDup_fmap_inj {A B} (f : A -> B) (l : list A) x y :
  NoDup (f <$> l) -> x ∈ l -> y ∈ l -> f x = f y -> x = y.
Proof.
  intros Hnd [i Hi]%list_elem_of_lookup [j Hj]%list_elem_of_lookup Hf.
  assert (i = j) as ->; [|congruence].
  eapply NoDup_lookup; [exact Hnd| |]; rewrite list_lookup_fmap.
  - rewrite Hi. done.
  - rewrite Hj. cbn. by rewrite Hf.
Qed.

Lemma deref_elem ks it kv :
  NoDup (fst <$> ks) -> (it, kv) ∈ ks -> deref it ks = Some kv.
Proof.
  induction ks as [|[i kv'] ks IH]; intros Hnd Hin; [by apply not_elem_of_nil in Hin|].
  cbn in *. apply NoDup_cons in Hnd as [Hi Hnd]. apply elem_of_cons in Hin as [[= -> ->]|Hin].
  - by rewrite decide_True.
  - rewrite decide_False; [by apply IH|]. intros ->. apply Hi.
    apply list_elem_of_fmap. by exists (it, kv).
Qed.

Lemma unlink_perm ks it kv :
  NoDup (fst <$> ks) -> (it, kv) ∈ ks -> (it, kv) :: unlink it ks ≡ₚ ks.
Proof.
  intros Hnd Hin. induction ks as [|[i kv'] ks IH]; [by apply not_elem_of_nil in Hin|].
  cbn in Hnd. apply NoDup_cons in Hnd as [Hi Hnd]. unfold unlink. rewrite filter_cons. cbn.
  apply elem_of_cons in Hin as [[= <- <-]|Hin].
  - rewrite decide_False by (intros Hx; by apply Hx). f_equiv.
    clear IH Hnd. induction ks as [|[j kv''] ks IH]; [done|]. cbn in Hi.
    apply not_elem_of_cons in Hi as [Hj Hi]. rewrite filter_cons_True by (cbn; congruence).
    f_equiv. by apply IH.
  - rewrite decide_True.
    + rewrite Permutation_swap. f_equiv. by apply IH.
    + intros ->. apply Hi. apply list_elem_of_fmap. by exists (it, kv).
Qed.

Lemma abs_unlink ks it k v :
  NoDup (fst <$> ks) -> NoDup (fst <$> (snd <$> ks)) -> (it, (k, v)) ∈ ks ->
  snd <$> unlink it ks = a_del k (snd <$> ks).
Proof.
  intros Hids Hkeys Hin.
  assert (forall n, n ∈ ks -> n.1 = it <-> n.2.1 = k) as Hiff.
  { intros n Hn. split; intros He.
    - by rewrite (NoDup_fmap_inj fst ks n (it, (k, v)) Hids Hn Hin He).
    - rewrite <- list_fmap_compose in Hkeys.
      by rewrite (NoDup_fmap_inj _ ks n (it, (k, v)) Hkeys Hn Hin He). }
  clear Hin Hids Hkeys. unfold unlink, a_del. induction ks as [|n ks IH]; [done|].
  rewrite fmap_cons, !filter_cons. specialize (Hiff n) as Hn.
  specialize (Hn ltac:(apply elem_of_cons; by left)).
  assert (forall n', n' ∈ ks -> n'.1 = it <-> n'.2.1 = k) as Hiff'.
  { intros n' H'. apply Hiff. apply elem_of_cons. by right. }
  destruct (decide (n.1 <> it)), (decide (n.2.1 <> k)); try tauto.
  rewrite fmap_cons. f_equal. exact (IH Hiff').
Qed.

Lemma unlink_set_value it v ks : unlink it (set_value it v ks) = unlink it ks.
Proof.
  unfold unlink, set_value. induction ks as [|n ks IH]; [done|].
  cbn [fmap list_fmap]. rewrite !filter_cons. destruct (decide (n.1 = it)) as [E|E]; cbn.
  - rewrite decide_False by tauto. rewrite decide_False by tauto. exact IH.
  - rewrite !decide_True by done. f_equal. exact IH.
Qed.

Lemma deref_set_value it v ks kv :
  deref it ks = Some kv -> deref it (set_value it v ks) = Some (kv.1, v).
Proof.
  induction ks as [|[i kv'] ks IH]; cbn; [done|]. destruct (decide (i = it)).
  - intros [= ->]. by rewrite decide_True.
  - intros Hd. by rewrite decide_False by done; apply IH.
Qed.

(** Moving a node to the front, with a new value. *)
Lemma ok_touch m ks next it k v v' :
  lru_ok m ks next -> (it, (k, v)) ∈ ks -> lru_ok m ((it, (k, v')) :: unlink it ks) next.
Proof.
  intros [Hids Hkeys Hf Hm] Hin. pose proof (unlink_perm ks it (k, v) Hids Hin) as Hp.
  split.
  - change (NoDup (fst <$> ((it, (k, v)) :: unlink it ks))). by rewrite Hp.
  - change (NoDup (fst <$> (snd <$> ((it, (k, v)) :: unlink it ks)))). by rewrite Hp.
  - assert (Forall (fun n : node => (n.1 < next)%nat) ((it, (k, v)) :: unlink it ks)) as HF
      by (by rewrite Hp). inversion HF; subst. by constructor.
  - intros k' it'. rewrite Hm.
    assert (forall x, x ∈ ks <-> x = (it, (k, v)) \/ x ∈ unlink it ks) as Hmem.
    { intros x. pose proof (elem_of_Permutation_proper x _ _ Hp) as Hx.
      rewrite elem_of_cons in Hx. tauto. }
    setoid_rewrite elem_of_cons. split.
    + intros [w [[= -> -> ->]|Hw]%Hmem]; eauto.
    + intros [w [[= -> -> ->]|Hw]]; [exists v|exists w]; apply Hmem; eauto.
Qed.

Lemma ok_push m ks next k v :
  lru_ok m ks next -> m !! k = None ->
  lru_ok (<[k := next]> m) ((next, (k, v)) :: ks) (S next).
Proof.
  intros [Hids Hkeys Hf Hm] Hk. split.
  - cbn. apply NoDup_cons. split; [|done]. intros (n & Hn & Hin)%list_elem_of_fmap.
    rewrite Forall_forall in Hf. specialize (Hf n Hin). lia.
  - cbn. apply NoDup_cons. split; [|done].
    intros ([k' v'] & Hn & ([it kv] & Hkv & Hin)%list_elem_of_fmap)%list_elem_of_fmap.
    cbn in *. subst. assert (m !! k' = Some it) by (apply Hm; eauto). congruence.
  - constructor; [cbn; lia|]. eapply Forall_impl; [exact Hf|]. cbn. lia.
  - intros k' it'. rewrite lookup_insert. setoid_rewrite elem_of_cons.
    destruct (decide (k = k')) as [->|Hne].
    + split; [intros [= <-]; exists v; by left|].
      intros [w [[= -> ->]|Hin]]; [done|]. assert (m !! k' = Some it') by (apply Hm; eauto).
      congruence.
    + rewrite Hm. split; [intros [w Hin]; exists w; by right|].
      intros [w [[= -> -> ->]|Hin]]; [done|eauto].
Qed.

Lemma ok_size m ks next : lru_ok m ks next -> size m = length ks.
Proof.
  intros [Hids Hkeys Hf Hm].
  set (l := (fun n : node => (n.2.1, n.1)) <$> ks).
  assert (NoDup l.*1) as Hl.
  { unfold l. rewrite <- list_fmap_compose. by rewrite <- list_fmap_compose in Hkeys. }
  assert (m = list_to_map l) as ->.
  { apply map_eq. intros k. apply option_eq. intros it. rewrite Hm.
    rewrite <- elem_of_list_to_map by done. unfold l. rewrite list_elem_of_fmap. split.
    - intros [v Hin]. by exists (it, (k, v)).
    - intros ([it' [k' v]] & [= -> ->] & Hin). eauto. }
  rewrite map_size_list_to_map by done. unfold l. apply length_fmap.
Qed.

(** Dropping the least recently used node. *)
Lemma ok_pop m ks n next :
  lru_ok m (ks ++ [n]) next -> lru_ok (delete n.2.1 m) ks next.
Proof.
  intros [Hids Hkeys Hf Hm]. rewrite !fmap_app in *.
  apply NoDup_app in Hids as (Hids & Hd1 & _). apply NoDup_app in Hkeys as (Hkeys & Hd2 & _).
  apply Forall_app in Hf as [Hf _]. split; [done..|].
  intros k it. rewrite lookup_delete. destruct n as [i [kn vn]]. cbn in *.
  case_decide as Hk.
  - subst. split; [done|]. intros [w Hin]. exfalso. apply (Hd2 k); [|by apply list_elem_of_singleton].
    apply list_elem_of_fmap. exists (k, w). split; [done|]. apply list_elem_of_fmap. by exists (it, (k, w)).
  - rewrite Hm. setoid_rewrite elem_of_app. setoid_rewrite list_elem_of_singleton.
    split; [intros [w [Hin|[= -> <- ->]]]; [eauto|done]|intros [w Hin]; eauto].
Qed.

Lemma prune_loop_ok fuel m ks next maxSize count :
  lru_ok m ks next -> (length ks <= fuel)%nat ->
  exists m' n, prune_loop fuel m ks maxSize count = Ok (m', take maxSize ks, n) /\
    lru_ok m' (take maxSize ks) next.
Proof.
  revert m ks count. induction fuel as [|fuel IH]; intros m ks count Hok Hf;
    cbn [prune_loop]; rewrite (ok_size _ _ _ Hok).
  - rewrite (proj2 (Nat.ltb_ge maxSize (length ks))) by lia. rewrite take_ge by lia. eauto.
  - destruct (Nat.ltb_spec maxSize (length ks)) as [Hlt|Hge]; [|rewrite take_ge by lia; eauto].
    destruct ks as [|n ks _] using rev_ind; [cbn in Hlt; lia|].
    rewrite length_app in Hf, Hlt. cbn in Hf, Hlt.
    rewrite last_snoc. cbn. rewrite removelast_last.
    destruct (IH (delete n.2.1 m) ks (S count)) as (m' & k & Hl & Hok');
      [by eapply ok_pop|lia|].
    exists m', k. rewrite take_app_le by lia. done.
Qed.

(** ** Each operation against the recency list *)

Lemma a_find_elem (l : list (K * V)) k v : NoDup l.*1 -> (k, v) ∈ l -> a_find k l = Some v.
Proof.
  induction l as [|[k' v'] l IH]; intros Hnd Hin; [by apply not_elem_of_nil in Hin|].
  cbn in *. apply NoDup_cons in Hnd as [Hk Hnd]. apply elem_of_cons in Hin as [[= -> ->]|Hin].
  - by rewrite decide_True.
  - rewrite decide_False; [by apply IH|]. intros ->. apply Hk.
    apply list_elem_of_fmap. by exists (k, v).
Qed.

Lemma a_find_None (l : list (K * V)) k : k ∉ l.*1 -> a_find k l = None.
Proof.
  induction l as [|[k' v'] l IH]; intros Hk; [done|]. cbn in *.
  apply not_elem_of_cons in Hk as [Hne Hk]. rewrite decide_False by congruence. auto.
Qed.

Lemma wf_lookup c k it :
  lru_wf c -> cache_ c !! k = Some it ->
  exists v, (it, (k, v)) ∈ keys_ c /\ deref it (keys_ c) = Some (k, v) /\
    a_find k (abs c) = Some v /\ k ∈ (abs c).*1.
Proof.
  intros Hwf Hk. pose proof Hwf as [Hids Hkeys Hf Hm].
  apply Hm in Hk as [v Hin]. exists v. split; [done|].
  assert ((k, v) ∈ abs c) as Habs by (apply list_elem_of_fmap; by exists (it, (k, v))).
  split; [by apply deref_elem|]. split; [by apply a_find_elem|].
  apply list_elem_of_fmap. by exists (k, v).
Qed.

Lemma wf_lookup_None c k :
  lru_wf c -> cache_ c !! k = None -> k ∉ (abs c).*1 /\ a_find k (abs c) = None.
Proof.
  intros [Hids Hkeys Hf Hm] Hk. assert (k ∉ (abs c).*1) as Hn.
  { intros ([k' v] & -> & ([it kv] & Hkv & Hin)%list_elem_of_fmap)%list_elem_of_fmap.
    cbn in *. subst. assert (cache_ c !! k' = Some it) by (apply Hm; eauto). congruence. }
  split; [done|by apply a_find_None].
Qed.

Lemma contains_ok c k : lru_wf c -> contains k c = bool_decide (k ∈ (abs c).*1).
Proof.
  intros Hwf. unfold contains. apply bool_decide_ext. split.
  - intros [it Hk]. by destruct (wf_lookup c k it Hwf Hk) as (v & _ & _ & _ & ?).
  - intros Hin. destruct (cache_ c !! k) eqn:Hk; [eauto|].
    by apply (wf_lookup_None c k Hwf) in Hk as [? _].
Qed.

Lemma size_ok c : lru_wf c -> cache_size c = length (abs c).
Proof. intros Hwf. unfold abs. rewrite length_fmap. by eapply ok_size. Qed.

(** The state after the node of [k] moved to the front with value [v']. *)
Lemma touch_ok c k v v' it :
  lru_wf c -> (it, (k, v)) ∈ keys_ c ->
  lru_wf (with_keys ((it, (k, v')) :: unlink it (keys_ c)) c) /\
  abs (with_keys ((it, (k, v')) :: unlink it (keys_ c)) c) = (k, v') :: a_del k (abs c).
Proof.
  intros Hwf Hin. split; [by eapply ok_touch|].
  destruct Hwf as [Hids Hkeys _ _]. unfold abs. cbn. f_equal. by eapply abs_unlink.
Qed.

Lemma splice_ok ks it kv :
  deref it ks = Some kv -> splice_front it ks = Ok ((it, kv) :: unlink it ks).
Proof. intros Hd. unfold splice_front. by rewrite Hd. Qed.

Lemma get_ok c k :
  lru_wf c ->
  match a_find k (abs c) with
  | Some v => exists c', get k c = Ok (v, c') /\ tryGet k c = Ok (Some v, c') /\ lru_wf c' /\
      abs c' = (k, v) :: a_del k (abs c) /\ maxSize_ c' = maxSize_ c /\ elasticity_ c' = elasticity_ c
  | None => get k c = Err KeyNotFound /\ tryGet k c = Ok (None, c)
  end.
Proof.
  intros Hwf. unfold get, tryGet. destruct (cache_ c !! k) as [it|] eqn:Hk.
  - destruct (wf_lookup c k it Hwf Hk) as (v & Hin & Hd & -> & _).
    destruct (touch_ok c k v v it Hwf Hin) as [Hwf' Habs].
    eexists. rewrite (splice_ok _ _ _ Hd). cbn. rewrite decide_True by done. done.
  - by destruct (wf_lookup_None c k Hwf Hk) as [_ ->].
Qed.

Lemma prune_ok c :
  lru_wf c -> exists c' n, prune c = Ok (c', n) /\ lru_wf c' /\
    abs c' = a_prune (maxSize_ c) (elasticity_ c) (abs c) /\
    maxSize_ c' = maxSize_ c /\ elasticity_ c' = elasticity_ c.
Proof.
  intros Hwf. unfold prune, a_prune. pose proof (ok_size _ _ _ Hwf) as Hsz. rewrite Hsz.
  replace (length (abs c)) with (length (keys_ c)) by (unfold abs; by rewrite length_fmap).
  destruct (_ || _); [by exists c, 0%nat|].
  destruct (prune_loop_ok (S (length (keys_ c))) _ _ _ (maxSize_ c) 0 Hwf) as (m' & n & -> & Hok);
    [lia|].
  eexists _, _. cbn. split; [done|]. split; [exact Hok|]. split; [|done].
  unfold abs. cbn. by rewrite fmap_take.
Qed.

Lemma insert_ok c k v :
  lru_wf c -> exists c', insert k v c = Ok c' /\ lru_wf c' /\
    abs c' = a_insert (maxSize_ c) (elasticity_ c) k v (abs c) /\
    maxSize_ c' = maxSize_ c /\ elasticity_ c' = elasticity_ c.
Proof.
  intros Hwf. unfold insert, a_insert. destruct (cache_ c !! k) as [it|] eqn:Hk.
  - destruct (wf_lookup c k it Hwf Hk) as (w & Hin & Hd & _ & Hmem).
    rewrite decide_True by done. destruct (touch_ok c k w v it Hwf Hin) as [Hwf' Habs].
    rewrite Hd. cbn. rewrite (splice_ok _ it (k, v)) by (by rewrite (deref_set_value _ _ _ _ Hd)).
    cbn. rewrite unlink_set_value. eexists. split; [done|]. by rewrite Habs.
  - destruct (wf_lookup_None c k Hwf Hk) as [Hn _]. rewrite decide_False by done.
    destruct (prune_ok (mkCache (<[k := next_node c]> (cache_ c)) ((next_node c, (k, v)) :: keys_ c)
      (maxSize_ c) (elasticity_ c) (S (next_node c)))) as (c' & n & -> & H1 & H2 & H3 & H4);
      [by apply ok_push|].
    by exists c'.
Qed.

Lemma remove_ok c k :
  lru_wf c -> exists c', remove k c = Ok (bool_decide (k ∈ (abs c).*1), c') /\ lru_wf c' /\
    abs c' = a_del k (abs c) /\ maxSize_ c' = maxSize_ c /\ elasticity_ c' = elasticity_ c.
Proof.
  intros Hwf. unfold remove. destruct (cache_ c !! k) as [it|] eqn:Hk.
  - destruct (wf_lookup c k it Hwf Hk) as (v & Hin & Hd & _ & Hmem).
    rewrite bool_decide_true by done. rewrite Hd. cbn. eexists. split; [done|].
    destruct (touch_ok c k v v it Hwf Hin) as [Hwf' _].
    pose proof Hwf as [Hids Hkeys Hf Hm].
    split; [|split; [by eapply abs_unlink|done]].
    (* the touched list without its head *)
    unfold lru_wf, with_keys in Hwf' |- *. cbn [cache_ keys_ next_node] in Hwf' |- *.
    destruct Hwf' as [I1 I2 I3 I4].
    cbn in I1, I2. apply NoDup_cons in I1 as [I1' I1]. apply NoDup_cons in I2 as [I2' I2].
    inversion I3; subst. split; try done.
    intros k' it'. rewrite lookup_delete. case_decide as Hkk.
    + subst. split; [done|]. intros [w Hw]. exfalso. apply I2'.
      apply list_elem_of_fmap. exists (k', w). split; [done|].
      apply list_elem_of_fmap. by exists (it', (k', w)).
    + rewrite I4. setoid_rewrite elem_of_cons. split; [intros [w [[=]|Hw]]; [done|eauto]|].
      intros [w Hw]. eauto.
  - destruct (wf_lookup_None c k Hwf Hk) as [Hn _]. rewrite bool_decide_false by done.
    exists c. split; [done|]. split; [done|]. split; [|done].
    unfold a_del. symmetry. clear Hk Hwf. revert Hn.
    generalize (abs c) as l. induction l as [|[k' v'] l IH]; intros Hn; [done|].
    cbn in Hn. apply not_elem_of_cons in Hn as [Hne Hn].
    rewrite filter_cons_True by (cbn; congruence). by rewrite IH.
Qed.

Lemma pruneValue_ok c :
  lru_wf c ->
  pruneValue c = match last (abs c) with Some kv => Ok kv.2 | None => Err EmptyAccess end.
Proof.
  intros [Hids Hkeys Hf Hm]. unfold pruneValue, abs.
  assert (last (snd <$> keys_ c) = snd <$> last (keys_ c)) as -> by apply fmap_last.
  destruct (last (keys_ c)) as [[it [k v]]|] eqn:Hl; [|reflexivity]. cbn.
  assert ((it, (k, v)) ∈ keys_ c) as Hin.
  { apply last_Some in Hl as [l' ->]. apply elem_of_app. right. apply elem_of_cons. by left. }
  rewrite (proj2 (Hm k it)) by eauto. cbn. by rewrite (deref_elem _ _ _ Hids Hin).
Qed.

Lemma new_wf n e : lru_wf (new_Cache n e).
Proof.
  split; cbn; [constructor|constructor|constructor|]. intros k it. rewrite lookup_empty.
  split; [done|]. intros [v Hv]. by apply not_elem_of_nil in Hv.
Qed.

Lemma clear_ok c : lru_wf (clear c) /\ abs (clear c) = [].
Proof.
  split; [|done]. split; cbn; [constructor|constructor|constructor|]. intros k it.
  rewrite lookup_empty. split; [done|]. intros [v Hv]. by apply not_elem_of_nil in Hv.
Qed.

Lemma a_insert_bound n e k v (l : list (K * V)) :
  NoDup l.*1 -> (0 < n)%nat -> (length l <= n + e)%nat -> (length (a_insert n e k v l) <= n + e)%nat.
Proof.
  intros Hnd Hn Hl. unfold a_insert, a_prune. case_decide as Hin.
  - cbn. assert (length (a_del k l) < length l)%nat; [|lia].
    apply list_elem_of_fmap in Hin as ([k' v'] & -> & Hin). unfold a_del. cbn.
    apply (length_filter_lt _ _ (k', v')); [done|]. cbn. by intros ?.
  - rewrite bool_decide_false by lia. cbn [length orb].
    destruct (Nat.ltb_spec (S (length l)) (n + e)); [cbn [length]; lia|].
    rewrite length_take. cbn [length]. lia.
Qed.

(** ** Runs of the cache *)

Inductive op :=
  | OInsert (k : K) (v : V)
  | OTryGet (k : K)
  | ORemove (k : K)
  | OClear.

Definition run_op (o : op) (c : Cache) : result Cache :=
  match o with
  | OInsert k v => insert k v c
  | OTryGet k => r ← tryGet k c; Ok r.2
  | ORemove k => r ← remove k c; Ok r.2
  | OClear => Ok (clear c)
  end.

Fixpoint run_ops (os : list op) (c : Cache) : result Cache :=
  match os with
  | [] => Ok c
  | o :: os' => c ← run_op o c; run_ops os' c
  end.

Lemma a_touch_perm k v (l : list (K * V)) :
  NoDup l.*1 -> a_find k l = Some v -> (k, v) :: a_del k l ≡ₚ l.
Proof.
  unfold a_del. induction l as [|[k' v'] l IH]; cbn [a_find fmap list_fmap]; [done|].
  intros [Hk Hnd]%NoDup_cons Hf. rewrite filter_cons. cbn. destruct (decide (k' = k)) as [->|Hne].
  - injection Hf as ->. rewrite decide_False by tauto. f_equiv.
    clear IH Hnd. induction l as [|[k'' w] l IH]; [done|]. cbn in Hk.
    apply not_elem_of_cons in Hk as [Hk1 Hk2]. rewrite filter_cons_True by (cbn; congruence).
    f_equiv. by apply IH.
  - rewrite decide_True by done. rewrite Permutation_swap. f_equiv. by apply IH.
Qed.

Lemma a_find_key k v (l : list (K * V)) : a_find k l = Some v -> k ∈ l.*1.
Proof.
  induction l as [|[k' v'] l IH]; cbn [a_find fmap list_fmap]; [done|]. cbn.
  intros Hf. apply elem_of_cons. case_decide; [by left|right; by apply IH].
Qed.

Lemma a_find_is_Some k (l : list (K * V)) : k ∈ l.*1 -> exists v, a_find k l = Some v /\ (k, v) ∈ l.
Proof.
  induction l as [|[k' v'] l IH]; cbn [a_find fmap list_fmap]; cbn.
  - intros Hin. by apply not_elem_of_nil in Hin.
  - intros Hin%elem_of_cons. case_decide as Hk.
    + exists v'. subst. split; [done|by left].
    + destruct Hin as [->|Hin]; [done|]. destruct (IH Hin) as (v & Hv & Hin').
      exists v. split; [done|by right].
Qed.

Lemma length_a_del k (l : list (K * V)) : (length (a_del k l) <= length l)%nat.
Proof. apply length_filter. Qed.

Lemma run_op_ok o c :
  lru_wf c -> (0 < maxSize_ c)%nat -> (length (abs c) <= getMaxAllowedSize c)%nat ->
  exists c', run_op o c = Ok c' /\ lru_wf c' /\ maxSize_ c' = maxSize_ c /\
    elasticity_ c' = elasticity_ c /\ (length (abs c') <= getMaxAllowedSize c')%nat.
Proof.
  intros Hwf Hmax Hlen. unfold getMaxAllowedSize in *. destruct o as [k v|k|k|]; cbn.
  - destruct (insert_ok c k v Hwf) as (c' & -> & Hwf' & Habs & H1 & H2).
    exists c'. split_and!; try done. rewrite Habs, H1, H2.
    apply a_insert_bound; [apply Hwf|done|done].
  - pose proof (get_ok c k Hwf) as Hg. destruct (a_find k (abs c)) as [v|] eqn:Hf.
    + destruct Hg as (c' & _ & -> & Hwf' & Habs & H1 & H2). exists c'. split_and!; try done.
      rewrite Habs, H1, H2. cbn [length].
      assert (length (a_del k (abs c)) < length (abs c))%nat; [|lia].
      clear - Hf. induction (abs c) as [|[k' v'] l IH]; [done|]. unfold a_del in *. cbn in Hf.
      rewrite filter_cons. cbn. destruct (decide (k' = k)) as [->|Hne].
      * rewrite decide_False by tauto. pose proof (length_filter (fun kv : K * V => kv.1 <> k) l). lia.
      * rewrite decide_True by done. cbn. specialize (IH Hf). lia.
    + destruct Hg as [_ ->]. by exists c.
  - destruct (remove_ok c k Hwf) as (c' & -> & Hwf' & Habs & H1 & H2). cbn. exists c'.
    split_and!; try done. rewrite Habs, H1, H2. pose proof (length_a_del k (abs c)). lia.
  - destruct (clear_ok c) as [Hwf' Habs]. eexists. split; [done|]. split; [done|].
    rewrite Habs. cbn. split_and!; try done. lia.
Qed.
End Cache.

Arguments node : clear implicits.
Arguments Cache K V {_ _}.

(** ** Properties *)

(** C31: the map-and-list cache implements a recency list: from a well-formed
    cache, [insert] overwrites and moves to the front, or adds in front and
    prunes from the back; [get] and [tryGet] return the stored value and move
    it to the front, or report the key missing; [remove] deletes; [contains],
    [size] and [pruneValue] read off the list (its keys, its length, its last
    value); no operation follows a dangling iterator, and each one leaves a
    well-formed cache. *)
Theorem lru_refines_recency_list `{Countable K} {V : Type} (c : Cache K V) (k : K) (v : V)
    (Hwf : lru_wf c) :
  (exists c', insert k v c = Ok c' /\ lru_wf c' /\
     abs c' = a_insert (maxSize_ c) (elasticity_ c) k v (abs c)) /\
  match a_find k (abs c) with
  | Some w => exists c', get k c = Ok (w, c') /\ tryGet k c = Ok (Some w, c') /\ lru_wf c' /\
      abs c' = (k, w) :: a_del k (abs c)
  | None => get k c = Err KeyNotFound /\ tryGet k c = Ok (None, c)
  end /\
  (exists c', remove k c = Ok (bool_decide (k ∈ (abs c).*1), c') /\ lru_wf c' /\
     abs c' = a_del k (abs c)) /\
  contains k c = bool_decide (k ∈ (abs c).*1) /\
  cache_size c = length (abs c) /\
  pruneValue c = match last (abs c) with Some kv => Ok kv.2 | None => Err EmptyAccess end.
Proof.
  split; [destruct (insert_ok c k v Hwf) as (c' & ? & ? & ? & _); eauto|].
  split.
  { pose proof (get_ok c k Hwf) as Hg. destruct (a_find k (abs c)); [|done].
    destruct Hg as (c' & ? & ? & ? & ? & _). eauto. }
  split; [destruct (remove_ok c k Hwf) as (c' & ? & ? & ? & _); eauto|].
  split; [by apply contains_ok|]. split; [by apply size_ok|by apply pruneValue_ok].
Qed.

Lemma lru_refines_recency_list_witness :
  exists c' : Cache string Z, insert "a"%string 1 (new_Cache 2 0) = Ok c' /\ lru_wf c' /\
    abs c' = [("a"%string, 1)].
Proof.
  destruct (lru_refines_recency_list (new_Cache 2 0) "a"%string 1 (new_wf 2 0)) as [H _].
  exact H.
Defined.

(** C32: from an empty cache with a positive [maxSize], every sequence of
    insertions, lookups, removals and clears runs without a fault and never
    leaves more than [maxSize + elasticity] entries. *)
Theorem lru_never_exceeds_bound `{Countable K} {V : Type} (n e : nat) (os : list (@op K V))
    (Hn : (0 < n)%nat) :
  exists c, run_ops os (new_Cache n e) = Ok c /\ lru_wf c /\ (cache_size c <= n + e)%nat.
Proof.
  assert (forall c : Cache K V, lru_wf c -> maxSize_ c = n -> elasticity_ c = e ->
    (length (abs c) <= getMaxAllowedSize c)%nat ->
    exists c', run_ops os c = Ok c' /\ lru_wf c' /\ (cache_size c' <= n + e)%nat) as Hrun.
  { induction os as [|o os IH]; intros c Hwf Hmax Hel Hlen; cbn [run_ops].
    - exists c. split_and!; try done. rewrite size_ok by done.
      unfold getMaxAllowedSize in Hlen. lia.
    - destruct (run_op_ok o c Hwf) as (c1 & -> & Hwf1 & H1 & H2 & H3); [lia|done|].
      cbn. apply IH; congruence || done. }
  apply Hrun; [apply new_wf|done|done|]. unfold getMaxAllowedSize. cbn. lia.
Qed.

Lemma lru_never_exceeds_bound_witness :
  exists c : Cache string Z,
    run_ops [OInsert "a"%string 1; OInsert "b"%string 2; OTryGet "a"%string] (new_Cache 1 0) = Ok c /\
    lru_wf c /\ (cache_size c <= 1 + 0)%nat.
Proof. apply lru_never_exceeds_bound. lia. Defined.
