(* ===== verification/ReadCache.v ===== *)
(** * The container cache

    [src/util/readCache.cc]: the read cache of the restore and delta paths, an
    LRU map from container names to slots of a pool of [CONTAINER_CACHE_SIZE]
    buffers of [CONTAINER_MAX_SIZE] bytes.  A slot is the list of its known
    bytes (the rest was never written).  [rc_rel] relates the class to its
    specification: the recency list of the (name, container) pairs it holds. *)

From S2P Require Import Prelude Define LruCache.

Record ReadCache := mkReadCache {
  readCache_ : Cache string Z;
  containerPool_ : list bytes;
  cacheSize_ : Z;
  currentIndex_ : Z
}.

Definition new_ReadCache : ReadCache :=
  mkReadCache (new_Cache (Z.to_nat CONTAINER_CACHE_SIZE) 0)
    (replicate (Z.to_nat CONTAINER_CACHE_SIZE) []) CONTAINER_CACHE_SIZE 0.

(** [memcpy(containerPool_[index], data, length)]. *)
Definition pool_write (index : Z) (data : bytes) (length_ : Z) (pool : list bytes)
    : result (list bytes) :=
  if bool_decide (len pool <= index) || (index <? 0) then Err BadPointer
  else if CONTAINER_MAX_SIZE <? length_ then Err OobWrite
  else if len data <? length_ then Err OobRead
  else Ok (alter (fun slot => blit slot 0 (ztake length_ data)) (Z.to_nat index) pool).

Definition InsertToCache (name : string) (data : bytes) (length_ : Z) (rc : ReadCache)
    : result ReadCache :=
  if cacheSize_ rc <? Z.of_nat (cache_size (readCache_ rc)) + 1 then
    replaceIndex ← pruneValue (readCache_ rc);
    pool ← pool_write replaceIndex data length_ (containerPool_ rc);
    c ← insert name replaceIndex (readCache_ rc);
    Ok (mkReadCache c pool (cacheSize_ rc) (currentIndex_ rc))
  else
    pool ← pool_write (currentIndex_ rc) data length_ (containerPool_ rc);
    c ← insert name (w32 (currentIndex_ rc)) (readCache_ rc);
    Ok (mkReadCache c pool (cacheSize_ rc) (currentIndex_ rc + 1)%u64).

Definition ExistsInCache (name : string) (rc : ReadCache) : bool := contains name (readCache_ rc).

(** The slot a [ReadFromCache] pointer designates, and the cache after the
    lookup has moved the name to the front. *)
Definition ReadFromCache (name : string) (rc : ReadCache) : result (Z * ReadCache) :=
  r ← get name (readCache_ rc);
  Ok (r.1, mkReadCache r.2 (containerPool_ rc) (cacheSize_ rc) (currentIndex_ rc)).

(** The bytes of a slot. *)
Definition slot (i : Z) (rc : ReadCache) : bytes := containerPool_ rc !!! Z.to_nat i.

(** ** Invariant and specification *)

Record rc_ok (rc : ReadCache) : Prop := {
  rco_wf : lru_wf (readCache_ rc);
  rco_max : maxSize_ (readCache_ rc) = 64%nat;
  rco_el : elasticity_ (readCache_ rc) = 0%nat;
  rco_size : cacheSize_ rc = 64;
  rco_pool : length (containerPool_ rc) = 64%nat;
  rco_cap : (length (abs (readCache_ rc)) <= 64)%nat;
  rco_cur : currentIndex_ rc = len (abs (readCache_ rc));
  rco_slots : NoDup (abs (readCache_ rc)).*2;
  rco_range : Forall (fun i => 0 <= i < currentIndex_ rc) (abs (readCache_ rc)).*2
}.

(** The slot of a cached name starts with the container cached under it. *)
Definition holds (rc : ReadCache) (kv : string * Z) (nb : string * bytes) : Prop :=
  kv.1 = nb.1 /\ exists rest, slot kv.2 rc = nb.2 ++ rest.

Definition rc_rel (rc : ReadCache) (l : list (string * bytes)) : Prop :=
  rc_ok rc /\ Forall2 (holds rc) (abs (readCache_ rc)) l.

(** The specification of an insertion under a new name. *)
Definition spec_insert (name : string) (b : bytes) (l : list (string * bytes)) :=
  take 64 ((name, b) :: l).

Lemma holds_names rc xs l : Forall2 (holds rc) xs l -> xs.*1 = l.*1.
Proof. induction 1 as [|kv nb xs l [Hk _] _ IH]; [done|]. cbn. by rewrite Hk, IH. Qed.

Lemma a_find_holds rc xs l name :
  Forall2 (holds rc) xs l ->
  match a_find name xs, a_find name l with
  | Some i, Some b => exists rest, slot i rc = b ++ rest
  | None, None => True
  | _, _ => False
  end.
Proof.
  induction 1 as [|[k i] [k' b] xs l [Hk Hs] _ IH]; [done|]. cbn in *. subst k'.
  by case_decide.
Qed.

Lemma a_del_holds rc xs l name :
  Forall2 (holds rc) xs l -> Forall2 (holds rc) (a_del name xs) (a_del name l).
Proof.
  unfold a_del. induction 1 as [|[k i] [k' b] xs l Hh _ IH]; [constructor|].
  pose proof Hh as [Hk _]. cbn in Hk. subst k'. rewrite !filter_cons. cbn.
  case_decide; [by constructor|done].
Qed.

Lemma new_rc_rel : rc_rel new_ReadCache [].
Proof.
  split; [|constructor].
  split; cbn; [apply new_wf|done|done|done|done|lia|symmetry; apply len_nil|constructor|constructor].
Qed.

Lemma pool_write_ok index data n pool :
  0 <= index < len pool -> 0 <= n <= CONTAINER_MAX_SIZE -> n <= len data ->
  exists pool', pool_write index data n pool = Ok pool' /\ length pool' = length pool /\
    (exists rest, pool' !!! Z.to_nat index = ztake n data ++ rest) /\
    (forall j, 0 <= j -> j <> index -> pool' !!! Z.to_nat j = pool !!! Z.to_nat j).
Proof.
  intros Hi Hn Hd. unfold pool_write.
  rewrite bool_decide_false, (proj2 (Z.ltb_ge index 0)), (proj2 (Z.ltb_ge _ n)),
    (proj2 (Z.ltb_ge _ n)) by lia. cbn [orb].
  eexists. split; [done|]. split; [by rewrite length_alter|].
  rewrite len_length in Hi. split.
  - assert (Z.to_nat index < length pool)%nat as Hlt by lia.
    apply lookup_lt_is_Some_2 in Hlt as [s Hs]. eexists.
    apply list_lookup_total_correct. rewrite list_lookup_alter, decide_True, Hs by done.
    cbn. unfold blit. rewrite (ztake_nonpos 0) by lia. reflexivity.
  - intros j Hj Hne. rewrite !list_lookup_total_alt, list_lookup_alter, decide_False by lia. done.
Qed.

Lemma slot_agree rc rc' xs l :
  Forall (fun kv : string * Z => slot kv.2 rc' = slot kv.2 rc) xs ->
  Forall2 (holds rc) xs l -> Forall2 (holds rc') xs l.
Proof.
  intros Hs H. induction H as [|kv nb xs l [Hk [r Hr]] H IH]; [constructor|].
  inversion Hs; subst. constructor; [|by apply IH]. split; [done|]. exists r. congruence.
Qed.

(** ** The operations *)

(** A new name goes to the front of the LRU map; beyond 64 names the last one
    leaves. *)
Lemma lru_insert_miss (c : Cache string Z) name v :
  lru_wf c -> maxSize_ c = 64%nat -> elasticity_ c = 0%nat -> name ∉ (abs c).*1 ->
  (length (abs c) <= 64)%nat ->
  exists c', insert name v c = Ok c' /\ lru_wf c' /\ maxSize_ c' = 64%nat /\
    elasticity_ c' = 0%nat /\ abs c' = take 64 ((name, v) :: abs c).
Proof.
  intros Hwf Hmax Hel Hname Hcap.
  destruct (insert_ok _ name v Hwf) as (c' & Hc' & Hwf' & Habs & H1 & H2).
  exists c'. split_and!; try congruence. rewrite Habs. unfold a_insert, a_prune.
  rewrite decide_False by done. rewrite Hmax, Hel, bool_decide_false by done. cbn [orb].
  destruct (Nat.ltb_spec (length ((name, v) :: abs c)) (64 + 0)); [|done].
  rewrite take_ge by lia. done.
Qed.

(** An insertion reuses no slot but the least recently used of a full cache. *)
Definition kept (rc rc' : ReadCache) : Prop :=
  forall k i, (k, i) ∈ take 63 (abs (readCache_ rc)) -> slot i rc' = slot i rc.

Section Insert.
Context (rc : ReadCache) (l : list (string * bytes)) (name : string) (data : bytes) (n : Z).
Context (Hok : rc_ok rc) (Hl : Forall2 (holds rc) (abs (readCache_ rc)) l).
Context (Hname : name ∉ l.*1) (Hn : 0 <= n <= CONTAINER_MAX_SIZE) (Hd : n <= len data).

Lemma miss_key : name ∉ (abs (readCache_ rc)).*1.
Proof using Hl Hname. by rewrite (holds_names _ _ _ Hl). Qed.

Lemma slot_range i : i ∈ (abs (readCache_ rc)).*2 -> 0 <= i < currentIndex_ rc.
Proof using Hok. revert i. apply Forall_forall, (rco_range _ Hok). Qed.

(** Full cache: the slot of the least recently used name is reused. *)
Lemma insert_full xs k0 i0 :
  abs (readCache_ rc) = xs ++ [(k0, i0)] -> length xs = 63%nat ->
  exists rc', InsertToCache name data n rc = Ok rc' /\
    rc_rel rc' (spec_insert name (ztake n data) l) /\ kept rc rc'.
Proof using Hok Hl Hname Hn Hd.
  intros Hxs H63. pose proof miss_key as Hk. pose proof slot_range as Hrange.
  destruct Hok as [Hwf Hmax Hel Hsz Hpool Hcap Hcur Hslots _].
  pose proof (len_length (abs (readCache_ rc))) as Hll.
  assert (length (abs (readCache_ rc)) = 64)%nat as H64 by (rewrite Hxs, length_app; cbn; lia).
  unfold InsertToCache. rewrite (size_ok _ Hwf), Hsz, H64, (pruneValue_ok _ Hwf), Hxs, last_snoc.
  cbn -[pool_write]. rewrite Hxs, fmap_app in Hslots, Hrange. cbn [fmap list_fmap] in Hslots, Hrange.
  apply NoDup_app in Hslots as (Hnx & Hdis & _).
  assert (i0 ∉ xs.*2) as Hnotin.
  { intros Hin. apply (Hdis i0 Hin). apply elem_of_cons. by left. }
  assert (0 <= i0 < currentIndex_ rc) as Hi0 by (apply Hrange, elem_of_app; right; by left).
  destruct (pool_write_ok i0 data n (containerPool_ rc)) as (pool' & -> & Hp' & Hnew & Hkeep);
    [rewrite len_length; lia|lia|lia|]. cbn [mbind result_bind].
  destruct (lru_insert_miss (readCache_ rc) name i0 Hwf Hmax Hel Hk Hcap)
    as (c' & -> & Hwf' & Hmax' & Hel' & Habs'). cbn [mbind result_bind].
  rewrite Hxs, (app_comm_cons xs), take_app_le, take_ge in Habs' by (cbn; lia).
  eexists. split; [done|]. split; [split; cbn -[spec_insert]; rewrite ?Habs'|].
  - split; cbn -[spec_insert]; rewrite ?Habs'; try done; try congruence; cbn; try lia.
    + rewrite Hcur, Hll, len_length, H64. cbn. lia.
    + by apply NoDup_cons.
    + constructor; [done|]. apply Forall_forall. intros i Hi. apply Hrange, elem_of_app. by left.
  - unfold spec_insert. rewrite Hxs in Hl.
    apply Forall2_app_inv_l in Hl as (l1 & l2 & Hl1 & _ & ->).
    pose proof (Forall2_length _ _ _ Hl1).
    rewrite take_app_le, take_ge by lia.
    constructor; [by split|]. eapply slot_agree; [|exact Hl1].
    apply Forall_forall. intros [k i] Hin. cbn.
    assert (i ∈ xs.*2) as Hi2 by (apply list_elem_of_fmap; by exists (k, i)).
    apply Hkeep; [|congruence]. apply Hrange, elem_of_app. by left.
  - intros k i Hin. rewrite Hxs, take_app_le, take_ge in Hin by lia. unfold slot. cbn.
    assert (i ∈ xs.*2) as Hi2 by (apply list_elem_of_fmap; by exists (k, i)).
    apply Hkeep; [|congruence]. apply Hrange, elem_of_app. by left.
Qed.

(** Otherwise the next slot of the pool is taken. *)
Lemma insert_room :
  (length (abs (readCache_ rc)) < 64)%nat ->
  exists rc', InsertToCache name data n rc = Ok rc' /\
    rc_rel rc' (spec_insert name (ztake n data) l) /\ kept rc rc'.
Proof using Hok Hl Hname Hn Hd.
  intros Hroom. pose proof miss_key as Hk. pose proof slot_range as Hrange.
  destruct Hok as [Hwf Hmax Hel Hsz Hpool Hcap Hcur Hslots _].
  pose proof (len_length (abs (readCache_ rc))) as Hll.
  pose proof (Forall2_length _ _ _ Hl) as Hlen.
  unfold InsertToCache. rewrite (size_ok _ Hwf), Hsz, (proj2 (Z.ltb_ge 64 _)) by lia.
  destruct (pool_write_ok (currentIndex_ rc) data n (containerPool_ rc))
    as (pool' & -> & Hp' & Hnew & Hkeep); [rewrite len_length; lia|lia|lia|].
  cbn [mbind result_bind]. rewrite w32_small, w64_small by lia.
  destruct (lru_insert_miss (readCache_ rc) name (currentIndex_ rc) Hwf Hmax Hel Hk Hcap)
    as (c' & -> & Hwf' & Hmax' & Hel' & Habs').
  cbn [mbind result_bind]. rewrite take_ge in Habs' by (cbn; lia).
  eexists. split; [done|]. split; [split; cbn -[spec_insert]; rewrite ?Habs'|].
  - split; cbn -[spec_insert]; rewrite ?Habs'; try done; try congruence; cbn; try lia.
    + slia.
    + apply NoDup_cons. split; [|done]. intros Hin%Hrange. lia.
    + constructor; [lia|]. apply Forall_forall. intros i Hi%Hrange. lia.
  - unfold spec_insert. rewrite take_ge by (cbn; lia).
    constructor; [by split|]. eapply slot_agree; [|exact Hl].
    apply Forall_forall. intros [k i] Hin. cbn.
    assert (i ∈ (abs (readCache_ rc)).*2) as Hi2%Hrange
      by (apply list_elem_of_fmap; by exists (k, i)).
    apply Hkeep; lia.
  - intros k i Hin. rewrite take_ge in Hin by lia. unfold slot. cbn.
    assert (i ∈ (abs (readCache_ rc)).*2) as Hi2%Hrange
      by (apply list_elem_of_fmap; by exists (k, i)).
    apply Hkeep; lia.
Qed.
End Insert.

Lemma insert_miss_ok rc l name data n :
  rc_rel rc l -> name ∉ l.*1 -> 0 <= n <= CONTAINER_MAX_SIZE -> n <= len data ->
  exists rc', InsertToCache name data n rc = Ok rc' /\
    rc_rel rc' (spec_insert name (ztake n data) l) /\ kept rc rc'.
Proof.
  intros [Hok Hl] Hname Hn Hd. pose proof (rco_cap _ Hok) as Hcap.
  destruct (decide (length (abs (readCache_ rc)) < 64)%nat) as [Hlt|Hge].
  { by apply insert_room. }
  destruct (last (abs (readCache_ rc))) as [[k0 i0]|] eqn:Hlast.
  - apply last_Some in Hlast as [xs Hxs]. eapply insert_full; try done.
    rewrite Hxs, length_app in Hge, Hcap. cbn in Hge, Hcap. lia.
  - apply last_None in Hlast. rewrite Hlast in Hge. cbn in Hge. lia.
Qed.

Lemma exists_ok rc l name :
  rc_rel rc l -> ExistsInCache name rc = bool_decide (name ∈ l.*1).
Proof.
  intros [Hok Hl]. unfold ExistsInCache. rewrite (contains_ok _ _ (rco_wf _ Hok)).
  by rewrite (holds_names _ _ _ Hl).
Qed.

Lemma read_hit_ok rc l name b :
  rc_rel rc l -> a_find name l = Some b ->
  exists i rc' rest, ReadFromCache name rc = Ok (i, rc') /\
    rc_rel rc' ((name, b) :: a_del name l) /\
    slot i rc' = b ++ rest /\ containerPool_ rc' = containerPool_ rc /\ 0 <= i < 64 /\
    (name, i) ∈ take 63 (abs (readCache_ rc')).
Proof.
  intros [Hok Hl] Hfind. pose proof (a_find_holds _ _ _ name Hl) as Hf. rewrite Hfind in Hf.
  pose proof (get_ok (readCache_ rc) name (rco_wf _ Hok)) as Hget.
  destruct (a_find name (abs (readCache_ rc))) as [i|] eqn:Hi; [|done].
  destruct Hf as [rest Hrest]. destruct Hget as (c' & Hc' & _ & Hwf' & Habs & Hmax & Hel).
  unfold ReadFromCache. rewrite Hc'. cbn. eexists _, _, rest. split; [done|]. cbn.
  pose proof Hok as [Hwf Hmax0 Hel0 Hsz Hpool Hcap Hcur Hslots Hrange].
  assert ((name, i) :: a_del name (abs (readCache_ rc)) ≡ₚ abs (readCache_ rc)) as Hperm
    by (apply a_touch_perm; [apply (ok_keys _ _ _ Hwf)|done]).
  assert (0 <= i < currentIndex_ rc) as Hir.
  { rewrite <- Hperm in Hrange. by inversion Hrange. }
  split_and!; try done; [|rewrite Hcur, len_length in Hir; lia..|rewrite Habs; by left].
  split.
  - split; cbn; try done; try congruence.
    + by rewrite Habs, Hperm.
    + by rewrite Hcur, Habs, !len_length, Hperm.
    + by rewrite Habs, Hperm.
    + by rewrite Habs, Hperm.
  - cbn. rewrite Habs. constructor; [split; [done|by exists rest]|].
    eapply slot_agree; [|by apply a_del_holds]. apply Forall_forall. done.
Qed.

(** ** Properties *)

(** C29: the container cache implements an LRU list of at most 64 containers:
    membership is membership in the list; inserting a container under a new
    name puts it in front (dropping the 65th) with the copied bytes; a hit
    returns a slot of the pool that starts with the container's bytes and moves
    the name to the front.  No slot index leaves the pool. *)
Theorem read_cache_refines (rc : ReadCache) (l : list (string * bytes)) (name : string)
    (data : bytes) (n : Z) (Hrel : rc_rel rc l) (Hn : 0 <= n <= CONTAINER_MAX_SIZE)
    (Hd : n <= len data) :
  ExistsInCache name rc = bool_decide (name ∈ l.*1) /\
  (name ∉ l.*1 -> exists rc', InsertToCache name data n rc = Ok rc' /\
     rc_rel rc' (spec_insert name (ztake n data) l)) /\
  (forall b, a_find name l = Some b -> exists i rc' rest, ReadFromCache name rc = Ok (i, rc') /\
     rc_rel rc' ((name, b) :: a_del name l) /\ slot i rc' = b ++ rest /\ 0 <= i < 64).
Proof.
  split; [by apply exists_ok|]. split.
  - intros Hname. destruct (insert_miss_ok rc l name data n Hrel Hname Hn Hd) as (rc' & ? & ? & _).
    eauto.
  - intros b Hb. destruct (read_hit_ok rc l name b Hrel Hb) as (i & rc' & rest & ? & ? & ? & _ & ? & _).
    eauto 10.
Qed.

Lemma read_cache_refines_witness :
  exists rc', InsertToCache "7"%string [1; 2; 3] 2 new_ReadCache = Ok rc' /\
    rc_rel rc' (spec_insert "7"%string [1; 2] []).
Proof.
  destruct (read_cache_refines new_ReadCache [] "7"%string [1; 2; 3] 2 new_rc_rel) as (_ & H & _).
  - by unfold CONTAINER_MAX_SIZE.
  - by vm_compute.
  - apply H. by apply not_elem_of_nil.
Defined.

(** C30: a pointer into the pool stays valid across the next container load:
    after a hit on [name], the insertion of any other container leaves the
    bytes of the slot that was returned in place.  (The restore path holds the
    pointer to a delta while it loads the container of its base.) *)
Theorem read_pointer_survives_insert (rc rc' : ReadCache) (l : list (string * bytes))
    (name other : string) (b data : bytes) (n i : Z)
    (Hrel : rc_rel rc l) (Hb : a_find name l = Some b)
    (Hread : ReadFromCache name rc = Ok (i, rc'))
    (Hother : other ∉ l.*1) (Hn : 0 <= n <= CONTAINER_MAX_SIZE) (Hd : n <= len data) :
  exists rc'' rest, InsertToCache other data n rc' = Ok rc'' /\ slot i rc'' = b ++ rest.
Proof.
  destruct (read_hit_ok rc l name b Hrel Hb) as (i' & rc1 & rest & Hr & Hrel1 & Hs & _ & _ & Hin).
  rewrite Hread in Hr. injection Hr as <- <-.
  destruct (insert_miss_ok rc' _ other data n Hrel1) as (rc'' & Hi & _ & Hk); [|done|done|].
  - cbn. assert (name ∈ l.*1) as Hm by (by eapply a_find_key).
    intros [->|Hx]%elem_of_cons; [done|]. apply Hother.
    apply list_elem_of_fmap in Hx as (kv & -> & Hkv). unfold a_del in Hkv.
    apply list_elem_of_filter in Hkv as [_ Hkv]. apply list_elem_of_fmap. by exists kv.
  - exists rc'', rest. split; [done|]. by rewrite (Hk name i Hin).
Qed.

Lemma read_pointer_survives_insert_witness :
  exists rc rc' rc'' i rest, InsertToCache "0"%string [5; 6] 2 new_ReadCache = Ok rc /\
    ReadFromCache "0"%string rc = Ok (i, rc') /\
    InsertToCache "1"%string [9] 1 rc' = Ok rc'' /\ slot i rc'' = [5; 6] ++ rest.
Proof.
  assert (0 <= 2 <= CONTAINER_MAX_SIZE) as H2 by done.
  assert (0 <= 1 <= CONTAINER_MAX_SIZE) as H1 by done.
  destruct (insert_miss_ok new_ReadCache [] "0"%string [5; 6] 2 new_rc_rel) as (rc & Hrc & Hrel & _);
    [by apply not_elem_of_nil|done|by vm_compute|].
  destruct (read_hit_ok rc _ "0"%string [5; 6] Hrel eq_refl) as (i & rc' & _ & Hr & _).
  destruct (read_pointer_survives_insert rc rc' _ "0"%string "1"%string [5; 6] [9] 1 i Hrel eq_refl Hr)
    as (rc'' & rest & H'' & Hs); [|done|by vm_compute|].
  - cbn. intros [H|H]%elem_of_cons; [done|by apply not_elem_of_nil in H].
  - exists rc, rc', rc'', i, rest. done.
Defined.
