(* ===== verification/Lz4.v ===== *)
(** * LZ4

    [util/lz4.c] as the program uses it: [LZ4_compress_fast] and
    [LZ4_decompress_safe] of a 64-bit little-endian build, with the fast decoding
    loop.  The source instantiates two generic functions at compile time; the
    model has the instances that these calls reach (no dictionary, tables of
    32-bit or 16-bit indices, output unlimited or limited, full decoding).

    Pointers are offsets: into [src], which is read only, and into the
    destination, which is the state of the monad.  Every access is checked
    against the bounds of its buffer. *)

From S2P Require Import Prelude.

Definition MINMATCH : Z := 4.
Definition WILDCOPYLENGTH : Z := 8.
Definition LASTLITERALS : Z := 5.
Definition MFLIMIT : Z := 12.
Definition MATCH_SAFEGUARD_DISTANCE : Z := 2 * WILDCOPYLENGTH - MINMATCH.
Definition FASTLOOP_SAFE_DISTANCE : Z := 64.
Definition LZ4_minLength : Z := MFLIMIT + 1.
Definition LZ4_DISTANCE_MAX : Z := 65535.
Definition ML_BITS : Z := 4.
Definition ML_MASK : Z := 15.
Definition RUN_MASK : Z := 15.
Definition LZ4_HASHLOG : Z := 12.
Definition LZ4_64Klimit : Z := 65536 + (MFLIMIT - 1).
Definition LZ4_skipTrigger : Z := 6.
Definition LZ4_MAX_INPUT_SIZE : Z := 2113929216.
Definition LZ4_ACCELERATION_DEFAULT : Z := 1.
Definition LZ4_ACCELERATION_MAX : Z := 65537.

(** [LZ4_compressBound], of an [int]. *)
Definition LZ4_compressBound (isize : Z) : Z :=
  if LZ4_MAX_INPUT_SIZE <? w32 isize then 0 else isize + isize / 255 + 16.

(** ** Memory *)

Definition at_ (buf : bytes) (i : Z) : Z := default 0 (buf !! Z.to_nat i).

(** [n] bytes from offset [i]. *)
Definition read_n (n : Z) (buf : bytes) (i : Z) : result bytes :=
  if (0 <=? i) && (i + n <=? len buf) then Ok (sub i n buf) else Err OobRead.

Definition read_byte (buf : bytes) (i : Z) : result Z :=
  if (0 <=? i) && (i <? len buf) then Ok (at_ buf i) else Err OobRead.

Definition LZ4_read16 (buf : bytes) (i : Z) : result Z := bs ← read_n 2 buf i; Ok (le_get bs).
Definition LZ4_read32 (buf : bytes) (i : Z) : result Z := bs ← read_n 4 buf i; Ok (le_get bs).
Definition LZ4_read_ARCH (buf : bytes) (i : Z) : result Z := bs ← read_n 8 buf i; Ok (le_get bs).

Abbreviation D := (M bytes).

(** Reading and writing the destination. *)
Definition load (n i : Z) : D bytes := fun d =>
  match read_n n d i with Ok bs => Ok (bs, d) | Err e => Err e end.

Definition store (i : Z) (bs : bytes) : D unit := fun d =>
  if (0 <=? i) && (i + len bs <=? len d) then Ok (tt, blit d i bs) else Err OobWrite.

(** [LZ4_memcpy(d, s, n)], [rd] reading the region [s] points into. *)
Definition LZ4_memcpy (rd : Z -> Z -> D bytes) (d s n : Z) : D unit :=
  bs ← rd n s;
  store d bs.

Fixpoint wildCopy8_loop (fuel : nat) (rd : Z -> Z -> D bytes) (d s e : Z) : D unit :=
  match fuel with
  | O => throw OutOfFuel
  | S fuel' =>
      LZ4_memcpy rd d s 8 ;;
      if d + 8 <? e then wildCopy8_loop fuel' rd (d + 8) (s + 8) e else mret tt
  end.

Definition LZ4_wildCopy8 (rd : Z -> Z -> D bytes) (d s e : Z) : D unit :=
  wildCopy8_loop (S (Z.to_nat (e - d))) rd d s e.

Fixpoint wildCopy32_loop (fuel : nat) (rd : Z -> Z -> D bytes) (d s e : Z) : D unit :=
  match fuel with
  | O => throw OutOfFuel
  | S fuel' =>
      LZ4_memcpy rd d s 16 ;;
      LZ4_memcpy rd (d + 16) (s + 16) 16 ;;
      if d + 32 <? e then wildCopy32_loop fuel' rd (d + 32) (s + 32) e else mret tt
  end.

Definition LZ4_wildCopy32 (rd : Z -> Z -> D bytes) (d s e : Z) : D unit :=
  wildCopy32_loop (S (Z.to_nat (e - d))) rd d s e.

(** ** Common bytes *)

(** [__builtin_ctzll]. *)
Fixpoint ctz (fuel : nat) (x : Z) : Z :=
  match fuel with
  | O => 0
  | S fuel' => if Z.odd x then 0 else 1 + ctz fuel' (x / 2)
  end.

Definition LZ4_NbCommonBytes (val : Z) : Z := Z.shiftr (ctz 64 val) 3.

Section Count.
Context (src : bytes).

(** The first test of [LZ4_count] is the first turn of its loop. *)
Fixpoint count_loop (fuel : nat) (pIn pMatch pInLimit : Z) : result (Z * Z * bool) :=
  match fuel with
  | O => Err OutOfFuel
  | S fuel' =>
      if pIn <? pInLimit - 7 then
        m ← LZ4_read_ARCH src pMatch;
        v ← LZ4_read_ARCH src pIn;
        let diff := Z.lxor m v in
        if diff =? 0 then count_loop fuel' (pIn + 8) (pMatch + 8) pInLimit
        else Ok (pIn + LZ4_NbCommonBytes diff, pMatch, true)
      else Ok (pIn, pMatch, false)
  end.

Definition count_tail (pIn pMatch pInLimit : Z) : result Z :=
  '(pIn, pMatch) ← (if pIn <? pInLimit - 3 then
      m ← LZ4_read32 src pMatch; v ← LZ4_read32 src pIn;
      Ok (if m =? v then (pIn + 4, pMatch + 4) else (pIn, pMatch))
    else Ok (pIn, pMatch));
  '(pIn, pMatch) ← (if pIn <? pInLimit - 1 then
      m ← LZ4_read16 src pMatch; v ← LZ4_read16 src pIn;
      Ok (if m =? v then (pIn + 2, pMatch + 2) else (pIn, pMatch))
    else Ok (pIn, pMatch));
  if pIn <? pInLimit then
    m ← read_byte src pMatch; v ← read_byte src pIn;
    Ok (if m =? v then pIn + 1 else pIn)
  else Ok pIn.

Definition LZ4_count (pIn pMatch pInLimit : Z) : result Z :=
  '(p, m, differ) ← count_loop (S (length src)) pIn pMatch pInLimit;
  if (differ : bool) then Ok (p - pIn)
  else p ← count_tail p m pInLimit; Ok (p - pIn).
End Count.

(** ** The hash table *)

Inductive tableType_t := byU32 | byU16.

Definition is_U16 (t : tableType_t) : bool := match t with byU16 => true | byU32 => false end.

Definition LZ4_hash4 (sequence : Z) (t : tableType_t) : Z :=
  Z.shiftr (sequence * 2654435761)%u32 (MINMATCH * 8 - (if is_U16 t then LZ4_HASHLOG + 1 else LZ4_HASHLOG)).

Definition LZ4_hash5 (sequence : Z) (t : tableType_t) : Z :=
  let hashLog := if is_U16 t then LZ4_HASHLOG + 1 else LZ4_HASHLOG in
  w32 (Z.shiftr (w64 (Z.shiftl sequence 24) * 889523592379)%u64 (64 - hashLog)).

Definition LZ4_hashPosition (src : bytes) (p : Z) (t : tableType_t) : result Z :=
  if negb (is_U16 t) then v ← LZ4_read_ARCH src p; Ok (LZ4_hash5 v t)
  else v ← LZ4_read32 src p; Ok (LZ4_hash4 v t).

(** 16 KiB of zeros, as indices of the table's width. *)
Definition new_table (t : tableType_t) : list Z :=
  replicate (Z.to_nat (2 ^ (if is_U16 t then LZ4_HASHLOG + 1 else LZ4_HASHLOG))) 0.

Definition LZ4_getIndexOnHash (h : Z) (table : list Z) : result Z := read_byte table h.

Definition LZ4_putIndexOnHash (idx h : Z) (table : list Z) (t : tableType_t) : result (list Z) :=
  if (0 <=? h) && (h <? len table) then
    Ok (<[Z.to_nat h := if is_U16 t then idx mod 2 ^ 16 else w32 idx]> table)
  else Err OobWrite.

Definition LZ4_putPosition (src : bytes) (p : Z) (table : list Z) (t : tableType_t) : result (list Z) :=
  h ← LZ4_hashPosition src p t;
  LZ4_putIndexOnHash p h table t.

(** ** Compression *)

Section Compress.
Context (src : bytes) (t : tableType_t) (limited : bool) (olimit acceleration : Z).

Definition input (n i : Z) : D bytes := lift (read_n n src i).

Definition iend : Z := len src.
Definition mflimitPlusOne : Z := iend - MFLIMIT + 1.
Definition matchlimit : Z := iend - LASTLITERALS.

(** The [do] loop that finds a match: the position and the match, with the
    table after the search, or nothing when the input is used up. *)
Fixpoint find_match (fuel : nat) (forwardIp step searchMatchNb forwardH : Z) (table : list Z)
    : result (option (Z * Z * list Z)) :=
  match fuel with
  | O => Err OutOfFuel
  | S fuel' =>
      let h := forwardH in
      let current := w32 forwardIp in
      matchIndex ← LZ4_getIndexOnHash h table;
      let ip := forwardIp in
      let forwardIp := forwardIp + step in
      let step := Z.shiftr searchMatchNb LZ4_skipTrigger in
      if mflimitPlusOne <? forwardIp then Ok None
      else
        forwardH ← LZ4_hashPosition src forwardIp t;
        table ← LZ4_putIndexOnHash current h table t;
        if negb (is_U16 t) && ((matchIndex + LZ4_DISTANCE_MAX)%u32 <? current) then
          find_match fuel' forwardIp step (searchMatchNb + 1) forwardH table
        else
          m ← LZ4_read32 src matchIndex;
          v ← LZ4_read32 src ip;
          if m =? v then Ok (Some (ip, matchIndex, table))
          else find_match fuel' forwardIp step (searchMatchNb + 1) forwardH table
  end.

Fixpoint catch_up (fuel : nat) (anchor ip match_ : Z) : result (Z * Z) :=
  match fuel with
  | O => Err OutOfFuel
  | S fuel' =>
      if (anchor <? ip) && (0 <? match_) then
        a ← read_byte src (ip - 1);
        b ← read_byte src (match_ - 1);
        if a =? b then catch_up fuel' anchor (ip - 1) (match_ - 1) else Ok (ip, match_)
      else Ok (ip, match_)
  end.

(** [for (; len >= 255; len -= 255) *op++ = 255; *op++ = (BYTE)len]. *)
Fixpoint put_length (fuel : nat) (op n : Z) : D Z :=
  match fuel with
  | O => throw OutOfFuel
  | S fuel' =>
      if 255 <=? n then store op [255] ;; put_length fuel' (op + 1) (n - 255)
      else store op [n mod 2 ^ 8] ;; mret (op + 1)
  end.

Definition length_fuel (n : Z) : nat := S (Z.to_nat (n / 255)).

(** The literals from [anchor] to [ip], behind the token at [op]; nothing when
    they do not fit. *)
Definition encode_literals (ip anchor op : Z) : D (option (Z * Z)) :=
  let litLength := w32 (ip - anchor) in
  let token := op in
  let op := op + 1 in
  if limited && (olimit <? op + litLength + (2 + 1 + LASTLITERALS) + litLength / 255) then mret None
  else
    op ← (if RUN_MASK <=? litLength then
            store token [Z.shiftl RUN_MASK ML_BITS] ;;
            put_length (length_fuel (litLength - RUN_MASK)) op (litLength - RUN_MASK)
          else store token [w8 (Z.shiftl litLength ML_BITS)] ;; mret op);
    LZ4_wildCopy8 input op anchor (op + litLength) ;;
    mret (Some (token, op + litLength)).

(** [*token += x]. *)
Definition add_to_token (token x : Z) : D unit :=
  b ← load 1 token;
  store token [w8 (le_get b + x)].

Definition LZ4_write32 (op v : Z) : D unit := store op (le_put 4 v).

Fixpoint put_match_length (fuel : nat) (op matchCode : Z) : D (Z * Z) :=
  match fuel with
  | O => throw OutOfFuel
  | S fuel' =>
      if 4 * 255 <=? matchCode then
        LZ4_write32 (op + 4) 4294967295 ;;
        put_match_length fuel' (op + 4) (matchCode - 4 * 255)
      else mret (op, matchCode)
  end.

Definition encode_match_length (token op matchCode : Z) : D Z :=
  if ML_MASK <=? matchCode then
    add_to_token token ML_MASK ;;
    let matchCode := matchCode - ML_MASK in
    LZ4_write32 op 4294967295 ;;
    '(op, matchCode) ← put_match_length (length_fuel matchCode) op matchCode;
    let op := op + matchCode / 255 in
    store op [matchCode mod 255] ;;
    mret (op + 1)
  else add_to_token token (w8 matchCode) ;; mret op.

(** After the label [_next_match]: the offset and the length of the match, and
    those that follow at once.  [Full] when the output is used up, [Ended] with
    [anchor] and [op] at the end of the input, [Search] with the new [ip] and
    [forwardH] too otherwise. *)
Inductive after_match :=
  | Full
  | Ended (anchor op : Z)
  | Search (ip anchor op forwardH : Z) (table : list Z).

Fixpoint next_match (fuel : nat) (token ip match_ op : Z) (table : list Z) : D after_match :=
  match fuel with
  | O => throw OutOfFuel
  | S fuel' =>
      store op (le_put 2 (ip - match_)) ;;
      let op := op + 2 in
      matchCode ← lift (LZ4_count src (ip + MINMATCH) (match_ + MINMATCH) matchlimit);
      let ip := ip + matchCode + MINMATCH in
      if limited && (olimit <? op + (1 + LASTLITERALS) + (matchCode + 240) / 255) then mret Full
      else
        op ← encode_match_length token op matchCode;
        let anchor := ip in
        if mflimitPlusOne <=? ip then mret (Ended anchor op)
        else
          table ← lift (LZ4_putPosition src (ip - 2) table t);
          h ← lift (LZ4_hashPosition src ip t);
          let current := w32 ip in
          matchIndex ← lift (LZ4_getIndexOnHash h table);
          table ← lift (LZ4_putIndexOnHash current h table t);
          near ← (if is_U16 t || (current <=? (matchIndex + LZ4_DISTANCE_MAX)%u32) then
                    m ← lift (LZ4_read32 src matchIndex);
                    v ← lift (LZ4_read32 src ip);
                    mret (m =? v)
                  else mret false);
          if (near : bool) then store op [0] ;; next_match fuel' op ip matchIndex (op + 1) table
          else
            forwardH ← lift (LZ4_hashPosition src (ip + 1) t);
            mret (Search (ip + 1) anchor op forwardH table)
  end.

(** After the label [_last_literals]; the result of the call. *)
Definition last_literals (anchor op : Z) : D Z :=
  let lastRun := iend - anchor in
  if limited && (olimit <? op + lastRun + 1 + (lastRun + 255 - RUN_MASK) / 255) then mret 0
  else
    op ← (if RUN_MASK <=? lastRun then
            store op [Z.shiftl RUN_MASK ML_BITS] ;;
            put_length (length_fuel (lastRun - RUN_MASK)) (op + 1) (lastRun - RUN_MASK)
          else store op [w8 (Z.shiftl lastRun ML_BITS)] ;; mret (op + 1));
    LZ4_memcpy input op anchor lastRun ;;
    mret (s32 (op + lastRun)).

Fixpoint main_loop (fuel : nat) (ip anchor op forwardH : Z) (table : list Z) : D Z :=
  match fuel with
  | O => throw OutOfFuel
  | S fuel' =>
      found ← lift (find_match (S (length src)) ip 1 (Z.shiftl acceleration LZ4_skipTrigger) forwardH table);
      match found with
      | None => last_literals anchor op
      | Some (ip, match_, table) =>
          '(ip, match_) ← lift (catch_up (S (length src)) anchor ip match_);
          lits ← encode_literals ip anchor op;
          match lits with
          | None => mret 0
          | Some (token, op) =>
              next ← next_match (S (length src)) token ip match_ op table;
              match next with
              | Full => mret 0
              | Ended anchor op => last_literals anchor op
              | Search ip anchor op forwardH table => main_loop fuel' ip anchor op forwardH table
              end
          end
      end
  end.

Definition LZ4_compress_generic_validated : D Z :=
  let inputSize := iend in
  if is_U16 t && (LZ4_64Klimit <=? inputSize) then mret 0
  else if inputSize <? LZ4_minLength then last_literals 0 0
  else
    table ← lift (LZ4_putPosition src 0 (new_table t) t);
    forwardH ← lift (LZ4_hashPosition src 1 t);
    main_loop (S (length src)) 1 0 0 forwardH table.

Definition LZ4_compress_generic : D Z :=
  let srcSize := iend in
  if LZ4_MAX_INPUT_SIZE <? w32 srcSize then mret 0
  else if srcSize =? 0 then
    if limited && (olimit <=? 0) then mret 0
    else store 0 [0] ;; mret 1
  else LZ4_compress_generic_validated.
End Compress.

(** [LZ4_compress_fast(source, dest, |source|, maxOutputSize, acceleration)], with
    a state of its own on the stack. *)
Definition compress_fast (source : bytes) (maxOutputSize acceleration : Z) : D Z :=
  let acceleration := if acceleration <? 1 then LZ4_ACCELERATION_DEFAULT else acceleration in
  let acceleration := if LZ4_ACCELERATION_MAX <? acceleration then LZ4_ACCELERATION_MAX else acceleration in
  let inputSize := len source in
  let t := if inputSize <? LZ4_64Klimit then byU16 else byU32 in
  if LZ4_compressBound inputSize <=? maxOutputSize then
    LZ4_compress_generic source t false 0 acceleration
  else LZ4_compress_generic source t true maxOutputSize acceleration.

(** ** Decompression *)

Inductive variable_length_error := loop_error | initial_error | ok.

Section Decompress.
(** [src_at] and [dst_at] are the addresses of the two buffers. *)
Context (src : bytes) (outputSize src_at dst_at : Z).

Definition oend : Z := outputSize.
Abbreviation iend_ := (len src).

Fixpoint variable_loop (fuel : nat) (ip length lencheck : Z) (loop_check : bool)
    : result (Z * Z * variable_length_error) :=
  match fuel with
  | O => Err OutOfFuel
  | S fuel' =>
      s ← read_byte src ip;
      let ip := ip + 1 in
      let length := (length + s)%u32 in
      if loop_check && (lencheck <=? ip) then Ok (length, ip, loop_error)
      else if s =? 255 then variable_loop fuel' ip length lencheck loop_check
      else Ok (length, ip, ok)
  end.

Definition read_variable_length (ip lencheck : Z) (loop_check initial_check : bool)
    : result (Z * Z * variable_length_error) :=
  if initial_check && (lencheck <=? ip) then Ok (0, ip, initial_error)
  else variable_loop (S (length src)) ip 0 lencheck loop_check.

(** [(uptrval)(p) + length < (uptrval)(p)]. *)
Definition overflows (address length : Z) : bool := (address + length)%u64 <? w64 address.

Definition LZ4_readLE16 (ip : Z) : D Z := lift (LZ4_read16 src ip).

(** How a turn of a decoding loop ends: with another one, or with a result. *)
Inductive next := Sequence (ip op : Z) | Return (r : Z).

Definition output_error (ip : Z) : next := Return (s32 (- ip) - 1).

Definition inc32table : list Z := [0; 1; 2; 1; 0; 4; 4; 4].
Definition dec64table : list Z := [0; 0; 0; -1; -4; 1; 2; 3].

(** Eight bytes from less than eight bytes back: the position to copy from next. *)
Definition copy_close (op match_ offset : Z) : D Z :=
  LZ4_write32 op 0 ;;
  LZ4_memcpy load op match_ 1 ;;
  LZ4_memcpy load (op + 1) (match_ + 1) 1 ;;
  LZ4_memcpy load (op + 2) (match_ + 2) 1 ;;
  LZ4_memcpy load (op + 3) (match_ + 3) 1 ;;
  let match_ := match_ + at_ inc32table offset in
  LZ4_memcpy load (op + 4) match_ 4 ;;
  mret (match_ - at_ dec64table offset).

(** Eight bytes of a match. *)
Definition copy_first8 (op match_ offset : Z) : D Z :=
  if offset <? 8 then copy_close op match_ offset
  else LZ4_memcpy load op match_ 8 ;; mret (match_ + 8).

(** [while (op < cpy) *op++ = *match++]. *)
Fixpoint copy_bytes (fuel : nat) (op match_ cpy : Z) : D unit :=
  match fuel with
  | O => throw OutOfFuel
  | S fuel' =>
      if op <? cpy then LZ4_memcpy load op match_ 1 ;; copy_bytes fuel' (op + 1) (match_ + 1) cpy
      else mret tt
  end.

(** From the label [safe_match_copy] on. *)
Definition safe_match_copy (ip op offset length : Z) : D next :=
  let match_ := op - offset in
  if match_ <? 0 then mret (output_error ip)
  else
    let cpy := op + length in
    match_ ← copy_first8 op match_ offset;
    let op := op + 8 in
    if oend - MATCH_SAFEGUARD_DISTANCE <? cpy then
      let oCopyLimit := oend - (WILDCOPYLENGTH - 1) in
      if oend - LASTLITERALS <? cpy then mret (output_error ip)
      else
        (if op <? oCopyLimit then
           LZ4_wildCopy8 load op match_ oCopyLimit ;;
           copy_bytes (S (Z.to_nat (cpy - oCopyLimit))) oCopyLimit (match_ + (oCopyLimit - op)) cpy
         else copy_bytes (S (Z.to_nat (cpy - op))) op match_ cpy) ;;
        mret (Sequence ip cpy)
    else
      LZ4_memcpy load op match_ 8 ;;
      (if 16 <? length then LZ4_wildCopy8 load (op + 8) (match_ + 8) cpy else mret tt) ;;
      mret (Sequence ip cpy).

(** From the label [_copy_match] on. *)
Definition copy_match (ip op offset length : Z) : D next :=
  if length =? ML_MASK then
    '(l, ip, error) ← lift (read_variable_length ip (iend_ - LASTLITERALS + 1) true false);
    let length := length + l in
    match error with
    | ok => if overflows (dst_at + op) length then mret (output_error ip)
            else safe_match_copy ip op offset (length + MINMATCH)
    | _ => mret (output_error ip)
    end
  else safe_match_copy ip op offset (length + MINMATCH).

(** From the label [safe_literal_copy] on. *)
Definition safe_literal_copy (ip op token length : Z) : D next :=
  let cpy := op + length in
  if (oend - MFLIMIT <? cpy) || (iend_ - (2 + 1 + LASTLITERALS) <? ip + length) then
    if negb (ip + length =? iend_) || (oend <? cpy) then mret (output_error ip)
    else
      LZ4_memcpy (input src) op ip length ;;
      mret (Return (s32 (op + length)))
  else
    LZ4_wildCopy8 (input src) op ip cpy ;;
    let ip := ip + length in
    offset ← LZ4_readLE16 ip;
    copy_match (ip + 2) cpy offset (Z.land token ML_MASK).

(** The length of the literals when the token does not hold it. *)
Definition literal_length (ip op length : Z) : D (Z * Z * bool) :=
  '(l, ip, error) ← lift (read_variable_length ip (iend_ - RUN_MASK) true true);
  let length := length + l in
  mret (length, ip, match error with
                    | initial_error => false
                    | _ => negb (overflows (dst_at + op) length) && negb (overflows (src_at + ip) length)
                    end).

(** A turn of the loop that decodes the last sequences. *)
Definition safe_sequence (ip op : Z) : D next :=
  token ← lift (read_byte src ip);
  let ip := ip + 1 in
  let length := Z.shiftr token ML_BITS in
  if negb (length =? RUN_MASK) && (ip <? iend_ - 14 - 2) && (op <=? oend - 14 - 18) then
    LZ4_memcpy (input src) op ip 16 ;;
    let op := op + length in
    let ip := ip + length in
    let length := Z.land token ML_MASK in
    offset ← LZ4_readLE16 ip;
    let ip := ip + 2 in
    let match_ := op - offset in
    if negb (length =? ML_MASK) && (8 <=? offset) && (0 <=? match_) then
      LZ4_memcpy load op match_ 8 ;;
      LZ4_memcpy load (op + 8) (match_ + 8) 8 ;;
      LZ4_memcpy load (op + 16) (match_ + 16) 2 ;;
      mret (Sequence ip (op + length + MINMATCH))
    else copy_match ip op offset length
  else if length =? RUN_MASK then
    '(length, ip, fine) ← literal_length ip op length;
    if (fine : bool) then safe_literal_copy ip op token length else mret (output_error ip)
  else safe_literal_copy ip op token length.

(** [LZ4_memcpy_using_offset]. *)
Definition memcpy_using_offset_base (op match_ cpy offset : Z) : D unit :=
  match_ ← copy_first8 op match_ offset;
  LZ4_wildCopy8 load (op + 8) match_ cpy.

Fixpoint fill_loop (fuel : nat) (v : bytes) (op cpy : Z) : D unit :=
  match fuel with
  | O => throw OutOfFuel
  | S fuel' => if op <? cpy then store op v ;; fill_loop fuel' v (op + 8) cpy else mret tt
  end.

Definition fill (v : bytes) (op cpy : Z) : D unit :=
  store op v ;;
  fill_loop (S (Z.to_nat (cpy - op))) v (op + 8) cpy.

Definition LZ4_memcpy_using_offset (op match_ cpy offset : Z) : D unit :=
  if offset =? 1 then v ← load 1 match_; fill (v ++ v ++ v ++ v ++ v ++ v ++ v ++ v) op cpy
  else if offset =? 2 then v ← load 2 match_; fill (v ++ v ++ v ++ v) op cpy
  else if offset =? 4 then v ← load 4 match_; fill (v ++ v) op cpy
  else memcpy_using_offset_base op match_ cpy offset.

(** How a turn of the fast loop ends: with another one, or in the other loop. *)
Inductive fast_next := StayFast (ip op : Z) | Leave (n : next).

(** The copy at the end of a turn of the fast loop. *)
Definition fast_copy (ip op offset length : Z) : D fast_next :=
  let match_ := op - offset in
  if match_ <? 0 then mret (Leave (output_error ip))
  else
    let cpy := op + length in
    (if offset <? 16 then LZ4_memcpy_using_offset op match_ cpy offset
     else LZ4_wildCopy32 load op match_ cpy) ;;
    mret (StayFast ip cpy).

(** From the offset on. *)
Definition fast_match (ip op token : Z) : D fast_next :=
  offset ← LZ4_readLE16 ip;
  let ip := ip + 2 in
  let match_ := op - offset in
  let length := Z.land token ML_MASK in
  if length =? ML_MASK then
    if match_ <? 0 then mret (Leave (output_error ip))
    else
      '(l, ip, error) ← lift (read_variable_length ip (iend_ - LASTLITERALS + 1) true false);
      let length := length + l in
      match error with
      | ok =>
          if overflows (dst_at + op) length then mret (Leave (output_error ip))
          else
            let length := length + MINMATCH in
            if oend - FASTLOOP_SAFE_DISTANCE <=? op + length then
              n ← safe_match_copy ip op offset length; mret (Leave n)
            else fast_copy ip op offset length
      | _ => mret (Leave (output_error ip))
      end
  else
    let length := length + MINMATCH in
    if oend - FASTLOOP_SAFE_DISTANCE <=? op + length then
      n ← safe_match_copy ip op offset length; mret (Leave n)
    else if (0 <=? match_) && (8 <=? offset) then
      LZ4_memcpy load op match_ 8 ;;
      LZ4_memcpy load (op + 8) (match_ + 8) 8 ;;
      LZ4_memcpy load (op + 16) (match_ + 16) 2 ;;
      mret (StayFast ip (op + length))
    else fast_copy ip op offset length.

(** A turn of the fast loop. *)
Definition fast_sequence (ip op : Z) : D fast_next :=
  token ← lift (read_byte src ip);
  let ip := ip + 1 in
  let length := Z.shiftr token ML_BITS in
  if length =? RUN_MASK then
    '(length, ip, fine) ← literal_length ip op length;
    if negb (fine : bool) then mret (Leave (output_error ip))
    else
      let cpy := op + length in
      if (oend - 32 <? cpy) || (iend_ - 32 <? ip + length) then
        n ← safe_literal_copy ip op token length; mret (Leave n)
      else
        LZ4_wildCopy32 (input src) op ip cpy ;;
        fast_match (ip + length) cpy token
  else
    let cpy := op + length in
    if iend_ - (16 + 1) <? ip then
      n ← safe_literal_copy ip op token length; mret (Leave n)
    else
      LZ4_memcpy (input src) op ip 16 ;;
      fast_match (ip + length) cpy token.

Fixpoint safe_decode (fuel : nat) (ip op : Z) : D Z :=
  match fuel with
  | O => throw OutOfFuel
  | S fuel' =>
      n ← safe_sequence ip op;
      match n with
      | Sequence ip op => safe_decode fuel' ip op
      | Return r => mret r
      end
  end.

Fixpoint fast_decode (fuel : nat) (ip op : Z) : D Z :=
  match fuel with
  | O => throw OutOfFuel
  | S fuel' =>
      n ← fast_sequence ip op;
      match n with
      | StayFast ip op => fast_decode fuel' ip op
      | Leave (Sequence ip op) => safe_decode fuel' ip op
      | Leave (Return r) => mret r
      end
  end.

Definition LZ4_decompress_generic : D Z :=
  let srcSize := len src in
  if outputSize <? 0 then mret (-1)
  else if outputSize =? 0 then
    if srcSize =? 1 then b ← lift (read_byte src 0); mret (if b =? 0 then 0 else -1)
    else mret (-1)
  else if srcSize =? 0 then mret (-1)
  else if oend - 0 <? FASTLOOP_SAFE_DISTANCE then safe_decode (S (length src)) 0 0
  else fast_decode (S (length src)) 0 0.
End Decompress.

(** [LZ4_decompress_safe(source, dest, |source|, maxDecompressedSize)]. *)
Definition decompress_safe (source : bytes) (maxDecompressedSize src_at dst_at : Z) : D Z :=
  LZ4_decompress_generic source maxDecompressedSize src_at dst_at.
