(* ===== verification/Lz4Mem.v ===== *)
(** * Copying in LZ4 buffers

    What the copying routines of [util/lz4.c] leave in the destination: byte by
    byte for literals, and as a periodic extension for matches. *)

From S2P Require Import Prelude Lz4.

(** ** Bytes by position *)

Lemma at_app (a b : bytes) i : 0 <= i -> at_ (a ++ b) i = if decide (i < len a) then at_ a i else at_ b (i - len a).
Proof.
  intros Hi. unfold at_. rewrite len_length. case_decide.
  - by rewrite lookup_app_l by lia.
  - rewrite lookup_app_r by lia. f_equal. f_equal. lia.
Qed.

Lemma at_ztake n (l : bytes) i : 0 <= i < n -> at_ (ztake n l) i = at_ l i.
Proof. intros Hi. unfold at_, ztake. by rewrite lookup_take_lt by lia. Qed.

Lemma at_zdrop n (l : bytes) i : 0 <= n -> 0 <= i -> at_ (zdrop n l) i = at_ l (n + i).
Proof. intros Hn Hi. unfold at_, zdrop. rewrite lookup_drop. by rewrite <- Z2Nat.inj_add by lia. Qed.

Lemma at_sub off n (l : bytes) i : 0 <= off -> 0 <= i < n -> at_ (sub off n l) i = at_ l (off + i).
Proof. intros Ho Hi. unfold sub. rewrite at_ztake by done. apply at_zdrop; lia. Qed.

Lemma at_blit (d : bytes) off s i : 0 <= off -> off + len s <= len d -> 0 <= i ->
  at_ (blit d off s) i = if decide (off <= i < off + len s) then at_ s (i - off) else at_ d i.
Proof.
  intros Ho Hl Hi. unfold blit. pose proof (len_nonneg s).
  assert (len (ztake off d) = off) as Ht by (rewrite len_ztake; lia).
  rewrite at_app by done. rewrite Ht. case_decide.
  - rewrite decide_False by lia. by apply at_ztake.
  - rewrite at_app by lia. case_decide.
    + rewrite decide_True by lia. done.
    + rewrite decide_False by lia. rewrite at_zdrop by lia. f_equal. lia.
Qed.

Lemma bytes_ext (a b : bytes) : len a = len b -> (forall i, 0 <= i < len a -> at_ a i = at_ b i) -> a = b.
Proof.
  rewrite !len_length. intros Hl H. apply list_eq. intros i.
  destruct (decide (i < length a)%nat) as [Hi|Hi].
  - specialize (H (Z.of_nat i) ltac:(lia)). unfold at_ in H. rewrite Nat2Z.id in H.
    destruct (lookup_lt_is_Some_2 a i Hi) as [x Hx], (lookup_lt_is_Some_2 b i ltac:(lia)) as [y Hy].
    rewrite Hx, Hy in *. cbn in H. by subst.
  - rewrite !lookup_ge_None_2 by lia. done.
Qed.

Lemma sub_ext off n off' n' (a b : bytes) :
  0 <= off -> 0 <= off' -> 0 <= n -> n = n' -> off + n <= len a -> off' + n <= len b ->
  (forall i, 0 <= i < n -> at_ a (off + i) = at_ b (off' + i)) -> sub off n a = sub off' n' b.
Proof.
  intros Ho Ho' Hn <- Ha Hb H. apply bytes_ext.
  - by rewrite !len_sub by lia.
  - rewrite len_sub by lia. intros i Hi. rewrite !at_sub by lia. by apply H.
Qed.

Lemma blit_app (d : bytes) off s k : 0 <= off -> off + len s + len k <= len d ->
  blit (blit d off s) (off + len s) k = blit d off (s ++ k).
Proof.
  intros Ho Hl. pose proof (len_nonneg s). pose proof (len_nonneg k).
  apply bytes_ext; [by rewrite !len_blit by (rewrite ?len_blit, ?len_app; lia)|].
  intros i Hi. rewrite !at_blit by (rewrite ?len_blit, ?len_app; lia). rewrite len_app.
  repeat case_decide; try lia; try done.
  - rewrite at_app, decide_False by lia. f_equal. lia.
  - rewrite at_app, decide_True by lia. done.
Qed.

(** Two pieces of a slice, one behind the other. *)
Lemma blit_slices (d : bytes) off s n k (l : bytes) :
  0 <= off -> 0 <= s -> 0 <= n -> 0 <= k -> s + n + k <= len l -> off + n + k <= len d ->
  blit (blit d off (sub s n l)) (off + n) (sub (s + n) k l) = blit d off (sub s (n + k) l).
Proof.
  intros. rewrite sub_split by lia. rewrite <- blit_app; rewrite ?len_sub by lia; done || lia.
Qed.

Lemma is_bytes_at l i : is_bytes l -> 0 <= at_ l i < 256.
Proof.
  intros Hl. apply Is_true_true in Hl. unfold is_bytes in Hl. rewrite forallb_forall in Hl. unfold at_.
  destruct (l !! Z.to_nat i) as [b|] eqn:Hb; [|cbn; lia]. cbn.
  assert (is_byte b = true) as H by (apply Hl, list_elem_of_In; by eapply list_elem_of_lookup_2).
  unfold is_byte in H. apply andb_true_iff in H as [H1%Z.leb_le H2%Z.ltb_lt]. lia.
Qed.

Lemma at_is_bytes l : (forall i, 0 <= i < len l -> 0 <= at_ l i < 256) -> is_bytes l.
Proof.
  intros H. apply Is_true_true. unfold is_bytes. apply forallb_forall. intros b Hb%list_elem_of_In.
  apply list_elem_of_lookup_1 in Hb as [i Hi]. specialize (H (Z.of_nat i)). unfold at_ in H. rewrite Nat2Z.id, Hi in H. cbn in H.
  apply lookup_lt_Some in Hi. unfold is_byte. rewrite len_length in H. specialize (H ltac:(lia)).
  apply andb_true_iff. split; [apply Z.leb_le|apply Z.ltb_lt]; lia.
Qed.

Lemma is_bytes_sub off n l : 0 <= off -> off + n <= len l -> is_bytes l -> is_bytes (sub off n l).
Proof.
  intros Ho Hn Hl. destruct (Z.le_gt_cases 0 n); [|unfold sub; by rewrite ztake_nonpos by lia].
  apply at_is_bytes. intros i Hi. rewrite len_sub in Hi by lia. rewrite at_sub by lia. by apply is_bytes_at.
Qed.

Lemma le_get_2 (l : bytes) i : 0 <= i -> i + 2 <= len l -> le_get (sub i 2 l) = at_ l i + 256 * at_ l (i + 1).
Proof.
  intros Hi Hl. pose proof (len_sub i 2 l Hi ltac:(lia) Hl) as Hn. pose proof (at_sub i 2 l 0 Hi ltac:(lia)) as H0.
  pose proof (at_sub i 2 l 1 Hi ltac:(lia)) as H1. rewrite Z.add_0_r in H0. rewrite <- H0, <- H1.
  destruct (sub i 2 l) as [|a [|b [|c k]]]; rewrite ?len_cons, ?len_nil in Hn; pose_lens; try lia. change (a + 2 ^ 8 * (b + 2 ^ 8 * 0) = a + 256 * b). lia.
Qed.

(** Arithmetic on the lengths of slices and of buffers written to. *)
Ltac blia :=
  solve [lia | repeat first [rewrite len_sub by blia | rewrite len_blit by blia | rewrite len_app]; lia].

(** ** Accesses *)

Lemma read_n_ok n buf i : 0 <= i -> i + n <= len buf -> read_n n buf i = Ok (sub i n buf).
Proof. intros. unfold read_n. by rewrite (proj2 (Z.leb_le 0 i)), (proj2 (Z.leb_le (i + n) (len buf))) by lia. Qed.

Lemma read_byte_ok buf i : 0 <= i < len buf -> read_byte buf i = Ok (at_ buf i).
Proof. intros. unfold read_byte. by rewrite (proj2 (Z.leb_le 0 i)), (proj2 (Z.ltb_lt i (len buf))) by lia. Qed.

Lemma store_ok i bs d : 0 <= i -> i + len bs <= len d -> store i bs d = Ok (tt, blit d i bs).
Proof. intros. unfold store. by rewrite (proj2 (Z.leb_le 0 i)), (proj2 (Z.leb_le (i + len bs) (len d))) by lia. Qed.

Lemma wp_store i bs (Q : unit -> bytes -> Prop) d :
  0 <= i -> i + len bs <= len d -> Q tt (blit d i bs) -> wp (store i bs) Q d.
Proof. intros Hi Hl HQ. unfold wpe. by rewrite store_ok. Qed.

Lemma wp_load n i (Q : bytes -> bytes -> Prop) d : 0 <= i -> i + n <= len d -> Q (sub i n d) d -> wp (load n i) Q d.
Proof. intros Hi Hl HQ. unfold wpe, load. by rewrite read_n_ok. Qed.

Lemma wp_input src n i (Q : bytes -> bytes -> Prop) d :
  0 <= i -> i + n <= len src -> Q (sub i n src) d -> wp (input src n i) Q d.
Proof. intros Hi Hl HQ. unfold input. by eapply wp_lift_ok; [apply read_n_ok|]. Qed.

Lemma wp_copy_in src op ip n (Q : unit -> bytes -> Prop) d :
  0 <= n -> 0 <= ip -> ip + n <= len src -> 0 <= op -> op + n <= len d ->
  Q tt (blit d op (sub ip n src)) -> wp (LZ4_memcpy (input src) op ip n) Q d.
Proof.
  intros Hn Hi Hl Ho Hd HQ. apply wp_bind, wp_input; [done..|]. apply wp_store; [done| |done]. by rewrite len_sub.
Qed.

(** ** Copies from elsewhere *)

(** The length that a copy by stripes of [k] bytes rounds [n] up to. *)
Definition stripes (k n : Z) : Z := k * Z.max 1 ((n + k - 1) / k).

Lemma stripes_bounds k n : 0 < k -> k <= stripes k n /\ n <= stripes k n /\ stripes k n <= Z.max k (n + k - 1).
Proof.
  intros Hk. unfold stripes. pose proof (Z.div_mod (n + k - 1) k ltac:(lia)). pose proof (Z.mod_pos_bound (n + k - 1) k Hk).
  set (q := (n + k - 1) / k) in *. destruct (Z.max_spec 1 q) as [[Hq ->]|[Hq ->]].
  - pose proof (Z.mul_le_mono_nonneg_l 1 q k ltac:(lia) ltac:(lia)). lia.
  - pose proof (Z.mul_le_mono_nonneg_l q 1 k ltac:(lia) ltac:(lia)). lia.
Qed.

Lemma stripes_step k n : 0 < k -> k < n -> stripes k n = k + stripes k (n - k).
Proof.
  intros Hk Hn. unfold stripes. replace (n + k - 1) with (n - 1 + 1 * k) by lia. rewrite Z.div_add by lia.
  replace (n - k + k - 1) with (n - 1) by lia. assert (1 <= (n - 1) / k) by (apply Z.div_le_lower_bound; lia).
  rewrite !Z.max_r by lia. ring.
Qed.

Lemma stripes_one k n : 0 < k -> n <= k -> stripes k n = k.
Proof.
  intros Hk Hn. unfold stripes. assert ((n + k - 1) / k <= 1); [|by rewrite Z.max_l by lia; ring_simplify].
  apply Z.lt_succ_r, Z.div_lt_upper_bound; lia.
Qed.

Lemma wp_wild8_loop_in src e : forall fuel d s dst (Q : unit -> bytes -> Prop),
  e - d < Z.of_nat fuel -> (0 < fuel)%nat -> 0 <= s -> 0 <= d -> s + stripes 8 (e - d) <= len src -> d + stripes 8 (e - d) <= len dst ->
  Q tt (blit dst d (sub s (stripes 8 (e - d)) src)) -> wp (wildCopy8_loop fuel (input src) d s e) Q dst.
Proof.
  induction fuel as [|fuel IH]; intros d s dst Q Hf H0 Hs Hd Hl Hld HQ; [lia|].
  pose proof (stripes_bounds 8 (e - d) ltac:(lia)). cbn [wildCopy8_loop].
  apply wp_bind, wp_copy_in; [lia..|]. destruct (Z.ltb_spec (d + 8) e) as [Hlt|Hge].
  - rewrite stripes_step in * by lia. replace (e - d - 8) with (e - (d + 8)) in * by lia.
    pose proof (stripes_bounds 8 (e - (d + 8)) ltac:(lia)).
    apply IH; try blia.
    by rewrite blit_slices by lia.
  - apply wp_ret. by rewrite stripes_one in HQ by lia.
Qed.

Lemma wp_wild8_in src d s e dst (Q : unit -> bytes -> Prop) :
  0 <= s -> 0 <= d -> s + stripes 8 (e - d) <= len src -> d + stripes 8 (e - d) <= len dst ->
  Q tt (blit dst d (sub s (stripes 8 (e - d)) src)) -> wp (LZ4_wildCopy8 (input src) d s e) Q dst.
Proof. intros. apply wp_wild8_loop_in; try done; lia. Qed.

Lemma wp_wild32_loop_in src e : forall fuel d s dst (Q : unit -> bytes -> Prop),
  e - d < Z.of_nat fuel -> (0 < fuel)%nat -> 0 <= s -> 0 <= d -> s + stripes 32 (e - d) <= len src -> d + stripes 32 (e - d) <= len dst ->
  Q tt (blit dst d (sub s (stripes 32 (e - d)) src)) -> wp (wildCopy32_loop fuel (input src) d s e) Q dst.
Proof.
  induction fuel as [|fuel IH]; intros d s dst Q Hf H0 Hs Hd Hl Hld HQ; [lia|].
  pose proof (stripes_bounds 32 (e - d) ltac:(lia)). cbn [wildCopy32_loop].
  apply wp_bind, wp_copy_in; [lia..|]. apply wp_bind, wp_copy_in; [blia..|].
  rewrite blit_slices by lia. change (16 + 16) with 32.
  destruct (Z.ltb_spec (d + 32) e) as [Hlt|Hge].
  - rewrite stripes_step in * by lia. replace (e - d - 32) with (e - (d + 32)) in * by lia.
    pose proof (stripes_bounds 32 (e - (d + 32)) ltac:(lia)).
    apply IH; try blia.
    by rewrite (blit_slices _ d s 32) by lia.
  - apply wp_ret. by rewrite stripes_one in HQ by lia.
Qed.

Lemma wp_wild32_in src d s e dst (Q : unit -> bytes -> Prop) :
  0 <= s -> 0 <= d -> s + stripes 32 (e - d) <= len src -> d + stripes 32 (e - d) <= len dst ->
  Q tt (blit dst d (sub s (stripes 32 (e - d)) src)) -> wp (LZ4_wildCopy32 (input src) d s e) Q dst.
Proof. intros. apply wp_wild32_loop_in; try done; lia. Qed.

(** ** Copies from before *)

(** Only the bytes from [p] up to [q] may differ. *)
Definition frame (d d' : bytes) (p q : Z) : Prop :=
  len d' = len d /\ forall i, 0 <= i -> i < p \/ q <= i -> at_ d' i = at_ d i.

(** From [p] up to [q] every byte is the one [o] positions before. *)
Definition periodic (d : bytes) (p q o : Z) : Prop := forall i, p <= i < q -> at_ d i = at_ d (i - o).

Lemma frame_refl d p q : frame d d p q.
Proof. done. Qed.

Lemma frame_trans d1 d2 d3 p q p' q' r r' : frame d1 d2 p q -> frame d2 d3 p' q' ->
  r <= p -> r <= p' -> q <= r' -> q' <= r' -> frame d1 d3 r r'.
Proof.
  intros [L1 H1] [L2 H2] E1 E2 E3 E4. split; [congruence|]. intros i Hi Ho. rewrite H2, H1 by lia. done.
Qed.

Lemma frame_weaken d d' p q r r' : frame d d' p q -> r <= p -> q <= r' -> frame d d' r r'.
Proof. intros H ??. eapply frame_trans; [exact H|apply (frame_refl d' p q)|lia..]. Qed.

Lemma frame_blit d op bs r : 0 <= op -> op + len bs <= r -> op + len bs <= len d -> frame d (blit d op bs) op r.
Proof.
  intros Ho Hr Hl. pose proof (len_nonneg bs). split; [by rewrite len_blit by lia|]. intros i Hi Hout.
  rewrite at_blit by lia. by rewrite decide_False by lia.
Qed.

Lemma periodic_blit d op n o : 0 <= n <= o -> 0 <= op - o -> op + n <= len d ->
  periodic (blit d op (sub (op - o) n d)) op (op + n) o.
Proof.
  intros Hn Hop Hl i Hi. rewrite !at_blit by blia. rewrite !len_sub by lia. rewrite decide_True, decide_False by lia.
  rewrite at_sub by lia. f_equal. lia.
Qed.

Lemma periodic_frame d d' p q o r r' : periodic d p q o -> frame d d' r r' -> q <= r -> 0 <= p - o -> 0 <= o -> periodic d' p q o.
Proof.
  intros Hp [_ Hf] Hq Hpo Ho i Hi. rewrite !Hf by lia. by apply Hp.
Qed.

Lemma periodic_app d p q r o : periodic d p q o -> periodic d q r o -> periodic d p r o.
Proof. intros H1 H2 i Hi. destruct (decide (i < q)); [apply H1|apply H2]; lia. Qed.

(** A copy from a multiple of the period further back extends it. *)
Lemma periodic_multiple d p q r o k : 1 <= o -> 1 <= k -> (k - 1) * o <= q - p ->
  periodic d p q o -> periodic d q r (k * o) -> periodic d p r o.
Proof.
  intros Ho Hk Hq H1 H2. assert (forall n : nat, p + Z.of_nat n < r -> at_ d (p + Z.of_nat n) = at_ d (p + Z.of_nat n - o)) as H.
  { intros n. induction (lt_wf n) as [n _ IH]. intros Hn. destruct (decide (p + Z.of_nat n < q)); [apply H1; lia|].
    rewrite H2 by lia. set (i := p + Z.of_nat n) in *.
    assert (forall j : nat, (Z.of_nat j < k) -> at_ d (i - k * o) = at_ d (i - (k - Z.of_nat j) * o)) as Hj.
    { induction j as [|j IHj]; intros Hjk; [f_equal; lia|]. rewrite IHj by lia. symmetry.
      assert (Z.of_nat j * o <= (k - 2) * o) by (apply Z.mul_le_mono_nonneg_r; lia).
      assert (i - (k - Z.of_nat (S j)) * o = p + Z.of_nat (Z.to_nat (i - (k - Z.of_nat (S j)) * o - p))) as He.
      { assert (0 <= i - (k - Z.of_nat (S j)) * o - p); [|lia].
        replace ((k - Z.of_nat (S j)) * o) with ((k - 1) * o - Z.of_nat j * o) by lia.
        pose proof (Z.mul_nonneg_nonneg (Z.of_nat j) o). lia. }
      assert (o <= (k - Z.of_nat (S j)) * o) by (replace o with (1 * o) at 1 by lia; apply Z.mul_le_mono_nonneg_r; lia).
      rewrite He at 1. rewrite IH by lia. rewrite <- He. f_equal. lia. }
    rewrite (Hj (Z.to_nat (k - 1))), Z2Nat.id by lia. f_equal. lia. }
  intros i Hi. specialize (H (Z.to_nat (i - p)) ltac:(lia)). by replace (p + Z.of_nat (Z.to_nat (i - p))) with i in H by lia.
Qed.

Lemma wp_copy_back op s n (Q : unit -> bytes -> Prop) d :
  0 <= n -> 0 <= s -> n <= op - s -> op + n <= len d ->
  (forall d', frame d d' op (op + n) -> periodic d' op (op + n) (op - s) -> Q tt d') ->
  wp (LZ4_memcpy load op s n) Q d.
Proof.
  intros Hn Hs Ho Hd HQ. apply wp_bind, wp_load; [lia..|]. apply wp_store; [lia|blia|]. apply HQ.
  - apply frame_blit; blia.
  - replace s with (op - (op - s)) at 1 by lia. apply periodic_blit; lia.
Qed.

(** What a copy from [o] before leaves between [p] and [q]. *)
Definition extended (d d' : bytes) (p q o : Z) : Prop := frame d d' p q /\ periodic d' p q o.

Lemma extended_app d1 d2 d3 p q r o : extended d1 d2 p q o -> extended d2 d3 q r o -> p <= q -> q <= r -> 0 <= p - o -> 0 <= o ->
  extended d1 d3 p r o.
Proof.
  intros [F1 P1] [F2 P2] Hpq Hqr Hp Ho. split; [eapply frame_trans; [exact F1|exact F2|lia..]|].
  eapply periodic_app; [|exact P2]. eapply periodic_frame; [exact P1|exact F2|lia..].
Qed.

Lemma frame_len d d' p q : frame d d' p q -> len d' = len d.
Proof. by intros [? _]. Qed.

Lemma extended_len d d' p q o : extended d d' p q o -> len d' = len d.
Proof. by intros [[? _] _]. Qed.

Lemma wp_copy_ext op s n (Q : unit -> bytes -> Prop) d :
  0 <= n -> 0 <= s -> n <= op - s -> op + n <= len d ->
  (forall d', extended d d' op (op + n) (op - s) -> Q tt d') -> wp (LZ4_memcpy load op s n) Q d.
Proof. intros Hn Hs Ho Hd HQ. apply wp_copy_back; try done. intros d' H1 H2. by apply HQ. Qed.

Lemma wp_wild8_loop_back e : forall fuel d s dst (Q : unit -> bytes -> Prop),
  e - d < Z.of_nat fuel -> (0 < fuel)%nat -> 0 <= s -> 8 <= d - s -> d + stripes 8 (e - d) <= len dst ->
  (forall d', extended dst d' d (d + stripes 8 (e - d)) (d - s) -> Q tt d') -> wp (wildCopy8_loop fuel load d s e) Q dst.
Proof.
  induction fuel as [|fuel IH]; intros d s dst Q Hf H0 Hs Hd Hl HQ; [lia|].
  pose proof (stripes_bounds 8 (e - d) ltac:(lia)) as HB. cbn [wildCopy8_loop].
  apply wp_bind, wp_copy_ext; [lia..|]. intros d1 H1. destruct (Z.ltb_spec (d + 8) e) as [Hlt|Hge].
  - rewrite stripes_step in * by lia. replace (e - d - 8) with (e - (d + 8)) in * by lia.
    pose proof (stripes_bounds 8 (e - (d + 8)) ltac:(lia)) as HB'. pose proof (extended_len _ _ _ _ _ H1) as HL1.
    apply IH; try lia. intros d2 H2. apply HQ. rewrite Z.add_assoc.
    eapply extended_app; [exact H1| |lia..]. by replace (d - s) with (d + 8 - (s + 8)) by lia.
  - apply wp_ret, HQ. by rewrite stripes_one by lia.
Qed.

Lemma wp_wild8_back d s e dst (Q : unit -> bytes -> Prop) :
  0 <= s -> 8 <= d - s -> d + stripes 8 (e - d) <= len dst ->
  (forall d', extended dst d' d (d + stripes 8 (e - d)) (d - s) -> Q tt d') -> wp (LZ4_wildCopy8 load d s e) Q dst.
Proof. intros. apply wp_wild8_loop_back; try done; lia. Qed.

Lemma wp_wild32_loop_back e : forall fuel d s dst (Q : unit -> bytes -> Prop),
  e - d < Z.of_nat fuel -> (0 < fuel)%nat -> 0 <= s -> 16 <= d - s -> d + stripes 32 (e - d) <= len dst ->
  (forall d', extended dst d' d (d + stripes 32 (e - d)) (d - s) -> Q tt d') -> wp (wildCopy32_loop fuel load d s e) Q dst.
Proof.
  induction fuel as [|fuel IH]; intros d s dst Q Hf H0 Hs Hd Hl HQ; [lia|].
  pose proof (stripes_bounds 32 (e - d) ltac:(lia)) as HB. cbn [wildCopy32_loop].
  apply wp_bind, wp_copy_ext; [lia..|]. intros d1 H1. pose proof (extended_len _ _ _ _ _ H1) as HL1.
  apply wp_bind, wp_copy_ext; [lia..|]. intros d2 H2. pose proof (extended_len _ _ _ _ _ H2) as HL2.
  assert (extended dst d2 d (d + 32) (d - s)) as H12.
  { replace (d + 16 - (s + 16)) with (d - s) in H2 by lia. replace (d + 32) with (d + 16 + 16) by lia.
    eapply extended_app; [exact H1|exact H2|lia..]. }
  destruct (Z.ltb_spec (d + 32) e) as [Hlt|Hge].
  - rewrite stripes_step in * by lia. replace (e - d - 32) with (e - (d + 32)) in * by lia.
    pose proof (stripes_bounds 32 (e - (d + 32)) ltac:(lia)) as HB'.
    apply IH; try lia. intros d3 H3. apply HQ. rewrite Z.add_assoc.
    eapply extended_app; [exact H12| |lia..]. by replace (d - s) with (d + 32 - (s + 32)) by lia.
  - apply wp_ret, HQ. by rewrite stripes_one by lia.
Qed.

Lemma wp_wild32_back d s e dst (Q : unit -> bytes -> Prop) :
  0 <= s -> 16 <= d - s -> d + stripes 32 (e - d) <= len dst ->
  (forall d', extended dst d' d (d + stripes 32 (e - d)) (d - s) -> Q tt d') -> wp (LZ4_wildCopy32 load d s e) Q dst.
Proof. intros. apply wp_wild32_loop_back; try done; lia. Qed.

Lemma wp_copy_bytes cpy : forall fuel op s d (Q : unit -> bytes -> Prop),
  cpy - op < Z.of_nat fuel -> (0 < fuel)%nat -> 0 <= s -> 1 <= op - s -> cpy <= len d ->
  (forall d', extended d d' op (Z.max op cpy) (op - s) -> Q tt d') -> wp (copy_bytes fuel op s cpy) Q d.
Proof.
  induction fuel as [|fuel IH]; intros op s d Q Hf H0 Hs Ho Hl HQ; [lia|]. cbn [copy_bytes].
  destruct (Z.ltb_spec op cpy) as [Hlt|Hge].
  - apply wp_bind, wp_copy_ext; [lia..|]. intros d1 H1. pose proof (extended_len _ _ _ _ _ H1) as HL1.
    apply IH; try lia. intros d2 H2. apply HQ. rewrite Z.max_r in * by lia.
    eapply extended_app; [exact H1| |lia..]. by replace (op - s) with (op + 1 - (s + 1)) by lia.
  - apply wp_ret, HQ. split; [apply frame_refl|]. intros i Hi. lia.
Qed.

(** [E] is a multiple of [o], near enough for what precedes it. *)
Definition multiple (o E n : Z) : Prop := o = 0 \/ exists k, 1 <= k /\ E = k * o /\ (k - 1) * o <= n.

Lemma frame_multiple d1 d2 d3 p q r lim o E : 0 <= o -> multiple o E (q - p) -> p <= q -> r <= lim -> q <= lim ->
  0 <= p - o -> frame d1 d2 p q -> (1 <= o -> periodic d2 p q o) -> frame d2 d3 q lim -> periodic d3 q r E ->
  frame d1 d3 p lim /\ (1 <= o -> periodic d3 p r o).
Proof.
  intros Ho Hm Hpq Hr Hq Hp F1 P1 F2 P2. split; [eapply frame_trans; [exact F1|exact F2|lia..]|].
  intros Ho1. destruct Hm as [|(k & Hk & -> & Hn)]; [lia|].
  eapply (periodic_multiple _ p q r o k); try done.
  eapply periodic_frame; [by apply P1|exact F2|lia..].
Qed.

Lemma extended_multiple d1 d2 d3 p q r o E : 0 <= o -> multiple o E (q - p) -> p <= q -> q <= r -> 0 <= p - o ->
  frame d1 d2 p q -> (1 <= o -> periodic d2 p q o) -> extended d2 d3 q r E ->
  frame d1 d3 p r /\ (1 <= o -> periodic d3 p r o).
Proof. intros Ho Hm Hpq Hqr Hp F1 P1 [F2 P2]. by eapply frame_multiple. Qed.

Definition shift4 (o : Z) : Z := 4 + o - at_ inc32table o.
Definition shift8 (o : Z) : Z := 8 + o - (at_ inc32table o - at_ dec64table o).

Lemma shifts o : 0 <= o < 8 -> multiple o (shift4 o) 4 /\ multiple o (shift8 o) 8 /\ 4 <= shift4 o /\ 8 <= shift8 o /\
  0 <= at_ inc32table o /\ 0 <= at_ inc32table o - at_ dec64table o.
Proof.
  intros Ho. assert (o = 0 \/ o = 1 \/ o = 2 \/ o = 3 \/ o = 4 \/ o = 5 \/ o = 6 \/ o = 7) as Hc by lia.
  assert (forall k E n, 1 <= k -> E = k * o -> (k - 1) * o <= n -> multiple o E n) as Hm by (intros k E n ???; right; by exists k).
  destruct Hc as [->|[->|[->|[->|[->|[->|[->| ->]]]]]]];
    (split; [first [by left|by apply (Hm 1)|by apply (Hm 2)|by apply (Hm 4)]|]);
    (split; [first [by left|by apply (Hm 2)|by apply (Hm 3)|by apply (Hm 4)|by apply (Hm 8)]|]); by vm_compute.
Qed.

Lemma wp_copy_any op s n (Q : unit -> bytes -> Prop) d :
  0 <= n -> 0 <= s <= op -> op + n <= len d ->
  (forall d', frame d d' op (op + n) -> (n <= op - s -> periodic d' op (op + n) (op - s)) -> Q tt d') ->
  wp (LZ4_memcpy load op s n) Q d.
Proof.
  intros Hn Hs Hd HQ. apply wp_bind, wp_load; [lia..|]. apply wp_store; [lia|blia|]. apply HQ.
  - apply frame_blit; blia.
  - intros Hle. replace s with (op - (op - s)) at 1 by lia. apply periodic_blit; lia.
Qed.

(** One byte more. *)
Lemma wp_copy_one (op s i j o : Z) (Q : unit -> bytes -> Prop) d0 d :
  0 <= i -> 0 <= o -> 0 <= op - o -> s = op + i - o -> op + i + 1 <= len d ->
  frame d0 d op (op + 4) -> (1 <= o -> periodic d op (op + i) o) -> i < 4 -> j = i + 1 ->
  (forall d', frame d0 d' op (op + 4) -> (1 <= o -> periodic d' op (op + j) o) -> len d' = len d -> Q tt d') ->
  wp (LZ4_memcpy load (op + i) s 1) Q d.
Proof.
  intros Hi Ho Hop -> Hl HF HP H4 -> HQ. rewrite Z.add_assoc in HQ. apply wp_copy_any; [lia..|]. intros d' F P. apply HQ.
  - eapply frame_trans; [exact HF|exact F|lia..].
  - intros Ho1. eapply periodic_app; [eapply periodic_frame; [by apply HP|exact F|lia..]|].
    replace o with (op + i - (op + i - o)) by lia. apply P. lia.
  - by eapply frame_len.
Qed.

Lemma wp_copy_close op o (Q : Z -> bytes -> Prop) d :
  0 <= o < 8 -> 0 <= op - o -> op + 8 <= len d ->
  (forall d', frame d d' op (op + 8) -> (1 <= o -> periodic d' op (op + 8) o) -> Q (op + 8 - shift8 o) d') ->
  wp (copy_close op (op - o) o) Q d.
Proof.
  intros Ho Hop Hl HQ. destruct (shifts o Ho) as (M4 & M8 & S4 & S8 & I1 & I2). unfold copy_close, LZ4_write32.
  assert (len (le_put 4 0) = 4) as HZ by apply len_le_put.
  apply wp_bind, wp_store; [lia|lia|]. set (d0 := blit d op (le_put 4 0)).
  assert (frame d d0 op (op + 4)) as F0 by (apply frame_blit; lia).
  pose proof (frame_len _ _ _ _ F0) as L0. replace op with (op + 0) at 1 by lia.
  apply wp_bind, (wp_copy_one op _ 0 1 o _ d); try lia; [exact F0|intros _ i Hi; lia|]. intros d1 F1 P1 L1.
  apply wp_bind, (wp_copy_one op _ 1 2 o _ d); try lia; [exact F1|exact P1|]. intros d2 F2 P2 L2.
  apply wp_bind, (wp_copy_one op _ 2 3 o _ d); try lia; [exact F2|exact P2|]. intros d3 F3 P3 L3.
  apply wp_bind, (wp_copy_one op _ 3 4 o _ d); try lia; [exact F3|exact P3|]. intros d4 F4 P4 L4.
  assert (op + 4 - (op - o + at_ inc32table o) = shift4 o) as E4 by (unfold shift4; lia).
  apply wp_bind, wp_copy_ext; [lia..|]. intros d5 X5. rewrite E4, <- Z.add_assoc in X5. change (4 + 4) with 8 in X5.
  replace (op - o + at_ inc32table o - at_ dec64table o) with (op + 8 - shift8 o) by (unfold shift8; lia).
  apply wp_ret. eapply (extended_multiple d d4 d5 op (op + 4) (op + 8) o (shift4 o)) in X5 as [F5 P5]; try done; try lia.
  - by apply HQ.
  - by replace (op + 4 - op) with 4 by lia.
Qed.

Lemma wp_copy_first8 op o (Q : Z -> bytes -> Prop) d :
  0 <= o -> 0 <= op - o -> op + 8 <= len d ->
  (forall d' E, frame d d' op (op + 8) -> (1 <= o -> periodic d' op (op + 8) o) -> 8 <= E <= op + 8 -> multiple o E 8 ->
     Q (op + 8 - E) d') ->
  wp (copy_first8 op (op - o) o) Q d.
Proof.
  intros Ho Hop Hl HQ. unfold copy_first8. destruct (Z.ltb_spec o 8) as [H8|H8].
  - destruct (shifts o ltac:(lia)) as (M4 & M8 & S4 & S8 & I1 & I2).
    apply wp_copy_close; [lia..|]. intros d' F P. apply HQ; try done. unfold shift8 in *. lia.
  - apply wp_bind, wp_copy_ext; [lia..|]. intros d' [F P]. apply wp_ret.
    replace (op - o + 8) with (op + 8 - o) by lia. apply HQ; [done| |lia|right; exists 1; lia].
    intros _. by replace (op - (op - o)) with o in P by lia.
Qed.

(** ** Runs of a pattern *)

Definition patterned (d : bytes) (p q : Z) (v : bytes) : Prop :=
  forall i, p <= i < q -> at_ d i = at_ v ((i - p) mod 8).

Lemma patterned_blit d p v : 0 <= p -> len v = 8 -> p + 8 <= len d -> patterned (blit d p v) p (p + 8) v.
Proof.
  intros Hp Hv Hl i Hi. rewrite at_blit, decide_True by lia. by rewrite Z.mod_small by lia.
Qed.

Lemma wp_fill_loop v cpy p : forall fuel op d0 d (Q : unit -> bytes -> Prop),
  len v = 8 -> cpy - op < Z.of_nat fuel -> (0 < fuel)%nat -> 0 <= p -> p <= op -> (op - p) mod 8 = 0 ->
  op + Z.max 0 (stripes 8 (cpy - op)) <= len d ->
  frame d0 d p op -> patterned d p op v ->
  (forall d' q, frame d0 d' p q -> patterned d' p q v -> cpy <= q -> q <= Z.max op (cpy + 7) -> Q tt d') ->
  wp (fill_loop fuel v op cpy) Q d.
Proof.
  induction fuel as [|fuel IH]; intros op d0 d Q Hv Hf H0 Hp Hop Hmod Hl HF HP HQ; [lia|]. cbn [fill_loop].
  pose proof (stripes_bounds 8 (cpy - op) ltac:(lia)) as HB.
  destruct (Z.ltb_spec op cpy) as [Hlt|Hge].
  - apply wp_bind, wp_store; [lia|lia|].
    pose proof (stripes_bounds 8 (cpy - (op + 8)) ltac:(lia)) as HB'.
    assert (op + 8 + Z.max 0 (stripes 8 (cpy - (op + 8))) <= len d \/ cpy <= op + 8) as Hroom.
    { destruct (Z.le_gt_cases cpy (op + 8)); [by right|left].
      rewrite (stripes_step 8 (cpy - op)) in * by lia. replace (cpy - op - 8) with (cpy - (op + 8)) in * by lia. lia. }
    assert (frame d0 (blit d op v) p (op + 8)) as HF1.
    { eapply frame_trans; [exact HF|apply (frame_blit _ _ _ (op + 8)); lia|lia..]. }
    assert (patterned (blit d op v) p (op + 8) v) as HP1.
    { intros i Hi. rewrite at_blit by lia. case_decide as Hd.
      - replace (i - p) with (i - op + (op - p)) by lia. rewrite Z.add_mod, Hmod, Z.add_0_r, Z.mod_mod by lia.
        by rewrite Z.mod_small by lia.
      - apply HP. lia. }
    destruct Hroom as [Hroom|Hend].
    + apply (IH (op + 8) d0); try lia; try done.
      * replace (op + 8 - p) with (op - p + 1 * 8) by lia. by rewrite Z.mod_add by lia.
      * blia.
      * intros d' q Hq1 Hq2 Hq3 Hq4. apply (HQ d' q); try done. lia.
    + destruct fuel as [|fuel]; [lia|]. cbn [fill_loop]. rewrite (proj2 (Z.ltb_ge _ _)) by lia.
      apply wp_ret. apply (HQ _ (op + 8)); try done; lia.
  - apply wp_ret. apply (HQ _ op); try done; lia.
Qed.

Lemma wp_fill v op cpy d (Q : unit -> bytes -> Prop) :
  len v = 8 -> 0 <= op -> op + 8 + stripes 8 (cpy - (op + 8)) <= len d ->
  (forall d' q, frame d d' op q -> patterned d' op q v -> cpy <= q -> q <= Z.max (op + 8) (cpy + 7) -> Q tt d') ->
  wp (fill v op cpy) Q d.
Proof.
  intros Hv Hop Hl HQ. pose proof (stripes_bounds 8 (cpy - (op + 8)) ltac:(lia)). unfold fill.
  apply wp_bind, wp_store; [lia|lia|].
  apply (wp_fill_loop v cpy op _ (op + 8) d); try lia; try blia.
  - by replace (op + 8 - op) with 8 by lia.
  - apply frame_blit; lia.
  - apply patterned_blit; lia.
  - exact HQ.
Qed.

(** A pattern of period [o] that starts with the [o] bytes before it. *)
Lemma patterned_periodic d d' op q v o : (o = 1 \/ o = 2 \/ o = 4) -> 0 <= op - o -> op <= len d ->
  (forall j, 0 <= j < 8 -> at_ v j = at_ (sub (op - o) o d) (j mod o)) ->
  frame d d' op q -> patterned d' op q v -> periodic d' op q o.
Proof.
  intros Ho Hop Hl Hv [_ HF] HP i Hi. assert ((o | 8)) as Hdiv.
  { destruct Ho as [->|[->| ->]]; [by exists 8|by exists 4|by exists 2]. }
  rewrite HP by done. pose proof (Z.mod_pos_bound (i - op) 8 ltac:(lia)).
  rewrite Hv, Z.mod_mod_divide by done. destruct (decide (i < op + o)) as [Hlt|Hge].
  - rewrite HF by lia. rewrite Z.mod_small by lia. rewrite at_sub by lia. f_equal. lia.
  - rewrite HP by lia. pose proof (Z.mod_pos_bound (i - o - op) 8 ltac:(lia)).
    rewrite Hv, Z.mod_mod_divide by done. f_equal.
    replace (i - op) with (i - o - op + 1 * o) by lia. by rewrite Z.mod_add by lia.
Qed.

Lemma cases8 j : 0 <= j < 8 -> j = 0 \/ j = 1 \/ j = 2 \/ j = 3 \/ j = 4 \/ j = 5 \/ j = 6 \/ j = 7.
Proof. lia. Qed.

Lemma wp_memcpy_using_offset op o cpy (Q : unit -> bytes -> Prop) d :
  0 <= o < 16 -> 0 <= op - o -> op <= cpy -> op + 8 + stripes 8 (cpy - (op + 8)) <= len d ->
  (forall d', frame d d' op (Z.max (op + 16) (cpy + 7)) -> (1 <= o -> periodic d' op cpy o) -> Q tt d') ->
  wp (LZ4_memcpy_using_offset op (op - o) cpy o) Q d.
Proof.
  intros Ho Hop Hc Hl HQ. pose proof (stripes_bounds 8 (cpy - (op + 8)) ltac:(lia)) as HB.
  assert (forall v, len v = 8 -> (o = 1 \/ o = 2 \/ o = 4) ->
    (forall j, 0 <= j < 8 -> at_ v j = at_ (sub (op - o) o d) (j mod o)) -> wp (fill v op cpy) Q d) as Hfill.
  { intros v Hv Hcase Hpat. apply wp_fill; [done|lia|done|]. intros d' q F P Hq1 Hq2. apply HQ.
    - eapply frame_weaken; [exact F|lia..].
    - intros _ i Hi. eapply (patterned_periodic d d' op q v o); try done; lia. }
  assert (forall n, 0 <= n -> op - o + n <= len d -> len (sub (op - o) n d) = n) as Hsub by (intros; apply len_sub; lia).
  unfold LZ4_memcpy_using_offset.
  destruct (Z.eqb_spec o 1) as [->|N1]; [|destruct (Z.eqb_spec o 2) as [->|N2]; [|destruct (Z.eqb_spec o 4) as [->|N4]]].
  - apply wp_bind, wp_load; [lia..|]. set (w := sub (op - 1) 1 d). pose proof (Hsub 1 ltac:(lia) ltac:(lia)) as Hw. fold w in Hw.
    apply Hfill; [rewrite !len_app; lia|by left|]. intros j Hj. fold w. rewrite Z.mod_1_r.
    destruct (cases8 j Hj) as [->|[->|[->|[->|[->|[->|[->| ->]]]]]]]; rewrite ?at_app, ?Hw by lia; done.
  - apply wp_bind, wp_load; [lia..|]. set (w := sub (op - 2) 2 d). pose proof (Hsub 2 ltac:(lia) ltac:(lia)) as Hw. fold w in Hw.
    apply Hfill; [rewrite !len_app; lia|by right; left|]. intros j Hj. fold w.
    destruct (cases8 j Hj) as [->|[->|[->|[->|[->|[->|[->| ->]]]]]]]; rewrite ?at_app, ?Hw by lia; done.
  - apply wp_bind, wp_load; [lia..|]. set (w := sub (op - 4) 4 d). pose proof (Hsub 4 ltac:(lia) ltac:(lia)) as Hw. fold w in Hw.
    apply Hfill; [rewrite !len_app; lia|by right; right|]. intros j Hj. fold w.
    destruct (cases8 j Hj) as [->|[->|[->|[->|[->|[->|[->| ->]]]]]]]; rewrite ?at_app, ?Hw by lia; done.
  - apply wp_bind, wp_copy_first8; [lia..|]. intros d1 E F1 P1 HE HM. pose proof (frame_len _ _ _ _ F1) as L1.
    apply wp_wild8_back; [lia|lia|lia|]. intros d2 X2. replace (op + 8 - (op + 8 - E)) with E in X2 by lia.
    eapply (extended_multiple d d1 d2 op (op + 8) _ o E) in X2 as [F2 P2]; try done; try lia.
    + apply HQ.
      * eapply frame_weaken; [exact F2|lia..].
      * intros H1 i Hi. apply (P2 H1). lia.
    + by replace (op + 8 - op) with 8 by lia.
Qed.
