(* ===== verification/Lz4Format.v ===== *)
(** * The LZ4 block format

    What a block says: a sequence of literals and matches.  The compressor is
    shown to produce such a block, and the decoder to read it back. *)

From S2P Require Import Prelude Lz4 Lz4Mem.

(** A length [n] beyond the four bits of its token. *)
Definition extra (n : Z) : bytes :=
  if n <? 15 then [] else replicate (Z.to_nat ((n - 15) / 255)) 255 ++ [(n - 15) mod 255].

Definition token (l m : Z) : Z := 16 * Z.min l 15 + Z.min m 15.

(** [encodes x a bs]: [bs] is the rest of a block for [x], from position [a] of
    [x] on.  A match of [ml] bytes repeats what stands [off] bytes before; the
    last 5 bytes are literals, and no match starts in the last 12. *)
Inductive encodes (x : bytes) : Z -> bytes -> Prop :=
  | encodes_last a : 0 <= a <= len x ->
      encodes x a ([token (len x - a) 0] ++ extra (len x - a) ++ zdrop a x)
  | encodes_match a l off ml rest :
      0 <= a -> 0 <= l -> a + l <= len x - MFLIMIT -> 4 <= ml -> a + l + ml <= len x - LASTLITERALS ->
      1 <= off <= 65535 -> off <= a + l -> periodic x (a + l) (a + l + ml) off ->
      encodes x (a + l + ml) rest ->
      encodes x a ([token l (ml - 4)] ++ extra l ++ sub a l x ++ le_put 2 off ++ extra (ml - 4) ++ rest).

Lemma extra_len n : len (extra n) = if n <? 15 then 0 else (n - 15) / 255 + 1.
Proof.
  unfold extra. destruct (Z.ltb_spec n 15); [done|]. rewrite len_app, len_replicate.
  rewrite len_cons, len_nil. pose proof (Z.div_pos (n - 15) 255). lia.
Qed.

Lemma extra_len_nonneg n : 0 <= len (extra n).
Proof. apply len_nonneg. Qed.

(** Anything after a match ends with five literals. *)
Lemma encodes_len x a bs : encodes x a bs -> 0 <= a <= len x /\ Z.min 6 (len x - a + 1) <= len bs.
Proof.
  induction 1 as [a Ha|a l off ml rest Ha Hl Hal Hml Hend Hoff Hoffa Hper _ IH].
  - split; [done|]. rewrite !len_app, len_zdrop, len_cons, len_nil. pose proof (len_nonneg (extra (len x - a))). lia.
  - unfold LASTLITERALS, MFLIMIT in *. split; [lia|]. rewrite !len_app, len_cons, len_nil.
    pose proof (len_nonneg (extra l)). pose proof (len_nonneg (sub a l x)). pose proof (len_nonneg (le_put 2 off)).
    pose proof (len_nonneg (extra (ml - 4))). lia.
Qed.

(** ** Where the pieces of a block stand *)

(** [bs] stands at position [ip] of [blk]. *)
Definition is_at (blk : bytes) (ip : Z) (bs : bytes) : Prop :=
  0 <= ip /\ ip + len bs <= len blk /\ forall i, 0 <= i < len bs -> at_ blk (ip + i) = at_ bs i.

Lemma is_at_app blk ip u v : is_at blk ip (u ++ v) -> is_at blk ip u /\ is_at blk (ip + len u) v.
Proof.
  intros (H1 & H2 & H3). rewrite len_app in *. pose proof (len_nonneg u). pose proof (len_nonneg v).
  split; (split; [lia|split; [lia|]]); intros i Hi.
  - rewrite H3, at_app by lia. by rewrite decide_True by lia.
  - rewrite <- Z.add_assoc, H3, at_app by lia. rewrite decide_False by lia. f_equal. lia.
Qed.

Lemma is_at_sub blk ip bs : is_at blk ip bs -> sub ip (len bs) blk = bs.
Proof.
  intros (H1 & H2 & H3). pose proof (len_nonneg bs). apply bytes_ext; [by rewrite len_sub by lia|].
  rewrite len_sub by lia. intros i Hi. rewrite at_sub by lia. by apply H3.
Qed.

Lemma is_at_whole blk : is_at blk 0 blk.
Proof. split; [lia|]. split; [lia|]. intros i Hi. by rewrite Z.add_0_l. Qed.

Lemma is_at_one blk ip b : is_at blk ip [b] -> 0 <= ip < len blk /\ at_ blk ip = b.
Proof.
  assert (len [b] = 1) as Hl by (by rewrite len_cons, len_nil). intros (H1 & H2 & H3). rewrite Hl in H2, H3. split; [lia|]. specialize (H3 0 ltac:(lia)). by rewrite Z.add_0_r in H3.
Qed.

(** ** The length bytes *)

Lemma variable_loop_run blk lencheck r : 0 <= r < 255 -> forall k fuel ip length,
  (k < fuel)%nat -> is_at blk ip (replicate k 255 ++ [r]) -> ip + Z.of_nat k < lencheck ->
  0 <= length -> length + 255 * Z.of_nat k + r < 2 ^ 32 ->
  variable_loop blk fuel ip length lencheck true =
    Ok (length + 255 * Z.of_nat k + r, ip + Z.of_nat k + 1, if lencheck <=? ip + Z.of_nat k + 1 then loop_error else ok).
Proof.
  intros Hr. induction k as [|k IH]; intros [|fuel] ip length Hf Hat Hc Hl0 Hl; try lia; cbn [variable_loop].
  - cbn [replicate app] in Hat. apply is_at_one in Hat as [Hip Hb]. rewrite read_byte_ok, Hb by done.
    cbn [mbind result_bind andb]. rewrite w32_small by lia. change (Z.of_nat 0) with 0 in *.
    replace (length + 255 * 0 + r) with (length + r) by lia. replace (ip + 0 + 1) with (ip + 1) by lia.
    destruct (Z.leb_spec lencheck (ip + 1)); [done|]. by rewrite (proj2 (Z.eqb_neq r 255)) by lia.
  - cbn [replicate app] in Hat. apply (is_at_app _ _ [255]) in Hat as [Hb Hat]. apply is_at_one in Hb as [Hip Hb].
    rewrite len_cons, len_nil in Hat. rewrite read_byte_ok, Hb by done. cbn [mbind result_bind andb].
    rewrite w32_small by lia. rewrite (proj2 (Z.leb_gt _ _)) by lia. rewrite Z.eqb_refl.
    rewrite IH; try lia; [|by replace (ip + 1) with (ip + (1 + 0)) by lia].
    replace (ip + 1 + Z.of_nat k + 1) with (ip + Z.of_nat (S k) + 1) by lia.
    do 3 f_equal. lia.
Qed.

Lemma read_variable_length_run blk ip n lencheck initial_check rest :
  15 <= n -> n < 2 ^ 31 -> is_at blk ip (extra n ++ rest) -> ip + (n - 15) / 255 < lencheck ->
  exists e, read_variable_length blk ip lencheck true initial_check = Ok (n - 15, ip + len (extra n), e) /\ e <> initial_error /\
    (ip + len (extra n) < lencheck -> e = ok).
Proof.
  intros Hn Hn' Hat Hc. apply is_at_app in Hat as [Hat _]. rewrite extra_len. unfold extra in Hat.
  rewrite (proj2 (Z.ltb_ge n 15)) in * by lia. pose proof (Z.div_pos (n - 15) 255 ltac:(lia) ltac:(lia)) as Hd.
  pose proof (Z.mod_pos_bound (n - 15) 255 ltac:(lia)) as Hm. pose proof (Z.div_mod (n - 15) 255 ltac:(lia)) as Hdm.
  assert (variable_loop blk (S (length blk)) ip 0 lencheck true =
    Ok (n - 15, ip + ((n - 15) / 255 + 1), if lencheck <=? ip + ((n - 15) / 255 + 1) then loop_error else ok)) as Hrun.
  { rewrite (variable_loop_run blk lencheck ((n - 15) mod 255) Hm (Z.to_nat ((n - 15) / 255))).
    - rewrite Z2Nat.id by done. rewrite Z.add_assoc. do 3 f_equal. lia.
    - destruct Hat as (Hip & Hat & _). rewrite len_app, len_replicate, len_cons, len_nil, len_length in Hat. lia.
    - done.
    - lia.
    - lia.
    - lia. }
  unfold read_variable_length. rewrite (proj2 (Z.leb_gt lencheck ip)) by lia. rewrite andb_false_r.
  eexists. split; [exact Hrun|]. split; [by destruct (_ <=? _)|]. intros Hlt. by rewrite (proj2 (Z.leb_gt _ _)) by lia.
Qed.

Lemma token_bits l m : 0 <= l -> 0 <= m ->
  0 <= token l m < 256 /\ Z.shiftr (token l m) ML_BITS = Z.min l 15 /\ Z.land (token l m) ML_MASK = Z.min m 15.
Proof.
  intros Hl Hm. unfold token, ML_BITS, ML_MASK. rewrite Z.shiftr_div_pow2 by lia.
  assert (forall z, Z.land z 15 = z mod 2 ^ 4) as -> by (intros z; change 15 with (Z.ones 4); apply Z.land_ones; lia).
  change (2 ^ 4) with 16. split; [lia|].
  replace (16 * Z.min l 15 + Z.min m 15) with (Z.min m 15 + Z.min l 15 * 16) by lia.
  rewrite Z.div_add, Z.mod_add by lia. rewrite Z.div_small, Z.mod_small by lia. lia.
Qed.
