(* ===== verification/Lz4Decode.v ===== *)
(** * The LZ4 decoder

    The copies of a match in the decoder of [util/lz4.c], and the safety of the
    whole decoder: on any input at all it stays within its two buffers and
    comes to an end. *)

From S2P Require Import Prelude Lz4 Lz4Mem.

Section Decode.
Context (src : bytes) (outputSize src_at dst_at : Z).
Abbreviation oend := (oend outputSize).

(** ** Copying a match *)

Lemma wp_match_tail ip op o length d d1 E (Q : next -> bytes -> Prop) :
  0 <= o -> 4 <= length -> 0 <= op - o -> op + length <= oend - LASTLITERALS -> oend <= len d -> op + 8 <= oend ->
  frame d d1 op (op + 8) -> (1 <= o -> periodic d1 op (op + 8) o) -> 8 <= E <= op + 8 -> multiple o E 8 ->
  (forall d', frame d d' op oend -> (1 <= o -> periodic d' op (op + length) o) -> Q (Sequence ip (op + length)) d') ->
  wp ((if op + 8 <? oend - (WILDCOPYLENGTH - 1) then
         LZ4_wildCopy8 load (op + 8) (op + 8 - E) (oend - (WILDCOPYLENGTH - 1)) ;;
         copy_bytes (S (Z.to_nat (op + length - (oend - (WILDCOPYLENGTH - 1))))) (oend - (WILDCOPYLENGTH - 1))
           (op + 8 - E + (oend - (WILDCOPYLENGTH - 1) - (op + 8))) (op + length)
       else copy_bytes (S (Z.to_nat (op + length - (op + 8)))) (op + 8) (op + 8 - E) (op + length)) ;;
      mret (Sequence ip (op + length))) Q d1.
Proof.
  unfold WILDCOPYLENGTH, LASTLITERALS. change (8 - 1) with 7. intros Ho Hlen Hop Hend Hd H8 F1 P1 HE HM HQ.
  pose proof (frame_len _ _ _ _ F1) as L1. set (lim := oend - 7) in *.
  assert (forall d3, frame d1 d3 (op + 8) oend -> periodic d3 (op + 8) (Z.max (op + 8) (op + length)) E ->
    Q (Sequence ip (op + length)) d3) as Hfin.
  { intros d3 F3 P3. destruct (frame_multiple d d1 d3 op (op + 8) (Z.max (op + 8) (op + length)) oend o E) as [F P]; try done; try lia.
    - by replace (op + 8 - op) with 8 by lia.
    - apply HQ; [done|]. intros H1 i Hi. apply (P H1). lia. }
  apply wp_bind. destruct (Z.ltb_spec (op + 8) lim) as [Hlt|Hge].
  - pose proof (stripes_bounds 8 (lim - (op + 8)) ltac:(lia)) as HB.
    apply wp_bind, wp_wild8_back; [lia..|]. intros d2 [F2 P2]. pose proof (frame_len _ _ _ _ F2) as L2.
    replace (op + 8 - (op + 8 - E)) with E in P2 by lia.
    replace (op + 8 - E + (lim - (op + 8))) with (lim - E) by lia.
    apply wp_copy_bytes; [lia..|]. intros d3 [F3 P3]. replace (lim - (lim - E)) with E in P3 by lia.
    apply wp_ret, Hfin.
    + eapply frame_trans; [exact F2|exact F3|lia..].
    + intros i Hi. destruct (decide (i < lim)) as [Hil|Hil].
      * eapply (periodic_frame d2 d3 (op + 8) lim E lim (Z.max lim (op + length))); try done; try lia.
        intros j Hj. apply P2. lia.
      * apply P3. lia.
  - apply wp_copy_bytes; [lia..|]. intros d3 [F3 P3]. replace (op + 8 - (op + 8 - E)) with E in P3 by lia.
    apply wp_ret, Hfin; [|done]. eapply frame_weaken; [exact F3|lia..].
Qed.

Lemma wp_safe_match_copy ip op o length d (Q : next -> bytes -> Prop) :
  0 <= o -> 4 <= length -> 0 <= op -> op + 8 <= oend -> oend <= len d ->
  (op - o < 0 \/ oend - LASTLITERALS < op + length -> forall d', frame d d' op oend -> Q (output_error ip) d') ->
  (0 <= op - o -> op + length <= oend - LASTLITERALS -> forall d', frame d d' op oend ->
     (1 <= o -> periodic d' op (op + length) o) -> Q (Sequence ip (op + length)) d') ->
  wp (safe_match_copy outputSize ip op o length) Q d.
Proof.
  intros Ho Hlen Hop H8 Hd HQe HQ. unfold safe_match_copy.
  destruct (Z.ltb_spec (op - o) 0) as [Hneg|Hpos]; [apply wp_ret, HQe; [by left|apply frame_refl]|].
  apply wp_bind, wp_copy_first8; [lia..|]. intros d1 E F1 P1 HE HM. pose proof (frame_len _ _ _ _ F1) as L1.
  change (MATCH_SAFEGUARD_DISTANCE) with 12.
  destruct (Z.ltb_spec (oend - 12) (op + length)) as [Hfar|Hnear].
  - destruct (Z.ltb_spec (oend - LASTLITERALS) (op + length)) as [Hlast|Hok].
    + apply wp_ret, HQe; [by right|]. eapply frame_weaken; [exact F1|lia..].
    + apply (wp_match_tail ip op o length d d1 E); try done. by apply HQ.
  - assert (forall d2 r, frame d1 d2 (op + 8) r -> r <= oend -> periodic d2 (op + 8) (op + length) E ->
      Q (Sequence ip (op + length)) d2) as Hfin.
    { intros d2 r F2 Hr P2. unfold LASTLITERALS in *.
      destruct (frame_multiple d d1 d2 op (op + 8) (Z.max (op + 8) (op + length)) oend o E) as [F P]; try done; try lia.
      - by replace (op + 8 - op) with 8 by lia.
      - eapply frame_weaken; [exact F2|lia..].
      - intros i Hi. apply P2. lia.
      - apply HQ; [done|lia|done|]. intros H1 i Hi. apply (P H1). lia. }
    apply wp_bind, wp_copy_ext; [lia..|]. intros d2 [F2 P2]. pose proof (frame_len _ _ _ _ F2) as L2.
    replace (op + 8 - (op + 8 - E)) with E in P2 by lia.
    apply wp_bind. destruct (Z.ltb_spec 16 length) as [Hlong|Hshort].
    + pose proof (stripes_bounds 8 (op + length - (op + 8 + 8)) ltac:(lia)) as HB.
      apply wp_wild8_back; [lia..|]. intros d3 X3. replace (op + 8 + 8 - (op + 8 - E + 8)) with E in X3 by lia.
      apply wp_ret. destruct (extended_app d1 d2 d3 (op + 8) (op + 8 + 8) (op + 8 + 8 + stripes 8 (op + length - (op + 8 + 8))) E) as [F3 P3]; try done; try lia.
      apply (Hfin d3 (op + 8 + 8 + stripes 8 (op + length - (op + 8 + 8)))); [done|lia|]. intros i Hi. apply P3. lia.
    + apply wp_ret, wp_ret. apply (Hfin d2 (op + 8 + 8)); [done|lia|]. intros i Hi. apply P2. lia.
Qed.

Lemma wp_fast_copy ip op o length d (Q : fast_next -> bytes -> Prop) :
  0 <= o -> 4 <= length -> 0 <= op -> op + length < oend - FASTLOOP_SAFE_DISTANCE -> oend <= len d ->
  (op - o < 0 -> Q (Leave (output_error ip)) d) ->
  (0 <= op - o -> forall d', frame d d' op oend -> (1 <= o -> periodic d' op (op + length) o) ->
     Q (StayFast ip (op + length)) d') ->
  wp (fast_copy ip op o length) Q d.
Proof.
  unfold FASTLOOP_SAFE_DISTANCE. intros Ho Hlen Hop Hend Hd HQe HQ. unfold fast_copy.
  destruct (Z.ltb_spec (op - o) 0) as [Hneg|Hpos]; [by apply wp_ret, HQe|].
  apply wp_bind. destruct (Z.ltb_spec o 16) as [H16|H16].
  - pose proof (stripes_bounds 8 (op + length - (op + 8)) ltac:(lia)) as HB.
    apply wp_memcpy_using_offset; [lia..|]. intros d' F P. apply wp_ret, HQ; [done| |done].
    eapply frame_weaken; [exact F|lia..].
  - pose proof (stripes_bounds 32 (op + length - op) ltac:(lia)) as HB.
    apply wp_wild32_back; [lia..|]. intros d' [F P]. replace (op - (op - o)) with o in P by lia.
    apply wp_ret, HQ; [done| |].
    + eapply frame_weaken; [exact F|lia..].
    + intros _ i Hi. apply P. lia.
Qed.

(** The 18 bytes of a short match that is not close. *)
Lemma wp_copy18 {A} op o length d (k : D A) (Q : A -> bytes -> Prop) :
  8 <= o -> 0 <= op - o -> op + 18 <= oend -> oend <= len d -> length <= 18 ->
  (forall d', frame d d' op oend -> periodic d' op (op + length) o -> wp k Q d') ->
  wp (LZ4_memcpy load op (op - o) 8 ;; LZ4_memcpy load (op + 8) (op - o + 8) 8 ;;
      LZ4_memcpy load (op + 16) (op - o + 16) 2 ;; k) Q d.
Proof.
  intros Ho Hop Hend Hd Hlen HQ.
  apply wp_bind, wp_copy_ext; [lia..|]. intros d1 X1. pose proof (extended_len _ _ _ _ _ X1) as L1.
  apply wp_bind, wp_copy_ext; [lia..|]. intros d2 X2. pose proof (extended_len _ _ _ _ _ X2) as L2.
  apply wp_bind, wp_copy_ext; [lia..|]. intros d3 X3. pose proof (extended_len _ _ _ _ _ X3) as L3.
  replace (op - (op - o)) with o in X1 by lia. replace (op + 8 - (op - o + 8)) with o in X2 by lia.
  replace (op + 16 - (op - o + 16)) with o in X3 by lia. replace (op + 8 + 8) with (op + 16) in X2 by lia.
  replace (op + 16 + 2) with (op + 18) in X3 by lia.
  destruct (extended_app d d2 d3 op (op + 16) (op + 18) o) as [F P]; try done; try lia.
  - eapply extended_app; [exact X1|exact X2|lia..].
  - apply HQ; [eapply frame_weaken; [exact F|lia..]|]. intros i Hi. apply P. lia.
Qed.

(** ** The decoder is safe on every input *)

Lemma variable_loop_safe lencheck : lencheck <= len src -> forall fuel ip length,
  len src - ip < Z.of_nat fuel -> 0 <= ip < len src ->
  exists l ip' e, variable_loop src fuel ip length lencheck true = Ok (l, ip', e) /\ 0 <= l /\ ip < ip' <= len src /\
    match e with ok => ip' < lencheck | loop_error => True | initial_error => False end.
Proof using Type.
  intros Hc. induction fuel as [|fuel IH]; intros ip length Hf Hip; [lia|]. cbn [variable_loop].
  rewrite read_byte_ok by lia. cbn [mbind result_bind andb]. pose proof (w32_bound (length + at_ src ip)).
  destruct (Z.leb_spec lencheck (ip + 1)).
  - do 3 eexists. split; [reflexivity|]. split; [lia|]. by split; [lia|].
  - destruct (_ =? 255).
    + destruct (IH (ip + 1) (length + at_ src ip)%u32) as (l & ip' & e & He & H1 & H2 & H3); [lia|lia|].
      exists l, ip', e. split; [done|]. split; [done|]. by split; [lia|].
    + do 3 eexists. split; [reflexivity|]. by split_and!; try lia.
Qed.

Lemma read_variable_length_safe ip lencheck initial_check :
  lencheck <= len src -> 0 <= ip <= len src -> (initial_check = false -> ip < len src) ->
  exists l ip' e, read_variable_length src ip lencheck true initial_check = Ok (l, ip', e) /\ 0 <= l /\ ip <= ip' <= len src /\
    match e with ok => ip' < lencheck | _ => True end.
Proof using Type.
  intros Hc Hip Hi. unfold read_variable_length. destruct initial_check; cbn [andb].
  - destruct (Z.leb_spec lencheck ip).
    + do 3 eexists. split; [reflexivity|]. split; [lia|]. by split; [lia|].
    + destruct (variable_loop_safe lencheck Hc (S (length src)) ip 0) as (l & ip' & e & He & H1 & H2 & H3);
        [rewrite len_length; lia|lia|]. exists l, ip', e. split; [done|]. split; [done|]. split; [lia|]. by destruct e.
  - destruct (variable_loop_safe lencheck Hc (S (length src)) ip 0) as (l & ip' & e & He & H1 & H2 & H3);
      [rewrite len_length; lia|by split; [lia|apply Hi]|]. exists l, ip', e. split; [done|]. split; [done|]. split; [lia|]. by destruct e.
Qed.

Context (Hbytes : is_bytes src) (Hsrc : len src < 2 ^ 31) (Hout : 0 <= oend < 2 ^ 31).

(** A turn of a loop that started before [ip0]: the next one starts further
    on, or the result is not more than the output. *)
Definition safe_next (ip0 : Z) (d : bytes) (n : next) (d' : bytes) : Prop :=
  frame d d' 0 oend /\
  match n with
  | Sequence ip op => ip0 <= ip < len src /\ 0 <= op <= oend
  | Return r => r <= oend
  end.

Lemma output_error_safe ip0 ip d d' : 0 <= ip <= len src -> frame d d' 0 oend -> safe_next ip0 d (output_error ip) d'.
Proof using Hsrc Hout.
  intros Hip HF. split; [done|]. cbn. unfold s32. rewrite Z.mod_small by lia. lia.
Qed.

Lemma safe_next_weaken ip0 ip1 d d1 n d' : ip0 <= ip1 -> frame d d1 0 oend -> safe_next ip1 d1 n d' -> safe_next ip0 d n d'.
Proof using Type.
  intros Hip HF [HF' Hn]. split; [eapply frame_trans; [exact HF|exact HF'|lia..]|]. destruct n; [|done]. lia.
Qed.

Lemma safe_match_copy_safe ip0 ip op o length d :
  ip0 <= ip < len src -> 0 <= ip -> 0 <= o -> 4 <= length -> 0 <= op -> op + 8 <= oend -> oend <= len d ->
  wp (safe_match_copy outputSize ip op o length) (safe_next ip0 d) d.
Proof using Hsrc Hout.
  intros. apply wp_safe_match_copy; try lia.
  - intros _ d' HF. apply output_error_safe; [lia|]. eapply frame_weaken; [exact HF|lia..].
  - intros Ho Hl d' HF _. unfold LASTLITERALS in *. split; [eapply frame_weaken; [exact HF|lia..]|lia].
Qed.

Lemma copy_match_safe ip0 ip op o length d :
  ip0 <= ip < len src -> 0 <= ip -> 0 <= o -> 0 <= length -> 0 <= op -> op + 8 <= oend -> oend <= len d ->
  wp (copy_match src outputSize dst_at ip op o length) (safe_next ip0 d) d.
Proof using Hsrc Hout.
  intros. unfold copy_match, ML_MASK, MINMATCH, LASTLITERALS. destruct (Z.eqb_spec length 15) as [E15|N15].
  - destruct (read_variable_length_safe ip (len src - 5 + 1) false) as (l & ip' & e & He & L1 & L2 & L3); [lia..|].
    apply wp_bind. eapply wp_lift_ok; [exact He|]. destruct e; [apply wp_ret, output_error_safe; [lia|apply frame_refl]|apply wp_ret, output_error_safe; [lia|apply frame_refl]|].
    destruct (overflows _ _); [apply wp_ret, output_error_safe; [lia|apply frame_refl]|]. apply safe_match_copy_safe; lia.
  - apply safe_match_copy_safe; lia.
Qed.

Lemma wp_readLE16 ip d (Q : Z -> bytes -> Prop) : 0 <= ip -> ip + 2 <= len src ->
  (forall o, o = at_ src ip + 256 * at_ src (ip + 1) -> 0 <= o < 2 ^ 16 -> Q o d) -> wp (LZ4_readLE16 src ip) Q d.
Proof using Hbytes.
  intros Hi Hl HQ. eapply wp_lift_ok.
  - unfold LZ4_read16. rewrite read_n_ok by lia. reflexivity.
  - apply HQ; [by apply le_get_2|]. rewrite le_get_2 by lia.
    pose proof (is_bytes_at src ip Hbytes). pose proof (is_bytes_at src (ip + 1) Hbytes). lia.
Qed.

(** The two halves of a token. *)
Lemma token_parts b : 0 <= b < 256 -> 0 <= Z.shiftr b ML_BITS <= 15 /\ 0 <= Z.land b ML_MASK <= 15.
Proof using Type.
  intros Hb. unfold ML_BITS, ML_MASK. rewrite Z.shiftr_div_pow2 by lia.
  assert (Z.land b 15 = b mod 2 ^ 4) as -> by (change 15 with (Z.ones 4); apply Z.land_ones; lia).
  pose proof (Z.mod_pos_bound b (2 ^ 4) ltac:(lia)). pose proof (Z.div_mod b (2 ^ 4) ltac:(lia)). lia.
Qed.

Lemma safe_literal_copy_safe ip0 ip op token length d :
  ip0 <= ip <= len src -> 0 <= ip -> 0 <= token < 256 -> 0 <= length -> 0 <= op <= oend -> oend <= len d ->
  wp (safe_literal_copy src outputSize dst_at ip op token length) (safe_next ip0 d) d.
Proof using Hsrc Hout Hbytes.
  intros. unfold safe_literal_copy, MFLIMIT, LASTLITERALS. change (2 + 1 + 5) with 8.
  pose proof (token_parts token ltac:(done)).
  destruct (Z.ltb_spec (oend - 12) (op + length)) as [Hfar|Hnear]; cbn [orb].
  2: destruct (Z.ltb_spec (len src - 8) (ip + length)) as [Hend|Hmore]; cbn [orb].
  3: {
    pose proof (stripes_bounds 8 (op + length - op) ltac:(lia)).
    apply wp_bind, wp_wild8_in; [lia..|].
    assert (frame d (blit d op (sub ip (stripes 8 (op + length - op)) src)) 0 oend) as HF.
    { eapply frame_weaken; [eapply (frame_blit _ _ _ oend)|..]; blia. }
    pose proof (frame_len _ _ _ _ HF) as HL.
    apply wp_bind, wp_readLE16; [lia..|]. intros o _ Ho.
    eapply wp_mono; [apply (copy_match_safe (ip + length + 2)); lia|]. intros n d'. by apply safe_next_weaken; [lia|].
  }
  all: destruct (Z.eqb_spec (ip + length) (len src)); cbn [negb orb];
    [destruct (Z.ltb_spec oend (op + length))|];
    [apply wp_ret, output_error_safe; [lia|apply frame_refl]| |apply wp_ret, output_error_safe; [lia|apply frame_refl]].
  all: apply wp_bind, wp_copy_in; [lia..|]; apply wp_ret; split;
    [eapply frame_weaken; [eapply (frame_blit _ _ _ oend)|..]; blia|unfold s32; rewrite Z.mod_small by lia; lia].
Qed.

Lemma literal_length_safe ip op length d (Q : Z * Z * bool -> bytes -> Prop) :
  0 <= ip <= len src -> 0 <= length ->
  (forall l ip' fine, length <= l -> ip <= ip' <= len src -> Q (l, ip', fine) d) ->
  wp (literal_length src src_at dst_at ip op length) Q d.
Proof using Type.
  intros Hip Hl HQ. unfold literal_length, RUN_MASK.
  destruct (read_variable_length_safe ip (len src - 15) true) as (l & ip' & e & He & L1 & L2 & L3); [lia..|done|].
  apply wp_bind. eapply wp_lift_ok; [exact He|]. apply wp_ret, HQ; lia.
Qed.

Ltac error_case := apply wp_ret, output_error_safe; [lia|first [apply frame_refl|done]].

Lemma safe_sequence_safe ip op d :
  0 <= ip < len src -> 0 <= op <= oend -> oend <= len d ->
  wp (safe_sequence src outputSize src_at dst_at ip op) (safe_next (ip + 1) d) d.
Proof using Hsrc Hout Hbytes.
  intros Hip Hop Hd. unfold safe_sequence. apply wp_bind. eapply wp_lift_ok; [by apply read_byte_ok|].
  pose proof (is_bytes_at src ip Hbytes) as Hb. destruct (token_parts _ Hb) as [T1 T2].
  set (token := at_ src ip) in *. set (l := Z.shiftr token ML_BITS) in *. set (m := Z.land token ML_MASK) in *.
  unfold RUN_MASK, ML_MASK, MINMATCH.
  destruct (Z.eqb_spec l 15) as [E15|N15]; cbn [negb andb].
  { apply wp_bind, literal_length_safe; [lia..|]. intros l' ip' fine Hl' Hip'.
    destruct fine; [apply safe_literal_copy_safe; lia|error_case]. }
  destruct (Z.ltb_spec (ip + 1) (len src - 14 - 2)) as [Hshort|Hlong]; cbn [andb];
    [|apply safe_literal_copy_safe; lia].
  destruct (Z.leb_spec op (oend - 14 - 18)) as [Hshort'|Hlong]; cbn [andb]; [|apply safe_literal_copy_safe; lia].
  apply wp_bind, wp_copy_in; [lia..|]. set (d1 := blit d op (sub (ip + 1) 16 src)).
  assert (frame d d1 0 oend) as F1 by (eapply frame_weaken; [eapply (frame_blit _ _ _ oend)|..]; blia).
  pose proof (frame_len _ _ _ _ F1) as L1.
  apply wp_bind, wp_readLE16; [lia..|]. intros o _ Ho.
  assert (wp (copy_match src outputSize dst_at (ip + 1 + l + 2) (op + l) o m) (safe_next (ip + 1) d) d1) as Hcopy.
  { eapply wp_mono; [apply (copy_match_safe (ip + 1 + l + 2)); lia|]. intros n d'. by apply safe_next_weaken; [lia|]. }
  destruct (Z.eqb_spec m 15); cbn [negb andb]; [exact Hcopy|].
  destruct (Z.leb_spec 8 o); cbn [andb]; [|exact Hcopy]. destruct (Z.leb_spec 0 (op + l - o)); [|exact Hcopy].
  apply (wp_copy18 (op + l) o (m + 4)); [lia..|]. intros d2 F2 _. apply wp_ret. split; [|lia].
  eapply frame_trans; [exact F1|exact F2|lia..].
Qed.

Lemma safe_decode_safe fuel : forall ip op d,
  len src - ip < Z.of_nat fuel -> 0 <= ip < len src -> 0 <= op <= oend -> oend <= len d ->
  wp (safe_decode src outputSize src_at dst_at fuel ip op) (fun r d' => frame d d' 0 oend /\ r <= oend) d.
Proof using Hsrc Hout Hbytes.
  induction fuel as [|fuel IH]; intros ip op d Hf Hip Hop Hd; [lia|]. cbn [safe_decode].
  apply wp_bind. eapply wp_mono; [by apply safe_sequence_safe|]. intros [ip' op'|r] d' [F Hn]; [|by apply wp_ret].
  pose proof (frame_len _ _ _ _ F) as L. eapply wp_mono; [apply IH; lia|]. intros r d2 [F2 Hr].
  split; [eapply frame_trans; [exact F|exact F2|lia..]|done].
Qed.

Definition safe_fast (ip0 : Z) (d : bytes) (n : fast_next) (d' : bytes) : Prop :=
  match n with
  | StayFast ip op => frame d d' 0 oend /\ ip0 <= ip < len src /\ 0 <= op <= oend - FASTLOOP_SAFE_DISTANCE
  | Leave n => safe_next ip0 d n d'
  end.

Lemma fast_match_safe ip0 ip op token d d1 :
  ip0 <= ip -> 0 <= ip -> ip + 2 < len src -> 0 <= token < 256 -> 0 <= op <= oend - 32 -> frame d d1 0 oend -> oend <= len d ->
  wp (fast_match src outputSize dst_at ip op token) (safe_fast ip0 d) d1.
Proof using Hsrc Hout Hbytes.
  intros Hip0 Hip Hlen Htok Hop F1 Hd. pose proof (frame_len _ _ _ _ F1) as L1. unfold fast_match, ML_MASK, MINMATCH, LASTLITERALS, FASTLOOP_SAFE_DISTANCE.
  destruct (token_parts token Htok) as [_ T2]. unfold ML_MASK in T2. set (m := Z.land token 15) in *.
  apply wp_bind, wp_readLE16; [lia..|]. intros o _ Ho.
  assert (forall ip' length, ip + 2 <= ip' < len src -> 4 <= length ->
    wp (n ← safe_match_copy outputSize ip' op o length; mret (Leave n)) (safe_fast ip0 d) d1) as Hslow.
  { intros ip' length Hip' Hlength. apply wp_bind. eapply wp_mono; [apply (safe_match_copy_safe ip0); lia|].
    intros n d' Hn. apply wp_ret. eapply safe_next_weaken; [|exact F1|exact Hn]. lia. }
  assert (forall ip' length, ip + 2 <= ip' < len src -> 4 <= length -> op + length < oend - 64 ->
    wp (fast_copy ip' op o length) (safe_fast ip0 d) d1) as Hfast.
  { intros ip' length Hip' Hlength Hroom. apply (wp_fast_copy ip' op o length d1); unfold FASTLOOP_SAFE_DISTANCE; try lia.
    - intros _. by apply output_error_safe; [lia|].
    - intros _ d' F _. split; [|unfold FASTLOOP_SAFE_DISTANCE; lia]. eapply frame_trans; [exact F1|exact F|lia..]. }
  destruct (Z.eqb_spec m 15) as [E15|N15].
  - destruct (Z.ltb_spec (op - o) 0); [error_case|].
    destruct (read_variable_length_safe (ip + 2) (len src - 5 + 1) false) as (l & ip' & e & He & K1 & K2 & K3); [lia..|].
    apply wp_bind. eapply wp_lift_ok; [exact He|]. destruct e; [error_case|error_case|].
    destruct (overflows _ _); [error_case|].
    destruct (Z.leb_spec (oend - 64) (op + (m + l + 4))); [apply Hslow; lia|apply Hfast; lia].
  - destruct (Z.leb_spec (oend - 64) (op + (m + 4))); [apply Hslow; lia|].
    destruct (Z.leb_spec 0 (op - o)); cbn [andb]; [|apply Hfast; lia].
    destruct (Z.leb_spec 8 o); [|apply Hfast; lia].
    apply (wp_copy18 op o (m + 4)); [lia..|]. intros d2 F2 _. apply wp_ret. split; [|unfold FASTLOOP_SAFE_DISTANCE; lia].
    eapply frame_trans; [exact F1|exact F2|lia..].
Qed.

Lemma fast_sequence_safe ip op d :
  0 <= ip < len src -> 0 <= op <= oend - FASTLOOP_SAFE_DISTANCE -> oend <= len d ->
  wp (fast_sequence src outputSize src_at dst_at ip op) (safe_fast (ip + 1) d) d.
Proof using Hsrc Hout Hbytes.
  unfold FASTLOOP_SAFE_DISTANCE. intros Hip Hop Hd. unfold fast_sequence. apply wp_bind. eapply wp_lift_ok; [by apply read_byte_ok|].
  pose proof (is_bytes_at src ip Hbytes) as Hb. destruct (token_parts _ Hb) as [T1 T2].
  set (token := at_ src ip) in *. set (l := Z.shiftr token ML_BITS) in *. unfold RUN_MASK.
  assert (forall ip' length, ip + 1 <= ip' <= len src -> 0 <= length ->
    wp (n ← safe_literal_copy src outputSize dst_at ip' op token length; mret (Leave n)) (safe_fast (ip + 1) d) d) as Hslow.
  { intros ip' length Hip' Hlength. apply wp_bind. eapply wp_mono; [apply (safe_literal_copy_safe (ip + 1)); lia|].
    intros n d' Hn. by apply wp_ret. }
  destruct (Z.eqb_spec l 15) as [E15|N15].
  - apply wp_bind, literal_length_safe; [lia..|]. intros l' ip' fine Hl' Hip'. destruct fine; cbn [negb]; [|error_case].
    destruct (Z.ltb_spec (oend - 32) (op + l')); cbn [orb]; [apply Hslow; lia|].
    destruct (Z.ltb_spec (len src - 32) (ip' + l')); [apply Hslow; lia|].
    pose proof (stripes_bounds 32 (op + l' - op) ltac:(lia)). apply wp_bind, wp_wild32_in; [lia..|].
    apply fast_match_safe; try lia. eapply frame_weaken; [eapply (frame_blit _ _ _ oend)|..]; blia.
  - destruct (Z.ltb_spec (len src - (16 + 1)) (ip + 1)); [apply Hslow; lia|].
    apply wp_bind, wp_copy_in; [lia..|].
    apply fast_match_safe; try lia. eapply frame_weaken; [eapply (frame_blit _ _ _ oend)|..]; blia.
Qed.

Lemma fast_decode_safe fuel : forall ip op d,
  len src - ip < Z.of_nat fuel -> 0 <= ip < len src -> 0 <= op <= oend - FASTLOOP_SAFE_DISTANCE -> oend <= len d ->
  wp (fast_decode src outputSize src_at dst_at fuel ip op) (fun r d' => frame d d' 0 oend /\ r <= oend) d.
Proof using Hsrc Hout Hbytes.
  induction fuel as [|fuel IH]; intros ip op d Hf Hip Hop Hd; [lia|]. cbn [fast_decode].
  apply wp_bind. eapply wp_mono; [by apply fast_sequence_safe|]. intros [ip' op'|[ip' op'|r]] d' Hn.
  - destruct Hn as (F & Hip' & Hop'). pose proof (frame_len _ _ _ _ F) as L.
    eapply wp_mono; [apply IH; lia|]. intros r d2 [F2 Hr]. split; [eapply frame_trans; [exact F|exact F2|lia..]|done].
  - destruct Hn as (F & Hip' & Hop'). pose proof (frame_len _ _ _ _ F) as L.
    eapply wp_mono; [apply safe_decode_safe; lia|]. intros r d2 [F2 Hr]. split; [eapply frame_trans; [exact F|exact F2|lia..]|done].
  - by apply wp_ret.
Qed.
End Decode.

Lemma decompress_safe_wp src outputSize src_at dst_at d :
  is_bytes src -> len src < 2 ^ 31 -> 0 <= outputSize < 2 ^ 31 -> outputSize <= len d ->
  wp (decompress_safe src outputSize src_at dst_at) (fun r d' => frame d d' 0 outputSize /\ r <= outputSize) d.
Proof.
  intros Hb Hs Ho Hd. unfold decompress_safe, LZ4_decompress_generic.
  rewrite (proj2 (Z.ltb_ge outputSize 0)) by lia. pose proof (len_nonneg src). pose proof (len_length src).
  destruct (Z.eqb_spec outputSize 0).
  { destruct (Z.eqb_spec (len src) 1); [|apply wp_ret; split; [apply frame_refl|lia]].
    apply wp_bind. eapply wp_lift_ok; [apply read_byte_ok; lia|]. apply wp_ret. split; [apply frame_refl|].
    destruct (_ =? 0); lia. }
  destruct (Z.eqb_spec (len src) 0); [apply wp_ret; split; [apply frame_refl|lia]|]. unfold oend at 1, FASTLOOP_SAFE_DISTANCE.
  destruct (Z.ltb_spec (outputSize - 0) 64).
  - apply safe_decode_safe; unfold oend; done || lia.
  - apply fast_decode_safe; unfold oend, FASTLOOP_SAFE_DISTANCE; done || lia.
Qed.
