(* ===== verification/Lz4Read.v ===== *)
(** * Reading back an LZ4 block

    The decoder of [util/lz4.c], fast loop and safe loop, turns every block of
    the format into the bytes it encodes. *)

From S2P Require Import Prelude Lz4 Lz4Mem Lz4Format Lz4Decode.

Section Read.
Context (x blk : bytes) (outputSize src_at dst_at : Z).
Abbreviation oend := (oend outputSize).
Context (Hblk : is_bytes blk) (Hx : len x < 2 ^ 31) (Hout : len x <= oend < 2 ^ 31) (Hlen : len blk < 2 ^ 31).
Context (Hsrc_at : 0 <= src_at /\ src_at + len blk < 2 ^ 64) (Hdst_at : 0 <= dst_at /\ dst_at + len x < 2 ^ 64).

(** The destination holds the first [a] bytes. *)
Definition agree (d : bytes) (a : Z) : Prop := forall i, 0 <= i < a -> at_ d i = at_ x i.

Lemma agree_blit d a s n m : agree d a -> 0 <= a -> 0 <= n <= m -> 0 <= s -> s + m <= len blk -> a + m <= len d ->
  is_at blk s (sub a n x) -> a + n <= len x -> agree (blit d a (sub s m blk)) (a + n).
Proof using Type.
  intros Hd Ha Hn Hs Hm Hl (_ & _ & Hat) Hx' i Hi. rewrite at_blit by blia. rewrite len_sub by lia.
  rewrite len_sub in Hat by lia. case_decide.
  - rewrite at_sub by lia. rewrite Hat by lia. rewrite at_sub by lia. f_equal. lia.
  - apply Hd. lia.
Qed.

Lemma agree_frame d d' a r : agree d a -> frame d d' a r -> agree d' a.
Proof using Type. intros Hd [_ HF] i Hi. rewrite HF by lia. by apply Hd. Qed.

Lemma agree_match d d' a ml off lim : agree d a -> 1 <= off <= a -> frame d d' a lim -> periodic d' a (a + ml) off ->
  periodic x a (a + ml) off -> agree d' (a + ml).
Proof using Type.
  intros Hd Hoff HF Hp Hper. pose proof (agree_frame _ _ _ _ Hd HF) as Ha.
  assert (forall n : nat, Z.of_nat n < a + ml -> at_ d' (Z.of_nat n) = at_ x (Z.of_nat n)) as H.
  { intros n. induction (lt_wf n) as [n _ IH]. intros Hn. destruct (decide (Z.of_nat n < a)); [apply Ha; lia|].
    rewrite Hp, Hper by lia. specialize (IH (Z.to_nat (Z.of_nat n - off)) ltac:(lia)). rewrite Z2Nat.id in IH by lia. apply IH. lia. }
  intros i Hi. specialize (H (Z.to_nat i)). rewrite Z2Nat.id in H by lia. apply H. lia.
Qed.

Lemma no_overflow address length : 0 <= address -> 0 <= length -> address + length < 2 ^ 64 -> overflows address length = false.
Proof using Type.
  intros Ha Hl Hs. unfold overflows. rewrite !w64_small by lia. apply Z.ltb_ge. lia.
Qed.

Lemma wp_LE16_at ip off (Q : Z -> bytes -> Prop) d : is_at blk ip (le_put 2 off) -> 0 <= off < 2 ^ 16 -> Q off d ->
  wp (LZ4_readLE16 blk ip) Q d.
Proof using Type.
  intros Hat Hoff HQ. pose proof (is_at_sub _ _ _ Hat) as Hs. destruct Hat as (H1 & H2 & _).
  assert (len (le_put 2 off) = 2) as Hl by apply len_le_put. rewrite Hl in *.
  eapply wp_lift_ok; [|exact HQ]. unfold LZ4_read16. rewrite read_n_ok by lia. cbn [mbind result_bind]. rewrite Hs.
  f_equal. rewrite le_get_put. by apply Z.mod_small.
Qed.

(** What a turn has done: the next sequence starts at [ip], with [a] bytes
    there. *)
Definition reached (d : bytes) (ip a : Z) (n : next) (d' : bytes) : Prop :=
  n = Sequence ip a /\ agree d' a /\ len d' = len d.

(** A sequence with a match, and what the format says of it. *)
Record sequence (ip a l off ml : Z) (rest : bytes) : Prop := {
  sq_a : 0 <= a;
  sq_l : 0 <= l;
  sq_al : a + l <= len x - MFLIMIT;
  sq_ml : 4 <= ml;
  sq_end : a + l + ml <= len x - LASTLITERALS;
  sq_off : 1 <= off <= 65535;
  sq_offa : off <= a + l;
  sq_per : periodic x (a + l) (a + l + ml) off;
  sq_rest : 6 <= len rest;
  sq_at : is_at blk ip ([token l (ml - 4)] ++ extra l ++ sub a l x ++ le_put 2 off ++ extra (ml - 4) ++ rest)
}.

Definition ip_lits (ip l : Z) : Z := ip + 1 + len (extra l).
Definition ip_off (ip l : Z) : Z := ip_lits ip l + l.
Definition ip_next (ip l ml : Z) : Z := ip_off ip l + 2 + len (extra (ml - 4)).

Lemma sequence_parts ip a l off ml rest : sequence ip a l off ml rest ->
  0 <= ip < len blk /\ at_ blk ip = token l (ml - 4) /\
  is_at blk (ip + 1) (extra l ++ sub a l x ++ le_put 2 off ++ extra (ml - 4) ++ rest) /\
  is_at blk (ip_lits ip l) (sub a l x) /\ is_at blk (ip_off ip l) (le_put 2 off) /\
  is_at blk (ip_off ip l + 2) (extra (ml - 4) ++ rest) /\ is_at blk (ip_next ip l ml) rest /\
  ip_next ip l ml + 6 <= len blk.
Proof using Type.
  intros [S1 S2 S3 S4 S5 S6 S7 S8 S9 S10]. unfold LASTLITERALS in *.
  assert (len (sub a l x) = l) as Hl by (apply len_sub; lia). assert (len (le_put 2 off) = 2) as Hp by apply len_le_put.
  pose proof (is_at_app _ _ _ _ S10) as [A1 A2]. apply is_at_one in A1 as [A1 A1'].
  assert (len [token l (ml - 4)] = 1) as H1 by (by rewrite len_cons, len_nil). rewrite H1 in A2.
  pose proof (is_at_app _ _ _ _ A2) as [A3 A4]. pose proof (is_at_app _ _ _ _ A4) as [A5 A6]. rewrite Hl in A6.
  pose proof (is_at_app _ _ _ _ A6) as [A7 A8]. rewrite Hp in A8. pose proof (is_at_app _ _ _ _ A8) as [A9 A10].
  unfold ip_next, ip_off, ip_lits. split_and!; try done; try lia. destruct A10 as (_ & A10 & _). lia.
Qed.

Lemma copy_match_reads ip a l off ml rest d d1 : sequence ip a l off ml rest -> agree d1 (a + l) -> len d1 = len d -> oend <= len d ->
  wp (copy_match blk outputSize dst_at (ip_off ip l + 2) (a + l) off (Z.min (ml - 4) 15))
    (reached d (ip_next ip l ml) (a + l + ml)) d1.
Proof using All.
  intros Hseq Hag Hl Hd. pose proof (sequence_parts _ _ _ _ _ _ Hseq) as (P1 & P2 & P3 & P4 & P5 & P6 & P7 & P8).
  destruct Hseq as [S1 S2 S3 S4 S5 S6 S7 S8 S9 _]. unfold MFLIMIT, LASTLITERALS in *.
  assert (wp (safe_match_copy outputSize (ip_next ip l ml) (a + l) off ml) (reached d (ip_next ip l ml) (a + l + ml)) d1) as Hcopy.
  { apply wp_safe_match_copy; unfold LASTLITERALS; try lia. intros _ _ d' F P. split; [done|].
    split; [|rewrite (frame_len _ _ _ _ F); lia]. apply (agree_match d1 d' (a + l) ml off oend); [exact Hag|lia|exact F|exact (P ltac:(lia))|done]. }
  unfold copy_match, ML_MASK, MINMATCH, LASTLITERALS. destruct (Z.eqb_spec (Z.min (ml - 4) 15) 15) as [E|N].
  - pose proof (extra_len (ml - 4)) as Hel. rewrite (proj2 (Z.ltb_ge _ _)) in Hel by lia.
    destruct (read_variable_length_run blk (ip_off ip l + 2) (ml - 4) (len blk - 5 + 1) false rest) as (e & He & _ & Hok);
      [lia|lia|done|unfold ip_next in P8; lia|].
    apply wp_bind. eapply wp_lift_ok; [exact He|]. rewrite Hok by (unfold ip_next in P8; lia).
    fold (ip_next ip l ml). rewrite no_overflow by lia.
    by replace (Z.min (ml - 4) 15 + (ml - 4 - 15) + 4) with ml by lia.
  - assert (ip_off ip l + 2 = ip_next ip l ml) as -> by (unfold ip_next; rewrite extra_len, (proj2 (Z.ltb_lt _ _)) by lia; lia).
    by replace (Z.min (ml - 4) 15 + 4) with ml by lia.
Qed.

Lemma literals_then_match ip a l off ml rest d : sequence ip a l off ml rest -> agree d a -> oend <= len d ->
  wp (safe_literal_copy blk outputSize dst_at (ip_lits ip l) a (token l (ml - 4)) l)
    (reached d (ip_next ip l ml) (a + l + ml)) d.
Proof using All.
  intros Hseq Hag Hd. pose proof (sequence_parts _ _ _ _ _ _ Hseq) as (P1 & P2 & P3 & P4 & P5 & P6 & P7 & P8).
  pose proof Hseq as [S1 S2 S3 S4 S5 S6 S7 S8 S9 _]. unfold safe_literal_copy, MFLIMIT, LASTLITERALS in *. change (2 + 1 + 5) with 8.
  pose proof (len_nonneg (extra (ml - 4))). pose proof (len_nonneg (extra l)).
  rewrite (proj2 (Z.ltb_ge (oend - 12) _)) by lia. rewrite (proj2 (Z.ltb_ge (len blk - 8) _)) by (unfold ip_next, ip_off in P8; lia). cbn [orb].
  pose proof (stripes_bounds 8 (a + l - a) ltac:(lia)). unfold ip_next, ip_off in P8. assert (0 <= ip_lits ip l) by (unfold ip_lits; lia).
  apply wp_bind, wp_wild8_in; [lia..|]. set (d1 := blit _ _ _).
  assert (agree d1 (a + l)) as Hag1 by (apply agree_blit; try done; lia).
  apply wp_bind. fold (ip_off ip l). apply (wp_LE16_at _ off); [done|lia|].
  destruct (token_bits l (ml - 4)) as (_ & _ & ->); [lia..|].
  eapply copy_match_reads; [done|done|unfold d1; blia|done].
Qed.

Lemma literal_length_reads ip a l rest d (Q : Z * Z * bool -> bytes -> Prop) :
  15 <= l -> 0 <= a -> a + l <= len x -> 0 <= ip -> is_at blk ip (extra l ++ rest) -> l <= len rest ->
  Q (l, ip + len (extra l), true) d -> wp (literal_length blk src_at dst_at ip a 15) Q d.
Proof using All.
  intros Hl Ha Hal Hip Hat Hr HQ. unfold literal_length, RUN_MASK.
  pose proof (extra_len l) as Hel. rewrite (proj2 (Z.ltb_ge _ _)) in Hel by lia.
  pose proof (Z.div_pos (l - 15) 255 ltac:(lia) ltac:(lia)).
  assert (ip + len (extra l) + l <= len blk) as Hend by (destruct Hat as (_ & Hat & _); rewrite len_app in Hat; lia).
  destruct (read_variable_length_run blk ip l (len blk - 15) true rest) as (e & He & Hne & _); [lia|lia|done|lia|].
  apply wp_bind. eapply wp_lift_ok; [exact He|]. cbv beta iota zeta. replace (15 + (l - 15)) with l by lia.
  destruct e; [|done|]; rewrite !no_overflow by lia; by apply wp_ret.
Qed.

(** ** A turn of either loop *)

Lemma shortcut_reads {A} ip a l off ml rest d (k : D A) (Q : A -> bytes -> Prop) :
  sequence ip a l off ml rest -> agree d a -> oend <= len d -> 8 <= off -> ml <= 18 -> a + l + 18 <= oend ->
  (forall d', reached d (ip_next ip l ml) (a + l + ml) (Sequence (ip_next ip l ml) (a + l + ml)) d' -> wp k Q d') ->
  forall d1, agree d1 (a + l) -> len d1 = len d ->
  wp (LZ4_memcpy load (a + l) (a + l - off) 8 ;; LZ4_memcpy load (a + l + 8) (a + l - off + 8) 8 ;;
      LZ4_memcpy load (a + l + 16) (a + l - off + 16) 2 ;; k) Q d1.
Proof using Type.
  intros [S1 S2 S3 S4 S5 S6 S7 S8 S9 _] Hag Hd Hoff Hml Hroom Hk d1 Hag1 Hl.
  apply (wp_copy18 outputSize (a + l) off ml); [lia..|]. intros d' F P. apply Hk. split; [done|].
  split; [|rewrite (frame_len _ _ _ _ F); lia]. apply (agree_match d1 d' (a + l) ml off oend); [done|lia|done..].
Qed.

Lemma ip_next_short ip l ml : 0 <= ml - 4 < 15 -> ip_next ip l ml = ip_off ip l + 2.
Proof using Type. intros H. unfold ip_next. rewrite extra_len, (proj2 (Z.ltb_lt _ _)) by lia. lia. Qed.

Lemma ip_lits_short ip l : 0 <= l < 15 -> ip_lits ip l = ip + 1.
Proof using Type. intros H. unfold ip_lits. rewrite extra_len, (proj2 (Z.ltb_lt _ _)) by lia. lia. Qed.

Lemma safe_sequence_reads ip a l off ml rest d : sequence ip a l off ml rest -> agree d a -> oend <= len d ->
  wp (safe_sequence blk outputSize src_at dst_at ip a) (reached d (ip_next ip l ml) (a + l + ml)) d.
Proof using All.
  intros Hseq Hag Hd. pose proof (sequence_parts _ _ _ _ _ _ Hseq) as (P1 & P2 & P3 & P4 & P5 & P6 & P7 & P8).
  pose proof Hseq as [S1 S2 S3 S4 S5 S6 S7 S8 S9 _]. unfold MFLIMIT, LASTLITERALS in *.
  pose proof (len_nonneg (extra (ml - 4))) as Hem. pose proof (len_nonneg (extra l)) as Hel.
  unfold safe_sequence. apply wp_bind. eapply wp_lift_ok; [by apply read_byte_ok|]. rewrite P2.
  destruct (token_bits l (ml - 4)) as (_ & -> & ->); [lia..|]. unfold RUN_MASK, ML_MASK, MINMATCH.
  destruct (Z.eqb_spec (Z.min l 15) 15) as [E|N]; cbn [negb andb].
  { rewrite E. apply wp_bind. apply (literal_length_reads (ip + 1) a l (sub a l x ++ le_put 2 off ++ extra (ml - 4) ++ rest)); try done; try lia.
    - rewrite len_app, len_sub by lia. pose proof (len_nonneg (le_put 2 off ++ extra (ml - 4) ++ rest)). lia.
    - by eapply literals_then_match. }
  assert (Z.min l 15 = l) as -> by lia. pose proof (ip_lits_short ip l ltac:(lia)) as Hil. rewrite <- Hil.
  assert (wp (safe_literal_copy blk outputSize dst_at (ip_lits ip l) a (token l (ml - 4)) l)
    (reached d (ip_next ip l ml) (a + l + ml)) d) as Hlits by (by eapply literals_then_match).
  destruct (Z.ltb_spec (ip_lits ip l) (len blk - 14 - 2)) as [Hshort|]; cbn [andb]; [|exact Hlits].
  destruct (Z.leb_spec a (oend - 14 - 18)) as [Hshort'|]; [|exact Hlits].
  apply wp_bind, wp_copy_in; [lia..|]. set (d1 := blit _ _ _).
  assert (agree d1 (a + l)) as Hag1 by (apply agree_blit; try done; lia).
  assert (len d1 = len d) as Hl1 by (unfold d1; blia).
  fold (ip_off ip l). apply wp_bind, (wp_LE16_at _ off); [done|lia|].
  assert (wp (copy_match blk outputSize dst_at (ip_off ip l + 2) (a + l) off (Z.min (ml - 4) 15))
    (reached d (ip_next ip l ml) (a + l + ml)) d1) as Hcopy by (by eapply copy_match_reads).
  destruct (Z.eqb_spec (Z.min (ml - 4) 15) 15); cbn [negb andb]; [exact Hcopy|].
  destruct (Z.leb_spec 8 off); cbn [andb]; [|exact Hcopy]. destruct (Z.leb_spec 0 (a + l - off)); [|exact Hcopy].
  eapply shortcut_reads; try done; try lia. intros d' Hr. apply wp_ret.
  rewrite <- ip_next_short with (ml := ml) by lia. by replace (a + l + Z.min (ml - 4) 15 + 4) with (a + l + ml) by lia.
Qed.

(** The last literals. *)
Record last_sequence (ip a : Z) : Prop := {
  lt_a : 0 <= a <= len x;
  lt_at : is_at blk ip ([token (len x - a) 0] ++ extra (len x - a) ++ zdrop a x);
  lt_end : ip_lits ip (len x - a) + (len x - a) = len blk
}.

Definition finished (d : bytes) (n : next) (d' : bytes) : Prop :=
  n = Return (len x) /\ agree d' (len x) /\ len d' = len d.

Lemma last_parts ip a : last_sequence ip a ->
  0 <= ip < len blk /\ at_ blk ip = token (len x - a) 0 /\ is_at blk (ip + 1) (extra (len x - a) ++ zdrop a x) /\
  is_at blk (ip_lits ip (len x - a)) (sub a (len x - a) x).
Proof using Type.
  intros [H1 H2 H3]. pose proof (is_at_app _ _ _ _ H2) as [A1 A2]. apply is_at_one in A1 as [A1 A1'].
  assert (len [token (len x - a) 0] = 1) as Hone by (by rewrite len_cons, len_nil). rewrite Hone in A2.
  pose proof (is_at_app _ _ _ _ A2) as [A3 A4]. split_and!; try done; try lia.
  unfold sub. rewrite ztake_all by (rewrite len_zdrop; lia). exact A4.
Qed.

Lemma last_literals_read ip a d tok : last_sequence ip a -> agree d a -> oend <= len d ->
  wp (safe_literal_copy blk outputSize dst_at (ip_lits ip (len x - a)) a tok (len x - a)) (finished d) d.
Proof using All.
  intros Hseq Hag Hd. pose proof (last_parts _ _ Hseq) as (P1 & P2 & P3 & P4). destruct Hseq as [H1 H2 H3].
  pose proof (len_nonneg (extra (len x - a))). assert (0 <= ip_lits ip (len x - a)) by (unfold ip_lits; lia).
  unfold safe_literal_copy, MFLIMIT, LASTLITERALS. rewrite (proj2 (Z.ltb_lt (len blk - (2 + 1 + 5)) _)) by lia.
  rewrite orb_true_r. rewrite (proj2 (Z.eqb_eq _ _)) by lia. cbn [negb orb]. rewrite (proj2 (Z.ltb_ge oend _)) by lia.
  apply wp_bind, wp_copy_in; [lia..|]. apply wp_ret. split.
  - f_equal. unfold s32. rewrite Z.mod_small by lia. lia.
  - split; [|blia].
    enough (agree (blit d a (sub (ip_lits ip (len x - a)) (len x - a) blk)) (a + (len x - a))) as HE
      by (by replace (a + (len x - a)) with (len x) in HE by lia).
    apply agree_blit; try done; lia.
Qed.

Lemma safe_sequence_last ip a d : last_sequence ip a -> agree d a -> oend <= len d ->
  wp (safe_sequence blk outputSize src_at dst_at ip a) (finished d) d.
Proof using All.
  intros Hseq Hag Hd. pose proof (last_parts _ _ Hseq) as (P1 & P2 & P3 & P4). pose proof Hseq as [H1 H2 H3].
  unfold safe_sequence. apply wp_bind. eapply wp_lift_ok; [by apply read_byte_ok|]. rewrite P2.
  destruct (token_bits (len x - a) 0) as (_ & -> & _); [lia..|]. unfold RUN_MASK.
  destruct (Z.eqb_spec (Z.min (len x - a) 15) 15) as [E|N]; cbn [negb andb].
  { rewrite E. apply wp_bind. apply (literal_length_reads (ip + 1) a (len x - a) (zdrop a x)); try done; try lia.
    - rewrite len_zdrop. lia.
    - by eapply last_literals_read. }
  assert (Z.min (len x - a) 15 = len x - a) as -> by lia. pose proof (ip_lits_short ip (len x - a) ltac:(lia)) as Hil. rewrite <- Hil.
  rewrite (proj2 (Z.ltb_ge _ _)) by lia. cbn [andb]. by eapply last_literals_read.
Qed.

(** ** A turn of the fast loop *)

Definition fast_reached (d : bytes) (ip a : Z) (n : fast_next) (d' : bytes) : Prop :=
  agree d' a /\ len d' = len d /\ (n = Leave (Sequence ip a) \/ n = StayFast ip a /\ a < oend - FASTLOOP_SAFE_DISTANCE).

Lemma leave_reached (m : D next) ip a d d1 : wp m (reached d ip a) d1 -> wp (n ← m; mret (Leave n)) (fast_reached d ip a) d1.
Proof using Type.
  intros H. apply wp_bind. eapply wp_mono; [exact H|]. intros n d' (-> & Ha & Hl). apply wp_ret. split; [done|]. split; [done|]. by left.
Qed.

Lemma fast_match_reads ip a l off ml rest d d1 : sequence ip a l off ml rest -> agree d1 (a + l) -> len d1 = len d -> oend <= len d ->
  a + l <= oend - 32 ->
  wp (fast_match blk outputSize dst_at (ip_off ip l) (a + l) (token l (ml - 4))) (fast_reached d (ip_next ip l ml) (a + l + ml)) d1.
Proof using All.
  intros Hseq Hag Hl Hd Hroom. pose proof (sequence_parts _ _ _ _ _ _ Hseq) as (P1 & P2 & P3 & P4 & P5 & P6 & P7 & P8).
  pose proof Hseq as [S1 S2 S3 S4 S5 S6 S7 S8 S9 _]. unfold MFLIMIT, LASTLITERALS in *.
  unfold fast_match. apply wp_bind, (wp_LE16_at _ off); [done|lia|].
  destruct (token_bits l (ml - 4)) as (_ & _ & ->); [lia..|]. unfold ML_MASK, MINMATCH, LASTLITERALS.
  assert (wp (n ← safe_match_copy outputSize (ip_next ip l ml) (a + l) off ml; mret (Leave n))
    (fast_reached d (ip_next ip l ml) (a + l + ml)) d1) as Hslow.
  { apply leave_reached. apply wp_safe_match_copy; unfold LASTLITERALS; try lia. intros _ _ d' F P. split; [done|].
    split; [|rewrite (frame_len _ _ _ _ F); lia].
    apply (agree_match d1 d' (a + l) ml off oend); [exact Hag|lia|exact F|exact (P ltac:(lia))|done]. }
  assert (a + l + ml < oend - 64 -> wp (fast_copy (ip_next ip l ml) (a + l) off ml)
    (fast_reached d (ip_next ip l ml) (a + l + ml)) d1) as Hfast.
  { intros Hr. apply (wp_fast_copy outputSize); unfold FASTLOOP_SAFE_DISTANCE; try lia. intros _ d' F P.
    split; [|split; [rewrite (frame_len _ _ _ _ F); lia|right; by unfold FASTLOOP_SAFE_DISTANCE]].
    apply (agree_match d1 d' (a + l) ml off oend); [exact Hag|lia|exact F|exact (P ltac:(lia))|done]. }
  unfold FASTLOOP_SAFE_DISTANCE.
  destruct (Z.eqb_spec (Z.min (ml - 4) 15) 15) as [E|N].
  - rewrite (proj2 (Z.ltb_ge (a + l - off) 0)) by lia.
    pose proof (extra_len (ml - 4)) as Hel. rewrite (proj2 (Z.ltb_ge _ _)) in Hel by lia.
    destruct (read_variable_length_run blk (ip_off ip l + 2) (ml - 4) (len blk - 5 + 1) false rest) as (e & He & _ & Hok);
      [lia|lia|done|unfold ip_next in P8; lia|].
    apply wp_bind. eapply wp_lift_ok; [exact He|]. rewrite Hok by (unfold ip_next in P8; lia).
    fold (ip_next ip l ml). rewrite no_overflow by lia.
    replace (Z.min (ml - 4) 15 + (ml - 4 - 15) + 4) with ml by lia.
    destruct (Z.leb_spec (oend - 64) (a + l + ml)); [exact Hslow|by apply Hfast].
  - pose proof (ip_next_short ip l ml ltac:(lia)) as Hn. rewrite <- Hn.
    replace (Z.min (ml - 4) 15 + 4) with ml by lia.
    destruct (Z.leb_spec (oend - 64) (a + l + ml)); [exact Hslow|]. specialize (Hfast ltac:(lia)).
    destruct (Z.leb_spec 0 (a + l - off)); cbn [andb]; [|exact Hfast]. destruct (Z.leb_spec 8 off); [|exact Hfast].
    apply (wp_copy18 outputSize (a + l) off ml); [lia..|]. intros d' F P. apply wp_ret.
    split; [|split; [rewrite (frame_len _ _ _ _ F); lia|right; by unfold FASTLOOP_SAFE_DISTANCE]].
    apply (agree_match d1 d' (a + l) ml off oend); [done|lia|done..].
Qed.

Lemma fast_sequence_reads ip a l off ml rest d : sequence ip a l off ml rest -> agree d a -> oend <= len d ->
  a <= oend - FASTLOOP_SAFE_DISTANCE ->
  wp (fast_sequence blk outputSize src_at dst_at ip a) (fast_reached d (ip_next ip l ml) (a + l + ml)) d.
Proof using All.
  unfold FASTLOOP_SAFE_DISTANCE. intros Hseq Hag Hd Hroom. pose proof (sequence_parts _ _ _ _ _ _ Hseq) as (P1 & P2 & P3 & P4 & P5 & P6 & P7 & P8).
  pose proof Hseq as [S1 S2 S3 S4 S5 S6 S7 S8 S9 _]. unfold MFLIMIT, LASTLITERALS in *.
  pose proof (len_nonneg (extra (ml - 4))) as Hem. pose proof (len_nonneg (extra l)) as Hel.
  unfold fast_sequence. apply wp_bind. eapply wp_lift_ok; [by apply read_byte_ok|]. rewrite P2.
  destruct (token_bits l (ml - 4)) as (_ & -> & _); [lia..|]. unfold RUN_MASK.
  assert (wp (n ← safe_literal_copy blk outputSize dst_at (ip_lits ip l) a (token l (ml - 4)) l; mret (Leave n))
    (fast_reached d (ip_next ip l ml) (a + l + ml)) d) as Hlits by (eapply leave_reached; by eapply literals_then_match).
  unfold ip_next, ip_off in P8. assert (0 <= ip_lits ip l) by (unfold ip_lits; lia).
  destruct (Z.eqb_spec (Z.min l 15) 15) as [E|N].
  - rewrite E. apply wp_bind. apply (literal_length_reads (ip + 1) a l (sub a l x ++ le_put 2 off ++ extra (ml - 4) ++ rest)); try done; try lia.
    { rewrite len_app, len_sub by lia. pose proof (len_nonneg (le_put 2 off ++ extra (ml - 4) ++ rest)). lia. }
    cbn [negb]. fold (ip_lits ip l).
    destruct (Z.ltb_spec (oend - 32) (a + l)); cbn [orb]; [exact Hlits|].
    destruct (Z.ltb_spec (len blk - 32) (ip_lits ip l + l)); [exact Hlits|].
    pose proof (stripes_bounds 32 (a + l - a) ltac:(lia)). apply wp_bind, wp_wild32_in; [lia..|].
    eapply fast_match_reads; [done| |blia|done|lia]. apply agree_blit; try done; lia.
  - assert (Z.min l 15 = l) as -> by lia. pose proof (ip_lits_short ip l ltac:(lia)) as Hil. rewrite <- Hil.
    destruct (Z.ltb_spec (len blk - (16 + 1)) (ip_lits ip l)); [exact Hlits|].
    apply wp_bind, wp_copy_in; [lia..|].
    eapply fast_match_reads; [done| |blia|done|lia]. apply agree_blit; try done; lia.
Qed.

Lemma fast_sequence_last ip a d : last_sequence ip a -> agree d a -> oend <= len d ->
  wp (fast_sequence blk outputSize src_at dst_at ip a) (fun n d' => exists n', n = Leave n' /\ finished d n' d') d.
Proof using All.
  intros Hseq Hag Hd. pose proof (last_parts _ _ Hseq) as (P1 & P2 & P3 & P4). pose proof Hseq as [H1 H2 H3].
  unfold fast_sequence. apply wp_bind. eapply wp_lift_ok; [by apply read_byte_ok|]. rewrite P2.
  destruct (token_bits (len x - a) 0) as (_ & -> & _); [lia..|]. unfold RUN_MASK.
  assert (wp (n ← safe_literal_copy blk outputSize dst_at (ip_lits ip (len x - a)) a (token (len x - a) 0) (len x - a); mret (Leave n))
    (fun n d' => exists n', n = Leave n' /\ finished d n' d') d) as Hlits.
  { apply wp_bind. eapply wp_mono; [by eapply last_literals_read|]. intros n d' Hn. apply wp_ret. by exists n. }
  destruct (Z.eqb_spec (Z.min (len x - a) 15) 15) as [E|N].
  - rewrite E. apply wp_bind. apply (literal_length_reads (ip + 1) a (len x - a) (zdrop a x)); try done; try lia.
    { rewrite len_zdrop. lia. }
    cbn [negb]. fold (ip_lits ip (len x - a)).
    rewrite (proj2 (Z.ltb_lt (len blk - 32) _)) by lia. by rewrite orb_true_r.
  - assert (Z.min (len x - a) 15 = len x - a) as -> by lia. pose proof (ip_lits_short ip (len x - a) ltac:(lia)) as Hil. rewrite <- Hil.
    by rewrite (proj2 (Z.ltb_lt _ _)) by lia.
Qed.

(** ** The loops *)

Definition decoded (d : bytes) (r : Z) (d' : bytes) : Prop := r = len x /\ agree d' (len x) /\ len d' = len d.

(** [rest] is all of the block from [ip] on. *)
Lemma sequence_intro ip a l off ml rest :
  0 <= a -> 0 <= l -> a + l <= len x - MFLIMIT -> 4 <= ml -> a + l + ml <= len x - LASTLITERALS ->
  1 <= off <= 65535 -> off <= a + l -> periodic x (a + l) (a + l + ml) off -> encodes x (a + l + ml) rest ->
  is_at blk ip ([token l (ml - 4)] ++ extra l ++ sub a l x ++ le_put 2 off ++ extra (ml - 4) ++ rest) ->
  ip + len ([token l (ml - 4)] ++ extra l ++ sub a l x ++ le_put 2 off ++ extra (ml - 4) ++ rest) = len blk ->
  sequence ip a l off ml rest /\ is_at blk (ip_next ip l ml) rest /\ ip_next ip l ml + len rest = len blk /\ ip < ip_next ip l ml.
Proof using Type.
  intros S1 S2 S3 S4 S5 S6 S7 S8 He Hat Hend. pose proof (encodes_len _ _ _ He) as [_ Hrest]. unfold LASTLITERALS, MFLIMIT in *.
  assert (sequence ip a l off ml rest) as Hseq by (split; unfold LASTLITERALS, MFLIMIT; done || lia).
  pose proof (sequence_parts _ _ _ _ _ _ Hseq) as (P1 & P2 & P3 & P4 & P5 & P6 & P7 & P8).
  pose proof (len_nonneg (extra (ml - 4))). pose proof (len_nonneg (extra l)).
  rewrite !len_app, len_sub in Hend by lia. assert (len (le_put 2 off) = 2) as Hp by apply len_le_put. rewrite Hp, len_cons, len_nil in Hend.
  unfold ip_next, ip_off, ip_lits. split_and!; try done; try lia.
Qed.

Lemma last_intro ip a : 0 <= a <= len x -> is_at blk ip ([token (len x - a) 0] ++ extra (len x - a) ++ zdrop a x) ->
  ip + len ([token (len x - a) 0] ++ extra (len x - a) ++ zdrop a x) = len blk -> last_sequence ip a.
Proof using Type.
  intros Ha Hat Hend. split; [done|done|]. rewrite !len_app, len_cons, len_nil, len_zdrop in Hend. unfold ip_lits. lia.
Qed.

Lemma safe_decode_reads a bs : encodes x a bs -> forall ip fuel d,
  is_at blk ip bs -> ip + len bs = len blk -> len blk - ip < Z.of_nat fuel -> agree d a -> oend <= len d ->
  wp (safe_decode blk outputSize src_at dst_at fuel ip a) (decoded d) d.
Proof using All.
  induction 1 as [a Ha|a l off ml rest S1 S2 S3 S4 S5 S6 S7 S8 He IH]; intros ip fuel d Hat Hend Hfuel Hag Hd.
  - pose proof (last_intro ip a Ha Hat Hend) as Hlast. pose proof (last_parts _ _ Hlast) as (P1 & _).
    destruct fuel as [|fuel]; [lia|]. cbn [safe_decode].
    apply wp_bind. eapply wp_mono; [by apply safe_sequence_last|]. intros n d' (-> & Hag' & Hl'). by apply wp_ret.
  - destruct (sequence_intro ip a l off ml rest) as (Hseq & Hat' & Hend' & Hip); try done.
    pose proof (sequence_parts _ _ _ _ _ _ Hseq) as (P1 & _).
    destruct fuel as [|fuel]; [lia|]. cbn [safe_decode].
    apply wp_bind. eapply wp_mono; [by eapply safe_sequence_reads|]. intros n d' (-> & Hag' & Hl').
    eapply wp_mono; [apply IH; try done; lia|]. intros r d2 (-> & Hag2 & Hl2). split; [done|]. split; [done|]. lia.
Qed.

Lemma fast_decode_reads a bs : encodes x a bs -> forall ip fuel d,
  is_at blk ip bs -> ip + len bs = len blk -> len blk - ip < Z.of_nat fuel -> agree d a -> oend <= len d ->
  a <= oend - FASTLOOP_SAFE_DISTANCE ->
  wp (fast_decode blk outputSize src_at dst_at fuel ip a) (decoded d) d.
Proof using All.
  induction 1 as [a Ha|a l off ml rest S1 S2 S3 S4 S5 S6 S7 S8 He IH]; intros ip fuel d Hat Hend Hfuel Hag Hd Hroom.
  - pose proof (last_intro ip a Ha Hat Hend) as Hlast. pose proof (last_parts _ _ Hlast) as (P1 & _).
    destruct fuel as [|fuel]; [lia|]. cbn [fast_decode].
    apply wp_bind. eapply wp_mono; [by apply fast_sequence_last|]. intros n d' (n' & -> & -> & Hag' & Hl'). by apply wp_ret.
  - destruct (sequence_intro ip a l off ml rest) as (Hseq & Hat' & Hend' & Hip); try done.
    pose proof (sequence_parts _ _ _ _ _ _ Hseq) as (P1 & _).
    destruct fuel as [|fuel]; [lia|]. cbn [fast_decode].
    apply wp_bind. eapply wp_mono; [by eapply fast_sequence_reads|]. intros n d' (Hag' & Hl' & Hn).
    assert (forall r d2, decoded d' r d2 -> decoded d r d2) as Hdec.
    { intros r d2 (-> & Hag2 & Hl2). split; [done|]. split; [done|]. lia. }
    destruct Hn as [->|[-> Hroom']].
    + eapply wp_mono; [eapply safe_decode_reads; try done; lia|]. done.
    + eapply wp_mono; [apply IH; try done; lia|]. done.
Qed.

Lemma decompress_reads d : encodes x 0 blk -> oend <= len d ->
  wp (decompress_safe blk outputSize src_at dst_at) (decoded d) d.
Proof using All.
  intros He Hd. pose proof (encodes_len _ _ _ He) as [_ Hbs]. unfold decompress_safe, LZ4_decompress_generic.
  change outputSize with oend at 1 2. pose proof (len_nonneg x). pose proof (len_length blk).
  assert (agree d 0) as Hag by (intros i Hi; lia). pose proof (is_at_whole blk) as Hat.
  rewrite (proj2 (Z.ltb_ge oend 0)) by lia. destruct (Z.eqb_spec oend 0) as [E0|N0].
  { assert (len x = 0) as Hx0 by lia. assert (blk = [0]) as ->.
    { pose proof (len_0_nil x Hx0) as Hnil. clear -He Hnil. subst x.
      inversion He as [a Ha Ha0 Hb|a l off ml rest S1 S2 S3]; [done|]. unfold MFLIMIT in *. pose proof (@len_nil Z). lia. }
    assert (len [0] = 1) as -> by (by rewrite len_cons, len_nil). split; [done|]. split; [|done]. by rewrite Hx0. }
  rewrite (proj2 (Z.eqb_neq (len blk) 0)) by lia. unfold FASTLOOP_SAFE_DISTANCE.
  destruct (Z.ltb_spec (oend - 0) 64).
  - eapply safe_decode_reads; try done; lia.
  - eapply fast_decode_reads; try done; unfold FASTLOOP_SAFE_DISTANCE; lia.
Qed.
End Read.
