(* ===== verification/Lz4Count.v ===== *)
(** * Counting the bytes of a match

    [LZ4_count] compares eight bytes at a time through [__builtin_ctzll]; it
    computes the length of the common prefix, as one byte at a time would. *)

From S2P Require Import Prelude Lz4 Lz4Mem.

(** ** Words as bits *)

Lemma ctz_first_bit fuel : forall x k, 0 <= k < Z.of_nat fuel ->
  (forall j, 0 <= j < k -> Z.testbit x j = false) -> Z.testbit x k = true -> ctz fuel x = k.
Proof.
  induction fuel as [|fuel IH]; intros x k Hk Hlow Hbit; [lia|]. cbn [ctz]. rewrite <- Z.bit0_odd.
  destruct (decide (k = 0)) as [->|Hne]; [by rewrite Hbit|]. rewrite Hlow by lia.
  rewrite (IH (x / 2) (k - 1)); [lia|lia| |].
  - intros j Hj. rewrite <- Z.div2_div, Z.div2_spec, Z.shiftr_spec by lia. apply Hlow. lia.
  - rewrite <- Z.div2_div, Z.div2_spec, Z.shiftr_spec by lia. by replace (k - 1 + 1) with k by lia.
Qed.

Lemma is_bytes_cons b l : is_bytes (b :: l) -> 0 <= b < 256 /\ is_bytes l.
Proof.
  intros H. apply Is_true_true in H. cbn in H. apply andb_true_iff in H as [H1 H2]. split; [|by apply Is_true_true].
  unfold is_byte in H1. apply andb_true_iff in H1 as [H1%Z.leb_le H3%Z.ltb_lt]. lia.
Qed.

Lemma at_cons b (l : bytes) i : 0 <= i -> at_ (b :: l) i = if decide (i = 0) then b else at_ l (i - 1).
Proof.
  intros Hi. change (b :: l) with ([b] ++ l). rewrite at_app by done. rewrite len_cons, len_nil.
  case_decide; case_decide; try lia; [by subst i|f_equal; lia].
Qed.

Lemma le_get_nonneg l : is_bytes l -> 0 <= le_get l.
Proof.
  induction l as [|b l IH]; [done|]. intros [Hb Hl]%is_bytes_cons. cbn [le_get]. specialize (IH Hl). lia.
Qed.

Lemma byte_high b n : 0 <= b < 256 -> 8 <= n -> Z.testbit b n = false.
Proof.
  intros Hb Hn. destruct (decide (b = 0)) as [->|]; [apply Z.testbit_0_l|]. apply Z.bits_above_log2; [lia|].
  assert (Z.log2 b < 8) by (apply Z.log2_lt_pow2; lia). lia.
Qed.

Lemma le_get_bit l : is_bytes l -> forall i r, 0 <= i -> 0 <= r < 8 ->
  Z.testbit (le_get l) (8 * i + r) = Z.testbit (at_ l i) r.
Proof.
  induction l as [|b l IH].
  - intros _ i r Hi Hr. unfold at_. cbn. by rewrite !Z.testbit_0_l.
  - intros [Hb Hl]%is_bytes_cons i r Hi Hr. cbn [le_get]. rewrite at_cons by done.
    assert (b + 2 ^ 8 * le_get l = Z.lor b (Z.shiftl (le_get l) 8)) as ->.
    { assert (Z.land b (Z.shiftl (le_get l) 8) = 0) as H0; [|rewrite <- Z.lxor_lor, <- Z.add_nocarry_lxor by done; rewrite Z.shiftl_mul_pow2; lia].
      apply Z.bits_inj'. intros n Hn. rewrite Z.land_spec, Z.bits_0. destruct (Z.lt_ge_cases n 8).
      - rewrite Z.shiftl_spec_low by lia. apply andb_false_r.
      - by rewrite byte_high by lia. }
    rewrite Z.lor_spec. case_decide as Hd.
    + subst i. rewrite Z.shiftl_spec_low by lia. by rewrite orb_false_r.
    + rewrite Z.shiftl_spec by lia. replace (8 * i + r - 8) with (8 * (i - 1) + r) by lia. rewrite IH by (done || lia).
      by rewrite byte_high by lia.
Qed.

Lemma byte_bits b c : 0 <= b < 256 -> 0 <= c < 256 -> (forall r, 0 <= r < 8 -> Z.testbit b r = Z.testbit c r) -> b = c.
Proof.
  intros Hb Hc H. apply Z.bits_inj'. intros n Hn. destruct (Z.lt_ge_cases n 8); [apply H; lia|].
  by rewrite !byte_high by lia.
Qed.

(** The first of [n] that differs, if any. *)
Lemma first_difference (f g : Z -> Z) (n : nat) : (forall i, 0 <= i < Z.of_nat n -> f i = g i) \/
  exists i, 0 <= i < Z.of_nat n /\ f i <> g i /\ forall j, 0 <= j < i -> f j = g j.
Proof.
  induction n as [|n [IH|(i & Hi & Hne & Hlow)]]; [left; lia| |right; exists i; split; [lia|done]].
  destruct (decide (f (Z.of_nat n) = g (Z.of_nat n))) as [He|Hne].
  - left. intros i Hi. destruct (decide (i = Z.of_nat n)) as [->|]; [done|apply IH; lia].
  - right. exists (Z.of_nat n). split; [lia|]. split; [done|]. intros j Hj. apply IH. lia.
Qed.

Lemma first_bit b c : 0 <= b < 256 -> 0 <= c < 256 -> b <> c ->
  exists r, 0 <= r < 8 /\ Z.testbit b r <> Z.testbit c r /\ forall j, 0 <= j < r -> Z.testbit b j = Z.testbit c j.
Proof.
  intros Hb Hc Hne. destruct (first_difference (fun r => Z.b2z (Z.testbit b r)) (fun r => Z.b2z (Z.testbit c r)) 8) as [Ha|(r & Hr & Hd & Hlow)].
  - destruct Hne. apply byte_bits; [done..|]. intros r Hr. specialize (Ha r ltac:(lia)). by apply Z.b2z_inj in Ha.
  - exists r. split; [lia|]. split; [by intros He; rewrite He in Hd|]. intros j Hj. by apply Z.b2z_inj, Hlow.
Qed.

Lemma common_bytes a b i : is_bytes a -> is_bytes b -> 0 <= i < 8 -> at_ a i <> at_ b i ->
  (forall j, 0 <= j < i -> at_ a j = at_ b j) -> LZ4_NbCommonBytes (Z.lxor (le_get a) (le_get b)) = i.
Proof.
  intros Ha Hb Hi Hne Hlow. destruct (first_bit (at_ a i) (at_ b i)) as (r & Hr & Hd & Hlow'); [by apply is_bytes_at..|done|].
  unfold LZ4_NbCommonBytes. rewrite (ctz_first_bit 64 _ (8 * i + r)); [|lia| |].
  - rewrite Z.shiftr_div_pow2 by lia. change (2 ^ 3) with 8. rewrite Z.mul_comm, Z.div_add_l by lia. rewrite Z.div_small; lia.
  - intros j Hj. rewrite Z.lxor_spec. pose proof (Z.div_mod j 8 ltac:(lia)) as Hdm. pose proof (Z.mod_pos_bound j 8 ltac:(lia)).
    rewrite Hdm, !le_get_bit by (done || lia). destruct (decide (j / 8 < i)) as [Hlt|Hge].
    + rewrite Hlow by lia. apply xorb_nilpotent.
    + assert (j / 8 = i) as -> by lia. rewrite Hlow' by lia. apply xorb_nilpotent.
  - rewrite Z.lxor_spec, !le_get_bit by (done || lia). by destruct (Z.testbit (at_ a i) r), (Z.testbit (at_ b i) r).
Qed.

Lemma le_get_inj a b n : is_bytes a -> is_bytes b -> le_get a = le_get b -> forall i, 0 <= i < n -> at_ a i = at_ b i.
Proof.
  intros Ha Hb He i Hi. apply byte_bits; [by apply is_bytes_at..|]. intros r Hr.
  rewrite <- !le_get_bit by (done || lia). by rewrite He.
Qed.

(** ** The count *)

Section Count.
Context (src : bytes) (Hbytes : is_bytes src).

(** The first [c] bytes at [p] and [m] are the same. *)
Definition same (p m c : Z) : Prop := forall i, 0 <= i < c -> at_ src (p + i) = at_ src (m + i).

Lemma same_app p m a b : same p m a -> same (p + a) (m + a) b -> same p m (a + b).
Proof using Type.
  intros H1 H2 i Hi. destruct (decide (i < a)); [apply H1; lia|]. specialize (H2 (i - a) ltac:(lia)).
  by replace (p + a + (i - a)) with (p + i) in H2 by lia; replace (m + a + (i - a)) with (m + i) in H2 by lia.
Qed.

Lemma word_same p m n : 0 <= m -> 0 <= p -> 0 <= n -> m + n <= len src -> p + n <= len src ->
  le_get (sub m n src) = le_get (sub p n src) <-> same p m n.
Proof using Hbytes.
  intros Hm Hp Hn Hml Hpl. split.
  - intros He i Hi. pose proof (le_get_inj _ _ n (is_bytes_sub m n src Hm Hml Hbytes) (is_bytes_sub p n src Hp Hpl Hbytes) He i Hi) as H.
    by rewrite !at_sub in H by lia.
  - intros Hs. f_equal. symmetry. apply sub_ext; lia || done.
Qed.

(** [c] more bytes are the same, and no more than that. *)
Definition counted (p m limit c : Z) : Prop :=
  0 <= c /\ p + c <= limit /\ same p m c /\ (p + c < limit -> at_ src (p + c) <> at_ src (m + c)).

Lemma count_loop_ok limit : limit <= len src -> forall fuel p m, limit - p < Z.of_nat fuel -> (0 < fuel)%nat -> 0 <= m <= p -> p <= limit ->
  exists q n b, count_loop src fuel p m limit = Ok (q, n, b) /\ p <= q <= limit /\ same p m (q - p) /\
    (if b : bool then q < limit /\ at_ src q <> at_ src (m + (q - p)) else limit - q < 8 /\ n = m + (q - p)).
Proof using Hbytes.
  intros Hlim. induction fuel as [|fuel IH]; intros p m Hf H0 Hm Hp; [lia|]. cbn [count_loop].
  destruct (Z.ltb_spec p (limit - 7)) as [Hlt|Hge].
  2: { exists p, m, false. split; [done|]. split; [lia|]. split; [intros i Hi; lia|lia]. }
  unfold LZ4_read_ARCH. rewrite !read_n_ok by lia. cbn [mbind result_bind].
  destruct (Z.eqb_spec (Z.lxor (le_get (sub m 8 src)) (le_get (sub p 8 src))) 0) as [E|N].
  - apply Z.lxor_eq, word_same in E; [|lia..].
    destruct (IH (p + 8) (m + 8)) as (q & n & b & He & Hq & Hs & Hb); [lia..|].
    exists q, n, b. split; [done|]. split; [lia|]. split.
    + replace (q - p) with (8 + (q - (p + 8))) by lia. by apply same_app.
    + replace (m + 8 + (q - (p + 8))) with (m + (q - p)) in Hb by lia. exact Hb.
  - destruct (first_difference (at_ (sub m 8 src)) (at_ (sub p 8 src)) 8) as [Ha|(i & Hi & Hne & Hlow)].
    { destruct N. apply Z.lxor_eq_0_iff, word_same; [lia..|]. intros i Hi. specialize (Ha i ltac:(lia)).
      by rewrite !at_sub in Ha by lia. }
    rewrite (common_bytes _ _ i) by (done || lia || (apply is_bytes_sub; done || lia)).
    exists (p + i), m, true. split; [done|]. replace (p + i - p) with i by lia. rewrite !at_sub in Hne by lia.
    split; [lia|]. split; [|split; [lia|by apply not_eq_sym]].
    intros j Hj. specialize (Hlow j Hj). by rewrite !at_sub in Hlow by lia.
Qed.

(** Fewer than [n] more bytes are the same. *)
Definition short (p m limit n : Z) : Prop := limit - p < n \/ ~ same p m n.

(** One of the comparisons of the last bytes. *)
Lemma compare_ok n (rd : Z -> result Z) p m limit : limit <= len src -> 0 < n -> 0 <= m <= p -> p <= limit ->
  (forall i, 0 <= i -> i + n <= len src -> rd i = Ok (le_get (sub i n src))) -> short p m limit (2 * n) ->
  exists q, (if p <? limit - (n - 1) then x ← rd m; y ← rd p; Ok (if x =? y then (p + n, m + n) else (p, m)) else Ok (p, m)) =
      Ok (q, m + (q - p)) /\
    p <= q <= limit /\ same p m (q - p) /\ short q (m + (q - p)) limit n.
Proof using Hbytes.
  intros Hl Hn Hm Hp Hrd Hs. assert (same p m (p - p)) as Hnil by (intros i Hi; lia).
  destruct (Z.ltb_spec p (limit - (n - 1))) as [Hlt|Hge].
  2: { exists p. replace (m + (p - p)) with m by lia. repeat split; [lia..|done|by left; lia]. }
  rewrite !Hrd by lia. cbn [mbind result_bind].
  destruct (Z.eqb_spec (le_get (sub m n src)) (le_get (sub p n src))) as [E%word_same|N]; try lia.
  - exists (p + n). replace (p + n - p) with n by lia. repeat split; [lia..|done|].
    destruct Hs as [Hs|Hs]; [left; lia|right]. intros H2. apply Hs. replace (2 * n) with (n + n) by lia. by apply same_app.
  - exists p. replace (m + (p - p)) with m by lia. repeat split; [lia..|done|right]. intros Hsame. apply N, word_same; lia || done.
Qed.

Lemma read_le_ok n i : 0 <= i -> i + n <= len src -> (bs ← read_n n src i; Ok (le_get bs)) = Ok (le_get (sub i n src)).
Proof using Type. intros. by rewrite read_n_ok. Qed.

Lemma count_tail_ok p m limit : limit <= len src -> 0 <= m <= p -> p <= limit -> limit - p < 8 ->
  exists q, count_tail src p m limit = Ok q /\ p <= q /\ counted p m limit (q - p).
Proof using Hbytes.
  intros Hl Hm Hp H8. unfold count_tail.
  destruct (compare_ok 4 (LZ4_read32 src) p m limit) as (q4 & E4 & B4 & S4 & R4); [done|lia..|by apply read_le_ok|by left; lia|].
  change (4 - 1) with 3 in E4. rewrite E4. cbn [mbind result_bind].
  destruct (compare_ok 2 (LZ4_read16 src) q4 (m + (q4 - p)) limit) as (q2 & E2 & B2 & S2 & R2); [done|lia..|by apply read_le_ok|exact R4|].
  change (2 - 1) with 1 in E2. rewrite E2. cbn [mbind result_bind].
  replace (m + (q4 - p) + (q2 - q4)) with (m + (q2 - p)) in * by lia.
  assert (same p m (q2 - p)) as S.
  { replace (q2 - p) with (q4 - p + (q2 - q4)) by lia. apply same_app; [done|]. by replace (p + (q4 - p)) with q4 by lia. }
  destruct (Z.ltb_spec q2 limit) as [Hlt|Hge].
  2: { exists q2. split; [done|]. split; [lia|]. unfold counted. repeat split; [lia..|done|lia]. }
  rewrite !read_byte_ok by lia. cbn [mbind result_bind].
  destruct (Z.eqb_spec (at_ src (m + (q2 - p))) (at_ src q2)) as [E|N].
  - exists (q2 + 1). split; [done|]. split; [lia|].
    assert (same q2 (m + (q2 - p)) 1) as S1 by (intros i Hi; replace i with 0 by lia; by rewrite !Z.add_0_r).
    split; [lia|]. split; [lia|]. split.
    + replace (q2 + 1 - p) with (q2 - p + 1) by lia. apply same_app; [done|]. by replace (p + (q2 - p)) with q2 by lia.
    + intros Hlt'. destruct R2 as [R2|R2]; [lia|]. intros He. destruct R2. change 2 with (1 + 1). apply same_app; [done|].
      intros i Hi. replace i with 0 by lia. rewrite !Z.add_0_r. replace (p + (q2 + 1 - p)) with (q2 + 1) in He by lia.
      by replace (m + (q2 + 1 - p)) with (m + (q2 - p) + 1) in He by lia.
  - exists q2. split; [done|]. split; [lia|]. split; [lia|]. split; [lia|]. split; [done|]. intros _.
    replace (p + (q2 - p)) with q2 by lia. by apply not_eq_sym.
Qed.

(** The count is the length of the common prefix of what stands at [p] and [m],
    up to the limit. *)
Lemma LZ4_count_ok p m limit : limit <= len src -> 0 <= m <= p -> p <= limit ->
  exists c, LZ4_count src p m limit = Ok c /\ counted p m limit c.
Proof using Hbytes.
  intros Hl Hm Hp. unfold LZ4_count.
  destruct (count_loop_ok limit Hl (S (length src)) p m) as (q & n & b & E & B & S & R); [rewrite len_length in Hl; lia|lia..|].
  rewrite E. cbn [mbind result_bind]. destruct b.
  - exists (q - p). split; [done|]. destruct R as [R1 R2]. split; [lia|]. split; [lia|]. split; [done|].
    intros _. by replace (p + (q - p)) with q by lia.
  - destruct R as [R1 ->]. destruct (count_tail_ok q (m + (q - p)) limit) as (r & Er & Br & Hr); [done|lia..|].
    rewrite Er. exists (r - p). split; [done|]. destruct Hr as (C1 & C2 & C3 & C4).
    split; [lia|]. split; [lia|]. replace (r - p) with (q - p + (r - q)) by lia. split.
    + apply same_app; [done|]. by replace (p + (q - p)) with q by lia.
    + by rewrite !Z.add_assoc in *; replace (p + (q - p)) with q by lia.
Qed.
End Count.
