(* ===== verification/Lz4Search.v ===== *)
(** * Finding matches in LZ4

    The hash table and the search of the compressor of [util/lz4.c]: what the
    search returns is a match, and it reads within the input. *)

From S2P Require Import Prelude Lz4 Lz4Mem Lz4Count.

Lemma shiftr_bound x k n : 0 <= x < 2 ^ (k + n) -> 0 <= k -> 0 <= n -> 0 <= Z.shiftr x k < 2 ^ n.
Proof.
  intros Hx Hk Hn. rewrite Z.shiftr_div_pow2 by lia. rewrite Z.pow_add_r in Hx by lia.
  split; [apply Z.div_pos; lia|apply Z.div_lt_upper_bound; lia].
Qed.

Lemma list_at_insert (l : list Z) h v i : 0 <= h < len l -> 0 <= i ->
  at_ (<[Z.to_nat h := v]> l) i = if decide (i = h) then v else at_ l i.
Proof.
  rewrite len_length. intros Hh Hi. unfold at_. case_decide as Hd.
  - subst i. by rewrite list_lookup_insert_eq by lia.
  - by rewrite list_lookup_insert_ne by lia.
Qed.

Lemma len_insert (l : list Z) i v : len (<[i := v]> l) = len l.
Proof. rewrite !len_length. by rewrite length_insert. Qed.

Section Search.
Context (src : bytes) (t : tableType_t).
Abbreviation mfl := (mflimitPlusOne src).

Definition hashLog : Z := if is_U16 t then LZ4_HASHLOG + 1 else LZ4_HASHLOG.

(** The table has its size, and holds positions before [bound]. *)
Definition table_ok (table : list Z) (bound : Z) : Prop :=
  len table = 2 ^ hashLog /\ forall i, 0 <= i < 2 ^ hashLog -> 0 <= at_ table i < bound.

Definition hash_ok (h : Z) : Prop := 0 <= h < 2 ^ hashLog.

Lemma table_ok_weaken table b b' : table_ok table b -> b <= b' -> table_ok table b'.
Proof using Type. intros [H1 H2] Hb. split; [done|]. intros i Hi. specialize (H2 i Hi). lia. Qed.

Lemma new_table_ok b : 0 < b -> table_ok (new_table t) b.
Proof using Type.
  intros Hb. unfold table_ok, new_table, hashLog. split; [rewrite len_replicate, Z2Nat.id; [done|]; by destruct (is_U16 t)|].
  intros i Hi. unfold at_. rewrite lookup_replicate_2; [cbn; lia|]. lia.
Qed.

Lemma hashPosition_ok p : 0 <= p <= mfl -> exists h, LZ4_hashPosition src p t = Ok h /\ hash_ok h.
Proof using Type.
  unfold mflimitPlusOne, iend, MFLIMIT. intros Hp. unfold LZ4_hashPosition, LZ4_read32, LZ4_read_ARCH, hash_ok, hashLog.
  destruct t; cbn [is_U16 negb]; rewrite read_n_ok by lia; cbn [mbind result_bind]; eexists; (split; [reflexivity|]).
  - unfold LZ4_hash5. cbn [is_U16]. change LZ4_HASHLOG with 12.
    set (y := w64 _). assert (0 <= Z.shiftr y (64 - 12) < 2 ^ 12) as Hb.
    { apply shiftr_bound; [|lia..]. change (64 - 12 + 12) with 64. apply w64_bound. }
    rewrite w32_small by lia. exact Hb.
  - unfold LZ4_hash4. cbn [is_U16]. change (LZ4_HASHLOG + 1) with 13. change (MINMATCH * 8 - 13) with 19.
    apply shiftr_bound; [|lia..]. change (19 + 13) with 32. apply w32_bound.
Qed.

Lemma getIndex_ok h table b : hash_ok h -> table_ok table b -> exists m, LZ4_getIndexOnHash h table = Ok m /\ 0 <= m < b.
Proof using Type.
  intros Hh [Hl Ht]. unfold LZ4_getIndexOnHash. rewrite read_byte_ok by (unfold hash_ok in Hh; lia). eexists. split; [done|]. by apply Ht.
Qed.

(** [m] is a match of [n] bytes for [p]. *)
Definition matches (p m n : Z) : Prop := 0 <= m < p /\ p - m <= LZ4_DISTANCE_MAX /\ same src p m n.

Lemma read32_same p m (Hbytes : is_bytes src) : 0 <= m <= p -> p + 4 <= len src ->
  LZ4_read32 src m = Ok (le_get (sub m 4 src)) /\ LZ4_read32 src p = Ok (le_get (sub p 4 src)) /\
  (le_get (sub m 4 src) = le_get (sub p 4 src) -> same src p m 4).
Proof using Type.
  intros Hm Hp. unfold LZ4_read32. rewrite !read_n_ok by lia. split; [done|]. split; [done|]. apply word_same; done || lia.
Qed.

Lemma catch_up_ok anchor : 0 <= anchor -> forall fuel p m n, p - anchor < Z.of_nat fuel -> anchor <= p < len src -> 0 <= m < p -> same src p m n ->
  exists k, catch_up src fuel anchor p m = Ok (p - k, m - k) /\ 0 <= k <= p - anchor /\ k <= m /\ same src (p - k) (m - k) (n + k).
Proof using Type.
  intros Ha. induction fuel as [|fuel IH]; intros p m n Hf Hp Hm Hs; [lia|]. cbn [catch_up].
  assert (exists k, Ok (p, m) = Ok (p - k, m - k) /\ 0 <= k <= p - anchor /\ k <= m /\ same src (p - k) (m - k) (n + k)) as Hstop.
  { exists 0. rewrite !Z.sub_0_r, Z.add_0_r. split; [done|]. split; [lia|]. split; [lia|done]. }
  destruct (Z.ltb_spec anchor p) as [H1|H1]; cbn [andb]; [|exact Hstop].
  destruct (Z.ltb_spec 0 m) as [H2|H2]; cbn [andb]; [|exact Hstop].
  rewrite !read_byte_ok by lia. cbn [mbind result_bind].
  destruct (Z.eqb_spec (at_ src (p - 1)) (at_ src (m - 1))) as [E|_]; [|exact Hstop].
  destruct (IH (p - 1) (m - 1) (n + 1)) as (k & Hk & Hka & Hkm & Hks); [lia..| |].
  - intros i Hi. destruct (decide (i = 0)) as [->|]; [by rewrite !Z.add_0_r|].
    specialize (Hs (i - 1) ltac:(lia)). by replace (p - 1 + i) with (p + (i - 1)) by lia; replace (m - 1 + i) with (m + (i - 1)) by lia.
  - exists (k + 1). replace (p - (k + 1)) with (p - 1 - k) by lia. replace (m - (k + 1)) with (m - 1 - k) by lia.
    split; [done|]. split; [lia|]. split; [lia|]. by replace (n + (k + 1)) with (n + 1 + k) by lia.
Qed.
Context (Hsize : len src <= LZ4_MAX_INPUT_SIZE) (H16 : is_U16 t = true -> len src < LZ4_64Klimit).

(** A position where a match may start fits the index of the table. *)
Lemma putIndex_ok p h table b : 0 <= p < mfl -> p < b -> hash_ok h -> table_ok table b ->
  exists table', LZ4_putIndexOnHash p h table t = Ok table' /\ table_ok table' b.
Proof using All.
  unfold LZ4_64Klimit, mflimitPlusOne, iend, MFLIMIT, LZ4_MAX_INPUT_SIZE in *. intros Hp Hb Hh [Hl Ht]. unfold hash_ok in Hh. unfold LZ4_putIndexOnHash.
  rewrite (proj2 (Z.leb_le 0 h)), (proj2 (Z.ltb_lt h (len table))) by lia. cbn [andb]. eexists. split; [reflexivity|].
  assert ((if is_U16 t then p mod 2 ^ 16 else w32 p) = p) as ->.
  { destruct (is_U16 t); [specialize (H16 eq_refl); apply Z.mod_small; lia|apply w32_small; lia]. }
  split; [by rewrite len_insert|]. intros i Hi. rewrite list_at_insert by lia. case_decide; [lia|by apply Ht].
Qed.

(** The table while the search goes on behind a match. *)
Lemma refill_ok p table : 2 <= p < mfl -> table_ok table p ->
  exists table1 h m table2, LZ4_putPosition src (p - 2) table t = Ok table1 /\ LZ4_hashPosition src p t = Ok h /\
    LZ4_getIndexOnHash h table1 = Ok m /\ 0 <= m < p /\ LZ4_putIndexOnHash p h table1 t = Ok table2 /\ table_ok table2 (p + 1).
Proof using All.
  intros Hp Ht. destruct (hashPosition_ok (p - 2)) as (h2 & Hh2 & Hok2); [lia|]. destruct (hashPosition_ok p) as (h & Hh & Hok); [lia|].
  destruct (putIndex_ok (p - 2) h2 table p) as (table1 & Hp1 & Ht1); [lia|lia|done|done|].
  destruct (getIndex_ok h table1 p Hok Ht1) as (m & Hget & Hm).
  destruct (putIndex_ok p h table1 (p + 1)) as (table2 & Hp2 & Ht2); [lia|lia|done|by eapply table_ok_weaken; [exact Ht1|lia]|].
  exists table1, h, m, table2. unfold LZ4_putPosition. rewrite Hh2. cbn [mbind result_bind]. done.
Qed.

Lemma position_w32 p : 0 <= p < mfl -> w32 p = p.
Proof using Hsize. intros Hp. apply w32_small. unfold LZ4_MAX_INPUT_SIZE, mflimitPlusOne, iend, MFLIMIT in *. lia. Qed.

Context (Hbytes : is_bytes src).

(** The distance test of the tables of 32-bit indices; with 16-bit indices the
    distance cannot be too large. *)
Lemma near_enough p m : 0 <= m < p -> p < mfl ->
  (is_U16 t || (w32 p <=? (m + LZ4_DISTANCE_MAX)%u32)) = true -> p - m <= LZ4_DISTANCE_MAX.
Proof using All.
  unfold LZ4_64Klimit, mflimitPlusOne, iend, MFLIMIT, LZ4_MAX_INPUT_SIZE, LZ4_DISTANCE_MAX in *. intros Hm Hp [Ht|Hn]%orb_true_iff.
  - specialize (H16 Ht). lia.
  - apply Z.leb_le in Hn. rewrite !w32_small in Hn by lia. lia.
Qed.

Lemma find_match_ok : forall fuel fip step nb fh table, mfl < fip + Z.of_nat fuel -> 1 <= fip <= mfl -> 1 <= step -> 64 <= nb ->
  hash_ok fh -> table_ok table fip ->
  exists r, find_match src t fuel fip step nb fh table = Ok r /\
    match r with
    | None => True
    | Some (p, m, table') => fip <= p < mfl /\ matches p m 4 /\ table_ok table' (p + 1)
    end.
Proof using All.
  induction fuel as [|fuel IH]; intros fip step nb fh table Hf Hfip Hstep Hnb Hh Ht; [lia|]. cbn [find_match].
  destruct (getIndex_ok fh table fip Hh Ht) as (m & -> & Hm). cbn [mbind result_bind].
  destruct (Z.ltb_spec mfl (fip + step)) as [Hend|Hgo]; [by exists None|].
  destruct (hashPosition_ok (fip + step)) as (h & -> & Hh'); [lia|]. cbn [mbind result_bind].
  assert (len src < 2 ^ 32) as H32 by (unfold LZ4_MAX_INPUT_SIZE in Hsize; lia).
  rewrite (w32_small fip) by (unfold mflimitPlusOne, iend, MFLIMIT in *; lia).
  destruct (putIndex_ok fip fh table (fip + 1)) as (table' & -> & Ht'); [lia|lia|done|by eapply table_ok_weaken; [exact Ht|lia]|].
  cbn [mbind result_bind].
  assert (1 <= Z.shiftr nb LZ4_skipTrigger) as Hs.
  { change LZ4_skipTrigger with 6. rewrite Z.shiftr_div_pow2 by lia. change (2 ^ 6) with 64. apply Z.div_le_lower_bound; lia. }
  assert (exists r, find_match src t fuel (fip + step) (Z.shiftr nb LZ4_skipTrigger) (nb + 1) h table' = Ok r /\
    match r with None => True | Some (p, m, table') => fip <= p < mfl /\ matches p m 4 /\ table_ok table' (p + 1) end) as Hnext.
  { destruct (IH (fip + step) (Z.shiftr nb LZ4_skipTrigger) (nb + 1) h table') as (r & -> & Hr); try done; try lia.
    - by eapply table_ok_weaken; [exact Ht'|lia].
    - exists r. split; [done|]. destruct r as [[[p m'] tbl]|]; [|done]. destruct Hr as (Hp & Hr). split; [lia|done]. }
  destruct (negb (is_U16 t) && ((m + LZ4_DISTANCE_MAX)%u32 <? fip)) eqn:Hfar; [exact Hnext|].
  destruct (read32_same fip m Hbytes) as (-> & -> & Hsame); [lia|unfold mflimitPlusOne, iend, MFLIMIT in *; lia|]. cbn [mbind result_bind].
  destruct (Z.eqb_spec (le_get (sub m 4 src)) (le_get (sub fip 4 src))) as [E|_]; [|exact Hnext].
  eexists. split; [reflexivity|]. split; [lia|]. split; [|done]. split; [lia|]. split; [|by apply Hsame].
  apply near_enough; [lia..|]. rewrite w32_small by (unfold mflimitPlusOne, iend, MFLIMIT in *; lia).
  apply andb_false_iff in Hfar as [Hfar|Hfar]; [apply negb_false_iff in Hfar; by rewrite Hfar|].
  apply orb_true_iff. right. apply Z.leb_le. apply Z.ltb_ge in Hfar. lia.
Qed.
End Search.
