(* ===== verification/Lz4Write.v ===== *)
(** * The LZ4 compressor

    What the compressor of [util/lz4.c] writes is a block for its input, and it
    writes within its output. *)

From S2P Require Import Prelude Lz4 Lz4Mem Lz4Format Lz4Count Lz4Search.

(** ** A destination that starts with given bytes *)

Definition starts (d bs : bytes) : Prop := is_at d 0 bs.

Lemma starts_len d bs : starts d bs -> len bs <= len d.
Proof. intros (_ & H & _). lia. Qed.

Lemma starts_take d bs : starts d bs -> ztake (len bs) d = bs.
Proof. intros H%is_at_sub. exact H. Qed.

Lemma starts_nil d : starts d [].
Proof. split; [lia|]. change (len (@nil Z)) with 0. pose proof (len_nonneg d). split; [lia|]. lia. Qed.

Lemma starts_app d u v : starts d (u ++ v) -> starts d u.
Proof. by intros [H _]%is_at_app. Qed.

Lemma starts_blit d bs op v : starts d bs -> op = len bs -> op + len v <= len d -> starts (blit d op v) (bs ++ v).
Proof.
  intros (_ & Hl & H) -> Hv. pose proof (len_nonneg bs). pose proof (len_nonneg v).
  split; [lia|]. rewrite len_blit, len_app by lia. split; [lia|]. intros i Hi. rewrite Z.add_0_l in *.
  rewrite at_blit, at_app by lia. repeat case_decide; try lia; try done. apply (H i). lia.
Qed.

(** A byte of what is there replaced. *)
Lemma starts_set d u b v c : starts d (u ++ [b] ++ v) -> starts (blit d (len u) [c]) (u ++ [c] ++ v).
Proof.
  intros (_ & Hl & H). pose proof (len_nonneg u). pose proof (len_nonneg v).
  assert (len [b] = 1 /\ len [c] = 1) as [Hb Hc] by (by rewrite !len_cons, len_nil).
  rewrite !len_app, Hb in Hl, H. split; [lia|]. rewrite len_blit, !len_app, Hc by lia. split; [lia|].
  intros i Hi. rewrite Z.add_0_l. specialize (H i ltac:(lia)). rewrite Z.add_0_l in H. rewrite at_blit, Hc by lia.
  rewrite at_app in H |- * by lia. repeat case_decide; try lia; try done.
  - rewrite at_app, decide_True by lia. done.
  - rewrite at_app in H |- * by lia. rewrite Hb in H. rewrite Hc. rewrite decide_False in H |- * by lia. done.
Qed.

Lemma wp_append op v bs d (Q : unit -> bytes -> Prop) : starts d bs -> op = len bs -> op + len v <= len d ->
  (forall d', len d' = len d -> starts d' (bs ++ v) -> Q tt d') -> wp (store op v) Q d.
Proof.
  intros Hs Hop Hl HQ. pose proof (len_nonneg bs). pose proof (len_nonneg v). apply wp_store; [lia..|].
  apply HQ; [by rewrite len_blit by lia|by apply starts_blit].
Qed.

(** ** Lengths *)

Lemma replicate_snoc {A} n (a : A) k : replicate n a ++ a :: k = replicate (S n) a ++ k.
Proof. change (a :: k) with ([a] ++ k). rewrite app_assoc. by rewrite <- replicate_S_end. Qed.

Lemma wp_put_length : forall fuel op n bs d (Q : Z -> bytes -> Prop), (Z.to_nat (n / 255) < fuel)%nat -> 0 <= n -> starts d bs -> op = len bs ->
  op + n / 255 + 1 <= len d ->
  (forall d', len d' = len d -> starts d' (bs ++ replicate (Z.to_nat (n / 255)) 255 ++ [n mod 255]) -> Q (op + n / 255 + 1) d') ->
  wp (put_length fuel op n) Q d.
Proof.
  assert (forall b : Z, len [b] = 1) as L1 by (intros; by rewrite len_cons, len_nil).
  induction fuel as [|fuel IH]; intros op n bs d Q Hf Hn Hs Hop Hl HQ; [lia|]. cbn [put_length].
  destruct (Z.leb_spec 255 n) as [Hge|Hlt].
  - assert (n / 255 = 1 + (n - 255) / 255) as Hd by (replace n with (n - 255 + 1 * 255) at 1 by lia; rewrite Z.div_add by lia; lia).
    assert (0 <= (n - 255) / 255) by (apply Z.div_pos; lia).
    assert (n mod 255 = (n - 255) mod 255) as Hm by (replace n with (n - 255 + 1 * 255) at 1 by lia; by rewrite Z.mod_add by lia).
    apply wp_bind, (wp_append op [255] bs d); [done..|rewrite L1; lia|]. intros d1 L Hs1.
    apply (IH (op + 1) (n - 255) (bs ++ [255])); try done; try lia; [rewrite len_app, L1; lia|].
    intros d2 L2 Hs2. replace (op + 1 + (n - 255) / 255 + 1) with (op + n / 255 + 1) by lia. apply HQ; [lia|].
    rewrite <- app_assoc in Hs2. rewrite Hm, Hd, Z2Nat.inj_add by lia. exact Hs2.
  - rewrite Z.mod_small by lia. apply wp_bind, (wp_append op [n] bs d); [done..|rewrite L1, Z.div_small in *; lia|].
    intros d1 L Hs1. apply wp_ret. rewrite Z.div_small, Z.mod_small, Z.add_0_r in HQ by lia. by apply HQ.
Qed.

(** The length bytes of literals. *)
Lemma wp_put_extra n op bs d (Q : Z -> bytes -> Prop) : 15 <= n -> starts d bs -> op = len bs -> op + (n - 15) / 255 + 1 <= len d ->
  (forall d', len d' = len d -> starts d' (bs ++ extra n) -> Q (op + len (extra n)) d') ->
  wp (put_length (length_fuel (n - 15)) op (n - 15)) Q d.
Proof.
  intros Hn Hs Hop Hl HQ. rewrite extra_len in HQ. unfold extra in HQ. rewrite (proj2 (Z.ltb_ge n 15)) in HQ by lia.
  apply (wp_put_length _ op (n - 15) bs); [unfold length_fuel; lia|lia|done..|]. intros d' L Hs'.
  replace (op + (n - 15) / 255 + 1) with (op + ((n - 15) / 255 + 1)) by lia. by apply HQ.
Qed.

Lemma w8_small x : 0 <= x < 256 -> w8 x = x.
Proof. intros. by apply Z.mod_small. Qed.

Lemma wp_add_to_token token x u b v d (Q : unit -> bytes -> Prop) : starts d (u ++ [b] ++ v) -> token = len u -> 0 <= b -> 0 <= x -> b + x < 256 ->
  (forall d', len d' = len d -> starts d' (u ++ [b + x] ++ v) -> Q tt d') -> wp (add_to_token token x) Q d.
Proof.
  intros Hs -> Hb Hx Hbx HQ. pose proof (starts_len _ _ Hs) as Hl. rewrite !len_app in Hl. pose proof (len_nonneg u). pose proof (len_nonneg v).
  assert (forall c : Z, len [c] = 1) as L1 by (intros; by rewrite len_cons, len_nil). rewrite L1 in Hl.
  apply wp_bind, wp_load; [lia..|]. assert (sub (len u) 1 d = [b]) as ->.
  { apply is_at_app in Hs as [_ Hs]. apply is_at_app in Hs as [Hs _]. apply is_at_sub in Hs. by rewrite L1 in Hs. }
  apply wp_store; [lia|rewrite L1; lia|]. cbn [le_get]. rewrite Z.mul_0_r, Z.add_0_r, w8_small by lia.
  apply HQ; [rewrite len_blit; [done|lia|rewrite L1; lia]|]. by apply starts_set with b.
Qed.

Lemma len_write32 v : len (le_put 4 v) = 4.
Proof. by rewrite len_le_put. Qed.

Lemma ones_255 : le_put 4 4294967295 = replicate 4 255.
Proof. done. Qed.

(** The bytes of a long match are written by fours, ahead of the position. *)
Lemma wp_put_match_length bs : forall fuel n op mc d (Q : Z * Z -> bytes -> Prop), (Z.to_nat (mc / 255) < fuel)%nat -> 0 <= mc ->
  starts d (bs ++ replicate (n + 4) 255) -> op = len bs + Z.of_nat n -> op + 4 + mc / 255 <= len d ->
  (forall n' mc' d', len d' = len d -> starts d' (bs ++ replicate (n' + 4) 255) -> 0 <= mc' < 4 * 255 -> 255 * Z.of_nat n' + mc' = 255 * Z.of_nat n + mc ->
     Q (len bs + Z.of_nat n', mc') d') ->
  wp (put_match_length fuel op mc) Q d.
Proof.
  induction fuel as [|fuel IH]; intros n op mc d Q Hf Hmc Hs Hop Hl HQ; [lia|]. cbn [put_match_length]. change (4 * 255) with 1020 in *.
  destruct (Z.leb_spec 1020 mc) as [Hge|Hlt].
  - assert (mc / 255 = 4 + (mc - 1020) / 255) as Hd by (replace mc with (mc - 1020 + 4 * 255) at 1 by lia; rewrite Z.div_add by lia; lia).
    assert (0 <= (mc - 1020) / 255) by (apply Z.div_pos; lia).
    apply wp_bind, (wp_append _ _ (bs ++ replicate (n + 4) 255) d);
      [exact Hs|rewrite len_app, len_replicate; lia|rewrite len_write32; lia|].
    intros d1 L Hs1. rewrite <- app_assoc, ones_255, <- replicate_add in Hs1.
    apply (IH (n + 4)%nat (op + 4) (mc - 1020) d1); try lia; [done|]. intros n' mc' d' L' Hs' Hmc' He. apply HQ; [lia|done|lia|lia].
  - apply wp_ret. rewrite Hop. by apply HQ.
Qed.

(** The token and the length bytes of a match. *)
Lemma wp_encode_match_length u l v mc token op d (Q : Z -> bytes -> Prop) :
  starts d (u ++ [16 * Z.min l 15] ++ v) -> token = len u -> op = len (u ++ [16 * Z.min l 15] ++ v) -> 0 <= l -> 0 <= mc ->
  op + (mc + 240) / 255 + 3 <= len d ->
  (forall d', len d' = len d -> starts d' (u ++ [Lz4Format.token l mc] ++ v ++ extra mc) -> Q (op + len (extra mc)) d') ->
  wp (encode_match_length token op mc) Q d.
Proof.
  intros Hs Ht Hop Hl Hmc Hroom HQ. unfold encode_match_length. change ML_MASK with 15.
  assert (forall c : Z, len [c] = 1) as L1 by (intros; by rewrite len_cons, len_nil).
  destruct (Z.leb_spec 15 mc) as [Hge|Hlt].
  - assert ((mc + 240) / 255 = 1 + (mc - 15) / 255) as Hd by (replace (mc + 240) with (mc - 15 + 1 * 255) by lia; rewrite Z.div_add by lia; lia).
    apply wp_bind, (wp_add_to_token _ 15 u (16 * Z.min l 15) v d); [done..|lia|lia|lia|]. intros d1 E1 Hs1.
    replace (16 * Z.min l 15 + 15) with (Lz4Format.token l mc) in Hs1 by (unfold Lz4Format.token; lia).
    set (bs := u ++ [Lz4Format.token l mc] ++ v) in *. assert (op = len bs) as Hop' by (unfold bs; rewrite Hop, !len_app, !L1; done).
    assert (0 <= (mc - 15) / 255) by (apply Z.div_pos; lia).
    apply wp_bind, (wp_append _ _ bs d1); [done|lia|rewrite len_write32; lia|]. intros d2 E2 Hs2. rewrite ones_255 in Hs2.
    apply wp_bind, (wp_put_match_length bs _ 0 op (mc - 15) d2); [unfold length_fuel; lia|lia|done|lia|lia|].
    intros n mc' d3 E3 Hs3 Hmc' He. change (4 * 255) with 1020 in Hmc'.
    pose proof (Z.div_mod mc' 255 ltac:(lia)) as Hdm. pose proof (Z.mod_pos_bound mc' 255 ltac:(lia)) as Hmb.
    assert ((mc - 15) / 255 = Z.of_nat n + mc' / 255) as Hq.
    { replace (mc - 15) with (mc' + Z.of_nat n * 255) by lia. rewrite Z.div_add by lia. lia. }
    assert ((mc - 15) mod 255 = mc' mod 255) as Hr.
    { replace (mc - 15) with (mc' + Z.of_nat n * 255) by lia. by rewrite Z.mod_add by lia. }
    apply wp_bind, (wp_append _ _ (bs ++ replicate (Z.to_nat ((mc - 15) / 255)) 255) d3).
    + replace (n + 4)%nat with (Z.to_nat ((mc - 15) / 255) + (n + 4 - Z.to_nat ((mc - 15) / 255)))%nat in Hs3 by lia.
      rewrite replicate_add, app_assoc in Hs3. by apply starts_app in Hs3.
    + rewrite len_app, len_replicate. lia.
    + rewrite L1. lia.
    + intros d4 E4 Hs4. apply wp_ret. rewrite extra_len in HQ. unfold extra in HQ. rewrite (proj2 (Z.ltb_ge mc 15)) in HQ by lia.
      replace (len bs + Z.of_nat n + mc' / 255 + 1) with (op + ((mc - 15) / 255 + 1)) by lia. apply HQ; [lia|].
      rewrite Hr. unfold bs in Hs4. by rewrite <- !app_assoc in Hs4.
  - rewrite w8_small by lia. apply wp_bind, (wp_add_to_token _ mc u (16 * Z.min l 15) v d); [done..|lia|lia|lia|].
    intros d1 E1 Hs1. apply wp_ret. rewrite extra_len in HQ. unfold extra in HQ. rewrite (proj2 (Z.ltb_lt mc 15)) in HQ by lia.
    rewrite Z.add_0_r in HQ. apply HQ; [done|]. rewrite app_nil_r. by replace (Lz4Format.token l mc) with (16 * Z.min l 15 + mc) by (unfold Lz4Format.token; lia).
Qed.

(** The token and the length bytes of literals. *)
Lemma wp_put_token l P d (Q : Z -> bytes -> Prop) : 0 <= l -> starts d P -> len P + 1 + len (extra l) <= len d ->
  (forall d', len d' = len d -> starts d' (P ++ [16 * Z.min l 15] ++ extra l) -> Q (len P + 1 + len (extra l)) d') ->
  wp (if RUN_MASK <=? l then
        store (len P) [Z.shiftl RUN_MASK ML_BITS] ;; put_length (length_fuel (l - RUN_MASK)) (len P + 1) (l - RUN_MASK)
      else store (len P) [w8 (Z.shiftl l ML_BITS)] ;; mret (len P + 1)) Q d.
Proof.
  intros Hl Hs Hroom HQ. change RUN_MASK with 15. change (Z.shiftl 15 ML_BITS) with (16 * 15).
  assert (forall c : Z, len [c] = 1) as L1 by (intros; by rewrite len_cons, len_nil). pose proof (len_nonneg (extra l)).
  destruct (Z.leb_spec 15 l) as [Hge|Hlt].
  - apply wp_bind, (wp_append _ _ P d); [done..|rewrite L1; lia|]. intros d1 E1 Hs1.
    apply (wp_put_extra l _ (P ++ [16 * 15]) d1); [lia|done|rewrite len_app, L1; lia| |].
    + rewrite extra_len, (proj2 (Z.ltb_ge l 15)) in Hroom by lia. lia.
    + intros d2 E2 Hs2. apply HQ; [lia|]. rewrite <- app_assoc in Hs2. by rewrite Z.min_r by lia.
  - rewrite Z.shiftl_mul_pow2 by done. change (2 ^ ML_BITS) with 16. rewrite w8_small by lia.
    assert (extra l = []) as Hex by (unfold extra; by rewrite (proj2 (Z.ltb_lt l 15))).
    apply wp_bind, (wp_append _ _ P d); [done..|rewrite L1; lia|]. intros d1 E1 Hs1. apply wp_ret.
    rewrite Hex, len_nil, Z.add_0_r, app_nil_r, Z.min_l in HQ by lia. apply HQ; [done|]. by rewrite (Z.mul_comm 16).
Qed.

(** ** Sequences *)

Ltac dlia := Z.to_euclidean_division_equations; lia.

Lemma extra_le n : 0 <= n -> len (extra n) <= n / 255 + 1 /\ len (extra n) <= (n + 240) / 255.
Proof. intros Hn. rewrite extra_len. destruct (Z.ltb_spec n 15); dlia. Qed.

Section Compress.
Context (src : bytes) (t : tableType_t) (limited : bool) (olimit acceleration lim : Z).
Context (Hbytes : is_bytes src) (Hsize : len src <= LZ4_MAX_INPUT_SIZE) (H16 : is_U16 t = true -> len src < LZ4_64Klimit).
Context (Hlim : if limited then olimit = lim else len src + len src / 255 + 16 <= lim).
Abbreviation mfl := (mflimitPlusOne src).

(** The bytes [P] are a block for the input up to [a], to be continued. *)
Definition chain (a : Z) (P : bytes) : Prop :=
  0 <= a /\ (forall rest, encodes src a rest -> encodes src 0 (P ++ rest)) /\ (limited = false -> len P <= a + a / 255).

Lemma chain_nil : chain 0 [].
Proof using Type. split; [lia|]. split; [done|]. intros _. by rewrite len_nil. Qed.

Lemma chain_match a P l off mc : chain a P -> 0 <= l -> a + l <= len src - MFLIMIT -> 0 <= mc -> a + l + (mc + 4) <= len src - LASTLITERALS ->
  1 <= off <= 65535 -> off <= a + l -> periodic src (a + l) (a + l + (mc + 4)) off ->
  chain (a + l + (mc + 4)) (P ++ [token l mc] ++ extra l ++ sub a l src ++ le_put 2 off ++ extra mc).
Proof using Type.
  intros (Ha & HP & Hlen) Hl Hal Hmc Hend Hoff Hoffa Hper. unfold MFLIMIT, LASTLITERALS in *. split; [lia|]. split.
  - intros rest Hrest. replace mc with (mc + 4 - 4) by lia.
    pose proof (HP _ (encodes_match src a l off (mc + 4) rest Ha Hl Hal ltac:(lia) Hend Hoff Hoffa Hper Hrest)) as H.
    rewrite <- !app_assoc. exact H.
  - intros Hu. specialize (Hlen Hu). rewrite !len_app, len_cons, len_nil, len_le_put, len_sub by lia. change (Z.of_nat 2) with 2.
    pose proof (extra_le l Hl) as [_ E1]. pose proof (extra_le mc Hmc) as [_ E2]. dlia.
Qed.

(** The destination holds such bytes up to [op]. *)
Definition written (a op : Z) (d : bytes) : Prop := exists P, starts d P /\ op = len P /\ chain a P.

(** ... and then the literals up to [a + l]. *)
Definition with_literals (l a : Z) (P : bytes) : bytes := P ++ [16 * Z.min l 15] ++ extra l ++ sub a l src.

Lemma wp_literals_of P a ip d (Q : option (Z * Z) -> bytes -> Prop) : chain a P -> starts d P -> a <= ip <= len src - MFLIMIT -> lim <= len d ->
  (limited = true -> Q None d) ->
  (forall d', len d' = len d -> starts d' (with_literals (ip - a) a P) -> len (with_literals (ip - a) a P) + 7 <= lim ->
     Q (Some (len P, len (with_literals (ip - a) a P))) d') ->
  wp (encode_literals src limited olimit ip a (len P)) Q d.
Proof using Hsize Hlim.
  unfold MFLIMIT, LZ4_MAX_INPUT_SIZE in *. intros (Ha & HP & Hlen) Hs Hip Hd HN HQ. unfold encode_literals. rewrite w32_small by lia. set (l := ip - a) in *.
  change (2 + 1 + LASTLITERALS) with 8.
  assert (forall c : Z, len [c] = 1) as L1 by (intros; by rewrite len_cons, len_nil).
  assert (len (with_literals l a P) = len P + 1 + len (extra l) + l) as Hwl by (unfold with_literals; rewrite !len_app, L1, len_sub by lia; lia).
  destruct (limited && (olimit <? len P + 1 + l + 8 + l / 255)) eqn:Hfull; [apply andb_true_iff in Hfull as [Hfull _]; by apply wp_ret, HN|].
  assert (len P + 1 + l + 8 + l / 255 <= lim) as Hroom.
  { destruct limited; [cbn [andb] in Hfull; apply Z.ltb_ge in Hfull; lia|]. specialize (Hlen eq_refl). dlia. }
  assert (0 <= l / 255) by (apply Z.div_pos; lia). pose proof (len_nonneg P). pose proof (len_nonneg (extra l)).
  destruct (extra_le l) as [HE _]; [lia|]. pose proof (stripes_bounds 8 l ltac:(lia)) as HB.
  assert (stripes 8 l <= l + 8) as HB' by lia.
  assert (forall op d1, len d1 = len d -> op = len P + 1 + len (extra l) -> starts d1 (P ++ [16 * Z.min l 15] ++ extra l) ->
    (15 <= l \/ len (extra l) = 0) ->
    wp (LZ4_wildCopy8 (input src) op a (op + l) ;; mret (Some (len P, op + l))) Q d1) as Hcopy.
  { intros op d1 L Hop Hs1 Hcase. apply wp_bind. assert (op + l - op = l) as El by lia.
    apply wp_wild8_in; rewrite ?El; [lia..|]. apply wp_ret.
    replace (op + l) with (len (with_literals l a P)) by lia. apply HQ; [rewrite len_blit; [done|lia|rewrite len_sub by lia; lia]| |lia].
    assert (starts (blit d1 op (sub a (stripes 8 l) src)) ((P ++ [16 * Z.min l 15] ++ extra l) ++ sub a (stripes 8 l) src)) as Hs2.
    { apply starts_blit; [done|rewrite !len_app, L1; lia|rewrite len_sub by lia; lia]. }
    replace (stripes 8 l) with (l + (stripes 8 l - l)) in Hs2 at 2 by lia. rewrite sub_split, app_assoc in Hs2 by lia.
    apply starts_app in Hs2. unfold with_literals. by rewrite <- !app_assoc in Hs2. }
  apply wp_bind, (wp_put_token l P d); [lia|done|lia|]. intros d1 E1 Hs1. apply Hcopy; [done|done|done|].
  rewrite extra_len. destruct (Z.ltb_spec l 15); lia.
Qed.

Lemma same_periodic ip m n : same src ip m n -> periodic src ip (ip + n) (ip - m).
Proof using Type.
  intros H i Hi. specialize (H (i - ip) ltac:(lia)). replace (ip + (i - ip)) with i in H by lia. rewrite H. f_equal. lia.
Qed.

Lemma len_with_literals l a P : 0 <= a -> 0 <= l -> a + l <= len src -> len (with_literals l a P) = len P + 1 + len (extra l) + l.
Proof using Type. intros. unfold with_literals. rewrite !len_app, len_cons, len_nil, len_sub by lia. lia. Qed.

Lemma with_no_literals a P : with_literals 0 a P = P ++ [0].
Proof using Type. unfold with_literals, sub, extra. by rewrite ztake_nonpos. Qed.

(** The count goes at least as far as what is known to be the same. *)
Lemma counted_most ip m limit n c : same src ip m (n + 4) -> ip + 4 + n <= limit -> counted src (ip + 4) (m + 4) limit c -> 0 <= n -> n <= c.
Proof using Type.
  intros Hs Hn (Hc & _ & _ & Hstop) H0. destruct (Z.le_gt_cases n c) as [|Hlt]; [done|]. destruct Hstop; [lia|].
  specialize (Hs (4 + c) ltac:(lia)). by rewrite !Z.add_assoc in Hs.
Qed.

(** The offset and the length of a match of [c + 4] bytes behind its literals. *)
Lemma wp_match P a ip m c d (Q : Z -> bytes -> Prop) (l := ip - a) (op := len (with_literals l a P)) :
  chain a P -> starts d (with_literals l a P ++ le_put 2 (ip - m)) -> a <= ip -> ip + MFLIMIT <= len src -> matches src ip m (c + 4) -> 0 <= c ->
  ip + c + 4 <= matchlimit src -> op + 2 + (c + 240) / 255 + 6 <= lim -> lim <= len d ->
  (forall P' d', len d' = len d -> starts d' P' -> chain (ip + c + MINMATCH) P' -> len P' + 6 <= lim -> Q (len P') d') ->
  wp (encode_match_length (len P) (op + 2) c) Q d.
Proof using Type.
  unfold matchlimit, iend, LASTLITERALS, MFLIMIT. intros HP Hs Ha Hip (Hm & Hdist & Hsame) Hc Hend Hroom Hd HQ. destruct HP as [Ha0 HP].
  pose proof (len_with_literals l a P Ha0 ltac:(lia) ltac:(lia)) as Hwl. fold op in Hwl. pose proof (extra_le c Hc) as [_ HE].
  assert (len (with_literals l a P ++ le_put 2 (ip - m)) = op + 2) as Hop2 by (rewrite len_app, len_le_put; fold op; lia).
  unfold with_literals in Hs. rewrite <- !app_assoc in Hs.
  apply (wp_encode_match_length P l (extra l ++ sub a l src ++ le_put 2 (ip - m)) c _ _ d); [done|done| |lia|lia|lia|].
  { rewrite <- Hop2. unfold with_literals. by rewrite <- !app_assoc. }
  intros d' E Hs'. set (P' := P ++ [token l c] ++ (extra l ++ sub a l src ++ le_put 2 (ip - m)) ++ extra c) in *.
  assert (op + 2 + len (extra c) = len P') as ->.
  { unfold P'. rewrite <- Hop2. unfold with_literals. rewrite !len_app, !len_cons, len_nil. lia. }
  assert (len P' = op + 2 + len (extra c)) as HP'.
  { unfold P'. rewrite !len_app, len_cons, len_nil, len_le_put, len_sub by lia. change (Z.of_nat 2) with 2. lia. }
  apply HQ; [done|done| |lia]. change MINMATCH with 4. replace (ip + c + 4) with (a + l + (c + 4)) by lia.
  unfold P'. rewrite <- !app_assoc. apply chain_match; [by split|unfold LZ4_DISTANCE_MAX, MFLIMIT, LASTLITERALS in *; lia..|].
  replace (a + l) with ip by lia. rewrite Z.add_comm in Hsame. apply same_periodic. by rewrite (Z.add_comm c).
Qed.

(** Whether the position behind a match starts another one. *)
Lemma wp_near p m (d : bytes) : 0 <= m < p -> p < mfl ->
  wp (if is_U16 t || (p <=? (m + LZ4_DISTANCE_MAX)%u32) then
        x ← lift (LZ4_read32 src m); y ← lift (LZ4_read32 src p); mret (x =? y)
      else mret false) (fun b d' => d' = d /\ (b = true -> matches src p m 4)) d.
Proof using Hbytes Hsize H16.
  intros Hm Hp. assert (w32 p = p) as Hw by (apply w32_small; unfold LZ4_MAX_INPUT_SIZE, mflimitPlusOne, iend, MFLIMIT in *; lia).
  destruct (is_U16 t || (p <=? (m + LZ4_DISTANCE_MAX)%u32)) eqn:Hn; [|by apply wp_ret].
  destruct (read32_same src p m Hbytes) as (Rm & Rp & Hsame); [lia|unfold mflimitPlusOne, iend, MFLIMIT in *; lia|].
  apply wp_bind. eapply wp_lift_ok; [exact Rm|]. apply wp_bind. eapply wp_lift_ok; [exact Rp|]. apply wp_ret. split; [done|].
  intros E%Z.eqb_eq. split; [done|]. split; [|by apply Hsame]. apply (near_enough src t Hsize H16 Hbytes p m); [done..|]. by rewrite Hw.
Qed.

(** Every sequence of matches without literals between them. *)
Lemma wp_next_match : forall fuel P a ip m table f d (Q : after_match -> bytes -> Prop), len src < ip + Z.of_nat fuel ->
  chain a P -> starts d (with_literals (ip - a) a P) -> a <= ip <= f -> f < mfl -> matches src ip m (f - ip + 4) -> table_ok t table (f + 1) ->
  len (with_literals (ip - a) a P) + 2 <= lim -> lim <= len d ->
  (limited = true -> forall d', len d' = len d -> Q Full d') ->
  (forall a' op d', len d' = len d -> written a' op d' -> a' <= len src -> Q (Ended a' op) d') ->
  (forall a' op h table d', len d' = len d -> written a' op d' -> ip < a' < mfl -> hash_ok t h -> table_ok t table (a' + 1) ->
     Q (Search (a' + 1) a' op h table) d') ->
  wp (next_match src t limited olimit fuel (len P) ip m (len (with_literals (ip - a) a P)) table) Q d.
Proof using Hbytes Hsize H16 Hlim.
  induction fuel as [|fuel IH]; intros P a ip m table f d Q Hf HP Hs Hip Hfm Hmatch Ht Hroom Hd HQF HQE HQS.
  { unfold mflimitPlusOne, iend, MFLIMIT in *. lia. }
  pose proof HP as [Ha0 [_ HPlen]]. pose proof Hmatch as (Hm & Hdist & Hsame).
  unfold mflimitPlusOne, iend, MFLIMIT in Hfm. cbn [next_match].
  apply wp_bind, (wp_append _ _ (with_literals (ip - a) a P) d); [done..|rewrite len_le_put; lia|]. intros d1 E1 Hs1.
  destruct (LZ4_count_ok src Hbytes (ip + MINMATCH) (m + MINMATCH) (matchlimit src)) as (c & Hcount & Hc);
    [unfold matchlimit, iend, LASTLITERALS, MINMATCH; lia..|].
  apply wp_bind. eapply wp_lift_ok; [exact Hcount|]. cbn beta. change MINMATCH with 4 in *.
  assert (f - ip <= c) as Hfc by (apply (counted_most ip m (matchlimit src)); [exact Hsame|unfold matchlimit, iend, LASTLITERALS; lia|exact Hc|lia]).
  destruct Hc as (Hc0 & Hcl & Hcs & _).
  assert (matches src ip m (c + 4)) as Hmatch'.
  { split; [done|]. split; [done|]. rewrite Z.add_comm. apply same_app; [|done]. intros i Hi. apply Hsame. lia. }
  change (1 + LASTLITERALS) with 6.
  destruct (limited && (olimit <? len (with_literals (ip - a) a P) + 2 + 6 + (c + 240) / 255)) eqn:Hfull.
  { apply andb_true_iff in Hfull as [Hfull _]. by apply wp_ret, HQF. }
  assert (len (with_literals (ip - a) a P) + 2 + (c + 240) / 255 + 6 <= lim) as Hroom2.
  { destruct limited; [cbn [andb] in Hfull; apply Z.ltb_ge in Hfull; lia|]. specialize (HPlen eq_refl).
    pose proof (extra_le (ip - a) ltac:(lia)) as [_ HE]. rewrite len_with_literals by lia. unfold matchlimit, iend, LASTLITERALS in Hcl. dlia. }
  apply wp_bind, (wp_match P a ip m c d1); [done..|lia|unfold MFLIMIT; lia|done|lia|lia|lia|lia|]. change MINMATCH with 4.
  intros P' d2 E2 Hs2 HP' Hroom'.
  assert (written (ip + c + 4) (len P') d2) as Hw by (by exists P').
  destruct (Z.leb_spec mfl (ip + c + 4)) as [Hend|Hgo]; [apply wp_ret, HQE; [lia|done|unfold matchlimit, iend, LASTLITERALS in *; lia]|]. set (ip' := ip + c + 4) in *.
  destruct (refill_ok src t Hsize H16 ip' table) as (table1 & h0 & m' & table0 & Hp1 & Hh0 & Hget & Hm' & Hp0 & Ht0);
    [lia|by eapply table_ok_weaken; [exact Ht|lia]|].
  destruct (hashPosition_ok src t (ip' + 1)) as (h1 & Hh1 & Hok1); [lia|].
  apply wp_bind. eapply wp_lift_ok; [exact Hp1|]. cbn beta.
  apply wp_bind. eapply wp_lift_ok; [exact Hh0|]. cbn beta. rewrite (position_w32 src Hsize ip') by lia.
  apply wp_bind. eapply wp_lift_ok; [exact Hget|]. cbn beta.
  apply wp_bind. eapply wp_lift_ok; [exact Hp0|]. cbn beta.
  apply wp_bind. eapply wp_mono; [by apply wp_near|]. intros near d3 [-> Hnear]. destruct near.
  - apply wp_bind, (wp_append _ _ P' d2); [done..|rewrite len_cons, len_nil; lia|]. intros d3 E3 Hs3.
    rewrite <- with_no_literals with (a := ip') in Hs3. replace 0 with (ip' - ip') in Hs3 by lia.
    replace (len P' + 1) with (len (with_literals (ip' - ip') ip' P')).
    2: { replace (ip' - ip') with 0 by lia. rewrite with_no_literals, len_app. done. }
    apply (IH P' ip' ip' m' table0 ip' d3); try done; try lia.
    + replace (ip' - ip' + 4) with 4 by lia. by apply Hnear.
    + replace (ip' - ip') with 0 by lia. rewrite with_no_literals, len_app, len_cons, len_nil. lia.
    + intros HF d' E'. apply HQF; [done|lia].
    + intros a' op d' E' Hw' Ha'. apply HQE; [lia|done|done].
    + intros a' op h table' d' E' Hw' Ha'. apply HQS; [lia|done|lia].
  - apply wp_bind. eapply wp_lift_ok; [exact Hh1|]. cbn beta. apply wp_ret, HQS; [lia|done|lia|done|done].
Qed.

(** What the compressor promises: nothing written when the output is too small,
    or a block within the capacity. *)
Definition compressed (d : bytes) (r : Z) (d' : bytes) : Prop :=
  len d' = len d /\ (r = 0 /\ limited = true \/ 0 < r <= lim /\ encodes src 0 (ztake r d')).

Lemma compressed_len d d0 r d' : len d = len d0 -> compressed d r d' -> compressed d0 r d'.
Proof using Type. intros E [L H]. split; [lia|done]. Qed.

Lemma wp_last_literals a op d : written a op d -> a <= len src -> lim <= len d -> lim < 2 ^ 31 ->
  wp (last_literals src limited olimit a op) (compressed d) d.
Proof using Hsize Hlim.
  intros (P & Hs & -> & Ha & HP & Hlen) Hal Hd H31. unfold last_literals, iend. set (l := len src - a) in *.
  assert (forall c : Z, len [c] = 1) as L1 by (intros; by rewrite len_cons, len_nil).
  destruct (limited && _) eqn:Hfull; [apply andb_true_iff in Hfull as [Hfull _]; by apply wp_ret; split; [done|left]|].
  assert (len P + 1 + l + (l + 240) / 255 <= lim) as Hroom.
  { destruct limited; [cbn [andb] in Hfull; apply Z.ltb_ge in Hfull; replace (l + 255 - RUN_MASK) with (l + 240) in Hfull by (unfold RUN_MASK; lia); lia|].
    specialize (Hlen eq_refl). unfold l in *. dlia. }
  pose proof (extra_le l ltac:(lia)) as [_ HE]. pose proof (len_nonneg P). pose proof (len_nonneg (extra l)).
  assert (forall op d1, len d1 = len d -> op = len P + 1 + len (extra l) -> starts d1 (P ++ [16 * Z.min l 15] ++ extra l) ->
    wp (LZ4_memcpy (input src) op a l ;; mret (s32 (op + l))) (compressed d) d1) as Hcopy.
  { intros op d1 L Hop Hs1. apply wp_bind, wp_copy_in; [lia..|]. apply wp_ret.
    assert (s32 (op + l) = op + l) as -> by (unfold s32; rewrite Z.mod_small; lia).
    split; [by rewrite len_blit by (rewrite ?len_sub by lia; lia)|right]. split; [lia|].
    assert (sub a l src = zdrop a src) as Hz by (unfold sub; apply ztake_all; rewrite len_zdrop; lia).
    assert (starts (blit d1 op (sub a l src)) (P ++ ([token l 0] ++ extra l ++ zdrop a src))) as Hs2.
    { rewrite <- Hz. replace (token l 0) with (16 * Z.min l 15) by (unfold token; lia). rewrite (app_assoc [_]), app_assoc.
      apply starts_blit; [done|rewrite !len_app, L1; lia|rewrite len_sub by lia; lia]. }
    apply starts_take in Hs2. rewrite <- Hz, !len_app, L1, len_sub in Hs2 by lia.
    replace (len P + (1 + (len (extra l) + l))) with (op + l) in Hs2 by lia. rewrite Hs2, Hz. apply HP, encodes_last. lia. }
  assert (0 <= (l + 240) / 255) by (apply Z.div_pos; lia).
  apply wp_bind, (wp_put_token l P d); [lia|done|lia|]. intros d1 E1 Hs1. by apply Hcopy.
Qed.

Lemma wp_main_loop : 1 <= acceleration -> lim < 2 ^ 31 -> forall fuel a ip op h table d d0, len src < a + Z.of_nat fuel -> written a op d -> 0 <= a ->
  a < ip <= mfl -> hash_ok t h -> table_ok t table ip -> lim <= len d -> len d = len d0 ->
  wp (main_loop src t limited olimit acceleration fuel ip a op h table) (compressed d0) d.
Proof using Hbytes Hsize H16 Hlim.
  intros Hacc H31. induction fuel as [|fuel IH]; intros a ip op h table d d0 Hf Hw Ha Hip Hh Ht Hd Hd0.
  { unfold mflimitPlusOne, iend, MFLIMIT in *. lia. }
  cbn [main_loop]. assert (64 <= Z.shiftl acceleration LZ4_skipTrigger) as Hnb.
  { rewrite Z.shiftl_mul_pow2 by done. change (2 ^ LZ4_skipTrigger) with 64. lia. }
  assert (forall a' op' d', len d' = len d -> written a' op' d' -> a' <= len src -> wp (last_literals src limited olimit a' op') (compressed d0) d') as Hlast.
  { intros a' op' d' E' Hw' Ha'. eapply wp_mono; [apply wp_last_literals; [exact Hw'|done|lia|done]|]. intros r d''. apply compressed_len. lia. }
  destruct (find_match_ok src t Hsize H16 Hbytes (S (length src)) ip 1 (Z.shiftl acceleration LZ4_skipTrigger) h table) as (r & Hr & Hfound);
    [unfold mflimitPlusOne, iend, MFLIMIT; rewrite len_length; lia|lia|lia|done..|].
  apply wp_bind. eapply wp_lift_ok; [exact Hr|]. cbn beta.
  assert (a <= len src) as Hal by (unfold mflimitPlusOne, iend, MFLIMIT in *; lia).
  destruct r as [[[f m] table']|]; [|by apply Hlast].
  destruct Hfound as (Hfr & (Hm & Hdist & Hsame) & Ht'). assert (f < len src - 11) as Hfl by (unfold mflimitPlusOne, iend, MFLIMIT in *; lia).
  destruct (catch_up_ok src a Ha (S (length src)) f m 4) as (k & Hk & Hka & Hkm & Hks); [rewrite len_length in Hfl; lia|lia|lia|done|].
  apply wp_bind. eapply wp_lift_ok; [exact Hk|]. cbn beta. destruct Hw as (P & Hs & -> & HP).
  assert (limited = true -> forall d', len d' = len d -> compressed d0 0 d') as HFull by (intros HF d' E'; split; [lia|by left]).
  apply wp_bind, (wp_literals_of P a (f - k) d); [done|done|unfold MFLIMIT; lia|done|intros HF; by apply wp_ret, HFull|].
  intros d1 E1 Hs1 Hroom. apply wp_bind.
  apply (wp_next_match _ P a (f - k) (m - k) table' f d1); try done; try lia; [rewrite len_length; lia| | | |].
  - split; [lia|]. split; [lia|]. by replace (f - (f - k) + 4) with (4 + k) by lia.
  - intros HF d' E'. apply wp_ret, HFull; [done|lia].
  - intros a' op' d2 E2 Hw2 Ha2. apply Hlast; [lia|done|done].
  - intros a' op' h' table2 d2 E2 Hw2 Ha2 Hh2 Ht2. apply IH; try done; lia.
Qed.

Lemma wp_compress_validated d : 1 <= acceleration -> lim < 2 ^ 31 -> lim <= len d ->
  wp (LZ4_compress_generic_validated src t limited olimit acceleration) (compressed d) d.
Proof using Hbytes Hsize H16 Hlim.
  intros Hacc H31 Hd. unfold LZ4_compress_generic_validated, iend. pose proof (len_nonneg src).
  assert (is_U16 t && (LZ4_64Klimit <=? len src) = false) as ->.
  { destruct (is_U16 t); [|done]. apply Z.leb_gt. by apply H16. }
  assert (written 0 0 d) as Hw by (exists []; split; [apply starts_nil|split; [done|apply chain_nil]]).
  change LZ4_minLength with 13. destruct (Z.ltb_spec (len src) 13) as [Hsmall|Hbig]; [by apply wp_last_literals|].
  assert (1 <= mfl) as Hm by (unfold mflimitPlusOne, iend, MFLIMIT; lia).
  destruct (hashPosition_ok src t 0) as (h0 & Hh0 & Hok0); [lia|]. destruct (hashPosition_ok src t 1) as (h1 & Hh1 & Hok1); [lia|].
  destruct (putIndex_ok src t Hsize H16 0 h0 (new_table t) 1) as (table & Hp & Ht); [lia|lia|done|by apply new_table_ok|].
  apply wp_bind. eapply wp_lift_ok; [unfold LZ4_putPosition; rewrite Hh0; exact Hp|]. cbn beta.
  apply wp_bind. eapply wp_lift_ok; [exact Hh1|]. cbn beta.
  apply wp_main_loop; try done; try lia. rewrite len_length. lia.
Qed.

Lemma wp_compress_generic d : 1 <= acceleration -> lim < 2 ^ 31 -> lim <= len d ->
  wp (LZ4_compress_generic src t limited olimit acceleration) (compressed d) d.
Proof using Hbytes Hsize H16 Hlim.
  intros Hacc H31 Hd. unfold LZ4_compress_generic, iend. pose proof (len_nonneg src). unfold LZ4_MAX_INPUT_SIZE in Hsize.
  rewrite w32_small by lia. change LZ4_MAX_INPUT_SIZE with 2113929216. rewrite (proj2 (Z.ltb_ge _ _)) by lia.
  destruct (Z.eqb_spec (len src) 0) as [Hz|]; [|by apply wp_compress_validated].
  destruct (limited && (olimit <=? 0)) eqn:Hfull; [apply andb_true_iff in Hfull as [Hfull _]; by apply wp_ret; split; [done|left]|].
  assert (1 <= lim) as H1.
  { destruct limited; [cbn [andb] in Hfull; apply Z.leb_gt in Hfull; lia|]. rewrite Hz in Hlim. change (0 / 255) with 0 in Hlim. lia. }
  apply wp_bind, (wp_append _ _ [] d); [apply starts_nil|done|change (len [0]) with 1; lia|]. intros d1 E1 Hs1. apply wp_ret. split; [done|right].
  split; [lia|]. apply starts_take in Hs1. rewrite app_nil_l in Hs1. change (len [0]) with 1 in Hs1. rewrite Hs1.
  apply len_0_nil in Hz. rewrite Hz. pose proof (encodes_last [] 0 ltac:(done)) as H0. exact H0.
Qed.
End Compress.
