(* ===== verification/Codec.v ===== *)
(** * The codecs the program calls

    LZ4 ([LZ4_compress_fast], [LZ4_decompress_safe]), xdelta
    ([xd3_encode_memory], [xd3_decode_memory], a prebuilt library) and SHA-256
    (OpenSSL's [EVP_Digest]): each one is a class of operations, and a second
    class states the behaviour the program relies on.  The other components take
    the operations as class parameters and their theorems the laws.  The LZ4 of
    [util/lz4.c] is an instance, proved in [Lz4Use]; xdelta and SHA-256 are not
    code of this repository.  [StoreCodec] is a small codec that satisfies every
    law. *)

From S2P Require Import Prelude Lz4 Define.

(** [LZ4_compress_fast src old cap accel]: the return value and the contents of
    the destination, which held [old]; [LZ4_decompress_safe src old cap] the
    same way (a negative return value reports malformed input). *)
Class Lz4 := {
  LZ4_compress_fast : bytes -> bytes -> Z -> Z -> Z * bytes;
  LZ4_decompress_safe : bytes -> bytes -> Z -> Z * bytes
}.

Class Lz4Laws `{Lz4} := {
  lz4_fits src old cap accel ret out :
    is_bytes src -> len src <= LZ4_MAX_INPUT_SIZE -> cap < 2 ^ 31 ->
    LZ4_compress_fast src old cap accel = (ret, out) -> 0 < ret ->
    ret <= cap /\ ret <= len out /\ is_bytes (ztake ret out);
  lz4_succeeds src old cap accel ret out :
    is_bytes src -> 0 < len src <= LZ4_MAX_INPUT_SIZE -> LZ4_compressBound (len src) <= cap < 2 ^ 31 ->
    LZ4_compress_fast src old cap accel = (ret, out) -> 0 < ret;
  lz4_roundtrip src old cap accel ret out old' cap' :
    is_bytes src -> len src <= LZ4_MAX_INPUT_SIZE -> cap < 2 ^ 31 ->
    LZ4_compress_fast src old cap accel = (ret, out) -> 0 < ret ->
    len src <= cap' < 2 ^ 31 ->
    exists out', LZ4_decompress_safe (ztake ret out) old' cap' = (len src, out') /\ ztake (len src) out' = src
}.

(** The return code of a memory-to-memory xdelta call and its output; [None]
    when the call left its output size unset. *)
Class Xdelta := {
  xd3_encode_memory : bytes -> bytes -> Z -> Z * option bytes;
  xd3_decode_memory : bytes -> bytes -> Z -> Z * option bytes
}.

(** What the header [xdelta3.h] promises: decoding is the reverse of encoding;
    an encoder that finds the output array too small reports an error ([ENOSPC])
    and does not write past it.  When it reports success, it has set the size of
    its output, which starts with the header that every VCDIFF file has. *)
Class XdeltaLaws `{Xdelta} := {
  xd3_roundtrip target base cap delta cap' :
    is_bytes target -> is_bytes base ->
    xd3_encode_memory target base cap = (0, Some delta) -> len target <= cap' ->
    xd3_decode_memory delta base cap' = (0, Some target);
  xd3_bytes target base cap ret delta :
    is_bytes target -> is_bytes base ->
    xd3_encode_memory target base cap = (ret, Some delta) -> is_bytes delta /\ len delta <= cap;
  xd3_success target base cap out :
    xd3_encode_memory target base cap = (0, out) -> exists delta, out = Some delta /\ 0 < len delta
}.

Class Digest := { EVP_sha256 : bytes -> bytes }.

Class DigestLaws `{Digest} := { sha256_len bs : len (EVP_sha256 bs) = CHUNK_HASH_SIZE }.

(** ** A codec that stores its input *)

Module StoreCodec.
#[local] Definition copy (src old : bytes) (cap : Z) : Z * bytes :=
  if len src <=? cap then (len src, blit old 0 src) else (-1, old).

Definition lz4 : Lz4 := {|
  LZ4_compress_fast src old cap accel :=
    if is_bytes src && (len src <=? cap) then (len src, blit old 0 src) else (0, old);
  LZ4_decompress_safe := copy
|}.

Lemma lz4_laws : @Lz4Laws lz4.
Proof.
  assert (forall src old, blit old 0 src = src ++ zdrop (len src) old) as Hblit.
  { intros src old. unfold blit. by rewrite (ztake_nonpos 0). }
  split; cbn.
  - intros src old cap accel ret out Hb _ _ Hc Hret. apply Is_true_true in Hb as Hb'. rewrite Hb' in Hc.
    destruct (Z.leb_spec (len src) cap); cbn in Hc; [|injection Hc; lia].
    injection Hc as <- <-. rewrite Hblit, ztake_app_len, len_app. split_and!; [lia|pose_lens; lia|done].
  - intros src old cap accel ret out Hb Hs Hcap Hc. apply Is_true_true in Hb as Hb'. rewrite Hb' in Hc.
    assert (len src <= LZ4_compressBound (len src)) as Hle.
    { unfold LZ4_compressBound, LZ4_MAX_INPUT_SIZE in *. rewrite w32_small by lia. rewrite (proj2 (Z.ltb_ge _ _)) by lia.
      pose proof (Z.div_pos (len src) 255). lia. }
    rewrite (proj2 (Z.leb_le (len src) cap)) in Hc by lia. cbn in Hc. injection Hc as <- <-. lia.
  - intros src old cap accel ret out old' cap' Hb _ _ Hc Hret Hcap. apply Is_true_true in Hb. rewrite Hb in Hc.
    destruct (Z.leb_spec (len src) cap); cbn in Hc; [|injection Hc; lia].
    injection Hc as <- <-. rewrite Hblit, ztake_app_len. unfold copy. rewrite (proj2 (Z.leb_le _ cap')) by lia.
    eexists. split; [reflexivity|]. by rewrite Hblit, ztake_app_len.
Qed.

Definition xdelta : Xdelta := {|
  xd3_encode_memory target base cap :=
    if (0 <? len target) && (len target <=? cap) then (0, Some target) else (28, None);
  xd3_decode_memory delta base cap :=
    if len delta <=? cap then (0, Some delta) else (28, None)
|}.

Lemma xdelta_laws : @XdeltaLaws xdelta.
Proof.
  split; cbn.
  - intros target base cap delta cap' _ _ Hc Hcap. destruct (_ && _); [|done].
    injection Hc as <-. by rewrite (proj2 (Z.leb_le _ cap')) by lia.
  - intros target base cap ret delta Ht _ Hc. destruct (0 <? len target), (Z.leb_spec (len target) cap); try done.
    by injection Hc as <- <-.
  - intros target base cap out Hc. destruct (Z.ltb_spec 0 (len target)), (len target <=? cap); try done.
    injection Hc as <-. by exists target.
Qed.

(** A checksum in the first bytes of an otherwise zero digest. *)
Definition digest : Digest := {|
  EVP_sha256 bs := le_put 4 (fold_left (fun h b => h * 257 + b + 1) bs 0) ++ replicate 28 0
|}.

Lemma digest_laws : @DigestLaws digest.
Proof. split. intros bs. cbn [EVP_sha256 digest]. rewrite len_app, len_le_put. by vm_compute. Qed.

(** A delta coder whose deltas are one byte longer than the target. *)
Definition tagged : Xdelta := {|
  xd3_encode_memory target base cap :=
    if len target + 1 <=? cap then (0, Some (0 :: target)) else (28, None);
  xd3_decode_memory delta base cap := (0, Some (tail delta))
|}.

Lemma tagged_laws : @XdeltaLaws tagged.
Proof.
  split; cbn.
  - intros target base cap delta cap' _ _ Hc Hcap. destruct (len target + 1 <=? cap); [|done].
    by injection Hc as <-.
  - intros target base cap ret delta Ht _ Hc. destruct (Z.leb_spec (len target + 1) cap); [|done].
    injection Hc as <- <-. split; [done|slia].
  - intros target base cap out Hc. destruct (len target + 1 <=? cap); [|done]. pose proof (len_nonneg target).
    injection Hc as <-. eexists. split; [done|slia].
Qed.

(** A delta coder that looks at the base: one byte for a target equal to its
    base. *)
Definition same : Xdelta := {|
  xd3_encode_memory target base cap :=
    if len target + 1 <=? cap then (0, Some (if decide (target = base) then [1] else 0 :: target))
    else (28, None);
  xd3_decode_memory delta base cap :=
    match delta with
    | 1 :: _ => (0, Some base)
    | _ => (0, Some (tail delta))
    end
|}.

Lemma same_laws : @XdeltaLaws same.
Proof.
  split; cbn.
  - intros target base cap delta cap' _ _ Hc Hcap. destruct (len target + 1 <=? cap); [|done].
    destruct (decide (target = base)) as [->|]; by injection Hc as <-.
  - intros target base cap ret delta Ht _ Hc. destruct (Z.leb_spec (len target + 1) cap); [|done].
    pose proof (len_nonneg target). injection Hc as <- <-. case_decide; (split; [done|slia]).
  - intros target base cap out Hc. destruct (len target + 1 <=? cap); [|done]. pose proof (len_nonneg target).
    injection Hc as <-. eexists. split; [done|]. case_decide; slia.
Qed.
End StoreCodec.
