(* ===== verification/Lz4Use.v ===== *)
(** * LZ4 as the program uses it

    The compressor and the decoder of [util/lz4.c] together: what is compressed
    decompresses to itself, the decoder is safe on any input, and the two of
    them satisfy the laws the rest of the program relies on. *)

From S2P Require Import Prelude Lz4 Lz4Mem Lz4Format Lz4Decode Lz4Read Lz4Count Lz4Search Lz4Write Codec.

(** ** Compression *)

Lemma compressBound_ok n : 0 <= n <= LZ4_MAX_INPUT_SIZE -> LZ4_compressBound n = n + n / 255 + 16 /\ LZ4_compressBound n < 2 ^ 31.
Proof.
  unfold LZ4_compressBound, LZ4_MAX_INPUT_SIZE. intros Hn. rewrite w32_small by lia. rewrite (proj2 (Z.ltb_ge _ _)) by lia.
  split; [done|]. dlia.
Qed.

(** The result of a compression: nothing, below the bound, or a block. *)
Definition compresses (src : bytes) (cap : Z) (d : bytes) (r : Z) (d' : bytes) : Prop :=
  len d' = len d /\
  (r = 0 /\ cap < LZ4_compressBound (len src) \/ 0 < r <= cap /\ encodes src 0 (ztake r d')).

Lemma compress_fast_wp src cap accel d : is_bytes src -> len src <= LZ4_MAX_INPUT_SIZE -> cap < 2 ^ 31 -> cap <= len d ->
  wp (compress_fast src cap accel) (compresses src cap d) d.
Proof.
  intros Hb Hs Hc Hd. unfold compress_fast. pose proof (len_nonneg src).
  destruct (compressBound_ok (len src)) as [Hbound Hsmall]; [lia|].
  set (a1 := if accel <? 1 then LZ4_ACCELERATION_DEFAULT else accel). set (a2 := if LZ4_ACCELERATION_MAX <? a1 then LZ4_ACCELERATION_MAX else a1).
  assert (1 <= a2) as Ha.
  { assert (1 <= a1) by (unfold a1, LZ4_ACCELERATION_DEFAULT; destruct (Z.ltb_spec accel 1); lia).
    unfold a2, LZ4_ACCELERATION_MAX. destruct (65537 <? a1); lia. }
  set (t := if len src <? LZ4_64Klimit then byU16 else byU32).
  assert (is_U16 t = true -> len src < LZ4_64Klimit) as H16 by (unfold t; by destruct (Z.ltb_spec (len src) LZ4_64Klimit)).
  destruct (Z.leb_spec (LZ4_compressBound (len src)) cap) as [Hle|Hgt].
  - eapply wp_mono; [apply (wp_compress_generic src t false 0 a2 (LZ4_compressBound (len src))); try done; lia|].
    intros r d' (L & [[_ Hf]|(Hr & He)]); [done|]. split; [done|right]. split; [lia|done].
  - eapply wp_mono; [apply (wp_compress_generic src t true cap a2 cap); done|].
    intros r d' (L & [[-> _]|(Hr & He)]); (split; [done|]); [by left|by right].
Qed.

Lemma is_bytes_one b : 0 <= b < 256 -> is_bytes [b].
Proof. intros Hb. unfold is_bytes, is_byte. cbn. by rewrite (proj2 (Z.leb_le 0 b)), (proj2 (Z.ltb_lt b 256)) by lia. Qed.

Lemma is_bytes_extra n : is_bytes (extra n).
Proof.
  unfold extra. destruct (Z.ltb_spec n 15); [done|]. apply is_bytes_app. split.
  - induction (Z.to_nat _); [done|]. cbn [replicate]. by apply (is_bytes_app [255]).
  - apply is_bytes_one. pose proof (Z.mod_pos_bound (n - 15) 255). lia.
Qed.

Lemma encodes_is_bytes x a bs : is_bytes x -> encodes x a bs -> is_bytes bs.
Proof.
  intros Hx. assert (forall l m, 0 <= l -> 0 <= m -> is_bytes [token l m]) as Ht by (intros; apply is_bytes_one, token_bits; done).
  induction 1 as [a Ha|a l off ml rest S1 S2 S3 S4 S5 S6 S7 S8 _ IH]; rewrite !is_bytes_app.
  - split; [apply Ht; lia|]. split; [apply is_bytes_extra|].
    replace (zdrop a x) with (sub a (len x - a) x); [apply is_bytes_sub; done || lia|]. unfold sub. apply ztake_all. rewrite len_zdrop. lia.
  - unfold MFLIMIT, LASTLITERALS in *. split; [apply Ht; lia|]. split; [apply is_bytes_extra|]. split; [apply is_bytes_sub; done || lia|].
    split; [|split; [apply is_bytes_extra|done]]. cbn [le_put]. apply (is_bytes_app [_] [_]). split; apply is_bytes_one, Z.mod_pos_bound; lia.
Qed.

(** ** The interface *)

(** The addresses of the two buffers of the decoder, which it adds to lengths. *)
Section Implementation.
Context (src_at dst_at : Z).

(** A buffer of [cap] bytes at least: what was never written to it stands as zeros. *)
Definition buffer (cap : Z) (old : bytes) : bytes := old ++ replicate (Z.to_nat (cap - len old)) 0.

Definition lz4_c : Codec.Lz4 := {|
  LZ4_compress_fast src old cap accel :=
    match compress_fast src cap accel (buffer cap old) with Ok r => r | Err _ => (0, old) end;
  LZ4_decompress_safe src old cap :=
    match decompress_safe src cap src_at dst_at (buffer cap old) with Ok r => r | Err _ => (-1, old) end
|}.

Lemma len_buffer cap old : cap <= len (buffer cap old).
Proof using Type. unfold buffer. rewrite len_app, len_replicate. lia. Qed.

Lemma compress_fast_c src old cap accel ret out : is_bytes src -> len src <= LZ4_MAX_INPUT_SIZE -> cap < 2 ^ 31 ->
  LZ4_compress_fast (Lz4 := lz4_c) src old cap accel = (ret, out) ->
  (ret = 0 /\ cap < LZ4_compressBound (len src) \/ 0 < ret <= cap /\ ret <= len out /\ encodes src 0 (ztake ret out)).
Proof using Type.
  intros Hb Hs Hc He. cbn in He. pose proof (compress_fast_wp src cap accel (buffer cap old) Hb Hs Hc (len_buffer cap old)) as Hwp.
  apply wp_result in Hwp as (r & d' & Hr & L & H). rewrite Hr in He. injection He as -> ->.
  pose proof (len_buffer cap old). destruct H as [H|H]; [by left|right]. split; [lia|]. split; [lia|apply H].
Qed.

Context (Hsrc_at : 0 <= src_at <= 2 ^ 64 - 2 ^ 31) (Hdst_at : 0 <= dst_at <= 2 ^ 64 - 2 ^ 31).

Lemma decompress_safe_block x blk cap d : is_bytes x -> len x <= cap -> cap < 2 ^ 31 -> cap <= len d -> encodes x 0 blk -> len blk < 2 ^ 31 ->
  exists d', decompress_safe blk cap src_at dst_at d = Ok (len x, d') /\ len d' = len d /\ ztake (len x) d' = x.
Proof using All.
  intros Hx Hcap H31 Hd He Hblk. pose proof (encodes_is_bytes _ _ _ Hx He) as Hb.
  assert (wp (decompress_safe blk cap src_at dst_at) (decoded x d) d) as Hwp.
  { apply decompress_reads; unfold oend; done || lia. }
  apply wp_result in Hwp as (r & d' & Hr & -> & Hag & L). exists d'. split; [done|]. split; [done|].
  apply bytes_ext; [rewrite len_ztake; pose proof (len_nonneg x); lia|]. intros i Hi. rewrite len_ztake in Hi.
  rewrite at_ztake by lia. apply Hag. lia.
Qed.

#[export] Instance lz4_c_laws : @Lz4Laws lz4_c.
Proof using All.
  split.
  - intros src old cap accel ret out Hb Hs Hc He Hr. destruct (compress_fast_c _ _ _ _ _ _ Hb Hs Hc He) as [[-> _]|(Hret & Hout & Henc)]; [done|].
    split; [lia|]. split; [done|]. by eapply encodes_is_bytes.
  - intros src old cap accel ret out Hb Hs Hc He.
    destruct (compress_fast_c src old cap accel ret out Hb ltac:(lia) ltac:(lia) He) as [[_ Hlt]|(Hret & _)]; lia.
  - intros src old cap accel ret out old' cap' Hb Hs Hc He Hr Hcap.
    destruct (compress_fast_c _ _ _ _ _ _ Hb Hs Hc He) as [[-> _]|(Hret & Hout & Henc)]; [done|].
    destruct (decompress_safe_block src (ztake ret out) cap' (buffer cap' old')) as (d' & Hd & _ & Ht); try done; try lia.
    + apply len_buffer.
    + rewrite len_ztake. lia.
    + exists d'. cbn. by rewrite Hd.
Qed.
End Implementation.

(** ** Properties *)

(** C6: a compression never reads or writes outside its buffers and comes to an
    end.  The result is 0 only when the capacity is below
    [LZ4_compressBound]; otherwise it is at most the capacity, and the decoder,
    given those bytes, any capacity at least the size of the input and any
    destination of that capacity, returns the size of the input and has written
    the input back. *)
Theorem lz4_decompress_compress (x d : bytes) (cap accel : Z)
    (Hx : is_bytes x) (Hsize : len x <= LZ4_MAX_INPUT_SIZE) (Hcap : cap < 2 ^ 31) (Hd : cap <= len d) :
  exists r d', compress_fast x cap accel d = Ok (r, d') /\ len d' = len d /\
    (r = 0 /\ cap < LZ4_compressBound (len x) \/
     0 < r <= cap /\ forall cap' src_at dst_at out, len x <= cap' < 2 ^ 31 -> cap' <= len out ->
       0 <= src_at <= 2 ^ 64 - 2 ^ 31 -> 0 <= dst_at <= 2 ^ 64 - 2 ^ 31 ->
       exists out', decompress_safe (ztake r d') cap' src_at dst_at out = Ok (len x, out') /\
         len out' = len out /\ ztake (len x) out' = x).
Proof.
  pose proof (compress_fast_wp x cap accel d Hx Hsize Hcap Hd) as (r & d' & Hr & L & H)%wp_result.
  exists r, d'. split; [done|]. split; [done|]. destruct H as [H|(Hr' & He)]; [by left|right]. split; [done|].
  intros cap' src_at dst_at out Hcap' Hout Hsrc Hdst. apply decompress_safe_block; try done; try lia. rewrite len_ztake. lia.
Qed.

Definition sample : bytes := concat (replicate 4 (map Z.of_nat (seq 1 40))).

Lemma lz4_decompress_compress_witness :
  exists r d', compress_fast sample 100 3 (replicate 100 0) = Ok (r, d') /\ len d' = 100 /\
    (r = 0 /\ 100 < LZ4_compressBound (len sample) \/
     0 < r <= 100 /\ forall cap' src_at dst_at out, len sample <= cap' < 2 ^ 31 -> cap' <= len out ->
       0 <= src_at <= 2 ^ 64 - 2 ^ 31 -> 0 <= dst_at <= 2 ^ 64 - 2 ^ 31 ->
       exists out', decompress_safe (ztake r d') cap' src_at dst_at out = Ok (len sample, out') /\
         len out' = len out /\ ztake (len sample) out' = sample).
Proof.
  exact (lz4_decompress_compress sample (replicate 100 0) 100 3 ltac:(by vm_compute) ltac:(by vm_compute) ltac:(by vm_compute) ltac:(by vm_compute)).
Defined.

(** The sample does compress to less than half its size. *)
Example sample_compresses : exists d', compress_fast sample 100 3 (replicate 100 0) = Ok (51, d').
Proof. eexists. by vm_compute. Qed.

(** C7: the decoder is safe on any input whatsoever, malformed or truncated
    blocks included: the call returns (it is neither stuck nor out of turns, of
    which it has as many as the source has bytes), every access is within the
    source or the destination, the number it returns is at most the capacity, the
    destination keeps its length, and no byte behind the given capacity changes.
    Which number malformed input gives is not part of the statement. *)
Theorem lz4_decoder_is_safe (src d : bytes) (cap src_at dst_at : Z)
    (Hsrc : is_bytes src) (Hlen : len src < 2 ^ 31) (Hcap : 0 <= cap < 2 ^ 31) (Hd : cap <= len d) :
  exists r d', decompress_safe src cap src_at dst_at d = Ok (r, d') /\ r <= cap /\
    len d' = len d /\ forall i, cap <= i -> at_ d' i = at_ d i.
Proof.
  pose proof (decompress_safe_wp src cap src_at dst_at d Hsrc Hlen Hcap Hd) as (r & d' & Hr & [L F] & Hle)%wp_result.
  exists r, d'. split; [done|]. split; [done|]. split; [done|]. intros i Hi. apply F; lia.
Qed.

(** A match that reaches before the start of the output. *)
Lemma lz4_decoder_is_safe_witness :
  exists r d', decompress_safe [31; 7; 9; 0; 255; 255; 3] 16 0 0 (replicate 20 5) = Ok (r, d') /\ r <= 16 /\
    len d' = 20 /\ forall i, 16 <= i -> at_ d' i = at_ (replicate 20 5) i.
Proof.
  exact (lz4_decoder_is_safe [31; 7; 9; 0; 255; 255; 3] (replicate 20 5) 16 0 0
    ltac:(by vm_compute) ltac:(by vm_compute) ltac:(by vm_compute) ltac:(by vm_compute)).
Defined.

(** C8: the decoder reads the block format, not only what this compressor
    writes: any block that encodes [x] decodes to [x], into any destination of
    at least its size. *)
Theorem lz4_decoder_reads_blocks (x blk d : bytes) (cap src_at dst_at : Z)
    (Hx : is_bytes x) (He : encodes x 0 blk) (Hblk : len blk < 2 ^ 31) (Hcap : len x <= cap < 2 ^ 31) (Hd : cap <= len d)
    (Hsrc : 0 <= src_at <= 2 ^ 64 - 2 ^ 31) (Hdst : 0 <= dst_at <= 2 ^ 64 - 2 ^ 31) :
  exists d', decompress_safe blk cap src_at dst_at d = Ok (len x, d') /\ len d' = len d /\ ztake (len x) d' = x.
Proof. apply decompress_safe_block; done || lia. Qed.

(** Two literals, a match of eleven bytes that repeats them, five literals. *)
Lemma pair_block : encodes ([1; 2; 1; 2; 1; 2; 1; 2; 1; 2; 1; 2; 1] ++ [9; 8; 7; 6; 5]) 0 [39; 1; 2; 2; 0; 80; 9; 8; 7; 6; 5].
Proof.
  set (x := [1; 2; 1; 2; 1; 2; 1; 2; 1; 2; 1; 2; 1] ++ [9; 8; 7; 6; 5]).
  assert (encodes x 13 [80; 9; 8; 7; 6; 5]) as Hlast by (apply (encodes_last x 13); by vm_compute).
  refine (encodes_match x 0 2 2 11 _ _ _ _ _ _ _ _ _ Hlast); try by vm_compute.
  intros i Hi. assert (i = 2 \/ i = 3 \/ i = 4 \/ i = 5 \/ i = 6 \/ i = 7 \/ i = 8 \/ i = 9 \/ i = 10 \/ i = 11 \/ i = 12) as H by lia.
  by destruct H as [->|[->|[->|[->|[->|[->|[->|[->|[->|[->| ->]]]]]]]]]].
Qed.

Lemma lz4_decoder_reads_blocks_witness :
  exists d', decompress_safe [39; 1; 2; 2; 0; 80; 9; 8; 7; 6; 5] 18 0 0 (replicate 20 0) = Ok (18, d') /\ len d' = 20 /\
    ztake 18 d' = [1; 2; 1; 2; 1; 2; 1; 2; 1; 2; 1; 2; 1] ++ [9; 8; 7; 6; 5].
Proof.
  exact (lz4_decoder_reads_blocks ([1; 2; 1; 2; 1; 2; 1; 2; 1; 2; 1; 2; 1] ++ [9; 8; 7; 6; 5]) [39; 1; 2; 2; 0; 80; 9; 8; 7; 6; 5] (replicate 20 0) 18 0 0 ltac:(by vm_compute) pair_block
    ltac:(by vm_compute) ltac:(by vm_compute) ltac:(by vm_compute) ltac:(by vm_compute) ltac:(by vm_compute)).
Defined.

(** [LZ4_count] returns the length of the longest common prefix of what
    stands at the two positions, up to the limit, although it compares eight,
    four and two bytes at a time. *)
Theorem lz4_count_is_common_prefix (src : bytes) (p m limit : Z)
    (Hsrc : is_bytes src) (Hlimit : limit <= len src) (Hm : 0 <= m <= p) (Hp : p <= limit) :
  exists c, LZ4_count src p m limit = Ok c /\ 0 <= c <= limit - p /\
    (forall i, 0 <= i < c -> at_ src (p + i) = at_ src (m + i)) /\
    (c < limit - p -> at_ src (p + c) <> at_ src (m + c)).
Proof.
  destruct (LZ4_count_ok src Hsrc p m limit Hlimit Hm Hp) as (c & Hc & H1 & H2 & H3 & H4).
  exists c. split; [done|]. split; [lia|]. split; [done|]. intros Hlt. apply H4. lia.
Qed.

Lemma lz4_count_is_common_prefix_witness :
  exists c, LZ4_count sample 40 0 155 = Ok c /\ 0 <= c <= 155 - 40 /\
    (forall i, 0 <= i < c -> at_ sample (40 + i) = at_ sample (0 + i)) /\
    (c < 155 - 40 -> at_ sample (40 + c) <> at_ sample (0 + c)).
Proof.
  exact (lz4_count_is_common_prefix sample 40 0 155 ltac:(by vm_compute) ltac:(by vm_compute) ltac:(by vm_compute) ltac:(by vm_compute)).
Defined.
