(* ===== verification/DataWrite.v ===== *)
(** * The container store

    [include/datawrite.h] and the storing half of
    [src/datawrite/datawrite.cc]: chunks are appended to a current container,
    full containers are written to files, and chunks are read back through the
    container cache, the container file or the current container.

    The state holds what the code shares: the [malloc] heap, the file system,
    the statics of the translation unit ([containerNum], [curContainer],
    [curOffset]) and the members of [dataWrite].  Timers are left out. *)

From S2P Require Import Prelude Define Chunker Chunking LruCache ReadCache Codec.

(** ** Memory

    A heap block has a size and the bytes written so far (a prefix: every
    block of this component is filled from its start). *)
Record Block := mkBlock { blk_size : Z; blk_data : bytes }.

Record Mem := mkMem { heap : gmap nat Block; next_loc : nat }.

(** The file system: contents by path, and which paths can be opened for
    writing. *)
Record Fs := mkFs { files : gmap string bytes; writable : string -> bool }.

(** The statics of the translation unit. *)
Record Cur := mkCur { containerNum : Z; curContainer : Container_t; curOffset : Z }.

Record Counters := mkCounters {
  chunkNum : Z; containerSize : Z; loadContainerTimes : Z; cacheHitTimes : Z
}.

Record Recipes := mkRecipes {
  filename : string;
  RecipeMap : gmap string (list Z);
  RecipeMap_header : gmap string (list Z)
}.

(** The restore-side tar state. *)
Record HeaderState := mkHeaderState {
  h_tar : TarState;
  MultiHeaderBuffer : bytes;
  MultiHeaderChunkSize : Z;
  MultiHeaderOffset : Z
}.

Record dataWrite := mkDW {
  mem : Mem;
  fs : Fs;
  cur : Cur;
  counters : Counters;
  recipes : Recipes;
  chunklist : list Chunk_t;
  containerCache : ReadCache;
  lz4SafeChunkBuffer : bytes;
  hdr : HeaderState
}.

Definition set_mem (m : Mem) (d : dataWrite) : dataWrite :=
  mkDW m (fs d) (cur d) (counters d) (recipes d) (chunklist d) (containerCache d)
    (lz4SafeChunkBuffer d) (hdr d).
Definition set_fs (f : Fs) (d : dataWrite) : dataWrite :=
  mkDW (mem d) f (cur d) (counters d) (recipes d) (chunklist d) (containerCache d)
    (lz4SafeChunkBuffer d) (hdr d).
Definition set_cur (c : Cur) (d : dataWrite) : dataWrite :=
  mkDW (mem d) (fs d) c (counters d) (recipes d) (chunklist d) (containerCache d)
    (lz4SafeChunkBuffer d) (hdr d).
Definition set_counters (c : Counters) (d : dataWrite) : dataWrite :=
  mkDW (mem d) (fs d) (cur d) c (recipes d) (chunklist d) (containerCache d)
    (lz4SafeChunkBuffer d) (hdr d).
Definition set_recipes (r : Recipes) (d : dataWrite) : dataWrite :=
  mkDW (mem d) (fs d) (cur d) (counters d) r (chunklist d) (containerCache d)
    (lz4SafeChunkBuffer d) (hdr d).
Definition set_chunklist (l : list Chunk_t) (d : dataWrite) : dataWrite :=
  mkDW (mem d) (fs d) (cur d) (counters d) (recipes d) l (containerCache d)
    (lz4SafeChunkBuffer d) (hdr d).
Definition set_cache (c : ReadCache) (d : dataWrite) : dataWrite :=
  mkDW (mem d) (fs d) (cur d) (counters d) (recipes d) (chunklist d) c
    (lz4SafeChunkBuffer d) (hdr d).
Definition set_lz4 (b : bytes) (d : dataWrite) : dataWrite :=
  mkDW (mem d) (fs d) (cur d) (counters d) (recipes d) (chunklist d) (containerCache d) b (hdr d).
Definition set_hdr (h : HeaderState) (d : dataWrite) : dataWrite :=
  mkDW (mem d) (fs d) (cur d) (counters d) (recipes d) (chunklist d) (containerCache d)
    (lz4SafeChunkBuffer d) h.

(** The constructor, on a given heap and file system. *)
Definition new_dataWrite (m : Mem) (f : Fs) : dataWrite :=
  mkDW m f (mkCur 0 (mkContainer 0 0 0 []) 0) (mkCounters 0 0 0 0)
    (mkRecipes "" ∅ ∅) [] new_ReadCache [] (mkHeaderState tar_init [] 0 0).

Abbreviation DW := (M dataWrite).

(** [malloc], [free] and reads and writes through a [chunkPtr]. *)
Definition malloc (n : Z) : DW nat := fun d =>
  let m := mem d in
  Ok (next_loc m, set_mem (mkMem (<[next_loc m := mkBlock n []]> (heap m)) (S (next_loc m))) d).

Definition free (p : ptr) : DW unit := fun d =>
  match p with
  | PNull => Ok (tt, d)
  | PHeap l =>
      match heap (mem d) !! l with
      | Some _ => Ok (tt, set_mem (mkMem (delete l (heap (mem d))) (next_loc (mem d))) d)
      | None => Err BadPointer
      end
  | PCur _ | PPool _ _ => Err BadPointer
  end.

(** The [n] bytes at offset [off] of an object of [size] bytes of which
    [known] were written. *)
Definition read_object (size off n : Z) (known : bytes) : result bytes :=
  if (off <? 0) || (n <? 0) || (size <? off + n) then Err OobRead
  else if len known <? off + n then Err Uninit
  else Ok (sub off n known).

(** A static buffer starts out as zeros. *)
Definition read_static (size off n : Z) (known : bytes) : result bytes :=
  if (off <? 0) || (n <? 0) || (size <? off + n) then Err OobRead
  else Ok (sub off n known ++ replicate (Z.to_nat (n - len (sub off n known))) 0).

Definition read_mem (p : ptr) (n : Z) (d : dataWrite) : result bytes :=
  match p with
  | PNull => if n =? 0 then Ok [] else Err BadPointer
  | PHeap l =>
      b ← from_option_or BadPointer (heap (mem d) !! l);
      read_object (blk_size b) 0 n (blk_data b)
  | PCur off => read_static CONTAINER_MAX_SIZE off n (cdata (curContainer (cur d)))
  | PPool i off => read_object CONTAINER_MAX_SIZE off n (slot i (containerCache d))
  end.

Definition load (p : ptr) (n : Z) : DW bytes := fun d => lift (read_mem p n d) d.

(** [memcpy(block, bs, |bs|)]. *)
Definition store (l : nat) (bs : bytes) : DW unit := fun d =>
  match heap (mem d) !! l with
  | None => Err BadPointer
  | Some b =>
      if blk_size b <? len bs then Err OobWrite
      else Ok (tt, set_mem (mkMem (<[l := mkBlock (blk_size b) (blit (blk_data b) 0 bs)]> (heap (mem d)))
                              (next_loc (mem d))) d)
  end.

(** [std::to_string] of an unsigned value. *)
Definition to_string (n : Z) : string := pretty (Z.to_N n).

Definition container_path (id : Z) : string := "./Containers/" +:+ to_string id.

(** [ofstream(path)], one or more [write]s and [close]. *)
Definition write_file (path : string) (bs : bytes) : DW bool := fun d =>
  if writable (fs d) path then
    Ok (true, set_fs (mkFs (<[path := bs]> (files (fs d))) (writable (fs d))) d)
  else Ok (false, d).

(** The bytes of a container file. *)
Definition container_file (c : Container_t) : bytes :=
  le_put 8 (csize c) ++ ztake (csize c) (cdata c).

(** ** Storing *)

(** Writing out the current container when [tmpSize] more bytes do not fit. *)
Definition flush_if_full (tmpSize : Z) : DW unit := fun d =>
  let c := cur d in
  if CONTAINER_MAX_SIZE <? (csize (curContainer c) + tmpSize)%u64 then
    (_ ← write_file (container_path (ccontainerID (curContainer c))) (container_file (curContainer c));
     modify (fun d =>
       let num := s32 (containerNum (cur d) + 1) in
       set_counters (mkCounters (chunkNum (counters d)) 0 (loadContainerTimes (counters d))
                       (cacheHitTimes (counters d)))
         (set_cur (mkCur num (mkContainer 0 0 (w64 num) (cdata (curContainer (cur d)))) 0) d))) d
  else Ok (tt, d).

(** [memcpy(curContainer.data + curOffset, src, tmpSize)] and the offsets after
    it; the result is the chunk with its place. *)
Definition append_payload (chunk : Chunk_t) (src : bytes) (tmpSize : Z) : DW Chunk_t := fun d =>
  let c := cur d in
  let chunk := mkChunk (chunkID chunk) (chunkSize chunk) (saveSize chunk) (chunkPtr chunk)
    (basechunkID chunk) (deltaFlag chunk) (loadFromDisk chunk) (HeaderFlag chunk)
    (curOffset c) (w64 (containerNum c)) in
  if CONTAINER_MAX_SIZE <? curOffset c + len src then Err OobWrite
  else
    Ok (chunk, set_cur (mkCur (containerNum c)
      (mkContainer (csize (curContainer c) + tmpSize)%u64 (cchunkNum (curContainer c))
         (ccontainerID (curContainer c)) (blit (cdata (curContainer c)) (curOffset c) src))
      (curOffset c + tmpSize)%u64) d).

Definition set_ptr (p : ptr) (c : Chunk_t) : Chunk_t :=
  mkChunk (chunkID c) (chunkSize c) (saveSize c) p (basechunkID c) (deltaFlag c)
    (loadFromDisk c) (HeaderFlag c) (offset c) (containerID c).
Definition set_load (b : bool) (c : Chunk_t) : Chunk_t :=
  mkChunk (chunkID c) (chunkSize c) (saveSize c) (chunkPtr c) (basechunkID c) (deltaFlag c)
    b (HeaderFlag c) (offset c) (containerID c).

(** The size of the bytes a chunk is stored with: [int tmpSize]. *)
Definition payload_size (c : Chunk_t) : Z :=
  if decide (deltaFlag c = NO_DELTA) then s32 (chunkSize c) else s32 (saveSize c).

Definition count_chunk (c : Chunk_t) : DW unit := modify (fun d =>
  set_cur (mkCur (containerNum (cur d))
    (mkContainer (csize (curContainer (cur d))) (cchunkNum (curContainer (cur d)) + 1)%u64
       (ccontainerID (curContainer (cur d))) (cdata (curContainer (cur d)))) (curOffset (cur d)))
  (set_counters (mkCounters (s32 (chunkNum (counters d) + 1))
     (s32 (containerSize (counters d) + saveSize c)) (loadContainerTimes (counters d))
     (cacheHitTimes (counters d))) d)).

Definition push_chunk (c : Chunk_t) : DW unit :=
  modify (fun d => set_chunklist (chunklist d ++ [c]) d).

(** [bool Chunk_Insert(Chunk_t chunk)]. *)
Definition Chunk_Insert (chunk : Chunk_t) : DW bool :=
  let tmpSize := payload_size chunk in
  count_chunk chunk ;;
  flush_if_full tmpSize ;;
  src ← load (chunkPtr chunk) (w64 tmpSize);
  c ← append_payload chunk src tmpSize;
  free (chunkPtr c) ;;
  push_chunk (set_ptr PNull c) ;;
  mret true.

(** [bool Chunk_Insert(Chunk_t chunk, uint8_t *lz4Buffer)]; [lz4Buffer] is a
    buffer of [CONTAINER_MAX_SIZE] bytes with the given known contents. *)
Definition Chunk_Insert_lz4 (chunk : Chunk_t) (lz4Buffer : bytes) : DW bool :=
  let tmpSize := s32 (saveSize chunk) in
  count_chunk chunk ;;
  flush_if_full tmpSize ;;
  src ← lift (read_object CONTAINER_MAX_SIZE 0 (w64 tmpSize) lz4Buffer);
  c ← append_payload chunk src tmpSize;
  free (chunkPtr c) ;;
  push_chunk (set_ptr PNull c) ;;
  mret true.

(** [writing()] on the chunks its queue delivers until it is done: the chunks
    are stored, and their records are dropped. *)
Definition writing_one (chunk : Chunk_t) : DW unit :=
  let tmpSize := payload_size chunk in
  count_chunk chunk ;;
  flush_if_full tmpSize ;;
  src ← load (chunkPtr chunk) (w64 tmpSize);
  c ← append_payload chunk src tmpSize;
  free (chunkPtr c).

Definition writing (queue : list Chunk_t) : DW unit := for_each queue writing_one.

Definition ProcessLastContainer : DW unit := fun d =>
  let c := curContainer (cur d) in
  if csize c =? 0 then Ok (tt, d)
  else (_ ← write_file (container_path (ccontainerID c)) (container_file c); mret tt) d.

(** [writeContainers()] on the containers its queue delivers. *)
Definition writeContainers (queue : list Container_t) : DW unit :=
  for_each queue (fun c => _ ← write_file (container_path (ccontainerID c)) (container_file c); mret tt).

Definition Get_Chunk_Num : DW Z := gets (fun d => chunkNum (counters d)).

(** [containerSize + chunk.saveSize] is computed in [uint64_t]. *)
Definition Get_Container_Num (chunk : Chunk_t) : DW Z := gets (fun d =>
  if CONTAINER_MAX_SIZE <? (containerSize (counters d) + saveSize chunk)%u64
  then s32 (containerNum (cur d) + 1) else containerNum (cur d)).

(** [chunklist[id]] for an [int id]. *)
Definition chunk_at (id : Z) : DW Chunk_t := fun d =>
  if id <? 0 then Err OobRead
  else match chunklist d !! Z.to_nat id with Some c => Ok (c, d) | None => Err OobRead end.

Definition isLz4 (id : Z) : DW bool :=
  c ← chunk_at id; mret (bool_decide (deltaFlag c = NO_DELTA)).

Definition Get_Chunk_MetaInfo (id : Z) : DW Chunk_t := chunk_at id.

Definition update_chunk (id : Z) (f : Chunk_t -> Chunk_t) : DW unit :=
  modify (fun d => set_chunklist (alter f (Z.to_nat id) (chunklist d)) d).

Definition SetFilename (name : string) : DW unit := modify (fun d =>
  set_recipes (mkRecipes name (RecipeMap (recipes d)) (RecipeMap_header (recipes d))) d).

Definition push_recipe (m : gmap string (list Z)) (f : string) (id : Z) : gmap string (list Z) :=
  <[f := default [] (m !! f) ++ [id]]> m.

Definition Recipe_Insert (id : Z) : DW bool :=
  modify (fun d => let r := recipes d in
    set_recipes (mkRecipes (filename r) (push_recipe (RecipeMap r) (filename r) id)
                   (RecipeMap_header r)) d) ;;
  mret true.

Definition Recipe_Header_Insert (id : Z) : DW bool :=
  modify (fun d => let r := recipes d in
    set_recipes (mkRecipes (filename r) (RecipeMap r)
                   (push_recipe (RecipeMap_header r) (filename r) id)) d) ;;
  mret true.

(** ** Reading back *)

Section Codecs.
Context `{Lz4, Xdelta}.

(** The first [n] bytes of the decompression buffer. *)
Definition load_lz4 (n : Z) : DW bytes := fun d =>
  lift (read_object CONTAINER_MAX_SIZE 0 n (lz4SafeChunkBuffer d)) d.

Definition cache_read (name : string) : DW Z := fun d =>
  r ← ReadFromCache name (containerCache d); Ok (r.1, set_cache r.2 d).

Definition cache_insert (name : string) (container : bytes) (size : Z) : DW unit := fun d =>
  rc ← InsertToCache name container (w32 size) (containerCache d);
  Ok (tt, set_cache rc d).

(** Decompressing a stored base chunk from [src] into the shared buffer and
    copying [tmpSize] bytes of it into the block [l]. *)
Definition decode_base (c : Chunk_t) (src : bytes) (tmpSize : Z) (l : nat) : DW unit :=
  modify (fun d =>
    set_lz4 (LZ4_decompress_safe src (lz4SafeChunkBuffer d) CONTAINER_MAX_SIZE).2 d) ;;
  b ← load_lz4 (w64 tmpSize);
  store l b.

Definition count_hit : DW unit := modify (fun d => set_counters
  (mkCounters (chunkNum (counters d)) (containerSize (counters d))
     (loadContainerTimes (counters d)) (cacheHitTimes (counters d) + 1)%u64) d).

Definition count_load : DW unit := modify (fun d => set_counters
  (mkCounters (chunkNum (counters d)) (containerSize (counters d))
     (loadContainerTimes (counters d) + 1)%u64 (cacheHitTimes (counters d))) d).

(** The cache-hit case of [Get_Chunk_Info]. *)
Definition info_cached (id : Z) (c : Chunk_t) (name : string) (tmpSize : Z) : DW unit :=
  update_chunk id (set_load false) ;;
  slot_ ← cache_read name;
  (if decide (deltaFlag c <> NO_DELTA) then
     update_chunk id (set_ptr (PPool slot_ (offset c)))
   else
     src ← load (PPool slot_ (offset c)) (w64 (s32 (saveSize c)));
     l ← malloc (chunkSize c);
     decode_base c src tmpSize l ;;
     update_chunk id (fun c => set_load true (set_ptr (PHeap l) c))) ;;
  count_hit.

(** What [infile.read] finds in a container file: the size it starts with and
    that many bytes, zeros where the file is short; [c_str] adds a zero. *)
Definition parse_container (file : bytes) : result (Z * bytes) :=
  if len file <? 8 then Err Uninit
  else
    let size := le_get (ztake 8 file) in
    let data := sub 8 size file in
    Ok (size, data ++ replicate (Z.to_nat (size - len data)) 0).

(** The cache-miss case: the container file is read, and its contents go into
    the cache.  A file that cannot be opened leaves the new block unset. *)
Definition info_disk (id : Z) (c : Chunk_t) (name : string) (tmpSize : Z) : DW unit :=
  l ← malloc (if decide (deltaFlag c <> NO_DELTA) then w64 tmpSize else chunkSize c);
  update_chunk id (set_ptr (PHeap l)) ;;
  file ← gets (fun d => files (fs d) !! ("./Containers/" +:+ name));
  (match file with
   | None => mret tt
   | Some file =>
       sc ← lift (parse_container file);
       let size := sc.1 in
       let container := sc.2 in
       (if decide (deltaFlag c <> NO_DELTA) then
          b ← lift (read_object (size + 1) (offset c) (w64 tmpSize) (container ++ [0]));
          store l b
        else
          src ← lift (read_object (size + 1) (offset c) (w64 (s32 (saveSize c))) (container ++ [0]));
          decode_base c src tmpSize l) ;;
       cache_insert name container size
   end) ;;
  count_load ;;
  update_chunk id (set_load true).

(** The chunk is still in the current container. *)
Definition info_current (id : Z) (c : Chunk_t) (tmpSize : Z) : DW unit :=
  update_chunk id (set_load false) ;;
  (if decide (deltaFlag c <> NO_DELTA) then
     update_chunk id (set_ptr (PCur (offset c)))
   else
     src ← load (PCur (offset c)) (w64 (s32 (saveSize c)));
     l ← malloc (chunkSize c);
     decode_base c src tmpSize l ;;
     update_chunk id (fun c => set_load true (set_ptr (PHeap l) c))).

Definition Get_Chunk_Info (id : Z) : DW Chunk_t :=
  c ← chunk_at id;
  let tmpSize := payload_size c in
  let name := to_string (containerID c) in
  hit ← gets (fun d => ExistsInCache name (containerCache d));
  num ← gets (fun d => containerNum (cur d));
  (if (hit : bool) then info_cached id c name tmpSize
   else if negb (containerID c =? w64 num) then info_disk id c name tmpSize
   else info_current id c tmpSize) ;;
  chunk_at id.

(** [xd3_decode]: the output buffer holds [2 * CONTAINER_MAX_SIZE] bytes; the
    result is a block of the decoded size and that size.  An error of the
    library is printed and otherwise ignored. *)
Definition xd3_decode (in_ ref : ptr) (in_size ref_size : Z) : DW (nat * Z) :=
  buffer ← malloc (CONTAINER_MAX_SIZE * 2);
  i ← load in_ in_size;
  r ← load ref ref_size;
  out ← lift (from_option_or Uninit (xd3_decode_memory i r (CONTAINER_MAX_SIZE * 2)).2);
  res ← malloc (len out);
  store res out ;;
  free (PHeap buffer) ;;
  mret (res, len out).

Definition free_if (b : bool) (p : ptr) : DW unit := if b then free p else mret tt.

(** The first [chunkSize] bytes of the chunk with the given id, decoded from
    its base when it is a delta; every block taken on the way is freed.  This
    is the body the restore loops repeat. *)
Definition chunk_content (id : Z) : DW bytes :=
  info ← Get_Chunk_Info (s32 id);
  b ← (if decide (deltaFlag info = NO_DELTA) then load (chunkPtr info) (chunkSize info)
       else if decide (deltaFlag info = NO_LZ4) then load (chunkPtr info) (chunkSize info)
       else
         base ← Get_Chunk_Info (basechunkID info);
         r ← xd3_decode (chunkPtr info) (chunkPtr base) (saveSize info) (chunkSize base);
         b ← load (PHeap r.1) (chunkSize info);
         free_if (loadFromDisk base) (chunkPtr base) ;;
         free (PHeap r.1) ;;
         mret b);
  free_if (loadFromDisk info) (chunkPtr info) ;;
  mret b.

Fixpoint restore_chunks (ids : list Z) : DW bytes :=
  match ids with
  | [] => mret []
  | id :: ids' => b ← chunk_content id; bs ← restore_chunks ids'; mret (b ++ bs)
  end.

Definition restore_path (fileName : string) : string := "./restoreFile/" +:+ base_name fileName.

(** [RecipeMap[fileName]] creates an empty recipe for an unknown name. *)
Definition recipe_of (fileName : string) : DW (list Z) := fun d =>
  let r := recipes d in
  let ids := default [] (RecipeMap r !! fileName) in
  Ok (ids, set_recipes (mkRecipes (filename r) (<[fileName := ids]> (RecipeMap r))
                          (RecipeMap_header r)) d).

Definition header_recipe_of (fileName : string) : DW (list Z) := fun d =>
  let r := recipes d in
  let ids := default [] (RecipeMap_header r !! fileName) in
  Ok (ids, set_recipes (mkRecipes (filename r) (RecipeMap r)
                          (<[fileName := ids]> (RecipeMap_header r))) d).

Definition restoreFile (fileName : string) : DW unit :=
  ids ← recipe_of fileName;
  out ← restore_chunks ids;
  _ ← write_file (restore_path fileName) out;
  mret tt.
End Codecs.
