(* ===== verification/Store.v ===== *)
(** * The container store: invariant, storing and reading back

    Theorems about [DataWrite.v].  [store_ok d contents] says that the state
    [d] stores one content per entry of [chunklist]: the bytes [Get_Chunk_Info]
    hands out for that chunk (decompressed for a base chunk, the delta itself
    for a delta chunk).  Storing appends to [contents]; reading returns its
    elements, through whichever of the three ways the chunk is reached. *)

From S2P Require Import Prelude Define Chunker LruCache ReadCache Codec DataWrite.

(** ** Names *)

Lemma to_string_inj a b : 0 <= a -> 0 <= b -> to_string a = to_string b -> a = b.
Proof.
  intros Ha Hb He. unfold to_string in He. apply (inj (pretty (A := N))) in He. lia.
Qed.

Lemma container_path_inj a b : 0 <= a -> 0 <= b -> container_path a = container_path b -> a = b.
Proof.
  intros Ha Hb He. unfold container_path in He. apply to_string_inj; [done..|].
  by apply (inj (String.append "./Containers/")) in He.
Qed.

(** What a file that opens comes to. *)
Definition put_file (path : string) (bs : bytes) (d : dataWrite) : dataWrite :=
  set_fs (mkFs (<[path := bs]> (files (fs d))) (writable (fs d))) d.

Lemma write_file_ok path bs d (Q : bool -> dataWrite -> Prop) :
  writable (fs d) path = true -> Q true (put_file path bs d) -> wp (write_file path bs) Q d.
Proof. intros Hw HQ. unfold wpe, write_file. by rewrite Hw. Qed.

(** ** Containers *)

(** The bytes of container [k]: its file, or the current container. *)
Definition file_is (f : Fs) (k : Z) (b : bytes) : Prop :=
  files f !! container_path k = Some (le_put 8 (len b) ++ b).

Definition container_is (f : Fs) (c : Cur) (k : Z) (b : bytes) : Prop :=
  if k =? containerNum c then b = ztake (csize (curContainer c)) (cdata (curContainer c))
  else file_is f k b.

(** What is stored for a chunk against what [Get_Chunk_Info] returns. *)
Definition decodes `{Lz4} (c : Chunk_t) (p x : bytes) : Prop :=
  if decide (deltaFlag c = NO_DELTA) then
    chunkSize c = len x /\
    (forall old, exists out, LZ4_decompress_safe p old CONTAINER_MAX_SIZE = (len x, out) /\ ztake (len x) out = x)
  else x = p.

Record placed `{Lz4} (f : Fs) (cu : Cur) (c : Chunk_t) (x : bytes) : Prop := {
  pl_cid : 0 <= containerID c <= containerNum cu;
  pl_off : 0 <= offset c;
  pl_size : 0 <= chunkSize c <= CONTAINER_MAX_SIZE;
  pl_bytes : exists cont p, container_is f cu (containerID c) cont /\
    saveSize c = len p /\ offset c + len p <= len cont /\ sub (offset c) (len p) cont = p /\
    decodes c p x
}.

(** The cache holds containers that are on disk. *)
Definition cache_ok (f : Fs) (num : Z) (rc : ReadCache) : Prop :=
  exists l, rc_rel rc l /\
    Forall (fun nb => exists k, 0 <= k < num /\ nb.1 = to_string k /\ file_is f k nb.2) l.

Record store_ok `{Lz4} (d : dataWrite) (contents : list bytes) : Prop := {
  so_num : 0 <= containerNum (cur d) <= len contents;
  so_some : 0 < csize (curContainer (cur d)) -> containerNum (cur d) < len contents;
  so_len : len contents < 2 ^ 31 - 1;
  so_cid : ccontainerID (curContainer (cur d)) = containerNum (cur d);
  so_off : curOffset (cur d) = csize (curContainer (cur d));
  so_csize : 0 <= csize (curContainer (cur d)) <= CONTAINER_MAX_SIZE;
  so_cdata : csize (curContainer (cur d)) <= len (cdata (curContainer (cur d))) <= CONTAINER_MAX_SIZE;
  so_files : forall k, 0 <= k < containerNum (cur d) ->
    exists b, file_is (fs d) k b /\ len b <= CONTAINER_MAX_SIZE;
  so_chunks : Forall2 (placed (fs d) (cur d)) (chunklist d) contents;
  so_cache : cache_ok (fs d) (containerNum (cur d)) (containerCache d);
  so_heap : forall l, (next_loc (mem d) <= l)%nat -> heap (mem d) !! l = None
}.

Section Store.
Context `{Lz4}.
Implicit Types (d : dataWrite) (c : Chunk_t) (x : bytes).

Lemma new_store_ok m f :
  (forall l, (next_loc m <= l)%nat -> heap m !! l = None) ->
  store_ok (new_dataWrite m f) [].
Proof.
  intros Hm. split; cbn -[Z.pow]; rewrite ?len_nil; try done.
  - intros k Hk. lia.
  - exists []. split; [apply new_rc_rel|constructor].
Qed.

(** ** Storing *)

Definition can_store d : Prop := forall k, writable (fs d) (container_path k) = true.

(** Writing out a container keeps every stored chunk where it was. *)
Definition rolled (f : Fs) (cu : Cur) : Fs * Cur :=
  (mkFs (<[container_path (containerNum cu) := container_file (curContainer cu)]> (files f))
     (writable f),
   mkCur (containerNum cu + 1) (mkContainer 0 0 (containerNum cu + 1) (cdata (curContainer cu))) 0).

Lemma container_file_is (c : Container_t) :
  0 <= csize c <= len (cdata c) ->
  container_file c = le_put 8 (len (ztake (csize c) (cdata c))) ++ ztake (csize c) (cdata c).
Proof. intros Hc. unfold container_file. by rewrite len_ztake, Z.min_l, Z.max_r by lia. Qed.

Lemma file_is_rolled f cu k b :
  0 <= k < containerNum cu -> file_is f k b -> file_is (rolled f cu).1 k b.
Proof.
  intros Hk Hf. unfold file_is. cbn. rewrite lookup_insert_ne; [done|].
  intros He. apply container_path_inj in He; lia.
Qed.

Lemma container_is_rolled f cu k b :
  0 <= k <= containerNum cu -> 0 <= csize (curContainer cu) <= len (cdata (curContainer cu)) ->
  container_is f cu k b -> container_is (rolled f cu).1 (rolled f cu).2 k b.
Proof.
  intros Hk Hsz Hc. unfold container_is in *. cbn [rolled containerNum snd].
  rewrite (proj2 (Z.eqb_neq k _)) by lia. destruct (Z.eqb_spec k (containerNum cu)) as [->|Hne].
  - subst b. unfold file_is. cbn. rewrite lookup_insert_eq. f_equal. by apply container_file_is.
  - apply file_is_rolled; [lia|done].
Qed.

Lemma placed_rolled f cu c x :
  0 <= csize (curContainer cu) <= len (cdata (curContainer cu)) ->
  placed f cu c x -> placed (rolled f cu).1 (rolled f cu).2 c x.
Proof.
  intros Hsz [H1 H2 H3 (cont & p & Hc & Hrest)]. split; try done; [cbn; lia|].
  exists cont, p. split; [|done]. by apply container_is_rolled.
Qed.

Lemma cache_ok_rolled f cu rc :
  cache_ok f (containerNum cu) rc -> cache_ok (rolled f cu).1 (containerNum cu + 1) rc.
Proof.
  intros (l & Hl & HF). exists l. split; [done|]. eapply Forall_impl; [exact HF|].
  intros nb (k & Hk & Hn & Hf). exists k. split; [lia|]. split; [done|]. by apply file_is_rolled.
Qed.

(** Appending to the current container. *)
Definition appended (cu : Cur) (src : bytes) : Cur :=
  mkCur (containerNum cu)
    (mkContainer (csize (curContainer cu) + len src) (cchunkNum (curContainer cu))
       (ccontainerID (curContainer cu)) (blit (cdata (curContainer cu)) (curOffset cu) src))
    (curOffset cu + len src).

Lemma ztake_blit b off src :
  0 <= off <= len b -> ztake (off + len src) (blit b off src) = ztake off b ++ src.
Proof.
  intros Hoff. unfold blit. rewrite app_assoc.
  replace (off + len src) with (len (ztake off b ++ src)); [apply ztake_app_len|].
  rewrite len_app, len_ztake. lia.
Qed.

Lemma len_blit_le b off src n :
  0 <= off <= len b -> len b <= n -> off + len src <= n ->
  off + len src <= len (blit b off src) <= n.
Proof. intros. unfold blit. rewrite !len_app, len_ztake, len_zdrop. pose_lens. lia. Qed.

Lemma container_is_appended f cu k src cont :
  curOffset cu = csize (curContainer cu) ->
  0 <= csize (curContainer cu) <= len (cdata (curContainer cu)) ->
  container_is f cu k cont ->
  exists cont', container_is f (appended cu src) k (cont ++ cont').
Proof.
  intros Ho Hsz Hc. unfold container_is in *. cbn [appended containerNum curContainer csize cdata].
  destruct (k =? containerNum cu); [|exists []; by rewrite app_nil_r].
  exists src. subst cont. rewrite Ho. symmetry. by apply ztake_blit.
Qed.

Lemma placed_appended f cu c x src :
  curOffset cu = csize (curContainer cu) ->
  0 <= csize (curContainer cu) <= len (cdata (curContainer cu)) ->
  placed f cu c x -> placed f (appended cu src) c x.
Proof.
  intros Ho Hsz [H1 H2 H3 (cont & p & Hc & Hp & Hle & Hsub & Hdec)].
  split; try done.
  destruct (container_is_appended f cu _ src cont Ho Hsz Hc) as [cont' Hc'].
  exists (cont ++ cont'), p. split; [done|]. split; [done|].
  split; [slia|]. split; [|done]. rewrite sub_app_l; [done|lia|apply len_nonneg|lia].
Qed.

(** What storing leaves alone. *)
Record same_rest (d d' : dataWrite) : Prop := {
  sr_mem : mem d' = mem d;
  sr_list : chunklist d' = chunklist d;
  sr_rec : recipes d' = recipes d;
  sr_cache : containerCache d' = containerCache d;
  sr_lz4 : lz4SafeChunkBuffer d' = lz4SafeChunkBuffer d;
  sr_hdr : hdr d' = hdr d;
  sr_wr : writable (fs d') = writable (fs d)
}.

Lemma count_ok d contents c (Q : unit -> dataWrite -> Prop) :
  store_ok d contents ->
  (forall d', store_ok d' contents -> same_rest d d' -> Q tt d') ->
  wp (count_chunk c) Q d.
Proof.
  intros Hok HQ. apply wp_modify, HQ; [|by split].
  destruct Hok as [H1 Hs0 H2 H3 H4 H5 H6 H7 H8 H9 H10]. split; try done.
  eapply Forall2_impl; [exact H8|]. intros c' x [P1 P2 P3 P4]. by split.
Qed.

(** Making room: at most one container is written out, under its own number,
    and everything stored so far stays readable. *)
Lemma flush_ok d contents n (Q : unit -> dataWrite -> Prop) :
  store_ok d contents -> can_store d -> 0 <= n <= CONTAINER_MAX_SIZE ->
  (forall d', store_ok d' contents -> same_rest d d' ->
     csize (curContainer (cur d')) + n <= CONTAINER_MAX_SIZE -> Q tt d') ->
  wp (flush_if_full n) Q d.
Proof.
  intros Hok Hcan Hn HQ. unfold wpe, flush_if_full.
  pose proof Hok as [H1 Hs0 H2 H3 H4 H5 H6 H7 H8 H9 H10]. unfold CONTAINER_MAX_SIZE in *.
  rewrite w64_small by lia.
  destruct (Z.ltb_spec 4194304 (csize (curContainer (cur d)) + n)) as [Hfull|Hfits];
    [|apply HQ; [done|by split|lia]].
  assert (containerNum (cur d) < len contents) as Hroom by (apply Hs0; lia).
  unfold mbind, M_bind, write_file. rewrite H3, Hcan. unfold modify. cbn -[Z.pow w64 s32 container_file].
  assert (s32 (containerNum (cur d) + 1) = containerNum (cur d) + 1) as Hs.
  { unfold s32. rewrite Z.mod_small; lia. }
  rewrite Hs, w64_small by lia.
  apply HQ; [|by split|cbn; lia].
  assert (0 <= csize (curContainer (cur d)) <= len (cdata (curContainer (cur d)))) as Hsz by lia.
  split; cbn -[Z.pow container_file CONTAINER_MAX_SIZE]; try done;
    try (unfold CONTAINER_MAX_SIZE; lia).
  - intros k Hk. destruct (decide (k = containerNum (cur d))) as [->|Hne].
    + exists (ztake (csize (curContainer (cur d))) (cdata (curContainer (cur d)))). split.
      * unfold file_is. cbn. rewrite lookup_insert_eq. f_equal. by apply container_file_is.
      * rewrite len_ztake. unfold CONTAINER_MAX_SIZE. lia.
    + destruct (H7 k) as (b & Hb & Hlen); [lia|]. exists b. split; [|done].
      apply (file_is_rolled _ (cur d)); [lia|done].
  - eapply Forall2_impl; [exact H8|]. intros c x Hp. by apply placed_rolled in Hp.
  - by apply cache_ok_rolled in H9.
Qed.

(** Appending the payload [src] of a new chunk with content [x]. *)
Lemma append_ok d contents chunk src x (Q : Chunk_t -> dataWrite -> Prop) :
  store_ok d contents -> len contents < 2 ^ 31 - 2 ->
  csize (curContainer (cur d)) + len src <= CONTAINER_MAX_SIZE ->
  saveSize chunk = len src -> 0 <= chunkSize chunk <= CONTAINER_MAX_SIZE ->
  decodes chunk src x ->
  (forall c d', chunkPtr c = chunkPtr chunk ->
     set_ptr PNull c = mkChunk (chunkID chunk) (chunkSize chunk) (saveSize chunk) PNull
       (basechunkID chunk) (deltaFlag chunk) (loadFromDisk chunk) (HeaderFlag chunk)
       (offset c) (containerID c) ->
     mem d' = mem d -> same_rest d d' ->
     (forall m, (forall l, (next_loc m <= l)%nat -> heap m !! l = None) ->
        store_ok (set_chunklist (chunklist d' ++ [set_ptr PNull c]) (set_mem m d')) (contents ++ [x])) ->
     Q c d') ->
  wp (append_payload chunk src (len src)) Q d.
Proof.
  intros Hok Hcnt Hfit Hsave Hcs Hdec HQ. unfold wpe, append_payload.
  pose proof Hok as [H1 Hs0 H2 H3 H4 H5 H6 H7 H8 H9 H10]. pose proof (len_nonneg src).
  unfold CONTAINER_MAX_SIZE in *.
  rewrite (proj2 (Z.ltb_ge 4194304 _)) by lia.
  rewrite !w64_small by lia. apply HQ; [done|done|done|by split|]. clear HQ. intros m Hm.
  assert (0 <= csize (curContainer (cur d)) <= len (cdata (curContainer (cur d)))) as Hsz by lia.
  pose proof (len_blit_le (cdata (curContainer (cur d))) (curOffset (cur d)) src 4194304) as Hbl.
  split; cbn -[Z.pow CONTAINER_MAX_SIZE]; simp_len; try done;
    try (unfold CONTAINER_MAX_SIZE; lia).
  apply Forall2_app.
  - eapply Forall2_impl; [exact H8|]. intros c y Hp. by apply (placed_appended _ (cur d)).
  - constructor; [|constructor].
    split; cbn -[Z.pow CONTAINER_MAX_SIZE]; try (unfold CONTAINER_MAX_SIZE; lia).
    exists (ztake (csize (curContainer (cur d)) + len src)
              (blit (cdata (curContainer (cur d))) (curOffset (cur d)) src)), src.
    split; [unfold container_is; cbn; by rewrite Z.eqb_refl|]. split; [done|].
    rewrite <- H4, ztake_blit, len_app, len_ztake by lia.
    split; [lia|]. split; [|done].
    etransitivity; [|apply (sub_app_r (ztake (curOffset (cur d)) (cdata (curContainer (cur d)))) src)].
    f_equal. rewrite len_ztake. lia.
Qed.

(** What an insertion of [chunk] (owning the block [l]) does to the rest. *)
Record inserted (chunk : Chunk_t) (l : nat) (d d' : dataWrite) : Prop := {
  in_list : exists off cid, chunklist d' = chunklist d ++
    [mkChunk (chunkID chunk) (chunkSize chunk) (saveSize chunk) PNull (basechunkID chunk)
       (deltaFlag chunk) (loadFromDisk chunk) (HeaderFlag chunk) off cid];
  in_mem : mem d' = mkMem (delete l (heap (mem d))) (next_loc (mem d));
  in_rec : recipes d' = recipes d;
  in_cache : containerCache d' = containerCache d;
  in_hdr : hdr d' = hdr d;
  in_wr : writable (fs d') = writable (fs d)
}.

(** The tail both insertions share: append, [free], [push_back]. *)
Definition insert_tail (chunk : Chunk_t) (src : bytes) (tmpSize : Z) : DW bool :=
  c ← append_payload chunk src tmpSize;
  free (chunkPtr c) ;; push_chunk (set_ptr PNull c) ;; mret true.

Lemma insert_tail_ok d0 d contents chunk l b src x (Q : bool -> dataWrite -> Prop) :
  store_ok d contents -> same_rest d0 d -> len contents < 2 ^ 31 - 2 ->
  csize (curContainer (cur d)) + len src <= CONTAINER_MAX_SIZE ->
  saveSize chunk = len src -> 0 <= chunkSize chunk <= CONTAINER_MAX_SIZE ->
  chunkPtr chunk = PHeap l -> heap (mem d) !! l = Some b -> decodes chunk src x ->
  (forall d', store_ok d' (contents ++ [x]) -> inserted chunk l d0 d' -> Q true d') ->
  wp (insert_tail chunk src (len src)) Q d.
Proof.
  intros Hok [S1 S2 S3 S4 S5 S6 S7] Hcnt Hfit Hsave Hcs Hptr Hb Hdec HQ. unfold insert_tail.
  apply wp_bind. eapply append_ok; try done.
  intros c d' Hp Hc Hm [T1 T2 T3 T4 T5 T6 T7] Hok'. rewrite Hp, Hptr.
  apply wp_bind. unfold wpe at 1, free. rewrite Hm, Hb. apply wp_bind, wp_modify, wp_ret.
  apply HQ.
  - eapply (Hok' (mkMem (delete l (heap (mem d))) (next_loc (mem d)))).
    intros l' Hl'. cbn in Hl' |- *. rewrite lookup_delete. case_decide; [done|].
    by apply (so_heap _ _ Hok).
  - split; cbn; try congruence. exists (offset c), (containerID c). rewrite <- Hc. congruence.
Qed.

Lemma same_rest_trans d1 d2 d3 : same_rest d1 d2 -> same_rest d2 d3 -> same_rest d1 d3.
Proof. intros [] []. split; congruence. Qed.

Lemma s32_small n : 0 <= n < 2 ^ 31 -> s32 n = n.
Proof. intros. unfold s32. rewrite Z.mod_small; lia. Qed.

(** A delta (or incompressible) chunk, from its own block. *)
Lemma Chunk_Insert_ok d contents chunk l b x (Q : bool -> dataWrite -> Prop) :
  store_ok d contents -> can_store d -> len contents < 2 ^ 31 - 2 ->
  deltaFlag chunk <> NO_DELTA -> chunkPtr chunk = PHeap l -> heap (mem d) !! l = Some b ->
  read_mem (PHeap l) (len x) d = Ok x -> saveSize chunk = len x ->
  len x <= CONTAINER_MAX_SIZE -> 0 <= chunkSize chunk <= CONTAINER_MAX_SIZE ->
  (forall d', store_ok d' (contents ++ [x]) -> inserted chunk l d d' -> Q true d') ->
  wp (Chunk_Insert chunk) Q d.
Proof.
  intros Hok Hcan Hcnt Hflag Hptr Hb Hread Hsave Hx Hcs HQ. pose proof (len_nonneg x).
  unfold Chunk_Insert, payload_size. rewrite decide_False by done. rewrite Hsave.
  assert (CONTAINER_MAX_SIZE = 4194304) as HM by done.
  rewrite s32_small, w64_small by lia.
  apply wp_bind. eapply count_ok; [done|]. intros d1 Hok1 Hs1.
  apply wp_bind. eapply flush_ok; [done| |lia|].
  { intros k. by rewrite (sr_wr _ _ Hs1). }
  intros d2 Hok2 Hs2 Hfit. pose proof (same_rest_trans _ _ _ Hs1 Hs2) as Hs.
  apply wp_bind. rewrite Hptr. unfold wpe at 1, load.
  assert (read_mem (PHeap l) (len x) d2 = Ok x) as ->.
  { cbn in Hread |- *. by rewrite (sr_mem _ _ Hs). }
  cbn [lift]. eapply insert_tail_ok; try done.
  - by rewrite (sr_mem _ _ Hs).
  - unfold decodes. by rewrite decide_False.
Qed.

(** A base chunk, compressed into [lz4Buffer]. *)
Lemma Chunk_Insert_lz4_ok d contents chunk l b buf n x (Q : bool -> dataWrite -> Prop) :
  store_ok d contents -> can_store d -> len contents < 2 ^ 31 - 2 ->
  deltaFlag chunk = NO_DELTA -> chunkPtr chunk = PHeap l -> heap (mem d) !! l = Some b ->
  saveSize chunk = n -> 0 <= n <= len buf -> n <= CONTAINER_MAX_SIZE ->
  chunkSize chunk = len x -> len x <= CONTAINER_MAX_SIZE ->
  (forall old, exists out, LZ4_decompress_safe (ztake n buf) old CONTAINER_MAX_SIZE = (len x, out) /\ ztake (len x) out = x) ->
  (forall d', store_ok d' (contents ++ [x]) -> inserted chunk l d d' -> Q true d') ->
  wp (Chunk_Insert_lz4 chunk buf) Q d.
Proof.
  intros Hok Hcan Hcnt Hflag Hptr Hb Hsave Hn HnM Hcs Hx Hlz HQ. pose proof (len_nonneg x).
  unfold Chunk_Insert_lz4. rewrite Hsave. assert (CONTAINER_MAX_SIZE = 4194304) as HM by done.
  rewrite s32_small, w64_small by lia.
  apply wp_bind. eapply count_ok; [done|]. intros d1 Hok1 Hs1.
  apply wp_bind. eapply flush_ok; [done| |lia|].
  { intros k. by rewrite (sr_wr _ _ Hs1). }
  intros d2 Hok2 Hs2 Hfit. pose proof (same_rest_trans _ _ _ Hs1 Hs2) as Hs.
  assert (len (ztake n buf) = n) as Hln by (rewrite len_ztake; lia).
  apply wp_bind. eapply wp_lift_ok.
  { unfold read_object. rewrite (proj2 (Z.ltb_ge 0 0)), (proj2 (Z.ltb_ge n 0)),
      (proj2 (Z.ltb_ge _ (0 + n))), (proj2 (Z.ltb_ge _ (0 + n))) by lia. cbn. unfold sub.
    by rewrite zdrop_nonpos by lia. }
  rewrite <- Hln at 2. eapply insert_tail_ok; try done.
  - lia.
  - lia.
  - lia.
  - by rewrite (sr_mem _ _ Hs).
  - unfold decodes. rewrite decide_True by done. split; [done|]. apply Hlz.
Qed.

(** ** Reading back *)

(** A chunk record without the pointer and flag a read updates. *)
Definition meta c : Chunk_t := set_ptr PNull (set_load false c).

Lemma placed_meta f cu c c' x : meta c = meta c' -> placed f cu c x -> placed f cu c' x.
Proof.
  destruct c, c'. intros He [P1 P2 P3 P4]. unfold meta, set_ptr, set_load in He. cbn in *.
  injection He as -> -> -> -> -> -> -> ->. by split.
Qed.

Record reads (d d' : dataWrite) : Prop := {
  rd_fs : fs d' = fs d;
  rd_cur : cur d' = cur d;
  rd_rec : recipes d' = recipes d;
  rd_hdr : hdr d' = hdr d;
  rd_meta : meta <$> chunklist d' = meta <$> chunklist d
}.

Lemma reads_refl d : reads d d.
Proof. by split. Qed.

Lemma reads_trans d1 d2 d3 : reads d1 d2 -> reads d2 d3 -> reads d1 d3.
Proof. intros [] []. split; congruence. Qed.

Lemma meta_alter f i (l : list Chunk_t) :
  (forall c, meta (f c) = meta c) -> meta <$> alter f i l = meta <$> l.
Proof.
  intros Hf. apply list_eq. intros j. rewrite !list_lookup_fmap, list_lookup_alter.
  case_decide; [|done]. subst. destruct (l !! j); cbn; [|done]. by rewrite Hf.
Qed.

Lemma Forall2_meta (P : Chunk_t -> bytes -> Prop) l l' xs :
  (forall c c' x, meta c = meta c' -> P c x -> P c' x) ->
  meta <$> l' = meta <$> l -> Forall2 P l xs -> Forall2 P l' xs.
Proof.
  intros HP Hm HF. revert l' Hm. induction HF as [|c x l xs Hc HF IH]; intros l' Hm.
  - destruct l'; [constructor|done].
  - destruct l' as [|c' l']; [done|]. rewrite !fmap_cons in Hm. apply (inj2 cons) in Hm as [Hc' Hm].
    constructor; [by eapply HP|by apply IH].
Qed.

Lemma store_ok_reads d d' contents :
  store_ok d contents -> reads d d' ->
  cache_ok (fs d) (containerNum (cur d)) (containerCache d') ->
  (forall l, (next_loc (mem d') <= l)%nat -> heap (mem d') !! l = None) ->
  store_ok d' contents.
Proof.
  intros [H1 Hs0 H2 H3 H4 H5 H6 H7 H8 H9 H10] [R1 R2 R3 R4 R5] Hc Hh.
  split; rewrite ?R1, ?R2; try done.
  eapply Forall2_meta; [|exact R5|exact H8]. intros c c' x. apply placed_meta.
Qed.

(** Pointers a read hands out, and the reads that keep them valid: a pointer
    into the container cache needs its container among the 63 most recent. *)
Definition live (p : ptr) d : Prop :=
  match p with
  | PPool i _ => exists k, (k, i) ∈ take 63 (abs (readCache_ (containerCache d)))
  | _ => True
  end.

Definition stable d d' : Prop :=
  forall p n x, live p d -> read_mem p n d = Ok x -> read_mem p n d' = Ok x.

Lemma stable_reads d d' :
  cur d' = cur d ->
  (forall l b, heap (mem d) !! l = Some b -> heap (mem d') !! l = Some b) ->
  kept (containerCache d) (containerCache d') -> stable d d'.
Proof.
  intros Hcur Hheap Hkept p n x Hlive. destruct p as [|l|off|i off]; cbn [read_mem].
  - done.
  - destruct (heap (mem d) !! l) as [b|] eqn:Hb; [|done]. by rewrite (Hheap _ _ Hb).
  - by rewrite Hcur.
  - destruct Hlive as [k Hk]. by rewrite (Hkept k i Hk).
Qed.

Lemma kept_same rc rc' : containerPool_ rc' = containerPool_ rc -> kept rc rc'.
Proof. intros Hp k i _. unfold slot. by rewrite Hp. Qed.

(** What [Get_Chunk_Info] promises about chunk [c] with content [x]. *)
Record got d contents c x (info : Chunk_t) (d' : dataWrite) : Prop := {
  got_ok : store_ok d' contents;
  got_reads : reads d d';
  got_meta : meta info = meta c;
  got_bytes : read_mem (chunkPtr info) (len x) d' = Ok x;
  got_live : live (chunkPtr info) d';
  got_stable : stable d d';
  got_heap : if loadFromDisk info
    then exists l b, chunkPtr info = PHeap l /\ heap (mem d) !! l = None /\
      heap (mem d') = <[l := b]> (heap (mem d))
    else heap (mem d') = heap (mem d)
}.

(** [decode_base] fills a fresh block with the decompressed bytes. *)
Lemma decode_base_ok d c p x l (Q : unit -> dataWrite -> Prop) :
  len x <= CONTAINER_MAX_SIZE ->
  (forall old, exists out, LZ4_decompress_safe p old CONTAINER_MAX_SIZE = (len x, out) /\ ztake (len x) out = x) ->
  heap (mem d) !! l = Some (mkBlock (len x) []) ->
  (forall buf, Q tt (set_mem (mkMem (<[l := mkBlock (len x) x]> (heap (mem d))) (next_loc (mem d)))
                 (set_lz4 buf d))) ->
  wp (decode_base c p (len x) l) Q d.
Proof.
  intros Hx Hlz Hl HQ. pose proof (len_nonneg x). assert (CONTAINER_MAX_SIZE = 4194304) as HM by done.
  destruct (Hlz (lz4SafeChunkBuffer d)) as (out & Hout & Hx'). assert (len x <= len out) as Hl'.
  { pose proof (len_ztake (len x) out) as Hz. rewrite Hx' in Hz. pose proof (len_nonneg out). lia. }
  unfold decode_base. apply wp_bind, wp_modify. rewrite Hout, w64_small by lia. cbn [snd].
  apply wp_bind. unfold wpe at 1, load_lz4. cbn [lz4SafeChunkBuffer set_lz4].
  unfold read_object. rewrite (proj2 (Z.ltb_ge 0 0)), (proj2 (Z.ltb_ge (len x) 0)),
    (proj2 (Z.ltb_ge _ (0 + len x))), (proj2 (Z.ltb_ge _ (0 + len x))); [|..]; try lia.
  cbn [orb lift]. unfold sub. rewrite zdrop_nonpos, Hx' by lia. unfold wpe, store. cbn [mem set_lz4]. rewrite Hl.
  cbn [blk_size blk_data]. rewrite Z.ltb_irrefl.
  assert (blit [] 0 x = x) as -> by (unfold blit; rewrite (ztake_nonpos 0), zdrop_all by slia;
    cbn; by rewrite app_nil_r).
  apply HQ.
Qed.

(** *** [Get_Chunk_Info], branch by branch *)

Lemma read_object_ok size off n known :
  0 <= off -> 0 <= n -> off + n <= len known -> len known <= size ->
  read_object size off n known = Ok (sub off n known).
Proof.
  intros. unfold read_object. rewrite (proj2 (Z.ltb_ge off 0)), (proj2 (Z.ltb_ge n 0)),
    (proj2 (Z.ltb_ge size _)), (proj2 (Z.ltb_ge _ (off + n))) by lia. done.
Qed.

(** The same when the object goes on beyond the container [cont]. *)
Lemma read_object_prefix size off n cont rest :
  0 <= off -> 0 <= n -> off + n <= len cont -> off + n <= size ->
  read_object size off n (cont ++ rest) = Ok (sub off n cont).
Proof.
  intros. unfold read_object. rewrite len_app. pose proof (len_nonneg rest).
  rewrite (proj2 (Z.ltb_ge off 0)), (proj2 (Z.ltb_ge n 0)),
    (proj2 (Z.ltb_ge size _)), (proj2 (Z.ltb_ge _ (off + n))) by lia. cbn.
  by rewrite sub_app_l.
Qed.

Lemma file_is_fun f k b b' : file_is f k b -> file_is f k b' -> b = b'.
Proof.
  unfold file_is. intros -> He. apply (inj Some), app_inj_1 in He as [_ He]; [done|].
  pose proof (len_le_put 8 (len b)). pose proof (len_le_put 8 (len b')).
  rewrite !len_length in *. lia.
Qed.

Lemma parse_container_file b :
  len b <= CONTAINER_MAX_SIZE -> parse_container (le_put 8 (len b) ++ b) = Ok (len b, b).
Proof.
  intros Hb. pose proof (len_nonneg b). assert (CONTAINER_MAX_SIZE = 4194304) as HM by done.
  unfold parse_container. pose proof (len_le_put 8 (len b)) as H8.
  rewrite len_app, (proj2 (Z.ltb_ge _ 8)) by lia.
  assert (ztake 8 (le_put 8 (len b) ++ b) = le_put 8 (len b)) as ->
    by (change 8 with (Z.of_nat 8) at 1; rewrite <- H8; apply ztake_app_len).
  rewrite le_get_put, Z.mod_small by lia.
  assert (sub 8 (len b) (le_put 8 (len b) ++ b) = b) as ->
    by (change 8 with (Z.of_nat 8) at 1; rewrite <- H8; apply sub_app_r).
  rewrite Z.sub_diag. cbn. by rewrite app_nil_r.
Qed.

Section Info.
Context (d : dataWrite) (contents : list bytes) (id : Z) (c : Chunk_t) (x : bytes).
Context (Hok : store_ok d contents) (Hid : 0 <= id).
Context (Hc : chunklist d !! Z.to_nat id = Some c) (Hx : contents !! Z.to_nat id = Some x).

Lemma placed_facts :
  exists cont p, container_is (fs d) (cur d) (containerID c) cont /\
    len cont <= CONTAINER_MAX_SIZE /\ 0 <= containerID c <= containerNum (cur d) /\
    saveSize c = len p /\ 0 <= offset c /\ offset c + len p <= len cont /\
    sub (offset c) (len p) cont = p /\ decodes c p x /\ payload_size c = len x /\
    s32 (saveSize c) = len p /\ len x <= CONTAINER_MAX_SIZE /\ 0 <= containerNum (cur d) < 2 ^ 31.
Proof using Hok Hc Hx.
  pose proof (so_chunks _ _ Hok) as HF. destruct (Forall2_lookup_lr _ _ _ _ _ _ HF Hc Hx)
    as [P1 P2 P3 (cont & p & Hcont & Hsave & Hle & Hsub & Hdec)].
  pose proof (so_num _ _ Hok). pose proof (so_len _ _ Hok). pose proof (len_nonneg p).
  assert (len cont <= CONTAINER_MAX_SIZE) as Hlen.
  { unfold container_is in Hcont. destruct (Z.eqb_spec (containerID c) (containerNum (cur d))).
    - subst cont. rewrite len_ztake. pose proof (so_csize _ _ Hok). lia.
    - destruct (so_files _ _ Hok (containerID c)) as (b & Hb & Hbl); [lia|].
      by rewrite (file_is_fun _ _ _ _ Hcont Hb). }
  assert (CONTAINER_MAX_SIZE = 4194304) as HM by done.
  exists cont, p. split_and!; try done; try lia; unfold decodes, payload_size in *;
    destruct (decide (deltaFlag c = NO_DELTA)).
  - destruct Hdec as [<- _]. rewrite s32_small; lia.
  - subst x. rewrite s32_small; lia.
  - rewrite s32_small; lia.
  - rewrite s32_small; lia.
  - destruct Hdec as [<- _]. lia.
  - subst x. lia.
Qed.

(** A fresh block for the decompressed bytes, or a pointer to the stored
    ones: the last steps of the two branches that read from memory. *)
Definition point_at (p : ptr) (tmpSize : Z) : DW unit :=
  if decide (deltaFlag c <> NO_DELTA) then update_chunk id (set_ptr p)
  else
    src ← load p (w64 (s32 (saveSize c)));
    l ← malloc (chunkSize c);
    decode_base c src tmpSize l ;;
    update_chunk id (fun c => set_load true (set_ptr (PHeap l) c)).

Lemma chunk_at_ok d' info (Q : Chunk_t -> dataWrite -> Prop) :
  chunklist d' !! Z.to_nat id = Some info -> Q info d' -> wp (chunk_at id) Q d'.
Proof using Hid.
  intros Hi HQ. unfold wpe, chunk_at. rewrite (proj2 (Z.ltb_ge id 0)) by lia. by rewrite Hi.
Qed.

(** [d1] is [d] after the flag was reset and, on a cache hit, the cache
    reordered; [p] points at the stored bytes. *)
Lemma point_at_ok d1 p0 pld (Q : unit -> dataWrite -> Prop) :
  chunklist d1 = alter (set_load false) (Z.to_nat id) (chunklist d) ->
  fs d1 = fs d -> cur d1 = cur d -> recipes d1 = recipes d -> hdr d1 = hdr d -> mem d1 = mem d ->
  cache_ok (fs d) (containerNum (cur d)) (containerCache d1) ->
  kept (containerCache d) (containerCache d1) ->
  decodes c pld x -> s32 (saveSize c) = len pld -> len pld <= CONTAINER_MAX_SIZE ->
  len x <= CONTAINER_MAX_SIZE ->
  read_mem p0 (len pld) d1 = Ok pld -> live p0 d1 ->
  (forall l, p0 <> PHeap l) ->
  (forall info d', chunklist d' !! Z.to_nat id = Some info -> got d contents c x info d' ->
     Q tt d') ->
  wp (point_at p0 (len x)) Q d1.
Proof using Hok Hc.
  intros Hl1 Hf1 Hcur1 Hr1 Hh1 Hm1 Hcache Hkept Hdec Hsave Hpm Hxm Hread Hlive Hnh HQ.
  pose proof (len_nonneg pld). pose proof (len_nonneg x). assert (CONTAINER_MAX_SIZE = 4194304) as HM by done.
  pose proof (so_heap _ _ Hok) as Hheap.
  assert (chunklist d1 !! Z.to_nat id = Some (set_load false c)) as Hc1.
  { rewrite Hl1, list_lookup_alter, decide_True, Hc by done. done. }
  assert (meta <$> chunklist d1 = meta <$> chunklist d) as Hmeta.
  { rewrite Hl1. by apply meta_alter. }
  unfold point_at, decodes in *. destruct (decide (deltaFlag c <> NO_DELTA)) as [Hd|Hd].
  - rewrite decide_False in Hdec by done. subst pld. apply wp_modify.
    eapply HQ; [cbn; rewrite list_lookup_alter, decide_True, Hc1 by done; reflexivity|].
    assert (reads d (set_chunklist (alter (set_ptr p0) (Z.to_nat id) (chunklist d1)) d1)) as Hrd.
    { split; cbn; try done. rewrite meta_alter by done. done. }
    split; cbn; try done.
    + eapply store_ok_reads; [exact Hok|exact Hrd|done|]. cbn. by rewrite Hm1.
    + by apply stable_reads; cbn; rewrite ?Hm1.
    + by rewrite Hm1.
  - rewrite decide_True in Hdec by (by apply dec_stable). destruct Hdec as [Hcs Hlz].
    apply wp_bind. unfold wpe at 1, load. rewrite Hsave, w64_small, Hread by lia. cbn [lift].
    apply wp_bind. unfold wpe at 1, malloc. apply wp_bind.
    apply decode_base_ok; [done|done|cbn; by rewrite lookup_insert_eq, Hcs|].
    intros buf. apply wp_modify.
    assert (heap (mem d) !! next_loc (mem d) = None) as Hfresh by (by apply Hheap).
    eapply HQ; [cbn; rewrite list_lookup_alter, decide_True, Hc1 by done; reflexivity|].
    match goal with |- got _ _ _ _ _ ?d2 => assert (reads d d2) as Hrd end.
    { split; cbn; try done. by rewrite meta_alter. }
    split; cbn [chunkPtr set_ptr set_load loadFromDisk meta]; try done.
    + eapply store_ok_reads; [exact Hok|exact Hrd|done|]. cbn. rewrite Hm1.
      intros l Hl. rewrite !lookup_insert_ne by lia. apply Hheap. lia.
    + cbn. rewrite lookup_insert_eq. cbn. rewrite read_object_ok by lia. unfold sub.
      by rewrite zdrop_nonpos, ztake_all by lia.
    + apply stable_reads; cbn; rewrite ?Hm1; try done. intros l b Hb.
      rewrite !lookup_insert_ne by congruence. done.
    + cbn. rewrite Hm1. eexists _, _. split; [done|]. split; [done|].
      by rewrite insert_insert_eq.
Qed.

Lemma got_count info d' k : got d contents c x info d' -> got d contents c x info (set_counters k d').
Proof using Type.
  intros [[H1 Hs0 H2 H3 H4 H5 H6 H7 H8 H9 H10] [R1 R2 R3 R4 R5] G3 G4 G5 G6 G7]. by split.
Qed.

Lemma info_current_ok (Q : unit -> dataWrite -> Prop) :
  containerID c = containerNum (cur d) ->
  (forall info d', chunklist d' !! Z.to_nat id = Some info -> got d contents c x info d' -> Q tt d') ->
  wp (info_current id c (len x)) Q d.
Proof using Hok Hc Hx.
  intros Hcur HQ. unfold info_current.
  destruct placed_facts as (cont & p & Hcont & Hlen & Hr & Hsv & Ho & Hle & Hsub & Hdec & _ & Hs & Hxm & _).
  unfold container_is in Hcont. rewrite Hcur, Z.eqb_refl in Hcont.
  apply wp_bind, wp_modify. pose proof (len_nonneg p).
  eapply (point_at_ok _ (PCur (offset c)) p); try done.
  - apply (so_cache _ _ Hok).
  - lia.
  - cbn. unfold read_static.
    rewrite (proj2 (Z.ltb_ge (offset c) 0)), (proj2 (Z.ltb_ge (len p) 0)),
      (proj2 (Z.ltb_ge CONTAINER_MAX_SIZE _)) by lia. cbn [orb].
    assert (sub (offset c) (len p) (cdata (curContainer (cur d))) = p) as ->.
    { rewrite <- Hsub at 2. rewrite Hcont. rewrite Hcont, len_ztake in Hle.
      pose proof (so_csize _ _ Hok). symmetry. apply sub_ztake; lia. }
    rewrite Z.sub_diag. cbn. by rewrite app_nil_r.
Qed.

Lemma cached_container l name :
  rc_rel (containerCache d) l ->
  Forall (fun nb => exists k, 0 <= k < containerNum (cur d) /\ nb.1 = to_string k /\
    file_is (fs d) k nb.2) l ->
  0 <= containerID c -> name = to_string (containerID c) -> name ∈ l.*1 ->
  exists b, a_find name l = Some b /\ file_is (fs d) (containerID c) b /\
    containerID c < containerNum (cur d).
Proof using Type.
  intros Hrel HF Hcid -> Hin. apply a_find_is_Some in Hin as (b & Hb & Hin). exists b.
  rewrite Forall_forall in HF. destruct (HF _ Hin) as (k & Hk & Hn & Hf). cbn in *.
  apply to_string_inj in Hn; [|lia..]. subst k. split; [done|]. split; [done|lia].
Qed.

Lemma info_cached_ok (Q : unit -> dataWrite -> Prop) :
  ExistsInCache (to_string (containerID c)) (containerCache d) = true ->
  (forall info d', chunklist d' !! Z.to_nat id = Some info -> got d contents c x info d' -> Q tt d') ->
  wp (info_cached id c (to_string (containerID c)) (len x)) Q d.
Proof using Hok Hc Hx.
  intros Hhit HQ. unfold info_cached.
  destruct placed_facts as (cont & p & Hcont & Hlen & Hr & Hsv & Ho & Hle & Hsub & Hdec & _ & Hs & Hxm & _).
  destruct (so_cache _ _ Hok) as (l & Hrel & HF).
  rewrite (exists_ok _ _ _ Hrel) in Hhit. apply bool_decide_eq_true in Hhit.
  destruct (cached_container l (to_string (containerID c)) Hrel HF) as (b & Hfind & Hfile & Hlt); [lia|done|done|].
  unfold container_is in Hcont. rewrite (proj2 (Z.eqb_neq _ _)) in Hcont by lia.
  rewrite (file_is_fun _ _ _ _ Hcont Hfile) in *.
  destruct (read_hit_ok _ _ _ _ Hrel Hfind) as (i & rc' & rest & Hread & Hrel' & Hslot & Hpool & Hi & Hin).
  apply wp_bind, wp_modify, wp_bind. unfold wpe at 1, cache_read.
  cbn [containerCache set_chunklist]. rewrite Hread. cbn [mbind result_bind fst snd].
  apply wp_bind. pose proof (len_nonneg p).
  eapply (point_at_ok _ (PPool i (offset c)) p); try done.
  - exists ((to_string (containerID c), b) :: a_del (to_string (containerID c)) l).
    split; [done|]. constructor.
    + exists (containerID c). split; [lia|]. by split.
    + unfold a_del. apply Forall_forall. intros nb [_ Hnb]%list_elem_of_filter.
      rewrite Forall_forall in HF. by apply HF.
  - by apply kept_same.
  - lia.
  - cbn. rewrite Hslot. rewrite read_object_prefix by lia. by rewrite Hsub.
  - eexists. exact Hin.
  - intros info d' Hl Hg. apply wp_modify. eapply HQ; [exact Hl|by apply got_count].
Qed.

(** The state once the fresh block holds [x], and what is left to do. *)
Definition loaded (lz : bytes) : dataWrite :=
  set_mem (mkMem (<[next_loc (mem d) := mkBlock (len x) x]> (heap (mem d))) (S (next_loc (mem d))))
    (set_lz4 lz (set_chunklist (alter (set_ptr (PHeap (next_loc (mem d)))) (Z.to_nat id)
      (chunklist d)) d)).

Lemma disk_end cont rc' lz (Q : unit -> dataWrite -> Prop) :
  InsertToCache (to_string (containerID c)) cont (len cont) (containerCache d) = Ok rc' ->
  cache_ok (fs d) (containerNum (cur d)) rc' -> kept (containerCache d) rc' ->
  len cont <= CONTAINER_MAX_SIZE ->
  (forall info d', chunklist d' !! Z.to_nat id = Some info -> got d contents c x info d' -> Q tt d') ->
  wp (cache_insert (to_string (containerID c)) cont (len cont))
    (fun _ s' => wp (count_load ;; update_chunk id (set_load true)) Q s') (loaded lz).
Proof using Hok Hc.
  intros Hins Hcache Hkept Hlen HQ. pose proof (len_nonneg x). pose proof (len_nonneg cont).
  assert (CONTAINER_MAX_SIZE = 4194304) as HM by done.
  pose proof (so_heap _ _ Hok) as Hheap.
  assert (heap (mem d) !! next_loc (mem d) = None) as Hfresh by (by apply Hheap).
  unfold wpe at 1, cache_insert, loaded. cbn [containerCache set_mem set_lz4 set_chunklist].
  rewrite w32_small, Hins by lia. cbn [mbind result_bind].
  apply wp_bind, wp_modify, wp_modify. eapply HQ.
  { cbn. rewrite !list_lookup_alter, !decide_True, Hc by done. reflexivity. }
  match goal with |- got _ _ _ _ _ ?d2 => assert (reads d d2) as Hrd end.
  { split; cbn; try done. by rewrite !meta_alter. }
  split; cbn [chunkPtr set_ptr set_load loadFromDisk]; try done.
  - eapply store_ok_reads; [exact Hok|exact Hrd|done|]. cbn. intros l' Hl'.
    rewrite lookup_insert_ne by lia. apply Hheap. lia.
  - cbn. rewrite lookup_insert_eq. cbn. rewrite read_object_ok by lia. unfold sub.
    by rewrite zdrop_nonpos, ztake_all by lia.
  - apply stable_reads; cbn; try done. intros l' b Hb. by rewrite lookup_insert_ne by congruence.
  - cbn. eexists _, _. done.
Qed.

Lemma blit_nil bs : blit [] 0 bs = bs.
Proof using Type.
  unfold blit. rewrite (ztake_nonpos 0), zdrop_all by slia. cbn. by rewrite app_nil_r.
Qed.

(** A miss: the container file is read into a fresh block and cached. *)
Lemma info_disk_ok (Q : unit -> dataWrite -> Prop) :
  ExistsInCache (to_string (containerID c)) (containerCache d) = false ->
  containerID c <> containerNum (cur d) ->
  (forall info d', chunklist d' !! Z.to_nat id = Some info -> got d contents c x info d' -> Q tt d') ->
  wp (info_disk id c (to_string (containerID c)) (len x)) Q d.
Proof using Hok Hc Hx.
  intros Hmiss Hne HQ. unfold info_disk.
  destruct placed_facts as (cont & p & Hcont & Hlen & Hr & Hsv & Ho & Hle & Hsub & Hdec & _ & Hs & Hxm & _).
  destruct (so_cache _ _ Hok) as (l & Hrel & HF).
  rewrite (exists_ok _ _ _ Hrel) in Hmiss. apply bool_decide_eq_false in Hmiss.
  unfold container_is in Hcont. rewrite (proj2 (Z.eqb_neq _ _)) in Hcont by lia.
  pose proof (len_nonneg p). pose proof (len_nonneg x). pose proof (len_nonneg cont).
  assert (CONTAINER_MAX_SIZE = 4194304) as HM by done.
  destruct (insert_miss_ok _ _ _ cont (len cont) Hrel Hmiss) as (rc' & Hins & Hrel' & Hkept); [lia..|].
  assert (cache_ok (fs d) (containerNum (cur d)) rc') as Hcache.
  { eexists. split; [exact Hrel'|]. unfold spec_insert. apply Forall_take. constructor; [|done].
    exists (containerID c). split; [lia|]. rewrite ztake_all by lia. done. }
  apply wp_bind. unfold wpe at 1, malloc. apply wp_bind, wp_modify, wp_bind, wp_gets.
  cbn [files fs set_mem set_chunklist].
  change ("./Containers/" +:+ to_string (containerID c)) with (container_path (containerID c)).
  unfold file_is in Hcont. rewrite Hcont. apply wp_bind, wp_bind.
  eapply wp_lift_ok; [by apply parse_container_file|]. cbn [fst snd]. cbv zeta.
  rewrite !w64_small by (rewrite ?Hs; lia). rewrite Hs.
  unfold decodes in Hdec. destruct (decide (deltaFlag c <> NO_DELTA)) as [Hd|Hd].
  - rewrite decide_False in Hdec by done. subst p. apply wp_bind, wp_bind.
    eapply wp_lift_ok; [apply read_object_prefix; lia|]. rewrite Hsub.
    unfold wpe at 1, store. cbn. rewrite lookup_insert_eq. cbn.
    rewrite Z.ltb_irrefl, insert_insert_eq, blit_nil.
    by apply (disk_end cont rc' (lz4SafeChunkBuffer d)).
  - rewrite decide_True in Hdec by (by apply dec_stable). destruct Hdec as [Hcs Hlz].
    apply wp_bind, wp_bind. eapply wp_lift_ok; [apply read_object_prefix; lia|]. rewrite Hsub.
    apply decode_base_ok; [done|done|cbn; by rewrite lookup_insert_eq, Hcs|].
    intros buf. cbn. rewrite insert_insert_eq. by apply (disk_end cont rc' buf).
Qed.

Lemma Get_Chunk_Info_ok (Q : Chunk_t -> dataWrite -> Prop) :
  (forall info d', got d contents c x info d' -> Q info d') -> wp (Get_Chunk_Info id) Q d.
Proof using Hok Hid Hc Hx.
  intros HQ. unfold Get_Chunk_Info.
  destruct placed_facts as (_ & p & _ & _ & Hr & _ & _ & _ & _ & _ & Hps & _ & _ & Hnum).
  apply wp_bind. eapply chunk_at_ok; [exact Hc|]. rewrite Hps.
  apply wp_bind, wp_gets, wp_bind, wp_gets, wp_bind.
  assert (forall info d', chunklist d' !! Z.to_nat id = Some info -> got d contents c x info d' ->
    wp (chunk_at id) Q d') as Hend.
  { intros info d' Hl Hg. eapply chunk_at_ok; [exact Hl|by apply HQ]. }
  destruct (ExistsInCache _ _) eqn:Hhit; [by apply info_cached_ok|].
  rewrite w64_small by lia. destruct (Z.eqb_spec (containerID c) (containerNum (cur d))); cbn [negb].
  - by apply info_current_ok.
  - by apply info_disk_ok.
Qed.
End Info.
End Store.

(** ** Properties *)

(** C15: storing an uncompressed chunk (a delta, or a chunk LZ4 could not
    shrink) appends exactly its [saveSize] bytes to the store: when the current
    container has no room for them it is first written to its file under its
    number; no write leaves the container; the chunk's block, and no other, is
    freed; and every chunk stored before keeps its content. *)
Theorem chunk_insert_appends `{Lz4} (d : dataWrite) (contents : list bytes) (chunk : Chunk_t)
    (l : nat) (b : Block) (x : bytes)
    (Hok : store_ok d contents) (Hcan : can_store d) (Hcnt : len contents < 2 ^ 31 - 2)
    (Hflag : deltaFlag chunk <> NO_DELTA) (Hptr : chunkPtr chunk = PHeap l)
    (Hb : heap (mem d) !! l = Some b) (Hread : read_mem (PHeap l) (len x) d = Ok x)
    (Hsave : saveSize chunk = len x) (Hx : len x <= CONTAINER_MAX_SIZE)
    (Hcs : 0 <= chunkSize chunk <= CONTAINER_MAX_SIZE) :
  wp (Chunk_Insert chunk) (fun r d' => r = true /\ store_ok d' (contents ++ [x]) /\
    inserted chunk l d d') d.
Proof. eapply Chunk_Insert_ok; eauto. Qed.

(** A heap with one block, for the witnesses. *)
Definition one_block (bs : bytes) : Mem := mkMem {[ 0%nat := mkBlock (len bs) bs ]} 1.

Definition open_fs : Fs := mkFs ∅ (fun _ => true).

Lemma one_block_fresh bs l : (1 <= l)%nat -> heap (one_block bs) !! l = None.
Proof. intros Hl. apply lookup_singleton_ne. lia. Qed.

Lemma read_one_block bs f : read_mem (PHeap 0) (len bs) (new_dataWrite (one_block bs) f) = Ok bs.
Proof.
  cbn [read_mem mem new_dataWrite one_block heap]. rewrite lookup_singleton_eq. cbn.
  pose proof (len_nonneg bs). rewrite read_object_ok by lia. unfold sub.
  by rewrite zdrop_nonpos, ztake_all by lia.
Qed.

Lemma chunk_insert_appends_witness :
  wp (Chunk_Insert (mkChunk 0 5 5 (PHeap 0) 0 NO_LZ4 false false 0 0))
    (fun r d' => r = true /\ @store_ok StoreCodec.lz4 d' ([] ++ [[1; 2; 3; 4; 5]]) /\
       inserted (mkChunk 0 5 5 (PHeap 0) 0 NO_LZ4 false false 0 0) 0
         (new_dataWrite (one_block [1; 2; 3; 4; 5]) open_fs) d')
    (new_dataWrite (one_block [1; 2; 3; 4; 5]) open_fs).
Proof.
  eapply (@chunk_insert_appends StoreCodec.lz4); try done; try (by vm_compute).
  apply new_store_ok. apply one_block_fresh.
Defined.

(** C14: [Get_Chunk_Info] hands out the content of every stored chunk, whichever
    way it is reached (cached container, container file, current container)
    and however it is stored (raw or compressed): the returned pointer reads
    back the content, points at a fresh block exactly when [loadFromDisk] is
    set, and every pointer handed out before stays readable; the store, the
    recipes and the records' metadata are unchanged. *)
Theorem get_chunk_info_returns_content `{Lz4} (d : dataWrite) (contents : list bytes)
    (id : Z) (c : Chunk_t) (x : bytes) (Hok : store_ok d contents) (Hid : 0 <= id)
    (Hc : chunklist d !! Z.to_nat id = Some c) (Hx : contents !! Z.to_nat id = Some x) :
  wp (Get_Chunk_Info id) (fun info d' => store_ok d' contents /\ reads d d' /\ stable d d' /\
    meta info = meta c /\ read_mem (chunkPtr info) (len x) d' = Ok x /\
    (if loadFromDisk info then exists l b, chunkPtr info = PHeap l /\ heap (mem d) !! l = None /\
       heap (mem d') = <[l := b]> (heap (mem d)) else heap (mem d') = heap (mem d))) d.
Proof. eapply Get_Chunk_Info_ok; eauto. intros info d' []. done. Qed.

(** A store with one raw chunk in its current container, after one insertion. *)
Definition one_chunk_store : dataWrite :=
  mkDW (mkMem ∅ 0) open_fs (mkCur 0 (mkContainer 2 1 0 [10; 20]) 2) (mkCounters 1 2 0 0)
    (mkRecipes "f" {[ "f"%string := [0; 0] ]} ∅) [mkChunk 0 2 2 PNull 0 NO_LZ4 false false 0 0]
    new_ReadCache [] (mkHeaderState tar_init [] 0 0).

Lemma one_chunk_store_ok : @store_ok StoreCodec.lz4 one_chunk_store [[10; 20]].
Proof.
  assert (len [10; 20] = 2) as H2 by done. assert (len [[10; 20]] = 1) as H1 by done.
  split; cbn -[len CONTAINER_MAX_SIZE Z.pow]; rewrite ?H1, ?H2; unfold CONTAINER_MAX_SIZE; try done; try lia.
  - constructor; [|constructor]. split; cbn; unfold CONTAINER_MAX_SIZE; try lia.
    exists [10; 20], [10; 20]. rewrite H2. split_and!; try done; cbn; lia.
  - exists []. split; [apply new_rc_rel|constructor].
Qed.

Lemma get_chunk_info_returns_content_witness :
  wp (@Get_Chunk_Info StoreCodec.lz4 0) (fun info d' => @store_ok StoreCodec.lz4 d' [[10; 20]] /\
    reads one_chunk_store d' /\ stable one_chunk_store d' /\
    meta info = meta (mkChunk 0 2 2 PNull 0 NO_LZ4 false false 0 0) /\
    read_mem (chunkPtr info) (len [10; 20]) d' = Ok [10; 20] /\
    (if loadFromDisk info then exists l b, chunkPtr info = PHeap l /\
       heap (mem one_chunk_store) !! l = None /\
       heap (mem d') = <[l := b]> (heap (mem one_chunk_store))
     else heap (mem d') = heap (mem one_chunk_store))) one_chunk_store.
Proof.
  apply (@get_chunk_info_returns_content StoreCodec.lz4); [apply one_chunk_store_ok|done|done|done].
Defined.
