(* ===== verification/Reports.v ===== *)
(** * The reports of the store

    [Save_to_File_Chunking], [Save_to_File] and [Save_to_File_unique] of
    [src/datawrite/datawrite.cc]: tables of the chunks as comma-separated
    text.  Nothing calls the first two, whose [recipelist] nothing fills; the
    calls of the third in [main] are commented out.  A report that exists is
    emptied and written again without its first line. *)

From S2P Require Import Prelude Define Codec DataWrite Store.

(** ** Text on an [ofstream] *)

Definition text (s : string) : bytes := (fun a => Z.of_N (Ascii.N_of_ascii a)) <$> String.list_ascii_of_string s.
Definition endl : bytes := [10].

(** [<<] of an unsigned number, of an [int] and of a [bool]. *)
Definition put_u64 (n : Z) : bytes := text (to_string n).
Definition put_int (n : Z) : bytes := text (pretty n).
Definition put_bool (b : bool) : bytes := text (if b then "1" else "0").

(** [ss << hex << n]. *)
Definition hex_digit (n : Z) : Z := if n <? 10 then 48 + n else 87 + n.

Fixpoint hex_digits (fuel : nat) (n : Z) : bytes :=
  match fuel with
  | O => []
  | S fuel' => if n <? 16 then [hex_digit n] else hex_digits fuel' (Z.shiftr n 4) ++ [hex_digit (Z.land n 15)]
  end.

Definition hex_of (n : Z) : bytes := hex_digits 16 n.

(** [(uint64_t)deltaFlag]. *)
Definition delta_number (f : DELTA_TYPE) : Z :=
  match f with
  | NO_DELTA => 0 | NO_LZ4 => 1 | DELTA => 2 | FINESSE_TO_BASE => 3 | FINESSE_DELTA => 4 | LOCAL_DELTA => 5
  end.

(** ** The tables *)

(** The names of the flags; those of two flags are missing. *)
Definition ChunkFlag (f : DELTA_TYPE) : string :=
  match f with
  | NO_DELTA => "Base"
  | FINESSE_TO_BASE => "Finesse_To_Base"
  | FINESSE_DELTA => "Finesse"
  | LOCAL_DELTA => "Local"
  | NO_LZ4 | DELTA => ""
  end.

Definition recipe_path (methodname : string) : string := "./" +:+ methodname +:+ "_recipe.txt".
Definition index_path (methodname : string) : string := "./" +:+ methodname +:+ "_chunkIndex.txt".

Definition chunking_header : bytes := text "Traceid,ChunkID,BasechunkID,ChunkSize,SaveSize,DeltaFlag," ++ endl.
Definition recipe_header : bytes := text "Traceid,ChunkID,BasechunkID,ChunkSize,SaveSize,DeltaFlag,ChunkFlag" ++ endl.
Definition index_header : bytes :=
  text "ChunkID,BasechunkID,ChunkSize,SaveSize,DeltaFlag,loadFromDisk, HeaderFlag, offset, containerID, " ++ endl.

Definition recipe_fields (traceid : nat) (c : Chunk_t) : bytes :=
  put_u64 (Z.of_nat traceid) ++ text "," ++ put_u64 (chunkID c) ++ text "," ++ put_int (basechunkID c) ++ text "," ++
  put_u64 (chunkSize c) ++ text "," ++ put_u64 (saveSize c) ++ text "," ++ text (ChunkFlag (deltaFlag c)).

Definition chunking_row (traceid : nat) (c : Chunk_t) : bytes :=
  recipe_fields traceid c ++ text "," ++ hex_of (chunkSize c) ++ endl.
Definition recipe_row (traceid : nat) (c : Chunk_t) : bytes := recipe_fields traceid c ++ endl.

Definition index_row (c : Chunk_t) : bytes :=
  put_u64 (chunkID c) ++ text "," ++ put_int (basechunkID c) ++ text "," ++ put_u64 (chunkSize c) ++ text "," ++
  put_u64 (saveSize c) ++ text "," ++ put_u64 (delta_number (deltaFlag c)) ++ text "," ++ put_bool (loadFromDisk c) ++
  text "," ++ put_bool (HeaderFlag c) ++ text "," ++ put_u64 (offset c) ++ text "," ++ put_u64 (containerID c) ++ endl.

(** [FileExist], one of the two [open]s, the rows and [close]; a file that does
    not open is reported on the console. *)
Definition save_table (path : string) (header rows : bytes) : DW unit :=
  old ← gets (fun d => files (fs d) !! path);
  _ ← write_file path ((match old with None => header | Some _ => [] end) ++ rows);
  mret tt.

(** [recipelist]: the member the first two go through. *)
Definition Save_to_File_Chunking (recipelist : list Chunk_t) (methodname : string) : DW unit :=
  save_table (recipe_path methodname) chunking_header (concat (imap chunking_row recipelist)).

Definition Save_to_File (recipelist : list Chunk_t) (methodname : string) : DW unit :=
  save_table (recipe_path methodname) recipe_header (concat (imap recipe_row recipelist)).

(** [for (i = 0; i < chunklist.size(); i++)] over [Get_Chunk_MetaInfo(i)]. *)
Fixpoint index_rows (is_ : list nat) : DW bytes :=
  match is_ with
  | [] => mret []
  | i :: is' => c ← Get_Chunk_MetaInfo (Z.of_nat i); rows ← index_rows is'; mret (index_row c ++ rows)
  end.

Definition Save_to_File_unique (methodname : string) : DW unit :=
  n ← gets (fun d => length (chunklist d));
  rows ← index_rows (seq 0 n);
  save_table (index_path methodname) index_header rows.

(** ** What is in the file *)

Definition table (old : option bytes) (header rows : bytes) : bytes :=
  (match old with None => header | Some _ => [] end) ++ rows.

Lemma index_rows_ok d n : forall i, (i + n <= length (chunklist d))%nat ->
  index_rows (seq i n) d = Ok (concat (index_row <$> take n (drop i (chunklist d))), d).
Proof.
  induction n as [|n IH]; intros i Hi; [done|]. destruct (lookup_lt_is_Some_2 (chunklist d) i) as [c Hc]; [lia|].
  rewrite (drop_S _ _ _ Hc). cbn [seq index_rows take fmap list_fmap concat]. unfold mbind, M_bind, Get_Chunk_MetaInfo, chunk_at.
  rewrite (proj2 (Z.ltb_ge _ _)), Nat2Z.id, Hc by lia. rewrite IH by lia. done.
Qed.

(** ** Reading a table back *)

(** What may stand in a field. *)
Definition field (t : bytes) : Prop := Forall (fun b => b <> 44 /\ b <> 10) t.
Definition separator (b : Z) : Prop := b = 44 \/ b = 10.

Lemma field_ends t t' x x' l l' : field t -> field t' -> separator x -> separator x' ->
  t ++ x :: l = t' ++ x' :: l' -> t = t' /\ l = l'.
Proof.
  intros Ht. revert t'. induction Ht as [|b t [H1 H2] _ IH]; intros [|b' t'] Ht' Hx Hx' He; cbn in He; simplify_eq.
  - done.
  - apply Forall_cons_1 in Ht' as [[] _]. by destruct Hx.
  - by destruct Hx'.
  - apply Forall_cons_1 in Ht' as [_ Ht']. destruct (IH t') as [-> ->]; done.
Qed.

Lemma text_app a b : text (a +:+ b) = text a ++ text b.
Proof.
  unfold text. rewrite <- fmap_app. f_equal. induction a as [|c a IH]; [done|]. exact (f_equal (cons c) IH).
Qed.

Lemma text_inj a b : text a = text b -> a = b.
Proof.
  unfold text. revert b. induction a as [|c a IH]; intros [|c' b]; cbn; try done. intros [= H1 H2].
  f_equal; [|by apply IH]. apply N2Z.inj in H1. rewrite <- (Ascii.ascii_N_embedding c), <- (Ascii.ascii_N_embedding c'). by rewrite H1.
Qed.

Lemma pretty_go_field n : forall s, field (text s) -> field (text (pretty_N_go n s)).
Proof.
  induction (N.lt_wf_0 n) as [n _ IH]. intros s Hs. destruct (decide (n = 0)%N) as [->|Hn]; [by rewrite pretty_N_go_0|].
  rewrite pretty_N_go_step by lia. apply IH; [apply N.div_lt; lia|]. unfold text. cbn [String.list_ascii_of_string fmap list_fmap].
  constructor; [|done]. unfold pretty_N_char. by repeat case_match.
Qed.

Lemma put_u64_field n : field (put_u64 n).
Proof.
  unfold put_u64, to_string, pretty, pretty_N. case_decide; [by repeat constructor|]. apply pretty_go_field. constructor.
Qed.

Lemma put_int_field n : field (put_int n).
Proof.
  unfold put_int. destruct n as [|p|p].
  - by repeat constructor.
  - apply (put_u64_field (Z.pos p)).
  - change (pretty (Z.neg p)) with ("-" +:+ pretty (Npos p)). rewrite text_app. apply Forall_app. split; [by repeat constructor|]. apply (put_u64_field (Z.pos p)).
Qed.

Lemma put_bool_field b : field (put_bool b).
Proof. destruct b; by repeat constructor. Qed.

Lemma put_u64_inj a b : 0 <= a -> 0 <= b -> put_u64 a = put_u64 b -> a = b.
Proof. intros Ha Hb H%text_inj. by apply to_string_inj. Qed.

Lemma put_int_inj a b : put_int a = put_int b -> a = b.
Proof. intros H%text_inj. by apply (inj pretty). Qed.

Lemma put_bool_inj a b : put_bool a = put_bool b -> a = b.
Proof. by destruct a, b. Qed.

Lemma delta_number_inj a b : put_u64 (delta_number a) = put_u64 (delta_number b) -> a = b.
Proof. intros H%put_u64_inj; [|by destruct a|by destruct b]. by destruct a, b. Qed.

(** A record with its numbers at their widths. *)
Definition unsigned (c : Chunk_t) : Prop :=
  0 <= chunkID c /\ 0 <= chunkSize c /\ 0 <= saveSize c /\ 0 <= offset c /\ 0 <= containerID c.

(** The record without its pointer, which is not printed. *)
Definition printed (c : Chunk_t) : Chunk_t := set_ptr PNull c.

Lemma index_row_inj c c' l l' : unsigned c -> unsigned c' ->
  index_row c ++ l = index_row c' ++ l' -> printed c = printed c' /\ l = l'.
Proof.
  intros (U1 & U2 & U3 & U4 & U5) (V1 & V2 & V3 & V4 & V5) H. unfold index_row, endl in H.
  change (text ",") with [44] in H. rewrite <- !app_assoc in H. cbn [app] in H.
  repeat (apply field_ends in H as [? H];
    [|by auto using put_u64_field, put_int_field, put_bool_field|by auto using put_u64_field, put_int_field, put_bool_field
     |by constructor|by constructor]).
  split; [|exact H]. destruct c, c'. unfold printed, set_ptr. cbn in *.
  f_equal; first [by apply put_int_inj|by apply put_bool_inj|by apply delta_number_inj|by apply put_u64_inj].
Qed.

(** The rows of a table tell its records. *)
Lemma index_rows_inj cl : forall cl', Forall unsigned cl -> Forall unsigned cl' ->
  concat (index_row <$> cl) = concat (index_row <$> cl') -> printed <$> cl = printed <$> cl'.
Proof.
  assert (forall c rows, index_row c ++ rows <> []) as Hne.
  { intros c rows H. apply (f_equal len) in H. unfold index_row, endl in H. rewrite <- !app_assoc, !len_app, len_nil in H.
    change (len [10]) with 1 in H.
    repeat match type of H with context [len ?x] => lazymatch goal with | _ : 0 <= len x |- _ => fail | _ => pose proof (len_nonneg x) end end. lia. }
  induction cl as [|c cl IH]; intros [|c' cl'] H1 H2 He; cbn [fmap list_fmap concat] in *.
  - done.
  - by destruct (Hne c' (concat (index_row <$> cl'))).
  - by destruct (Hne c (concat (index_row <$> cl))).
  - apply Forall_cons_1 in H1 as [U1 H1]. apply Forall_cons_1 in H2 as [U2 H2].
    destruct (index_row_inj _ _ _ _ U1 U2 He) as [-> He']. f_equal. by apply IH.
Qed.

Lemma save_unique_run d methodname : writable (fs d) (index_path methodname) = true ->
  Save_to_File_unique methodname d = Ok (tt, put_file (index_path methodname)
    (table (files (fs d) !! index_path methodname) index_header (concat (index_row <$> chunklist d))) d).
Proof.
  intros Hw. unfold Save_to_File_unique, mbind, M_bind, gets. cbn. rewrite index_rows_ok, drop_0, take_ge by lia.
  unfold save_table, mbind, M_bind, gets, write_file. cbn. by rewrite Hw.
Qed.

(** A second report has lost its first line. *)
Lemma second_report_has_no_header d methodname : writable (fs d) (index_path methodname) = true ->
  is_Some (files (fs d) !! index_path methodname) ->
  Save_to_File_unique methodname d =
    Ok (tt, put_file (index_path methodname) (concat (index_row <$> chunklist d)) d).
Proof. intros Hw [old Hold]. by rewrite save_unique_run, Hold. Qed.

(** ** Properties *)

(** C16: the chunk index that [Save_to_File_unique] writes says everything about
    [chunklist] but the pointers: the call succeeds on a file that can be
    written, changes nothing but that file, and two stores whose reports have
    the same text have the same records; only the first line depends on what
    was there before, and is missing from a report that replaces another. *)
Theorem chunk_index_report_is_faithful (d d' : dataWrite) (methodname : string)
    (Hw : writable (fs d) (index_path methodname) = true) (Hw' : writable (fs d') (index_path methodname) = true)
    (Hu : Forall unsigned (chunklist d)) (Hu' : Forall unsigned (chunklist d')) :
  exists rows rows',
    Save_to_File_unique methodname d =
      Ok (tt, put_file (index_path methodname) (table (files (fs d) !! index_path methodname) index_header rows) d) /\
    Save_to_File_unique methodname d' =
      Ok (tt, put_file (index_path methodname) (table (files (fs d') !! index_path methodname) index_header rows') d') /\
    (rows = rows' <-> printed <$> chunklist d = printed <$> chunklist d').
Proof.
  exists (concat (index_row <$> chunklist d)), (concat (index_row <$> chunklist d')).
  split; [by apply save_unique_run|]. split; [by apply save_unique_run|]. split; [by apply index_rows_inj|].
  intros H. assert (forall cl : list Chunk_t, index_row <$> cl = index_row <$> (printed <$> cl)) as Hm.
  { intros cl. rewrite <- list_fmap_compose. by apply list_fmap_ext. }
  by rewrite (Hm (chunklist d)), (Hm (chunklist d')), H.
Qed.

Definition demo_store (c : Chunk_t) : dataWrite := set_chunklist [c] (new_dataWrite (mkMem ∅ 0) open_fs).

Lemma chunk_index_report_is_faithful_witness :
  let c := mkChunk 0 8192 100 PNull 0 NO_DELTA false true 12 3 in
  let c' := mkChunk 0 8192 100 (PHeap 7) 0 NO_DELTA false true 12 3 in
  exists rows rows',
    Save_to_File_unique "C1_M0" (demo_store c) = Ok (tt, put_file (index_path "C1_M0") (table None index_header rows) (demo_store c)) /\
    Save_to_File_unique "C1_M0" (demo_store c') = Ok (tt, put_file (index_path "C1_M0") (table None index_header rows') (demo_store c')) /\
    (rows = rows' <-> [printed c] = [printed c']).
Proof.
  intros c c'. refine (chunk_index_report_is_faithful (demo_store c) (demo_store c') "C1_M0" _ _ _ _);
    [reflexivity|reflexivity|by repeat constructor|by repeat constructor].
Defined.
