(* ===== verification/Restore.v ===== *)
(** * Restoring files

    The restore half of [src/datawrite/datawrite.cc]: [restoreFile] and the
    blocks it takes and frees, the second copy of the cut-point functions, and
    [restoreHeaderFile] for archives stored with their headers gathered. *)

From S2P Require Import Prelude Define Chunker Chunking LruCache ReadCache Codec DataWrite Store.

(** ** The bytes a stored chunk stands for *)

Section Plain.
Context `{Lz4, Xdelta}.

(** [plain cl contents id t]: chunk [id] stands for the bytes [t]: its content,
    or what its content decodes to against the content of its base. *)
Definition plain (cl : list Chunk_t) (contents : list bytes) (id : Z) (t : bytes) : Prop :=
  exists c x, 0 <= id < 2 ^ 31 /\ cl !! Z.to_nat id = Some c /\ contents !! Z.to_nat id = Some x /\
    match deltaFlag c with
    | NO_DELTA | NO_LZ4 => t = x /\ chunkSize c = len x
    | _ => saveSize c = len x /\ chunkSize c = len t /\
        exists cb y, 0 <= basechunkID c /\ cl !! Z.to_nat (basechunkID c) = Some cb /\
          contents !! Z.to_nat (basechunkID c) = Some y /\ chunkSize cb = len y /\
          (xd3_decode_memory x y (CONTAINER_MAX_SIZE * 2)).2 = Some t
    end.

Lemma meta_fields c c' :
  meta c = meta c' -> chunkSize c = chunkSize c' /\ saveSize c = saveSize c' /\
    deltaFlag c = deltaFlag c' /\ basechunkID c = basechunkID c' /\ HeaderFlag c = HeaderFlag c' /\
    chunkID c = chunkID c'.
Proof. destruct c, c'. unfold meta, set_ptr, set_load. cbn. by intros [= -> -> -> -> -> -> -> ->]. Qed.

Lemma meta_lookup (cl cl' : list Chunk_t) i c :
  meta <$> cl' = meta <$> cl -> cl !! i = Some c -> exists c', cl' !! i = Some c' /\ meta c = meta c'.
Proof.
  intros Hm Hc. assert ((meta <$> cl') !! i = Some (meta c)) as Hl
    by (by rewrite Hm, list_lookup_fmap, Hc).
  rewrite list_lookup_fmap in Hl. destruct (cl' !! i) as [c'|]; [|done]. cbn in Hl.
  exists c'. split; [done|]. by apply (inj Some) in Hl.
Qed.

Lemma plain_meta cl cl' contents id t :
  meta <$> cl' = meta <$> cl -> plain cl contents id t -> plain cl' contents id t.
Proof.
  intros Hm (c & x & Hid & Hc & Hx & Hcase).
  destruct (meta_lookup _ _ _ _ Hm Hc) as (c' & Hc' & He).
  destruct (meta_fields _ _ He) as (E1 & E2 & E3 & E4 & _). exists c', x.
  split; [done|]. split; [done|]. split; [done|]. rewrite <- E1, <- E2, <- E3, <- E4.
  assert (forall cb, cl !! Z.to_nat (basechunkID c) = Some cb ->
    exists cb', cl' !! Z.to_nat (basechunkID c) = Some cb' /\ chunkSize cb' = chunkSize cb) as Hb.
  { intros cb Hcb. destruct (meta_lookup _ _ _ _ Hm Hcb) as (cb' & Hcb' & Heb).
    destruct (meta_fields _ _ Heb) as (F1 & _). by exists cb'. }
  destruct (deltaFlag c); try done;
    destruct Hcase as (H1 & H2 & cb & y & H3 & H4 & H5 & H6 & H7);
    destruct (Hb _ H4) as (cb' & Hcb' & Hs);
    (split; [done|]; split; [done|]; exists cb', y; rewrite Hs; done).
Qed.

(** ** One chunk *)

Lemma read_mem_grow d m p n x :
  (forall l b, heap (mem d) !! l = Some b -> heap m !! l = Some b) ->
  read_mem p n d = Ok x -> read_mem p n (set_mem m d) = Ok x.
Proof.
  intros Hm. destruct p as [|l|off|i off]; cbn [read_mem]; try done. cbn [mem set_mem].
  destruct (heap (mem d) !! l) as [b|] eqn:Hb; [|done]. by rewrite (Hm _ _ Hb).
Qed.

Lemma heap_fresh d contents l :
  store_ok d contents -> (next_loc (mem d) <= l)%nat -> heap (mem d) !! l = None.
Proof. intros Hok. apply (so_heap _ _ Hok). Qed.

Lemma store_ok_mem d contents m :
  store_ok d contents -> (forall l, (next_loc m <= l)%nat -> heap m !! l = None) ->
  store_ok (set_mem m d) contents.
Proof. intros [H1 Hs0 H2 H3 H4 H5 H6 H7 H8 H9 H10] Hm. by split. Qed.

(** [xd3_decode] leaves exactly one new block, the decoded bytes. *)
Lemma xd3_decode_ok d contents in_ ref i r out (Q : nat * Z -> dataWrite -> Prop) :
  store_ok d contents ->
  read_mem in_ (len i) d = Ok i -> read_mem ref (len r) d = Ok r ->
  (xd3_decode_memory i r (CONTAINER_MAX_SIZE * 2)).2 = Some out ->
  (forall res m, heap (mem d) !! res = None ->
     heap m = <[res := mkBlock (len out) out]> (heap (mem d)) ->
     (forall l, (next_loc m <= l)%nat -> heap m !! l = None) ->
     Q (res, len out) (set_mem m d)) ->
  wp (xd3_decode in_ ref (len i) (len r)) Q d.
Proof.
  intros Hok Hi Hr Hdec HQ. unfold xd3_decode.
  pose proof (heap_fresh d contents) as Hf. specialize (fun l => Hf l Hok).
  set (n0 := next_loc (mem d)) in *.
  apply wp_bind. unfold wpe at 1, malloc.
  match goal with |- wpe _ _ _ ?d' =>
    assert (forall p n x, read_mem p n d = Ok x -> read_mem p n d' = Ok x) as Hst end.
  { intros p n x. apply read_mem_grow. intros l b Hb. cbn. rewrite lookup_insert_ne; [done|].
    intros <-. rewrite Hf in Hb by lia. done. }
  apply wp_bind. unfold wpe at 1, load. rewrite (Hst _ _ _ Hi). cbn [lift].
  apply wp_bind. unfold wpe at 1, load. rewrite (Hst _ _ _ Hr). cbn [lift].
  apply wp_bind. eapply wp_lift_ok; [by rewrite Hdec|].
  apply wp_bind. unfold wpe at 1, malloc. cbn [mem set_mem heap next_loc].
  apply wp_bind. unfold wpe at 1, store. cbn [mem set_mem heap next_loc].
  rewrite lookup_insert_eq. cbn [blk_size blk_data]. rewrite Z.ltb_irrefl, blit_nil.
  apply wp_bind. unfold wpe at 1, free. cbn [mem set_mem heap next_loc].
  rewrite !lookup_insert_ne, lookup_insert_eq by (unfold n0; lia). apply wp_ret.
  apply (HQ (S n0) (mkMem _ (S (S n0)))); cbn [heap next_loc].
  - apply Hf. lia.
  - apply map_eq. intros k. rewrite lookup_delete, !lookup_insert.
    repeat case_decide; subst; try done; try lia. symmetry. apply Hf. unfold n0. lia.
  - intros l Hl. rewrite lookup_delete, !lookup_insert.
    repeat case_decide; subst; try done; try lia. apply Hf. lia.
Qed.

Lemma load_ok p n x d (Q : bytes -> dataWrite -> Prop) :
  read_mem p n d = Ok x -> Q x d -> wp (load p n) Q d.
Proof. intros Hr HQ. unfold wpe, load. by rewrite Hr. Qed.

Lemma free_ok l b d (Q : unit -> dataWrite -> Prop) :
  heap (mem d) !! l = Some b ->
  Q tt (set_mem (mkMem (delete l (heap (mem d))) (next_loc (mem d))) d) -> wp (free (PHeap l)) Q d.
Proof. intros Hl HQ. unfold wpe, free. by rewrite Hl. Qed.

Lemma next_fresh_delete d contents l :
  store_ok d contents ->
  store_ok (set_mem (mkMem (delete l (heap (mem d))) (next_loc (mem d))) d) contents.
Proof.
  intros Hok. apply store_ok_mem; [done|]. intros l' Hl'. cbn in *. rewrite lookup_delete.
  case_decide; [done|]. by eapply heap_fresh.
Qed.

(** The block a read may have taken, on top of the heap [h]. *)
Definition taken (ld : bool) (p : ptr) (h h' : gmap nat Block) : Prop :=
  if ld then exists l b, p = PHeap l /\ h !! l = None /\ h' = <[l := b]> h else h' = h.

Lemma free_if_ok d contents ld p h (Q : unit -> dataWrite -> Prop) :
  store_ok d contents -> taken ld p h (heap (mem d)) ->
  (forall m, heap m = h -> store_ok (set_mem m d) contents -> Q tt (set_mem m d)) ->
  wp (free_if ld p) Q d.
Proof.
  intros Hok Ht HQ. destruct ld; cbn [free_if taken] in *.
  - destruct Ht as (l & b & -> & Hl & Hh). eapply free_ok; [by rewrite Hh, lookup_insert_eq|].
    apply HQ; [|by apply next_fresh_delete]. cbn. rewrite Hh.
    apply map_eq. intros k. rewrite lookup_delete, lookup_insert.
    repeat case_decide; subst; congruence.
  - apply wp_ret. replace d with (set_mem (mem d) d) by (by destruct d). apply HQ; [done|].
    by destruct d.
Qed.

(** [taken] below one more block. *)
Lemma taken_insert ld p h h' res blk :
  taken ld p h h' -> h' !! res = None -> taken ld p (<[res := blk]> h) (<[res := blk]> h').
Proof.
  destruct ld; cbn; [|by intros ->]. intros (l & b & -> & Hl & ->) Hres.
  assert (l <> res) as Hne by (intros ->; by rewrite lookup_insert_eq in Hres).
  exists l, b. split; [done|]. rewrite lookup_insert_ne by done. split; [done|].
  by apply insert_insert_ne.
Qed.

(** Nothing but bookkeeping changed. *)
Record undisturbed (d d' : dataWrite) (contents : list bytes) : Prop := {
  un_ok : store_ok d' contents;
  un_reads : reads d d';
  un_heap : heap (mem d') = heap (mem d)
}.

Lemma reads_mem d d' m : reads d d' -> reads d (set_mem m d').
Proof. intros []. by split. Qed.

Section Content.
Context (d : dataWrite) (contents : list bytes) (Hok : store_ok d contents).

(** A delta: decode it against its base, then free all three blocks. *)
Definition delta_content (info : Chunk_t) : DW bytes :=
  base ← Get_Chunk_Info (basechunkID info);
  r ← xd3_decode (chunkPtr info) (chunkPtr base) (saveSize info) (chunkSize base);
  b ← load (PHeap r.1) (chunkSize info);
  free_if (loadFromDisk base) (chunkPtr base) ;;
  free (PHeap r.1) ;;
  mret b.

Lemma delta_content_ok c x t cb y info d1 (Q : bytes -> dataWrite -> Prop) :
  got d contents c x info d1 ->
  saveSize info = len x -> chunkSize info = len t ->
  0 <= basechunkID info -> chunklist d !! Z.to_nat (basechunkID info) = Some cb ->
  contents !! Z.to_nat (basechunkID info) = Some y -> chunkSize cb = len y ->
  (xd3_decode_memory x y (CONTAINER_MAX_SIZE * 2)).2 = Some t ->
  (forall d', store_ok d' contents -> reads d d' -> heap (mem d') = heap (mem d1) -> Q t d') ->
  wp (delta_content info) Q d1.
Proof using Type.
  intros [G1 G2 G3 G4 G5 G6 G7] Hsv Hcs Hb0 Hcb Hy Hyl Hdec HQ. unfold delta_content.
  destruct (meta_lookup _ _ _ _ (rd_meta _ _ G2) Hcb) as (cb1 & Hcb1 & Hme).
  apply wp_bind. eapply Get_Chunk_Info_ok; [exact G1|done|exact Hcb1|exact Hy|].
  intros base d2 [B1 B2 B3 B4 B5 B6 B7].
  destruct (meta_fields _ _ Hme) as (E1 & _). destruct (meta_fields _ _ B3) as (E2 & _).
  rewrite Hsv, E2, <- E1, Hyl.
  pose proof (B6 _ _ _ G5 G4) as Hinfo.
  apply wp_bind. eapply xd3_decode_ok; [exact B1|exact Hinfo|exact B4|exact Hdec|].
  intros res m Hres Hm Hfr. cbn [fst].
  apply wp_bind. rewrite Hcs. apply (load_ok _ _ t).
  { pose proof (len_nonneg t). cbn [read_mem mem set_mem]. rewrite Hm, lookup_insert_eq. cbn.
    rewrite read_object_ok by lia. unfold sub. by rewrite zdrop_nonpos, ztake_all by lia. }
  apply wp_bind. pose proof (store_ok_mem _ _ m B1 Hfr) as Hok2.
  eapply (free_if_ok _ _ _ _ (<[res := mkBlock (len t) t]> (heap (mem d1)))); [exact Hok2| |].
  { cbn. rewrite Hm. by apply taken_insert. }
  intros m' Hm' Hok3. apply wp_bind. eapply free_ok; [cbn; by rewrite Hm', lookup_insert_eq|].
  apply wp_ret. apply HQ.
  - exact (next_fresh_delete _ _ res Hok3).
  - apply reads_mem, reads_mem, reads_mem. by eapply reads_trans.
  - cbn. rewrite Hm'. apply map_eq. intros k. rewrite lookup_delete, lookup_insert.
    case_decide; subst; [|done]. symmetry. destruct (heap (mem d1) !! k) as [bk|] eqn:Hbk; [|done].
    assert (heap (mem d2) !! k = Some bk) as Hc; [|congruence].
    destruct (loadFromDisk base); [|by rewrite B7]. destruct B7 as (l & bl & _ & Hl & ->).
    rewrite lookup_insert_ne by congruence. done.
Qed.

Lemma chunk_content_ok id t (Q : bytes -> dataWrite -> Prop) :
  plain (chunklist d) contents id t ->
  (forall d', undisturbed d d' contents -> Q t d') ->
  wp (chunk_content id) Q d.
Proof using Hok.
  intros (c & x & Hid & Hc & Hx & Hcase) HQ. unfold chunk_content.
  apply wp_bind. rewrite s32_small by lia. eapply Get_Chunk_Info_ok; [exact Hok|lia|exact Hc|exact Hx|].
  intros info d1 Hgot. pose proof Hgot as [G1 G2 G3 G4 G5 G6 G7].
  destruct (meta_fields _ _ G3) as (E1 & E2 & E3 & E4 & _).
  assert (forall d', store_ok d' contents -> reads d d' -> heap (mem d') = heap (mem d1) ->
    wp (free_if (loadFromDisk info) (chunkPtr info) ;; mret t) Q d') as Hend.
  { intros d' Hok' Hrd Hh. apply wp_bind.
    eapply (free_if_ok _ _ _ _ (heap (mem d))); [exact Hok'|by rewrite Hh|].
    intros m Hm Hok2. apply wp_ret, HQ. split; [done|by apply reads_mem|done]. }
  apply wp_bind. rewrite E1, E3.
  assert (saveSize c = len x -> chunkSize c = len t ->
    (exists cb y, 0 <= basechunkID c /\ chunklist d !! Z.to_nat (basechunkID c) = Some cb /\
        contents !! Z.to_nat (basechunkID c) = Some y /\ chunkSize cb = len y /\
        (xd3_decode_memory x y (CONTAINER_MAX_SIZE * 2)).2 = Some t) ->
    wp (delta_content info) (fun b s' => wp (free_if (loadFromDisk info) (chunkPtr info) ;; mret b) Q s') d1) as delta.
  { intros Hsv Hcs (cb & y & H1 & H2 & H3 & H4 & H5).
    apply (delta_content_ok c x t cb y); try done; try congruence. }
  unfold delta_content in delta. rewrite E1 in delta.
  destruct (deltaFlag c); cbn [decide decide_rel] in *;
    [destruct Hcase as [-> Hcs]|destruct Hcase as [-> Hcs]|destruct Hcase as (? & ? & ?); by apply delta..].
  - rewrite decide_True by done. rewrite Hcs. eapply load_ok; [exact G4|]. by apply Hend.
  - rewrite decide_False, decide_True by done. rewrite Hcs. eapply load_ok; [exact G4|]. by apply Hend.
Qed.
End Content.

(** ** Whole files *)

Lemma undisturbed_trans d1 d2 d3 contents :
  undisturbed d1 d2 contents -> undisturbed d2 d3 contents -> undisturbed d1 d3 contents.
Proof. intros [A1 A2 A3] [B1 B2 B3]. split; [done|by eapply reads_trans|congruence]. Qed.

Lemma restore_chunks_gen cl ids ts contents :
  Forall2 (plain cl contents) ids ts ->
  forall d (Q : bytes -> dataWrite -> Prop), store_ok d contents ->
  meta <$> chunklist d = meta <$> cl ->
  (forall d', undisturbed d d' contents -> Q (concat ts) d') -> wp (restore_chunks ids) Q d.
Proof.
  induction 1 as [|id t ids ts Hp HF IH]; intros d Q Hok Hm HQ.
  - apply wp_ret, HQ. split; [done|apply reads_refl|done].
  - cbn [restore_chunks]. apply wp_bind. eapply chunk_content_ok; [exact Hok|by eapply plain_meta|].
    intros d1 Hd1. pose proof Hd1 as [Hok1 Hr1 _]. apply wp_bind. apply IH; [done| |].
    + by rewrite (rd_meta _ _ Hr1).
    + intros d2 Hd2. apply wp_ret. apply HQ. by eapply undisturbed_trans.
Qed.

Lemma restore_chunks_ok ids ts contents d (Q : bytes -> dataWrite -> Prop) :
  store_ok d contents -> Forall2 (plain (chunklist d) contents) ids ts ->
  (forall d', undisturbed d d' contents -> Q (concat ts) d') ->
  wp (restore_chunks ids) Q d.
Proof. intros Hok HF. by eapply restore_chunks_gen. Qed.

Lemma path_apart k f : container_path k <> restore_path f.
Proof. unfold container_path, restore_path. cbn. intros [=]. Qed.

Lemma store_ok_write d contents f bs :
  store_ok d contents ->
  store_ok (set_fs (mkFs (<[restore_path f := bs]> (files (fs d))) (writable (fs d))) d) contents.
Proof.
  assert (forall k b, file_is (fs d) k b ->
    file_is (mkFs (<[restore_path f := bs]> (files (fs d))) (writable (fs d))) k b) as Hf.
  { intros k b Hk. unfold file_is in *. cbn. rewrite lookup_insert_ne; [done|].
    intros He. by apply (path_apart k f). }
  intros [H1 Hs0 H2 H3 H4 H5 H6 H7 H8 H9 H10]. split; try done.
  - intros k Hk. destruct (H7 k Hk) as (b & Hb & Hl). exists b. split; [by apply Hf|done].
  - eapply Forall2_impl; [exact H8|]. intros c x [P1 P2 P3 (cont & p & Hc & Hr)].
    split; try done. exists cont, p. split; [|done]. unfold container_is in *.
    cbn [fs set_fs cur]. destruct (containerID c =? containerNum (cur d)); [done|by apply Hf].
  - destruct H9 as (l & Hl & HF). exists l. split; [done|]. eapply Forall_impl; [exact HF|].
    intros nb (k & Hk & Hn & Hb). exists k. split; [done|]. split; [done|by apply Hf].
Qed.

Lemma store_ok_recipes d contents r : store_ok d contents -> store_ok (set_recipes r d) contents.
Proof. intros [H1 Hs0 H2 H3 H4 H5 H6 H7 H8 H9 H10]. by split. Qed.

Lemma restoreFile_ok name ids ts contents d :
  store_ok d contents -> writable (fs d) (restore_path name) = true ->
  default [] (RecipeMap (recipes d) !! name) = ids -> Forall2 (plain (chunklist d) contents) ids ts ->
  wp (restoreFile name) (fun _ d' =>
    files (fs d') !! restore_path name = Some (concat ts) /\
    store_ok d' contents /\ heap (mem d') = heap (mem d)) d.
Proof.
  intros Hok Hw Hr HF. unfold restoreFile. apply wp_bind. unfold wpe at 1, recipe_of. rewrite Hr.
  apply wp_bind. eapply restore_chunks_ok; [by apply store_ok_recipes|exact HF|].
  intros d1 [Hok1 [R1 R2 R3 R4 R5] Hh]. apply wp_bind. unfold wpe at 1, write_file.
  rewrite R1. cbn [fs set_recipes]. rewrite Hw. apply wp_ret. cbn.
  rewrite lookup_insert_eq. split; [done|]. split; [|done].
  pose proof (store_ok_write d1 contents name (concat ts) Hok1) as Hok2.
  by rewrite R1 in Hok2.
Qed.
End Plain.

(** ** The restore side's own copy of the cutters

    [dataWrite] declares the sizes as [uint32_t] and takes [len] as
    [const uint32_t]; callers narrow.  The sizes are the default ones. *)

Definition rmin : Z := 4096.
Definition ravg : Z := 8192.
Definition rmax : Z := 16384.

Definition CompareLimit (input lower upper : Z) : Z :=
  if input <=? lower then lower
  else if upper <=? input then upper
  else input.

Definition DivCeil (a b : Z) : Z :=
  let tmp := a / b in
  if a mod b =? 0 then tmp else (tmp + 1)%u32.

Definition CalNormalSize (min av max : Z) : Z :=
  let off := (min + DivCeil min 2)%u32 in
  let off := if av <? off then av else off in
  let diff := (av - off)%u32 in
  if max <? diff then max else diff.

Definition GenerateFastCDCMask (bits : Z) : Z :=
  w32 (Z.shiftl 1 (CompareLimit bits 1 31) - 1).

(** Members the constructor computes. *)
Definition rnormalSize : Z := CalNormalSize rmin ravg rmax.
Definition rbits : Z := round_log2 ravg.
Definition rmaskS : Z := GenerateFastCDCMask (rbits + 1)%u32.
Definition rmaskL : Z := GenerateFastCDCMask (rbits - 1)%u32.

Definition CutPointFastCDC (src : bytes) (room len_ : Z) : result Z :=
  let l := w32 len_ in
  let i := Z.min l rmin in
  let n := Z.min rnormalSize l in
  r ← gear_scan (Some rmaskS) n room (zdrop i src) 0 i;
  match r with
  | Cut cp => Ok cp
  | Scanned fp i rest =>
      let n := Z.min rmax l in
      r ← gear_scan (Some rmaskL) n room rest fp i;
      match r with
      | Cut cp => Ok cp
      | Scanned _ i _ => Ok i
      end
  end.

(** The [FILE_HEADER] case: unlike the chunker's, the [AREGTYPE] branch keeps
    the size it read, without the [- 48] of the digits. *)
Definition tar_header (src : bytes) (s : TarState) : TarState :=
  let data := size_field src in
  let flag := peek src 156 in
  let s := set_size (octal data) s in
  let s :=
    if flag =? REGTYPE then
      if Next_Chunk_Size s <=? CONTAINER_MAX_SIZE then set_type FILE_CHUNK s
      else set_big (round512 (Next_Chunk_Size s)) 0 (set_type BIG_CHUNK s)
    else s in
  let s :=
    if flag =? AREGTYPE then
      let s := set_size (octal_raw data) s in
      if Next_Chunk_Size s <=? CONTAINER_MAX_SIZE then set_type FILE_CHUNK s
      else set_big (round512 (Next_Chunk_Size s)) 0 (set_type BIG_CHUNK s)
    else s in
  if (flag =? XHDTYPE) || (flag =? GNUTYPE_LONGNAME) then set_type FILE_CHUNK s else s.

Definition CutPointTarFast (s : TarState) (src : bytes) (room len_ : Z) : result (Z * TarState) :=
  let l := w32 len_ in
  match Next_Chunk_Type s with
  | FILE_HEADER =>
      if room <=? 156 then Err OobRead
      else
        let s := tar_header src s in
        Ok (if 512 <=? l then 512 else l, s)
  | FILE_CHUNK =>
      let roundedUp := w32 (round512 (Next_Chunk_Size s)) in
      let s := set_size 512 (set_type FILE_HEADER s) in
      Ok (if roundedUp <? l then roundedUp else l, s)
  | BIG_CHUNK =>
      let left := (Big_Chunk_Size s - Big_Chunk_Offset s)%u64 in
      if rmax <? left then
        cp ← CutPointFastCDC src room left;
        Ok (cp, set_big (Big_Chunk_Size s) (Big_Chunk_Offset s + cp)%u64 s)
      else Ok (w32 left, set_type FILE_HEADER s)
  end.

Lemma cut_fastcdc_agrees src room l :
  0 <= l < 2 ^ 32 ->
  CutPointFastCDC src room l = Chunker.CutPointFastCDC (cdc_sizes 8192) src room l.
Proof.
  intros Hl. unfold CutPointFastCDC, Chunker.CutPointFastCDC. rewrite w32_small by lia.
  assert (normalSize (cdc_sizes 8192) = Some rnormalSize) as -> by (by vm_compute).
  assert (maskS (cdc_sizes 8192) = Some rmaskS) as -> by (by vm_compute).
  assert (maskL (cdc_sizes 8192) = Some rmaskL) as -> by (by vm_compute).
  assert (minChunkSize (cdc_sizes 8192) = rmin) as -> by (by vm_compute).
  assert (maxChunkSize (cdc_sizes 8192) = rmax) as -> by (by vm_compute).
  done.
Qed.

(** ** [restoreHeaderFile]

    The headers of an archive are stored as chunks of up to
    [MultiHeaderSize] bytes; the loop takes one header from the buffer,
    refilling it from the header recipe, and then the data chunks that belong
    to it from the data recipe. *)

Section Headers.
Context `{Lz4, Xdelta}.

(** Refill the empty buffer from the header recipe. *)
Definition supplement (hs : list Z) : DW (list Z) :=
  h ← gets hdr;
  match hs with
  | id :: hs' =>
      if MultiHeaderChunkSize h =? MultiHeaderOffset h then
        b ← chunk_content id;
        guard_or (len b <=? 16 * 512) OobWrite ;;
        modify (fun d => set_hdr (mkHeaderState (h_tar (hdr d))
          (blit (MultiHeaderBuffer (hdr d)) 0 b) (len b) 0) d) ;;
        mret hs'
      else mret hs
  | [] => mret hs
  end.

(** The chunks of a big member: [while (BigChunkSize)], from [*DataP++]. *)
Fixpoint big_loop (ds : list Z) (left : Z) (out : bytes) : DW (list Z * bytes) :=
  if left =? 0 then mret (ds, out)
  else match ds with
  | [] => throw OobRead
  | id :: ds' => b ← chunk_content id; big_loop ds' (left - len b)%u64 (out ++ b)
  end.

(** One header: its 512 bytes go out, and the tar state follows it. *)
Definition next_header : DW bytes :=
  h ← gets hdr;
  let off := MultiHeaderOffset h in
  _ ← lift (read_object (16 * 512) off 157 (MultiHeaderBuffer h));
  r ← lift (CutPointTarFast (set_type FILE_HEADER (h_tar h)) (zdrop off (MultiHeaderBuffer h))
              (16 * 512 - off) (MultiHeaderChunkSize h - off)%u64);
  b ← lift (read_object (16 * 512) off HeaderSize (MultiHeaderBuffer h));
  modify (fun d => set_hdr (mkHeaderState r.2 (MultiHeaderBuffer (hdr d))
    (MultiHeaderChunkSize (hdr d)) (off + HeaderSize)%u64) d) ;;
  mret b.

(** The data of the member the header announced. *)
Definition member_data (ds : list Z) : DW (list Z * bytes) :=
  h ← gets hdr;
  match Next_Chunk_Type (h_tar h), ds with
  | FILE_CHUNK, id :: ds' => b ← chunk_content id; mret (ds', b)
  | BIG_CHUNK, _ :: _ => big_loop ds (Big_Chunk_Size (h_tar h)) []
  | _, _ => mret (ds, [])
  end.

Fixpoint header_loop (fuel : nat) (hs ds : list Z) (out : bytes) : DW bytes :=
  h ← gets hdr;
  if bool_decide (hs = []) && bool_decide (ds = []) &&
     (MultiHeaderChunkSize h =? MultiHeaderOffset h) then mret out
  else match fuel with
  | O => throw OutOfFuel
  | S fuel' =>
      hs ← supplement hs;
      b ← next_header;
      h ← gets hdr;
      if Next_Chunk_Size (h_tar h) =? 0 then header_loop fuel' hs ds (out ++ b)
      else
        r ← member_data ds;
        header_loop fuel' hs r.1 (out ++ b ++ r.2)
  end.

Definition restoreHeaderFile (fuel : nat) (fileName : string) : DW unit :=
  hs ← header_recipe_of fileName;
  ds ← recipe_of fileName;
  out ← header_loop fuel hs ds [];
  modify (fun d => set_hdr (mkHeaderState (set_type FILE_HEADER (h_tar (hdr d)))
    (MultiHeaderBuffer (hdr d)) (MultiHeaderChunkSize (hdr d)) (MultiHeaderOffset (hdr d))) d) ;;
  _ ← write_file (restore_path fileName) out;
  mret tt.
End Headers.

(** ** Properties *)

(** C12: restoring a file: when every id of the file's recipe stands for some
    bytes, [restoreFile] writes exactly their concatenation, whether the chunks
    are raw, compressed or deltas, cached, on disk or in the current container;
    it frees every block it takes (the heap is what it was), and the store
    keeps its contents. *)
Theorem restore_file_writes_content `{Lz4, Xdelta} (d : dataWrite) (contents : list bytes)
    (name : string) (ids : list Z) (ts : list bytes)
    (Hok : store_ok d contents) (Hw : writable (fs d) (restore_path name) = true)
    (Hr : default [] (RecipeMap (recipes d) !! name) = ids)
    (HF : Forall2 (plain (chunklist d) contents) ids ts) :
  wp (restoreFile name) (fun _ d' =>
    files (fs d') !! restore_path name = Some (concat ts) /\
    store_ok d' contents /\ heap (mem d') = heap (mem d)) d.
Proof. by eapply restoreFile_ok. Qed.

Lemma restore_file_writes_content_witness :
  wp (@restoreFile StoreCodec.lz4 StoreCodec.xdelta "f") (fun _ d' =>
    files (fs d') !! restore_path "f" = Some (concat [[10; 20]; [10; 20]]) /\
    @store_ok StoreCodec.lz4 d' [[10; 20]] /\ heap (mem d') = heap (mem one_chunk_store)) one_chunk_store.
Proof.
  apply (@restore_file_writes_content StoreCodec.lz4 StoreCodec.xdelta _ [[10; 20]] "f" [0; 0] [[10; 20]; [10; 20]]);
    [apply one_chunk_store_ok|reflexivity|reflexivity|].
  repeat constructor; (eexists _, [10; 20]; split; [lia|]; split; [reflexivity|]; split; [reflexivity|];
    split; reflexivity).
Defined.

(** The restore side cuts a tar archive where the chunker cut it: on any
    state, the two copies of [CutPointTarFast] agree (length and next state)
    for data shorter than 4 GiB, except on a header whose type flag is
    [AREGTYPE]; there the chunker takes the member as empty, and the restore
    side reads the size field without subtracting the digits' ['0']: for an
    empty old-style member (eleven ['0'] digits) it expects a member of
    58902408624 bytes. *)
Theorem restore_cut_agrees (s : TarState) (src : bytes) (room l : Z)
    (Hl : 0 <= l < 2 ^ 32)
    (Hn : round512 (Next_Chunk_Size s) < 2 ^ 32)
    (Hb : (Big_Chunk_Size s - Big_Chunk_Offset s)%u64 < 2 ^ 32) :
  (peek src 156 <> AREGTYPE \/ Next_Chunk_Type s <> FILE_HEADER ->
     CutPointTarFast s src room l = Chunker.CutPointTarFast (cdc_sizes 8192) s src room l) /\
  (peek src 156 = AREGTYPE -> size_field src = replicate 11 48 ->
     Next_Chunk_Size (Chunker.tar_header src s) = 0 /\
     Next_Chunk_Type (Chunker.tar_header src s) = FILE_CHUNK /\
     Next_Chunk_Size (tar_header src s) = 58902408624 /\
     Next_Chunk_Type (tar_header src s) = BIG_CHUNK).
Proof.
  split.
  - intros Hflag. pose proof (w64_bound (Big_Chunk_Size s - Big_Chunk_Offset s)) as Hbb.
    unfold CutPointTarFast, Chunker.CutPointTarFast. rewrite (w32_small l) by lia.
    destruct (Next_Chunk_Type s) eqn:Ht.
    + rewrite w32_small; [done|]. split; [|done]. apply w64_bound.
    + destruct Hflag as [Hflag|[]]; [|done]. destruct (room <=? 156); [done|].
      unfold tar_header, Chunker.tar_header. by rewrite (proj2 (Z.eqb_neq _ AREGTYPE)).
    + rewrite cut_fastcdc_agrees by lia. rewrite w32_small by lia. done.
  - intros Hflag Hdigits. unfold tar_header, Chunker.tar_header. rewrite Hflag, Hdigits.
    cbn -[octal octal_raw round512 Z.leb]. by split_and!.
Qed.

Lemma restore_cut_agrees_witness :
  CutPointTarFast tar_init (replicate 156 48 ++ [48] ++ replicate 355 0) 8192 8192 =
    Chunker.CutPointTarFast (cdc_sizes 8192) tar_init (replicate 156 48 ++ [48] ++ replicate 355 0) 8192 8192.
Proof.
  destruct (restore_cut_agrees tar_init (replicate 156 48 ++ [48] ++ replicate 355 0) 8192 8192)
    as [H _]; [done|done|done|]. apply H. by left.
Defined.
