(* ===== verification/HeaderRestore.v ===== *)
(** * Restoring an archive whose headers are stored apart

    [dataWrite::restoreHeaderFile] of [src/datawrite/datawrite.cc] on the recipes
    of an archive: the header chunks, the data chunks, and how the loop puts
    them back in the archive's order. *)

From S2P Require Import Prelude Define Chunker Tar MultiHeader LruCache ReadCache Codec DataWrite Store Restore.

(** ** Headers *)

(** A member that the restore side reads as it was meant: an old-style regular
    file ([AREGTYPE]) only with an empty size field, as in the blocks of zeros
    that end an archive. *)
Definition restorable (m : Member) : Prop :=
  member_wf m /\ (m_flag m = AREGTYPE -> size_field (m_header m) = replicate 11 0).

(** What the state says of the data that follows the header of [m]. *)
Definition follows (m : Member) (t : TarState) : Prop :=
  if carries m && (0 <? m_size m) then
    Next_Chunk_Size t = m_size m /\
    if m_size m <=? CONTAINER_MAX_SIZE then Next_Chunk_Type t = FILE_CHUNK
    else Next_Chunk_Type t = BIG_CHUNK /\ Big_Chunk_Size t = round512 (m_size m)
  else Next_Chunk_Size t = 0 \/ Next_Chunk_Type t = FILE_HEADER.

Lemma restore_header_member m rest s : restorable m -> Next_Chunk_Type s = FILE_HEADER ->
  follows m (Restore.tar_header (m_header m ++ rest) s).
Proof.
  intros [[Hh Hsz Hf Hc Hn Hx] Hold] Ht.
  assert (forall i, 0 <= i < 512 -> peek (m_header m ++ rest) i = peek (m_header m) i) as Hpeek.
  { intros i Hi. rewrite <- (peek_ztake (m_header m ++ rest) 512 i) by lia. by rewrite ztake_app_le, ztake_all by lia. }
  assert (size_field (m_header m ++ rest) = size_field (m_header m)) as Hfield.
  { unfold size_field. apply list_fmap_ext. intros i x [-> Hi]%lookup_seq. apply Hpeek. lia. }
  assert (carries m = true -> octal (size_field (m_header m)) = m_size m) as Ho.
  { intros Hcar. rewrite Hf by done. by apply octal_put_value. }
  unfold follows, Restore.tar_header. rewrite Hfield, Hpeek by lia. fold (m_flag m).
  unfold carries, REGTYPE, AREGTYPE, XHDTYPE, GNUTYPE_LONGNAME in *.
  destruct (Z.eqb_spec (m_flag m) 48) as [E|E1]; [rewrite !E in *|];
    [|destruct (Z.eqb_spec (m_flag m) 120) as [E|E2]; [rewrite !E in *|];
      [|destruct (Z.eqb_spec (m_flag m) 76) as [E|E3]; [rewrite !E in *|];
        [|destruct (Z.eqb_spec (m_flag m) 0) as [E|E4]; [rewrite !E in *|]]]];
    cbn -[Z.leb Z.ltb CONTAINER_MAX_SIZE octal octal_raw size_field round512] in Ho |- *; rewrite ?Ho by done.
  - destruct (Z.leb_spec (m_size m) CONTAINER_MAX_SIZE) as [Hle|Hgt]; cbn -[Z.ltb]; rewrite ?Ho by done.
    + destruct (Z.ltb_spec 0 (m_size m)); [done|left; lia].
    + rewrite (proj2 (Z.ltb_lt 0 (m_size m))) by (unfold CONTAINER_MAX_SIZE in Hgt; lia). done.
  - destruct (Z.ltb_spec 0 (m_size m)); [|left; lia]. rewrite (proj2 (Z.leb_le _ CONTAINER_MAX_SIZE)) by (apply Hx; lia). done.
  - destruct (Z.ltb_spec 0 (m_size m)); [|left; lia]. rewrite (proj2 (Z.leb_le _ CONTAINER_MAX_SIZE)) by (apply Hx; lia). done.
  - left. rewrite Hold by done. by vm_compute.
  - by right.
Qed.

(** ** The loop *)

Lemma read_within size off n buf : 0 <= off -> 0 <= n -> off + n <= len buf -> off + n <= size -> read_object size off n buf = Ok (sub off n buf).
Proof. intros. rewrite <- (app_nil_r buf) at 1. by apply read_object_prefix. Qed.

Section Loop.
Context `{HL : Lz4} `{HX : Xdelta}.
Context (d0 : dataWrite) (contents : list bytes).

(** Since [d0] only the header buffer has changed, and what reading changes. *)
Record kept (d : dataWrite) : Prop := {
  ke_ok : store_ok d contents;
  ke_fs : fs d = fs d0;
  ke_meta : meta <$> chunklist d = meta <$> chunklist d0;
  ke_heap : heap (mem d) = heap (mem d0)
}.

(** The bytes of the header buffer that are still to be written out. *)
Record holding (h : HeaderState) (lft : bytes) : Prop := {
  ho_off : 0 <= MultiHeaderOffset h;
  ho_size : MultiHeaderChunkSize h = MultiHeaderOffset h + len lft;
  ho_max : MultiHeaderChunkSize h <= 16 * 512;
  ho_left : sub (MultiHeaderOffset h) (len lft) (MultiHeaderBuffer h) = lft
}.

Lemma holding_nil h : 0 <= MultiHeaderOffset h <= 16 * 512 -> MultiHeaderChunkSize h = MultiHeaderOffset h -> holding h [].
Proof using Type.
  intros Ho Hs. split; rewrite ?(@len_nil Z); try lia. unfold sub. by rewrite ztake_nonpos.
Qed.

Lemma kept_hdr d h : kept d -> kept (set_hdr h d).
Proof using Type. intros [[H1 H2 H3 H4 H5 H6 H7 H8 H9 H10] K2 K3 K4]. by split. Qed.

Lemma content_ok id t d (Q : bytes -> dataWrite -> Prop) : plain (chunklist d0) contents id t -> kept d ->
  (forall d', kept d' -> hdr d' = hdr d -> Q t d') -> wp (chunk_content id) Q d.
Proof using Type.
  intros Hp [K1 K2 K3 K4] HQ. eapply chunk_content_ok; [exact K1|by eapply plain_meta|].
  intros d' [U1 [R1 R2 R3 R4 R5] U3]. apply HQ; [|done]. split; congruence || done.
Qed.

Lemma big_loop_ok ds ps : Forall2 (plain (chunklist d0) contents) ds ps -> Forall (fun p => p <> []) ps ->
  forall rest out d (Q : list Z * bytes -> dataWrite -> Prop), kept d -> len (concat ps) < 2 ^ 64 ->
  (forall d', kept d' -> hdr d' = hdr d -> Q (rest, out ++ concat ps) d') ->
  wp (big_loop (ds ++ rest) (len (concat ps)) out) Q d.
Proof using Type.
  induction 1 as [|id p ds ps Hp _ IH]; intros Hne rest out d Q Hk Hlen HQ.
  - cbn [concat app]. rewrite (@len_nil Z). destruct rest; cbn [big_loop]; apply wp_ret; rewrite <- (app_nil_r out); by apply HQ.
  - apply Forall_cons in Hne as [Hpn Hne]. cbn [concat] in *. rewrite len_app in *. pose proof (len_nonneg p). pose proof (len_nonneg (concat ps)).
    assert (len p <> 0) by (by intros ?%len_0_nil). cbn [big_loop app].
    rewrite (proj2 (Z.eqb_neq _ 0)) by lia. apply wp_bind. eapply content_ok; [exact Hp|done|]. intros d1 K1 E1.
    rewrite w64_small by lia. replace (len p + len (concat ps) - len p) with (len (concat ps)) by lia.
    apply IH; [done|done|lia|]. intros d2 K2 E2. rewrite <- app_assoc. apply HQ; [done|congruence].
Qed.

Lemma no_content m : member_wf m -> carries m && (0 <? m_size m) = false -> m_content m = [].
Proof using Type.
  intros Hwf Hc. destruct (carries m) eqn:Hcar; [|by apply (mw_none _ Hwf)]. apply len_0_nil. rewrite (mw_content _ Hwf Hcar).
  pose proof (mw_size _ Hwf). apply Z.ltb_ge in Hc. replace (m_size m) with 0 by lia. by vm_compute.
Qed.

Lemma member_data_ok m ds ps rest d (Q : list Z * bytes -> dataWrite -> Prop) : restorable m -> follows m (h_tar (hdr d)) ->
  Next_Chunk_Size (h_tar (hdr d)) <> 0 -> data_of m ps -> Forall2 (plain (chunklist d0) contents) ds ps -> kept d ->
  (forall d', kept d' -> hdr d' = hdr d -> Q (rest, m_content m) d') ->
  wp (member_data (ds ++ rest)) Q d.
Proof using Type.
  intros [Hwf _] Hf Hn0 Hps HF Hk HQ. unfold member_data. apply wp_bind, wp_gets. unfold follows, data_of in *.
  destruct (carries m && (0 <? m_size m)) eqn:Hc.
  - apply andb_true_iff in Hc as [Hcar Hpos%Z.ltb_lt]. pose proof (mw_content _ Hwf Hcar) as Hlen. pose proof (mw_size _ Hwf) as Hsz.
    pose proof (round512_spec (m_size m) ltac:(lia)) as [Hr _].
    destruct Hf as [_ Hf]. destruct (Z.leb_spec (m_size m) CONTAINER_MAX_SIZE).
    + subst ps. apply Forall2_cons_inv_r in HF as (id & ds' & Hp & HF & ->). apply Forall2_nil_inv_r in HF as ->.
      rewrite Hf. cbn [app]. apply wp_bind. eapply content_ok; [exact Hp|done|]. intros d' K E. apply wp_ret. by apply HQ.
    + destruct Hf as [-> ->], Hps as [Hcat Hne]. rewrite <- Hlen, <- Hcat.
      assert (exists id ds', ds ++ rest = id :: ds') as (id & ds' & Hds).
      { destruct HF; [|by eexists _, _]. cbn [concat] in Hcat. rewrite <- Hcat, (@len_nil Z) in Hlen. lia. }
      rewrite Hds, <- Hds. apply (big_loop_ok ds ps HF Hne); [done|rewrite Hcat; lia|]. intros d' K E. rewrite app_nil_l, Hcat. by apply HQ.
  - subst ps. apply Forall2_nil_inv_r in HF as ->. destruct Hf as [Hf|Hf]; [done|]. rewrite Hf. cbn [app]. apply wp_ret.
    rewrite (no_content m Hwf Hc) in HQ. by apply HQ.
Qed.

Lemma supplement_ok hs hts lft d (Q : list Z -> bytes -> list bytes -> dataWrite -> Prop) :
  kept d -> holding (hdr d) lft -> len lft mod 512 = 0 -> Forall2 (plain (chunklist d0) contents) hs hts -> Forall header_chunk hts ->
  lft ++ concat hts <> [] ->
  (forall hs' lft' hts' d', kept d' -> holding (hdr d') lft' -> len lft' mod 512 = 0 -> lft' <> [] ->
     Forall2 (plain (chunklist d0) contents) hs' hts' -> Forall header_chunk hts' -> lft' ++ concat hts' = lft ++ concat hts -> Q hs' lft' hts' d') ->
  wp (supplement hs) (fun hs' d' => exists lft' hts', Q hs' lft' hts' d') d.
Proof using Type.
  intros Hk Hh Hmod HF Hhts Hne HQ. unfold supplement. apply wp_bind, wp_gets. destruct HF as [|id t hs hts Hp HF].
  { apply wp_ret. exists lft, []. apply HQ; try done. by rewrite app_nil_r in Hne. }
  apply Forall_cons in Hhts as [[Ht Htm] Hhts]. pose proof Hh as [Ho Hs Hm Hl].
  destruct (Z.eqb_spec (MultiHeaderChunkSize (hdr d)) (MultiHeaderOffset (hdr d))) as [E|N].
  - assert (lft = []) as -> by (apply len_0_nil; lia). apply wp_bind. eapply content_ok; [exact Hp|done|]. intros d1 K1 E1.
    apply wp_bind, wp_guard; [apply Z.leb_le; lia|]. apply wp_bind, wp_modify, wp_ret. exists t, hts.
    apply HQ; try done; [by apply kept_hdr| |intros ->; rewrite (@len_nil Z) in Ht; lia].
    cbn [hdr set_hdr]. split; cbn [MultiHeaderOffset MultiHeaderChunkSize MultiHeaderBuffer]; [lia|lia|lia|apply sub_blit_0].
  - apply wp_ret. exists lft, (t :: hts). apply HQ; try done; [|by constructor..]. intros ->. rewrite (@len_nil Z) in Hs. lia.
Qed.

Lemma next_header_ok m lft d (Q : bytes -> dataWrite -> Prop) : restorable m -> kept d -> holding (hdr d) (m_header m ++ lft) ->
  (forall d', kept d' -> holding (hdr d') lft -> follows m (h_tar (hdr d')) -> Q (m_header m) d') ->
  wp next_header Q d.
Proof using Type.
  intros Hm Hk [Ho Hs Hmax Hl] HQ. pose proof Hm as [Hwf _]. pose proof (mw_header _ Hwf) as H512. pose proof (len_nonneg lft).
  rewrite len_app, H512 in *. set (h := hdr d) in *.
  assert (MultiHeaderOffset h + (512 + len lft) <= len (MultiHeaderBuffer h)) as Hbuf.
  { pose proof (f_equal len Hl) as E. unfold sub in E. rewrite len_ztake, len_zdrop, len_app, H512 in E. lia. }
  assert (sub (MultiHeaderOffset h) 512 (MultiHeaderBuffer h) = m_header m /\
    sub (MultiHeaderOffset h + 512) (len lft) (MultiHeaderBuffer h) = lft) as [Hhead Hrest].
  { rewrite sub_split in Hl by lia. apply app_inj_1 in Hl; [done|].
    pose proof (len_sub (MultiHeaderOffset h) 512 (MultiHeaderBuffer h) ltac:(lia) ltac:(lia) ltac:(lia)) as E. rewrite len_length in E, H512. lia. }
  unfold next_header. apply wp_bind, wp_gets. fold h.
  apply wp_bind. eapply wp_lift_ok; [apply read_within; lia|].
  cbn beta. set (src := zdrop (MultiHeaderOffset h) (MultiHeaderBuffer h)).
  assert (src = m_header m ++ zdrop 512 src) as Hsrc by (rewrite <- Hhead; unfold sub; fold src; by rewrite ztake_zdrop).
  apply wp_bind. eapply wp_lift_ok.
  { unfold Restore.CutPointTarFast. cbn [Next_Chunk_Type set_type]. rewrite (proj2 (Z.leb_gt (16 * 512 - MultiHeaderOffset h) 156)) by lia. reflexivity. }
  cbn beta. apply wp_bind. eapply wp_lift_ok; [apply read_within; unfold HeaderSize; lia|].
  cbn beta. unfold HeaderSize. rewrite Hhead. apply wp_bind, wp_modify, wp_ret.
  apply HQ; [by apply kept_hdr| |].
  - cbn [hdr set_hdr]. fold h. rewrite (w64_small (MultiHeaderOffset h + 512)) by lia.
    split; cbn [MultiHeaderOffset MultiHeaderChunkSize MultiHeaderBuffer]; [lia|lia|lia|exact Hrest].
  - cbn [hdr set_hdr h_tar snd]. rewrite Hsrc. by apply restore_header_member.
Qed.

Lemma header_loop_ok ms : forall fuel hs hts lft ds dss out d (Q : bytes -> dataWrite -> Prop), (length ms <= fuel)%nat -> Forall restorable ms ->
  kept d -> holding (hdr d) lft -> len lft mod 512 = 0 -> Forall2 (plain (chunklist d0) contents) hs hts -> Forall header_chunk hts ->
  lft ++ concat hts = concat (m_header <$> ms) -> Forall2 (plain (chunklist d0) contents) ds (concat dss) -> Forall2 data_of ms dss ->
  (forall d', kept d' -> holding (hdr d') [] -> Q (out ++ archive ms) d') -> wp (header_loop fuel hs ds out) Q d.
Proof using Type.
  induction ms as [|m ms IH]; intros fuel hs hts lft ds dss out d Q Hf Hms Hk Hh Hmod HF Hhts Hcat HD Hdss HQ.
  - apply app_eq_nil in Hcat as [-> Hcat]. apply Forall2_nil_inv_l in Hdss as ->. apply Forall2_nil_inv_r in HD as ->.
    assert (hs = []) as ->.
    { destruct HF as [|id t hs hts _ _]; [done|]. apply Forall_cons in Hhts as [[Ht _] _]. cbn in Hcat. apply app_eq_nil in Hcat as [-> _].
      rewrite (@len_nil Z) in Ht. lia. }
    assert (header_loop fuel [] [] out d = Ok (out, d)) as Hend.
    { pose proof (ho_size _ _ Hh) as Hs. rewrite (@len_nil Z), Z.add_0_r in Hs.
      destruct fuel; cbn [header_loop]; unfold mbind, M_bind, gets; by rewrite Hs, Z.eqb_refl. }
    unfold wpe. rewrite Hend. rewrite <- (app_nil_r out). by apply HQ.
  - apply Forall_cons in Hms as [Hm Hms]. apply Forall2_cons_inv_l in Hdss as (ps & dss' & Hps & Hdss & ->). cbn [concat] in HD.
    apply Forall2_app_inv_r in HD as (ds1 & ds2 & HD1 & HD2 & ->). destruct fuel as [|fuel]; [cbn in Hf; lia|].
    pose proof (mw_header _ (proj1 Hm)) as H512.
    assert (lft ++ concat hts <> []) as Hne by (rewrite Hcat; cbn; intros [E _]%app_eq_nil; by rewrite E, (@len_nil Z) in H512).
    cbn [header_loop]. apply wp_bind, wp_gets.
    assert (bool_decide (hs = []) && bool_decide (ds1 ++ ds2 = []) && (MultiHeaderChunkSize (hdr d) =? MultiHeaderOffset (hdr d)) = false) as ->.
    { apply andb_false_iff. destruct (decide (hs = [])) as [->|Hn]; [right|left; by rewrite bool_decide_eq_false_2].
      apply Forall2_nil_inv_l in HF as ->. rewrite app_nil_r in Hne. pose proof (ho_size _ _ Hh). apply Z.eqb_neq. pose proof (len_nonneg lft).
      assert (len lft <> 0) by (by intros ?%len_0_nil). lia. }
    apply wp_bind. eapply wp_mono; [apply (supplement_ok hs hts lft d (fun hs' lft' hts' d' => kept d' /\ holding (hdr d') lft' /\
      len lft' mod 512 = 0 /\ lft' <> [] /\ Forall2 (plain (chunklist d0) contents) hs' hts' /\ Forall header_chunk hts' /\
      lft' ++ concat hts' = lft ++ concat hts)); try done|].
    intros hs' d1 (lft' & hts' & K1 & Hh1 & Hmod1 & Hne1 & HF1 & Hhts1 & Hcat1). rewrite Hcat in Hcat1. cbn in Hcat1.
    assert (exists lft2, lft' = m_header m ++ lft2) as [lft2 ->].
    { exists (zdrop 512 lft'). rewrite <- (ztake_zdrop 512 lft') at 1. f_equal. apply (f_equal (ztake 512)) in Hcat1.
      pose proof (len_nonneg lft'). assert (len lft' <> 0) by (by intros ?%len_0_nil). pose proof (Z.div_mod (len lft') 512).
      rewrite !ztake_app_le in Hcat1 by lia. rewrite (ztake_all 512 (m_header m)) in Hcat1 by lia. exact Hcat1. }
    rewrite <- app_assoc in Hcat1. apply app_inv_head in Hcat1. rewrite len_app, H512 in Hmod1.
    assert (len lft2 mod 512 = 0) as Hmod2 by (replace (len lft2) with (512 + len lft2 + (-1) * 512) by lia; by rewrite Z.mod_add by lia).
    apply wp_bind, (next_header_ok m lft2); [done..|]. intros d2 K2 Hh2 Hfol.
    apply wp_bind, wp_gets.
    assert (forall d' out', kept d' -> holding (hdr d') lft2 -> out' = out ++ m_header m ++ m_content m ->
      wp (header_loop fuel hs' ds2 out') Q d') as Hnext.
    { intros d' out' K' Hh' ->. eapply IH; [cbn in Hf; lia|done..|]. intros d3 K3 Hh3. rewrite <- !app_assoc.
      by apply (HQ d3) in Hh3; rewrite ?(archive_cons m ms) in Hh3. }
    destruct (Z.eqb_spec (Next_Chunk_Size (h_tar (hdr d2))) 0) as [E0|N0].
    + unfold follows, data_of in Hfol, Hps. destruct (carries m && (0 <? m_size m)) eqn:Hc.
      { apply andb_true_iff in Hc as [_ Hc%Z.ltb_lt]. lia. }
      subst ps. apply Forall2_nil_inv_r in HD1 as ->. apply Hnext; [done..|]. by rewrite (no_content m (proj1 Hm) Hc), app_nil_r.
    + apply wp_bind, (member_data_ok m ds1 ps ds2); [done..|]. intros d3 K3 E3. apply Hnext; [done|by rewrite E3|done].
Qed.
End Loop.

Lemma restore_header_file_ok `{Lz4, Xdelta} (d : dataWrite) (contents : list bytes) (name : string)
    (hs ds : list Z) (hts : list bytes) (dss : list (list bytes)) (ms : list Member) (fuel : nat)
    (Hok : store_ok d contents) (Hw : writable (fs d) (restore_path name) = true)
    (Hr : default [] (RecipeMap_header (recipes d) !! name) = hs) (Hd : default [] (RecipeMap (recipes d) !! name) = ds)
    (Hms : Forall restorable ms) (Hfuel : (length ms <= fuel)%nat)
    (Hhs : Forall2 (plain (chunklist d) contents) hs hts) (Hhts : Forall header_chunk hts) (Hcat : concat hts = concat (m_header <$> ms))
    (Hds : Forall2 (plain (chunklist d) contents) ds (concat dss)) (Hdss : Forall2 data_of ms dss)
    (Hoff : 0 <= MultiHeaderOffset (hdr d) <= 16 * 512) (Hused : MultiHeaderChunkSize (hdr d) = MultiHeaderOffset (hdr d)) :
  wp (restoreHeaderFile fuel name) (fun _ d' =>
    files (fs d') !! restore_path name = Some (archive ms) /\ store_ok d' contents /\ heap (mem d') = heap (mem d) /\
    MultiHeaderChunkSize (hdr d') = MultiHeaderOffset (hdr d')) d.
Proof.
  unfold restoreHeaderFile. apply wp_bind. unfold wpe at 1, header_recipe_of. rewrite Hr.
  apply wp_bind. unfold wpe at 1, recipe_of. cbn [recipes set_recipes RecipeMap filename RecipeMap_header]. rewrite Hd.
  set (d1 := set_recipes _ (set_recipes _ d)).
  assert (kept d1 contents d1) as K1 by (split; [by apply store_ok_recipes, store_ok_recipes|done..]).
  apply wp_bind. eapply (header_loop_ok d1 contents ms fuel hs hts [] ds dss []); try done; [by apply holding_nil|].
  intros d2 K2 Hh. apply wp_bind, wp_modify. set (d3 := set_hdr _ d2).
  assert (kept d1 contents d3) as [O3 F3 M3 P3] by by apply kept_hdr.
  apply wp_bind. unfold wpe at 1, write_file. rewrite F3. change (fs d1) with (fs d). rewrite Hw. apply wp_ret.
  split; [cbn; by rewrite lookup_insert_eq|]. split; [|split; [exact P3|]].
  - pose proof (store_ok_write d3 contents name (archive ms) O3) as O4. rewrite F3 in O4. exact O4.
  - pose proof (ho_size _ _ Hh) as Hs. rewrite (@len_nil Z) in Hs. cbn. lia.
Qed.

(** ** Properties *)

(** C13: restoring an archive chunked with its headers apart: for an archive of
    well-formed members in which the size field of the old-style members (flag 0)
    is all zero bytes, as in the blocks that end an archive (the restorer does not
    read such a size as the chunker does), when the header recipe of the file
    stands for the archive's headers in order, cut into chunks of at most 16
    headers, and its data recipe for the members' data (a small member one chunk,
    a big member any number of chunks, an empty one none), and the header buffer
    is used up, [restoreHeaderFile] writes the archive itself, headers and data
    interleaved again, with as many turns of its loop as there are members; it
    frees every block it takes and leaves the header buffer used up, ready for
    the next file. *)
Theorem restore_header_file_rebuilds `{Lz4, Xdelta} (d : dataWrite) (contents : list bytes) (name : string)
    (hs ds : list Z) (hts : list bytes) (dss : list (list bytes)) (ms : list Member) (fuel : nat)
    (Hok : store_ok d contents) (Hw : writable (fs d) (restore_path name) = true)
    (Hr : default [] (RecipeMap_header (recipes d) !! name) = hs) (Hd : default [] (RecipeMap (recipes d) !! name) = ds)
    (Hms : Forall restorable ms) (Hfuel : (length ms <= fuel)%nat)
    (Hhs : Forall2 (plain (chunklist d) contents) hs hts) (Hhts : Forall header_chunk hts) (Hcat : concat hts = concat (m_header <$> ms))
    (Hds : Forall2 (plain (chunklist d) contents) ds (concat dss)) (Hdss : Forall2 data_of ms dss)
    (Hoff : 0 <= MultiHeaderOffset (hdr d) <= 16 * 512) (Hused : MultiHeaderChunkSize (hdr d) = MultiHeaderOffset (hdr d)) :
  wp (restoreHeaderFile fuel name) (fun _ d' =>
    files (fs d') !! restore_path name = Some (archive ms) /\ store_ok d' contents /\ heap (mem d') = heap (mem d) /\
    MultiHeaderChunkSize (hdr d') = MultiHeaderOffset (hdr d')) d.
Proof. by eapply restore_header_file_ok. Qed.

(** A file of three bytes and the two blocks that end the archive. *)
Definition end_block : Member := mkMember (replicate 512%nat 0) 0 [].
Definition demo_archive : list Member := [demo_member; end_block; end_block].
Definition demo_headers : bytes := concat (m_header <$> demo_archive).
Definition demo_contents : list bytes := [demo_headers; m_content demo_member].

Definition demo_store : dataWrite :=
  mkDW (mkMem ∅ 0) open_fs (mkCur 0 (mkContainer 2048 2 0 (concat demo_contents)) 2048) (mkCounters 2 2048 0 0)
    (mkRecipes "f" {[ "f"%string := [1] ]} {[ "f"%string := [0] ]})
    [mkChunk 0 1536 1536 PNull 0 NO_LZ4 false true 0 0; mkChunk 1 512 512 PNull 0 NO_LZ4 false false 1536 0]
    new_ReadCache [] (mkHeaderState tar_init [] 0 0).

Lemma demo_store_ok : @store_ok StoreCodec.lz4 demo_store demo_contents.
Proof.
  assert (len demo_headers = 1536 /\ len (m_content demo_member) = 512 /\ len demo_contents = 2 /\ len (concat demo_contents) = 2048) as (H1 & H2 & H3 & H4) by by vm_compute.
  split; cbn -[len CONTAINER_MAX_SIZE Z.pow concat demo_contents]; rewrite ?H3, ?H4; unfold CONTAINER_MAX_SIZE; try done; try lia.
  - constructor; [|constructor; [|constructor]].
    + split; cbn -[demo_headers]; unfold CONTAINER_MAX_SIZE; try lia. exists (concat demo_contents), demo_headers. rewrite H1, H4.
      split_and!; [by vm_compute|done|cbn; lia|by vm_compute|by vm_compute].
    + split; cbn; unfold CONTAINER_MAX_SIZE; try lia. exists (concat demo_contents), (m_content demo_member). rewrite H2, H4.
      split_and!; [by vm_compute|done|cbn; lia|by vm_compute|by vm_compute].
  - exists []. split; [apply new_rc_rel|constructor].
Qed.

Lemma demo_plain id t : 0 <= id < 2 -> demo_contents !! Z.to_nat id = Some t ->
  @plain StoreCodec.xdelta (chunklist demo_store) demo_contents id t.
Proof.
  intros Hid Ht. assert (id = 0 \/ id = 1) as [-> | ->] by lia; eexists _, t; (split; [lia|]; split; [reflexivity|]; split; [exact Ht|]);
    injection Ht as <-; split; by vm_compute.
Qed.

Lemma restore_header_file_rebuilds_witness :
  wp (@restoreHeaderFile StoreCodec.lz4 StoreCodec.xdelta 3 "f") (fun _ d' =>
    files (fs d') !! restore_path "f" = Some (archive demo_archive) /\ @store_ok StoreCodec.lz4 d' demo_contents /\
    heap (mem d') = heap (mem demo_store) /\ MultiHeaderChunkSize (hdr d') = MultiHeaderOffset (hdr d')) demo_store.
Proof.
  apply (@restore_header_file_rebuilds StoreCodec.lz4 StoreCodec.xdelta demo_store demo_contents "f" [0] [1] [demo_headers]
    [[m_content demo_member]; []; []] demo_archive 3).
  - apply demo_store_ok.
  - reflexivity.
  - reflexivity.
  - reflexivity.
  - assert (restorable demo_member /\ restorable end_block) as [H1 H2] by (split; (split; [by split; vm_compute|by vm_compute])).
    by repeat constructor.
  - done.
  - repeat constructor; by apply demo_plain.
  - repeat constructor; by vm_compute.
  - by vm_compute.
  - repeat constructor; by apply demo_plain.
  - repeat constructor; by vm_compute.
  - by vm_compute.
  - done.
Defined.
