(* ===== verification/Double.v ===== *)
(** * Double-precision quotients of sizes

    The method that compares compression ratios does it in [double]: sizes are
    converted, divided and compared.  A non-negative double is its integer
    significand and exponent; conversion and division round to nearest, ties
    to even, to 53 bits.  Sizes are far from overflow and underflow. *)

From S2P Require Import Prelude.

(** The value is [dm * 2 ^ de]. *)
Record dbl := mkDbl { dm : Z; de : Z }.

(** Division rounded to the nearest integer, ties to even. *)
Definition div_nearest (n d : Z) : Z :=
  let q := n / d in
  let r := n mod d in
  if 2 * r <? d then q
  else if d <? 2 * r then q + 1
  else if Z.even q then q else q + 1.

Definition scaled_num (p e : Z) : Z := if e <? 0 then p * 2 ^ (- e) else p.
Definition scaled_den (q e : Z) : Z := if e <? 0 then q else q * 2 ^ e.

(** The double nearest to [p / q], for [0 <= p] and [0 < q]. *)
Definition dbl_of_ratio (p q : Z) : dbl :=
  if p =? 0 then mkDbl 0 0
  else
    let e := Z.log2 p - Z.log2 q - 53 in
    let e := if scaled_num p e <? 2 ^ 53 * scaled_den q e then e else e + 1 in
    mkDbl (div_nearest (scaled_num p e) (scaled_den q e)) e.

(** [(double)n]. *)
Definition dbl_of_Z (n : Z) : dbl := dbl_of_ratio n 1.

(** [x / y]. *)
Definition dbl_div (x y : dbl) : dbl :=
  dbl_of_ratio (dm x * 2 ^ Z.max 0 (de x - de y)) (dm y * 2 ^ Z.max 0 (de y - de x)).

(** [x < y]. *)
Definition dbl_ltb (x y : dbl) : bool :=
  dm x * 2 ^ Z.max 0 (de x - de y) <? dm y * 2 ^ Z.max 0 (de y - de x).

Definition dbl_one : dbl := mkDbl 1 0.

(** [1 <= x]. *)
Definition dbl_ge_one (x : dbl) : Prop := dbl_ltb x dbl_one = false.

(** ** Comparisons with one survive rounding *)

Lemma div_nearest_bounds n d :
  0 < d -> n / d <= div_nearest n d <= n / d + 1.
Proof. intros Hd. unfold div_nearest. repeat case_match; lia. Qed.

Lemma div_nearest_exact n d : 0 < d -> div_nearest (n * d) d = n.
Proof.
  intros Hd. unfold div_nearest. rewrite Z.div_mul, Z.mod_mul by lia. by rewrite (proj2 (Z.ltb_lt _ _)) by lia.
Qed.

Lemma div_nearest_mono_int n d k : 0 < d -> k * d <= n -> k <= div_nearest n d.
Proof.
  intros Hd Hk. pose proof (div_nearest_bounds n d Hd). pose proof (Z.div_le_lower_bound n d k Hd ltac:(lia)). lia.
Qed.

Lemma div_nearest_le_int n d k : 0 < d -> n <= k * d -> div_nearest n d <= k.
Proof.
  intros Hd Hk. destruct (Z.eq_dec n (k * d)) as [->|Hne]; [by rewrite div_nearest_exact|].
  pose proof (div_nearest_bounds n d Hd).
  assert (n / d < k) by (apply Z.div_lt_upper_bound; lia). lia.
Qed.

Lemma scaled_den_pos q e : 0 < q -> 0 < scaled_den q e.
Proof. intros Hq. unfold scaled_den. destruct (Z.ltb_spec e 0); [done|]. apply Z.mul_pos_pos; lia. Qed.

(** Scaling both sides changes nothing. *)
Lemma div_nearest_scale n d c : 0 < d -> 0 < c -> div_nearest (n * c) (d * c) = div_nearest n d.
Proof.
  intros Hd Hc. unfold div_nearest. rewrite Z.div_mul_cancel_r, Z.mul_mod_distr_r by lia.
  assert ((2 * (n mod d * c) <? d * c) = (2 * (n mod d) <? d)) as ->.
  { destruct (Z.ltb_spec (2 * (n mod d)) d); [apply Z.ltb_lt|apply Z.ltb_ge]; nia. }
  assert ((d * c <? 2 * (n mod d * c)) = (d <? 2 * (n mod d))) as ->; [|done].
  destruct (Z.ltb_spec d (2 * (n mod d))); [apply Z.ltb_lt|apply Z.ltb_ge]; nia.
Qed.

Lemma ratio_scale p q K : 0 < p -> 0 < q -> 0 <= K -> dbl_of_ratio (p * 2 ^ K) (q * 2 ^ K) = dbl_of_ratio p q.
Proof.
  intros Hp Hq HK. pose proof (Z.pow_pos_nonneg 2 K ltac:(lia) HK) as H2.
  unfold dbl_of_ratio. cbv zeta. rewrite !(proj2 (Z.eqb_neq _ 0)) by nia.
  rewrite !Z.log2_mul_pow2 by lia. replace (K + Z.log2 p - (K + Z.log2 q) - 53) with (Z.log2 p - Z.log2 q - 53) by lia.
  set (e0 := Z.log2 p - Z.log2 q - 53).
  assert (forall e, scaled_num (p * 2 ^ K) e = scaled_num p e * 2 ^ K) as Hn.
  { intros e. unfold scaled_num. destruct (e <? 0); lia. }
  assert (forall e, scaled_den (q * 2 ^ K) e = scaled_den q e * 2 ^ K) as Hd.
  { intros e. unfold scaled_den. destruct (e <? 0); lia. }
  assert ((scaled_num (p * 2 ^ K) e0 <? 2 ^ 53 * scaled_den (q * 2 ^ K) e0) =
          (scaled_num p e0 <? 2 ^ 53 * scaled_den q e0)) as ->.
  { rewrite Hn, Hd, Z.mul_assoc. destruct (Z.ltb_spec (scaled_num p e0) (2 ^ 53 * scaled_den q e0));
      [apply Z.ltb_lt|apply Z.ltb_ge]; nia. }
  rewrite Hn, Hd, div_nearest_scale; [done| |done]. by apply scaled_den_pos.
Qed.

(** Sizes below 2^53 convert exactly. *)
Lemma dbl_of_Z_exact n : 0 < n < 2 ^ 53 ->
  dbl_of_Z n = mkDbl (n * 2 ^ (52 - Z.log2 n)) (Z.log2 n - 52).
Proof.
  intros Hn. pose proof (Z.log2_spec n ltac:(lia)) as Hl. pose proof (Z.log2_nonneg n).
  assert (Z.log2 n < 53) by (apply Z.log2_lt_pow2; lia).
  unfold dbl_of_Z, dbl_of_ratio. cbv zeta. rewrite (proj2 (Z.eqb_neq _ 0)) by lia. change (Z.log2 1) with 0.
  rewrite Z.sub_0_r. set (e := Z.log2 n - 53).
  assert ((scaled_num n e <? 2 ^ 53 * scaled_den 1 e) = false) as ->.
  { unfold scaled_num, scaled_den. rewrite (proj2 (Z.ltb_lt e 0)) by lia. apply Z.ltb_ge.
    replace (2 ^ 53) with (2 ^ Z.log2 n * 2 ^ (- e)) by (rewrite <- Z.pow_add_r by lia; f_equal; lia).
    pose proof (Z.pow_pos_nonneg 2 (- e)). nia. }
  replace (e + 1) with (Z.log2 n - 52) by lia.
  f_equal. unfold scaled_num, scaled_den. destruct (Z.ltb_spec (Z.log2 n - 52) 0) as [Hlt|Hge2].
  - rewrite <- (Z.mul_1_r (n * _)), div_nearest_exact by lia. do 2 f_equal. lia.
  - replace (Z.log2 n - 52) with 0 by lia. replace (52 - Z.log2 n) with 0 by lia.
    rewrite Z.pow_0_r, !Z.mul_1_r. rewrite <- (Z.mul_1_r n) at 1. by apply div_nearest_exact.
Qed.

(** The quotient the program computes is the rounded ratio of the sizes. *)
Lemma dbl_div_sizes a b : 0 < a < 2 ^ 53 -> 0 < b < 2 ^ 53 ->
  dbl_div (dbl_of_Z a) (dbl_of_Z b) = dbl_of_ratio a b.
Proof.
  intros Ha Hb. rewrite !dbl_of_Z_exact by done. unfold dbl_div. cbn [dm de].
  assert (Z.log2 a < 53) by (apply Z.log2_lt_pow2; lia). assert (Z.log2 b < 53) by (apply Z.log2_lt_pow2; lia).
  pose proof (Z.log2_nonneg a). pose proof (Z.log2_nonneg b).
  set (K := 52 - Z.min (Z.log2 a) (Z.log2 b)).
  rewrite <- !Z.mul_assoc, <- !Z.pow_add_r by lia.
  replace (52 - Z.log2 a + _) with K by lia. replace (52 - Z.log2 b + _) with K by lia.
  apply ratio_scale; lia.
Qed.

(** Comparisons on a common scale. *)
Lemma dbl_ltb_scale x y N : - de x <= N -> - de y <= N ->
  dbl_ltb x y = (dm x * 2 ^ (de x + N) <? dm y * 2 ^ (de y + N)).
Proof.
  intros Hx Hy. unfold dbl_ltb.
  set (m := Z.min (de x) (de y)). pose proof (Z.pow_pos_nonneg 2 (m + N) ltac:(lia) ltac:(lia)).
  replace (2 ^ (de x + N)) with (2 ^ Z.max 0 (de x - de y) * 2 ^ (m + N))
    by (rewrite <- Z.pow_add_r by lia; f_equal; lia).
  replace (2 ^ (de y + N)) with (2 ^ Z.max 0 (de y - de x) * 2 ^ (m + N))
    by (rewrite <- Z.pow_add_r by lia; f_equal; lia).
  rewrite !Z.mul_assoc. set (u := dm x * _). set (v := dm y * 2 ^ _).
  destruct (Z.ltb_spec u v); symmetry; [apply Z.ltb_lt|apply Z.ltb_ge]; nia.
Qed.

Lemma below_one_lt x y : dbl_ltb x dbl_one = true -> dbl_ge_one y -> dbl_ltb x y = true.
Proof.
  unfold dbl_ge_one. set (N := Z.max 0 (Z.max (- de x) (- de y))).
  rewrite !(dbl_ltb_scale _ _ N) by (cbn; lia). cbn [dm de dbl_one].
  intros ?%Z.ltb_lt ?%Z.ltb_ge. apply Z.ltb_lt. lia.
Qed.

Lemma neg_exp_one m e : e <= 0 -> dbl_ltb (mkDbl m e) dbl_one = (m <? 2 ^ (- e)).
Proof.
  intros He. unfold dbl_ltb. cbn [dm de dbl_one]. rewrite Z.sub_0_r, Z.max_l by lia.
  rewrite Z.sub_0_l, Z.max_r by lia. by rewrite Z.mul_1_r, Z.mul_1_l.
Qed.

(** The exponent chosen for sizes is never positive. *)
Lemma ratio_form p q : 0 < p < 2 ^ 53 -> 0 < q ->
  exists e, dbl_of_ratio p q = mkDbl (div_nearest (scaled_num p e) (scaled_den q e)) e /\ e <= 0 /\
    (p < q -> q < 2 ^ 53 -> e <= -53).
Proof.
  intros Hp Hq. assert (Z.log2 p < 53) by (apply Z.log2_lt_pow2; lia). pose proof (Z.log2_nonneg q).
  unfold dbl_of_ratio. cbv zeta. rewrite (proj2 (Z.eqb_neq _ 0)) by lia.
  eexists. split; [reflexivity|]. set (e := Z.log2 p - Z.log2 q - 53).
  split; [destruct (_ <? _); lia|]. intros Hpq Hq53.
  assert (Z.log2 p <= Z.log2 q) by (apply Z.log2_le_mono; lia).
  destruct (Z.ltb_spec (scaled_num p e) (2 ^ 53 * scaled_den q e)); [lia|].
  destruct (Z.eq_dec (Z.log2 p) (Z.log2 q)); [|lia].
  exfalso. unfold scaled_num, scaled_den in *. replace e with (-53) in * by lia.
  cbn -[Z.pow] in *. lia.
Qed.

Lemma ratio_ge_one p q : 0 < q <= p -> p < 2 ^ 53 -> dbl_ge_one (dbl_of_ratio p q).
Proof.
  intros Hq Hp. destruct (ratio_form p q) as (e & -> & He & _); [lia|lia|].
  unfold dbl_ge_one. rewrite neg_exp_one by done. apply Z.ltb_ge, div_nearest_mono_int; [apply scaled_den_pos; lia|].
  pose proof (Z.pow_pos_nonneg 2 (- e) ltac:(lia) ltac:(lia)).
  unfold scaled_num, scaled_den. destruct (Z.ltb_spec e 0); [nia|].
  replace e with 0 by lia. lia.
Qed.

Lemma ratio_lt_one p q : 0 < p < q -> q < 2 ^ 53 -> dbl_ltb (dbl_of_ratio p q) dbl_one = true.
Proof.
  intros Hp Hq. destruct (ratio_form p q) as (e & -> & He & Hsmall); [lia|lia|].
  specialize (Hsmall ltac:(lia) Hq). rewrite neg_exp_one by done. apply Z.ltb_lt.
  apply Z.le_lt_trans with (2 ^ (- e) - 1); [|lia]. apply div_nearest_le_int; [apply scaled_den_pos; lia|].
  unfold scaled_num, scaled_den. rewrite (proj2 (Z.ltb_lt _ _)) by lia.
  assert (2 ^ 53 <= 2 ^ (- e)) by (apply Z.pow_le_mono_r; lia). nia.
Qed.
