(* ===== verification/XXHash.v ===== *)
(** * xxHash

    [src/util/xxhash.cc], on a little-endian machine: the one-shot [XXH32] and
    [XXH64], and the streaming interface ([reset], [update], [digest]) with its
    16- or 32-byte buffer.  The two widths share the loop over stripes and the
    buffering code, which the source repeats; the section [Stripes] holds it
    once.  The super-features of the similarity methods are [XXH64] values. *)

From S2P Require Import Prelude.

(** [XXH_rotl32] and [XXH_rotl64]. *)
Definition XXH_rotl32 (x r : Z) : Z := Z.lor (w32 (Z.shiftl x r)) (Z.shiftr x (32 - r)).
Definition XXH_rotl64 (x r : Z) : Z := Z.lor (w64 (Z.shiftl x r)) (Z.shiftr x (64 - r)).

Definition PRIME32_1 : Z := 2654435761.
Definition PRIME32_2 : Z := 2246822519.
Definition PRIME32_3 : Z := 3266489917.
Definition PRIME32_4 : Z := 668265263.
Definition PRIME32_5 : Z := 374761393.

Definition PRIME64_1 : Z := 11400714785074694791.
Definition PRIME64_2 : Z := 14029467366897019727.
Definition PRIME64_3 : Z := 1609587929392839161.
Definition PRIME64_4 : Z := 9650029242287828579.
Definition PRIME64_5 : Z := 2870177450012600261.

(** The [k] bytes at offset [off] as a little-endian word. *)
Definition read_le (k off : Z) (p : bytes) : Z := le_get (sub off k p).

(** The four accumulators. *)
Record Acc := mkAcc { v1 : Z; v2 : Z; v3 : Z; v4 : Z }.

(** [XXH32_state_t] and [XXH64_state_t]; [mem] holds what was written to the
    buffer, of which the first [memsize] bytes are pending. *)
Record State := mkState {
  total_len : Z;
  seed : Z;
  acc : Acc;
  mem : bytes;
  memsize : Z
}.

Section Stripes.
Context (STRIPE : Z) (stripe : Acc -> bytes -> Acc).

(** [do ... while (p <= limit)] from [p] on; the bytes left over. *)
Fixpoint stripes (fuel : nat) (v : Acc) (p : bytes) : Acc * bytes :=
  match fuel with
  | O => (v, p)
  | S fuel' => if STRIPE <=? len p then stripes fuel' (stripe v (ztake STRIPE p)) (zdrop STRIPE p)
               else (v, p)
  end.

(** [XXH32_update_endian] and [XXH64_update_endian]. *)
Definition update_endian (state : State) (input : bytes) : State :=
  let total := (total_len state + len input)%u64 in
  if (memsize state + len input)%u64 <? STRIPE then
    mkState total (seed state) (acc state) (blit (mem state) (memsize state) input)
      (w32 (memsize state + len input))
  else
    let '(v, m, p) :=
      if memsize state =? 0 then (acc state, mem state, input)
      else
        let m := blit (mem state) (memsize state) (ztake (STRIPE - memsize state) input) in
        (stripe (acc state) (ztake STRIPE m), m, zdrop (STRIPE - memsize state) input) in
    let '(v, p) := stripes (length p) v p in
    if 0 <? len p then mkState total (seed state) v (blit m 0 p) (len p)
    else mkState total (seed state) v m 0.

(** ** Streaming is one pass *)

Hypothesis STRIPE_pos : 0 < STRIPE < 2 ^ 32.

Lemma stripes_small fuel v p : len p < STRIPE -> stripes fuel v p = (v, p).
Proof using Type. intros Hp. destruct fuel; [done|]. cbn. by rewrite (proj2 (Z.leb_gt _ _)). Qed.

Lemma stripes_fuel fuel fuel' v p :
  (length p <= fuel)%nat -> (length p <= fuel')%nat -> stripes fuel v p = stripes fuel' v p.
Proof using STRIPE_pos.
  revert fuel' v p. induction fuel as [|fuel IH]; intros fuel' v p H1 H2.
  { destruct p; [|cbn in H1; lia]. rewrite !stripes_small by (rewrite (@len_nil Z); lia). done. }
  destruct fuel' as [|fuel'].
  { destruct p; [|cbn in H2; lia]. rewrite !stripes_small by (rewrite (@len_nil Z); lia). done. }
  cbn [stripes]. destruct (Z.leb_spec STRIPE (len p)) as [Hp|]; [|done].
  assert (length (zdrop STRIPE p) < length p)%nat.
  { pose proof (len_zdrop STRIPE p). rewrite (len_length p) in *. rewrite len_length in *. lia. }
  apply IH; lia.
Qed.

Lemma stripes_rest fuel v p : (length p <= fuel)%nat -> len (stripes fuel v p).2 < STRIPE.
Proof using STRIPE_pos.
  revert v p. induction fuel as [|fuel IH]; intros v p Hf.
  { destruct p; [|cbn in Hf; lia]. cbn. rewrite (@len_nil Z). lia. }
  cbn [stripes]. destruct (Z.leb_spec STRIPE (len p)) as [Hp|]; [|done].
  apply IH. pose proof (len_zdrop STRIPE p). rewrite (len_length p) in *. rewrite len_length in *. lia.
Qed.

(** All stripes of [p] and the rest. *)
Definition all_stripes (v : Acc) (p : bytes) : Acc * bytes := stripes (length p) v p.

Lemma all_stripes_unfold v p :
  all_stripes v p = if STRIPE <=? len p then all_stripes (stripe v (ztake STRIPE p)) (zdrop STRIPE p)
                    else (v, p).
Proof using STRIPE_pos.
  unfold all_stripes. destruct (Z.leb_spec STRIPE (len p)) as [Hp|Hp]; [|by apply stripes_small].
  rewrite (len_length p) in Hp. destruct (length p) as [|n] eqn:Hn; [lia|].
  cbn [stripes]. rewrite (proj2 (Z.leb_le _ _)) by (rewrite len_length; lia).
  apply stripes_fuel; [|done].
  pose proof (len_zdrop STRIPE p). rewrite (len_length p), Hn in *. rewrite len_length in *. lia.
Qed.

Lemma all_stripes_app v p q :
  all_stripes v (p ++ q) =
    all_stripes (all_stripes v p).1 ((all_stripes v p).2 ++ q).
Proof using STRIPE_pos.
  remember (length p) as n eqn:Hn. revert v p Hn.
  induction (lt_wf n) as [n _ IH]; intros v p ->.
  rewrite (all_stripes_unfold v p). destruct (Z.leb_spec STRIPE (len p)) as [Hp|Hp]; [|done].
  rewrite (all_stripes_unfold v (p ++ q)), (proj2 (Z.leb_le _ _)) by slia.
  rewrite ztake_app_le, zdrop_app_le by lia. eapply IH; [|done].
  pose proof (len_zdrop STRIPE p). rewrite (len_length p) in *. rewrite len_length in *. lia.
Qed.

(** The state after the bytes [bs]. *)
Record fed (s0 : Z) (v0 : Acc) (bs : bytes) (st : State) : Prop := {
  fd_seed : seed st = s0;
  fd_total : total_len st = w64 (len bs);
  fd_acc : acc st = (all_stripes v0 bs).1;
  fd_rest : ztake (memsize st) (mem st) = (all_stripes v0 bs).2;
  fd_size : memsize st = len (all_stripes v0 bs).2;
  fd_mem : memsize st <= len (mem st)
}.

Lemma rest_small v p : len (all_stripes v p).2 < STRIPE.
Proof using STRIPE_pos. by apply stripes_rest. Qed.

Lemma blit_prefix m k (q : bytes) :
  0 <= k <= len m -> ztake (k + len q) (blit m k q) = ztake k m ++ q.
Proof.
  intros Hk. unfold blit. rewrite app_assoc.
  replace (k + len q) with (len (ztake k m ++ q)) by (rewrite len_app, len_ztake; lia).
  apply ztake_app_len.
Qed.

Lemma len_blit_ge m k (q : bytes) : 0 <= k <= len m -> k + len q <= len (blit m k q).
Proof. intros Hk. unfold blit. rewrite !len_app, len_ztake. slia. Qed.

Lemma rest_le v p : len (all_stripes v p).2 <= len p.
Proof using STRIPE_pos.
  remember (length p) as n eqn:Hn. revert v p Hn.
  induction (lt_wf n) as [n _ IH]; intros v p ->. rewrite (all_stripes_unfold v p).
  destruct (Z.leb_spec STRIPE (len p)) as [Hp|Hp]; [|cbn; lia].
  pose proof (len_zdrop STRIPE p) as Hd. etransitivity; [eapply IH; [|done]|lia].
  rewrite (len_length p) in *. rewrite len_length in *. lia.
Qed.

(** The second half of [update_endian], once no partial stripe is pending. *)
Lemma finish_fed s0 v0 bs st v m p total :
  seed st = s0 -> total = w64 (len bs) -> all_stripes v0 bs = all_stripes v p ->
  fed s0 v0 bs (let '(v, p) := stripes (length p) v p in
    if 0 <? len p then mkState total (seed st) v (blit m 0 p) (len p)
    else mkState total (seed st) v m 0).
Proof using STRIPE_pos.
  intros Hs Ht He. fold (all_stripes v p). destruct (all_stripes v p) as [v' p'] eqn:Hp.
  pose proof (len_nonneg m). destruct (Z.ltb_spec 0 (len p')) as [Hl|Hl].
  - split; cbn; rewrite ?He; try done.
    + rewrite <- (Z.add_0_l (len p')), blit_prefix by lia. by rewrite ztake_nonpos by lia.
    + pose proof (len_blit_ge m 0 p'). lia.
  - assert (p' = []) as -> by (apply len_0_nil; pose proof (len_nonneg p'); lia).
    split; cbn; rewrite ?He; try done.
Qed.

Lemma update_fed s0 v0 bs st input :
  fed s0 v0 bs st -> len bs + len input < 2 ^ 64 ->
  fed s0 v0 (bs ++ input) (update_endian st input).
Proof using STRIPE_pos.
  intros [F1 F2 F3 F4 F5 F6] Hlen. pose proof (rest_small v0 bs) as Hr. pose proof (rest_le v0 bs) as Hr'.
  set (r := (all_stripes v0 bs).2) in *. set (a := (all_stripes v0 bs).1) in *.
  rewrite F5 in F4, F6.
  pose proof (len_nonneg r). pose proof (len_nonneg bs). pose proof (len_nonneg input).
  assert (all_stripes v0 (bs ++ input) = all_stripes a (r ++ input)) as Happ by apply all_stripes_app.
  unfold update_endian. rewrite F2, F3, F5, w64_add_l.
  replace (len bs + len input) with (len (bs ++ input)) by slia.
  rewrite (w64_small (len r + len input)) by lia.
  destruct (Z.ltb_spec (len r + len input) STRIPE) as [Hsm|Hbig].
  - rewrite (w32_small (len r + len input)) by lia.
    rewrite (all_stripes_unfold a), (proj2 (Z.leb_gt _ _)) in Happ by slia.
    split; cbn; rewrite ?Happ; try done.
    + rewrite blit_prefix by lia. cbn. by rewrite F4.
    + cbn. slia.
    + apply len_blit_ge. lia.
  - destruct (Z.eqb_spec (len r) 0) as [Hz|Hnz].
    + apply finish_fed; try done. rewrite Happ. apply len_0_nil in Hz. by rewrite Hz.
    + apply finish_fed; try done. rewrite Happ, (all_stripes_unfold a), (proj2 (Z.leb_le _ _)) by slia.
      assert (len (ztake (STRIPE - len r) input) = STRIPE - len r) as Hk by (rewrite len_ztake; lia).
      f_equal.
      * f_equal. replace STRIPE with (len r + len (ztake (STRIPE - len r) input)) at 2 by lia.
        rewrite blit_prefix, F4 by lia. unfold ztake at 1.
        rewrite take_app, take_ge by (rewrite len_length in *; lia). f_equal.
        unfold ztake. f_equal. rewrite len_length in *. lia.
      * unfold zdrop. rewrite drop_app, (drop_ge r) by (rewrite len_length in *; lia). cbn.
        f_equal. rewrite len_length. lia.
Qed.
End Stripes.

(** ** The 32-bit hash *)

Definition round32 (v x : Z) : Z := (XXH_rotl32 (v + w32 (x * PRIME32_2))%u32 13 * PRIME32_1)%u32.

Definition stripe32 (v : Acc) (p : bytes) : Acc :=
  mkAcc (round32 (v1 v) (read_le 4 0 p)) (round32 (v2 v) (read_le 4 4 p))
        (round32 (v3 v) (read_le 4 8 p)) (round32 (v4 v) (read_le 4 12 p)).

Definition init32 (seed : Z) : Acc :=
  mkAcc (w32 (seed + PRIME32_1 + PRIME32_2)) (seed + PRIME32_2)%u32 (w32 seed) (seed - PRIME32_1)%u32.

Definition merge32 (v : Acc) : Z :=
  w32 (XXH_rotl32 (v1 v) 1 + XXH_rotl32 (v2 v) 7 + XXH_rotl32 (v3 v) 12 + XXH_rotl32 (v4 v) 18).

(** [while (p + 4 <= bEnd)], then [while (p < bEnd)]. *)
Fixpoint tail32_bytes (p : bytes) (h32 : Z) : Z :=
  match p with
  | [] => h32
  | b :: p' => tail32_bytes p' (XXH_rotl32 (h32 + w32 (b * PRIME32_5))%u32 11 * PRIME32_1)%u32
  end.

Fixpoint tail32 (p : bytes) (h32 : Z) : Z :=
  match p with
  | a :: b :: c :: d :: p' =>
      tail32 p' (XXH_rotl32 (h32 + w32 (le_get [a; b; c; d] * PRIME32_3))%u32 17 * PRIME32_4)%u32
  | _ => tail32_bytes p h32
  end.

Definition avalanche32 (h32 : Z) : Z :=
  let h32 := Z.lxor h32 (Z.shiftr h32 15) in
  let h32 := (h32 * PRIME32_2)%u32 in
  let h32 := Z.lxor h32 (Z.shiftr h32 13) in
  let h32 := (h32 * PRIME32_3)%u32 in
  Z.lxor h32 (Z.shiftr h32 16).

(** What both [XXH32] and [XXH32_digest] do after the stripes: the total length,
    the seed, the accumulators and the bytes left over. *)
Definition finish32 (total seed : Z) (v : Acc) (p : bytes) : Z :=
  let h32 := if 16 <=? total then merge32 v else (seed + PRIME32_5)%u32 in
  avalanche32 (tail32 p (h32 + w32 total)%u32).

Definition XXH32 (input : bytes) (seed : Z) : Z :=
  let '(v, p) := stripes 16 stripe32 (length input) (init32 seed) input in
  finish32 (len input) seed v p.

Definition XXH32_reset (m : bytes) (seed : Z) : State := mkState 0 seed (init32 seed) m 0.

Definition XXH32_update : State -> bytes -> State := update_endian 16 stripe32.

Definition XXH32_digest (state : State) : Z :=
  finish32 (total_len state) (seed state) (acc state) (ztake (memsize state) (mem state)).

(** ** The 64-bit hash *)

Definition round64 (v x : Z) : Z := (XXH_rotl64 (v + w64 (x * PRIME64_2))%u64 31 * PRIME64_1)%u64.

Definition stripe64 (v : Acc) (p : bytes) : Acc :=
  mkAcc (round64 (v1 v) (read_le 8 0 p)) (round64 (v2 v) (read_le 8 8 p))
        (round64 (v3 v) (read_le 8 16 p)) (round64 (v4 v) (read_le 8 24 p)).

Definition init64 (seed : Z) : Acc :=
  mkAcc (w64 (seed + PRIME64_1 + PRIME64_2)) (seed + PRIME64_2)%u64 (w64 seed) (seed - PRIME64_1)%u64.

(** [v *= PRIME64_2; rotl 31; *= PRIME64_1]. *)
Definition scramble64 (v : Z) : Z := (XXH_rotl64 (v * PRIME64_2)%u64 31 * PRIME64_1)%u64.

Definition fold64 (h64 v : Z) : Z := w64 (Z.lxor h64 (scramble64 v) * PRIME64_1 + PRIME64_4).

Definition merge64 (v : Acc) : Z :=
  let h64 := w64 (XXH_rotl64 (v1 v) 1 + XXH_rotl64 (v2 v) 7 + XXH_rotl64 (v3 v) 12 + XXH_rotl64 (v4 v) 18) in
  fold64 (fold64 (fold64 (fold64 h64 (v1 v)) (v2 v)) (v3 v)) (v4 v).

Fixpoint tail64_bytes (p : bytes) (h64 : Z) : Z :=
  match p with
  | [] => h64
  | b :: p' => tail64_bytes p' (XXH_rotl64 (Z.lxor h64 (w64 (b * PRIME64_5))) 11 * PRIME64_1)%u64
  end.

(** [if (p + 4 <= bEnd)], then the bytes. *)
Definition tail64_word (p : bytes) (h64 : Z) : Z :=
  match p with
  | a :: b :: c :: d :: p' =>
      tail64_bytes p' (w64 (XXH_rotl64 (Z.lxor h64 (w64 (le_get [a; b; c; d] * PRIME64_1))) 23
                            * PRIME64_2 + PRIME64_3))
  | _ => tail64_bytes p h64
  end.

(** [while (p + 8 <= bEnd)]. *)
Fixpoint tail64 (p : bytes) (h64 : Z) : Z :=
  match p with
  | a :: b :: c :: d :: e :: f :: g :: h :: p' =>
      let k1 := scramble64 (le_get [a; b; c; d; e; f; g; h]) in
      tail64 p' (w64 (XXH_rotl64 (Z.lxor h64 k1) 27 * PRIME64_1 + PRIME64_4))
  | _ => tail64_word p h64
  end.

Definition avalanche64 (h64 : Z) : Z :=
  let h64 := Z.lxor h64 (Z.shiftr h64 33) in
  let h64 := (h64 * PRIME64_2)%u64 in
  let h64 := Z.lxor h64 (Z.shiftr h64 29) in
  let h64 := (h64 * PRIME64_3)%u64 in
  Z.lxor h64 (Z.shiftr h64 32).

Definition finish64 (total seed : Z) (v : Acc) (p : bytes) : Z :=
  let h64 := if 32 <=? total then merge64 v else (seed + PRIME64_5)%u64 in
  avalanche64 (tail64 p (h64 + total)%u64).

Definition XXH64 (input : bytes) (seed : Z) : Z :=
  let '(v, p) := stripes 32 stripe64 (length input) (init64 seed) input in
  finish64 (len input) seed v p.

Definition XXH64_reset (m : bytes) (seed : Z) : State := mkState 0 seed (init64 seed) m 0.

Definition XXH64_update : State -> bytes -> State := update_endian 32 stripe64.

Definition XXH64_digest (state : State) : Z :=
  finish64 (total_len state) (seed state) (acc state) (ztake (memsize state) (mem state)).

(** Reference values of the published algorithm. *)
Example XXH32_empty : XXH32 [] 0 = 0x02CC5D05.
Proof. by vm_compute. Qed.

Example XXH64_empty : XXH64 [] 0 = 0xEF46DB3751D8E999.
Proof. by vm_compute. Qed.

(** The ASCII codes of "abc". *)
Example XXH32_abc : XXH32 [97; 98; 99] 0 = 0x32D153FF.
Proof. by vm_compute. Qed.

Example XXH64_abc : XXH64 [97; 98; 99] 0 = 0x44BC2CF5AD770999.
Proof. by vm_compute. Qed.

Lemma fed_reset STRIPE stripe seed v m :
  0 < STRIPE -> fed STRIPE stripe seed v [] (mkState 0 seed v m 0).
Proof. intros Hs. pose proof (len_nonneg m). split; cbn; rewrite ?(@len_nil Z); done. Qed.

Lemma fed_updates STRIPE stripe s0 v0 (parts : list bytes) : 0 < STRIPE < 2 ^ 32 ->
  forall bs st, fed STRIPE stripe s0 v0 bs st -> len bs + len (concat parts) < 2 ^ 64 ->
  fed STRIPE stripe s0 v0 (bs ++ concat parts) (foldl (update_endian STRIPE stripe) st parts).
Proof.
  intros HS. induction parts as [|p parts IH]; intros bs st Hf Hl.
  { cbn. by rewrite app_nil_r. }
  cbn [concat foldl] in *. rewrite app_assoc. rewrite len_app in Hl. pose proof (len_nonneg (concat parts)).
  apply IH; [|slia]. apply update_fed; [done|done|lia].
Qed.

(** ** Properties *)

(** C24: streaming is one-shot: for both widths, feeding any sequence of
    packets (less than 2^64 bytes in all) to a state that was [reset], whatever
    its buffer held before, and taking the [digest] gives the hash of their
    concatenation. *)
Theorem xxhash_streaming_is_one_shot (parts : list bytes) (seed : Z) (m : bytes)
    (Hlen : len (concat parts) < 2 ^ 64) :
  XXH32_digest (foldl XXH32_update (XXH32_reset m seed) parts) = XXH32 (concat parts) seed /\
  XXH64_digest (foldl XXH64_update (XXH64_reset m seed) parts) = XXH64 (concat parts) seed.
Proof.
  pose proof (len_nonneg (concat parts)). split.
  - unfold XXH32_digest, XXH32.
    destruct (fed_updates 16 stripe32 seed (init32 seed) parts ltac:(lia) [] (XXH32_reset m seed))
      as [F1 F2 F3 F4 _ _]; [by apply fed_reset|slia|].
    change (foldl XXH32_update) with (foldl (update_endian 16 stripe32)). rewrite F1, F2, F3, F4. cbn [app].
    rewrite w64_small by lia. unfold all_stripes. by destruct (stripes _ _ _ _ _).
  - unfold XXH64_digest, XXH64.
    destruct (fed_updates 32 stripe64 seed (init64 seed) parts ltac:(lia) [] (XXH64_reset m seed))
      as [F1 F2 F3 F4 _ _]; [by apply fed_reset|slia|].
    change (foldl XXH64_update) with (foldl (update_endian 32 stripe64)). rewrite F1, F2, F3, F4. cbn [app].
    rewrite w64_small by lia. unfold all_stripes. by destruct (stripes _ _ _ _ _).
Qed.

Lemma xxhash_streaming_is_one_shot_witness :
  let parts := [[1; 2; 3]; replicate 40 7; []; [9]] in
  XXH32_digest (foldl XXH32_update (XXH32_reset [] 5) parts) = XXH32 (concat parts) 5 /\
  XXH64_digest (foldl XXH64_update (XXH64_reset [] 5) parts) = XXH64 (concat parts) 5.
Proof. intros parts. apply (xxhash_streaming_is_one_shot parts 5 []). by vm_compute. Defined.
