(* ===== verification/PolyHash.v ===== *)
(** * Polynomial hashes of byte windows

    What the rolling hashes of Finesse and of the N-transform compute, each
    incrementally: the value of a window as a polynomial in a base. *)

From S2P Require Import Prelude.

Section Poly.
Context (B : Z).

Definition poly (w : bytes) : Z := foldl (fun v c => v * B + c) 0 w.

Lemma poly_acc v w : foldl (fun v c => v * B + c) v w = v * B ^ len w + poly w.
Proof.
  unfold poly. revert v. induction w as [|c w IH] using rev_ind; intros v.
  { rewrite (@len_nil Z). cbn [foldl]. lia. }
  rewrite !foldl_app. cbn [foldl]. rewrite IH, len_app, (len_cons c), (@len_nil Z).
  rewrite Z.pow_add_r by slia. replace (B ^ (1 + 0)) with B by lia. lia.
Qed.

Lemma poly_cons c w : poly (c :: w) = c * B ^ len w + poly w.
Proof. unfold poly at 1. cbn [foldl]. rewrite poly_acc. lia. Qed.

Lemma poly_snoc w c : poly (w ++ [c]) = poly w * B + c.
Proof. unfold poly. by rewrite foldl_app. Qed.

(** The first byte goes, a last one comes. *)
Lemma poly_shift v w c : poly (w ++ [c]) = (poly (v :: w) - v * B ^ len w) * B + c.
Proof. rewrite poly_snoc, poly_cons. lia. Qed.

(** Sliding a window of [W] bytes by one. *)
Lemma poly_slide W (b : bytes) j c c' :
  1 <= W -> 0 <= j -> sub j 1 b = [c] -> sub (j + W) 1 b = [c'] ->
  poly (sub (j + 1) W b) = (poly (sub j W b) - c * B ^ (W - 1)) * B + c'.
Proof.
  intros HW Hj Hc Hc'.
  assert (sub j W b = c :: sub (j + 1) (W - 1) b) as ->.
  { replace W with (1 + (W - 1)) at 1 by lia. rewrite sub_split by lia. by rewrite Hc. }
  assert (sub (j + 1) W b = sub (j + 1) (W - 1) b ++ [c']) as ->.
  { replace W with ((W - 1) + 1) at 1 by lia. rewrite sub_split by lia. f_equal.
    rewrite <- Hc'. f_equal. lia. }
  assert (len (sub (j + 1) (W - 1) b) = W - 1) as Hl.
  { apply (f_equal len) in Hc'. unfold sub in *. rewrite len_ztake, len_zdrop in *.
    rewrite (len_cons c'), (@len_nil Z) in Hc'. lia. }
  rewrite (poly_shift c), Hl. done.
Qed.
End Poly.
