(* ===== verification/Features.v ===== *)
(** * Super-features of Odess and Palantir

    [src/method/odess_similarity_detection.cc] and [include/gear_matrix.h]: a
    64-bit Gear hash rolls over the chunk, the positions whose hash is zero
    under a mask are sampled, and each feature is the largest value of one
    linear transform over the samples; groups of features are hashed with
    [XXH64] into super-features.  The transform arguments are drawn from
    [std::default_random_engine], whose sequence the language leaves to the
    library: they are data of the generator.  [FeatureIndexTable] relates keys
    and super-features both ways. *)

From stdpp Require Import sets gmap strings.
From S2P Require Import Prelude Define XXHash.

Definition GEARmx : list Z :=
  [
    0xb088d3a9e840f559; 0x5652c7f739ed20d6; 0x45b28969898972ab; 0x6b0a89d5b68ec777;
    0x368f573e8b7a31b7; 0x1dc636dce936d94b; 0x207a4c4e5554d5b6; 0xa474b34628239acb;
    0x3b06a83e1ca3b912; 0x90e78d6c2f02baf7; 0xe1c92df7150d9a8a; 0x8e95053a1086d3ad;
    0x5a2ef4f1b83a0722; 0xa50fac949f807fae; 0x0e7303eb80d8d681; 0x99b07edc1570ad0f;
    0x689d2fb555fd3076; 0x00005082119ea468; 0xc4b08306a88fcc28; 0x3eb0678af6374afd;
    0xf19f87ab86ad7436; 0xf2129fbfbe6bc736; 0x481149575c98a4ed; 0x0000010695477bc5;
    0x1fba37801a9ceacc; 0x3bf06fd663a49b6d; 0x99687e9782e3874b; 0x79a10673aa50d8e3;
    0xe4accf9e6211f420; 0x2520e71f87579071; 0x2bd5d3fd781a8a9b; 0x00de4dcddd11c873;
    0xeaa9311c5a87392f; 0xdb748eb617bc40ff; 0xaf579a8df620bf6f; 0x86a6e5da1b09c2b1;
    0xcc2fc30ac322a12e; 0x355e2afec1f74267; 0x2d99c8f4c021a47b; 0xbade4b4a9404cfc3;
    0xf7b518721d707d69; 0x3286b6587bf32c20; 0x0000b68886af270c; 0xa115d6e4db8a9079;
    0x484f7e9c97b2e199; 0xccca7bb75713e301; 0xbf2584a62bb0f160; 0xade7e813625dbcc8;
    0x000070940d87955a; 0x8ae69108139e626f; 0xbd776ad72fde38a2; 0xfb6b001fc2fcc0cf;
    0xc7a474b8e67bc427; 0xbaf6f11610eb5d58; 0x09cb1f5b6de770d1; 0xb0b219e6977d4c47;
    0x00ccbc386ea7ad4a; 0xcc849d0adf973f01; 0x73a3ef7d016af770; 0xc807d2d386bdbdfe;
    0x7f2ac9966c791730; 0xd037a86bc6c504da; 0xf3f17c661eaa609d; 0xaca626b04daae687;
    0x755a99374f4a5b07; 0x90837ee65b2caede; 0x6ee8ad93fd560785; 0x0000d9e11053edd8;
    0x9e063bb2d21cdbd7; 0x07ab77f12a01d2b2; 0xec550255e6641b44; 0x78fb94a8449c14c6;
    0xc7510e1bc6c0f5f5; 0x0000320b36e4cae3; 0x827c33262c8b1a2d; 0x14675f0b48ea4144;
    0x267bd3a6498deceb; 0xf1916ff982f5035e; 0x86221b7ff434fb88; 0x9dbecee7386f49d8;
    0xea58f8cac80f8f4a; 0x008d198692fc64d8; 0x6d38704fbabf9a36; 0xe032cb07d1e7be4c;
    0x228d21f6ad450890; 0x635cb1bfc02589a5; 0x4620a1739ca2ce71; 0xa7e7dfe3aae5fb58;
    0x0c10ca932b3c0deb; 0x2727fee884afed7b; 0xa2df1c6df9e2ab1f; 0x4dcdd1ac0774f523;
    0x000070ffad33e24e; 0xa2ace87bc5977816; 0x9892275ab4286049; 0xc2861181ddf18959;
    0xbb9972a042483e19; 0xef70cd3766513078; 0x00000513abfc9864; 0xc058b61858c94083;
    0x09e850859725e0de; 0x9197fb3bf83e7d94; 0x7e1e626d12b64bce; 0x520c54507f7b57d1;
    0xbee1797174e22416; 0x6fd9ac3222e95587; 0x0023957c9adfbf3e; 0xa01c7d7e234bbe15;
    0xaba2c758b8a38cbb; 0x0d1fa0ceec3e2b30; 0x0bb6a58b7e60b991; 0x4333dd5b9fa26635;
    0xc2fd3b7d4001c1a3; 0xfb41802454731127; 0x65a56185a50d18cb; 0xf67a02bd8784b54f;
    0x696f11dd67e65063; 0x00002022fca814ab; 0x8cd6be912db9d852; 0x695189b6e9ae8a57;
    0xee9453b50ada0c28; 0xd8fc5ea91a78845e; 0xab86bf191a4aa767; 0x0000c6b5c86415e5;
    0x267310178e08a22e; 0xed2d101b078bca25; 0x3b41ed84b226a8fb; 0x13e622120f28dc06;
    0xa315f5ebfb706d26; 0x8816c34e3301bace; 0xe9395b9cbb71fdae; 0x002ce9202e721648;
    0x4283db1d2bb3c91c; 0xd77d461ad2b1a6a5; 0xe2ec17e46eeb866b; 0xb8e0be4039fbc47c;
    0xdea160c4d5299d04; 0x7eec86c8d28c3634; 0x2119ad129f98a399; 0xa6ccf46b61a283ef;
    0x2c52cedef658c617; 0x2db4871169acdd83; 0x0000f0d6f39ecbe9; 0x3dd5d8c98d2f9489;
    0x8a1872a22b01f584; 0xf282a4c40e7b3cf2; 0x8020ec2ccb1ba196; 0x6693b6e09e59e313;
    0x0000ce19cc7c83eb; 0x20cb5735f6479c3b; 0x762ebf3759d75a5b; 0x207bfe823d693975;
    0xd77dc112339cd9d5; 0x9ba7834284627d03; 0x217dc513e95f51e9; 0xb27b1a29fc5e7816;
    0x00d5cd9831bb662d; 0x71e39b806d75734c; 0x7e572af006fb1a23; 0xa2734f2f6ae91f85;
    0xbf82c6b5022cddf2; 0x5c3beac60761a0de; 0xcdc893bb47416998; 0x6d1085615c187e01;
    0x77f8ae30ac277c5d; 0x917c6b81122a2c91; 0x5b75b699add16967; 0x0000cf6ae79a069b;
    0xf3c40afa60de1104; 0x2063127aa59167c3; 0x621de62269d1894d; 0xd188ac1de62b4726;
    0x107036e2154b673c; 0x0000b85f28553a1d; 0xf2ef4e4c18236f3d; 0xd9d6de6611b9f602;
    0xa1fc7955fb47911c; 0xeb85fd032f298dbd; 0xbe27502fb3befae1; 0xe3034251c4cd661e;
    0x441364d354071836; 0x0082b36c75f2983e; 0xb145910316fa66f0; 0x021c069c9847caf7;
    0x2910dfc75a4b5221; 0x735b353e1c57a8b5; 0xce44312ce98ed96c; 0xbc942e4506bdfa65;
    0xf05086a71257941b; 0xfec3b215d351cead; 0x00ae1055e0144202; 0xf54b40846f42e454;
    0x00007fd9c8bcbcc8; 0xbfbd9ef317de9bfe; 0xa804302ff2854e12; 0x39ce4957a5e5d8d4;
    0xffb9e2a45637ba84; 0x55b9ad1d9ea0818b; 0x00008acbf319178a; 0x48e2bfc8d0fbfb38;
    0x8be39841e848b5e8; 0x0e2712160696a08b; 0xd51096e84b44242a; 0x1101ba176792e13a;
    0xc22e770f4531689d; 0x1689eff272bbc56c; 0x00a92a197f5650ec; 0xbc765990bda1784e;
    0xc61441e392fcb8ae; 0x07e13a2ced31e4a0; 0x92cbe984234e9d4d; 0x8f4ff572bb7d8ac5;
    0x0b9670c00b963bd0; 0x62955a581a03eb01; 0x645f83e5ea000254; 0x41fce516cd88f299;
    0xbbda9748da7a98cf; 0x0000aab2fe4845fa; 0x19761b069bf56555; 0x8b8f5e8343b6ad56;
    0x3e5d1cfd144821d9; 0xec5c1e2ca2b0cd8f; 0xfaf7e0fea7fbb57f; 0x000000d3ba12961b;
    0xda3f90178401b18e; 0x70ff906de33a5feb; 0x0527d5a7c06970e7; 0x22d8e773607c13e9;
    0xc9ab70df643c3bac; 0xeda4c6dc8abe12e3; 0xecef1f410033e78a; 0x0024c2b274ac72cb;
    0x06740d954fa900b4; 0x1d7a299b323d6304; 0xb3c37cb298cbead5; 0xc986e3c76178739b;
    0x9fabea364b46f58a; 0x6da214c5af85cc56; 0x17a43ed8b7a38f84; 0x6eccec511d9adbeb;
    0xf9cab30913335afb; 0x4a5e60c5f415eed2; 0x00006967503672b4; 0x9da51d121454bb87;
    0x84321e13b9bbc816; 0xfb3d6fb6ab2fdd8d; 0x60305eed8e160a8d; 0xcbbf4b14e9946ce8;
    0x00004f63381b10c3; 0x07d5b7816fcc4e10; 0xe5a536726a6a8155; 0x57afb23447a07fdd;
    0x18f346f7abc9d394; 0x636dc655d61ad33d; 0xcc8bab4939f7f3f6; 0x63c7a906c1dd187b
  ].

Definition gearmx (b : Z) : Z := nth (Z.to_nat b) GEARmx 0.

Definition k1_512RatioMask : Z := 0x0100400303410010.
Definition k1_256RatioMask : Z := 0x0100400303410000.
Definition k1_128RatioMask : Z := 0x0000400303410000.
Definition k1_4RatioMask : Z := 0x0000000100000001.

(** ** [FeatureGenerator] *)

Record FeatureGenerator := mkGen {
  features_ : list Z;
  random_transform_args_a_ : list Z;
  random_transform_args_b_ : list Z;
  kSampleRatioMask : Z;
  kFeatureNumber : nat;
  kSuperFeatureNumber : nat
}.

(** The constructor with its default arguments; [draws] is what the random
    engine yields, alternating between the two arrays. *)
Definition new_FeatureGenerator (draws : list Z) : FeatureGenerator :=
  mkGen (replicate 12 0)
    ((fun i => nth (2 * i) draws 0) <$> seq 0 12) ((fun i => nth (2 * i + 1) draws 0) <$> seq 0 12)
    k1_128RatioMask 12 3.

Definition set_features (f : list Z) (g : FeatureGenerator) : FeatureGenerator :=
  mkGen f (random_transform_args_a_ g) (random_transform_args_b_ g) (kSampleRatioMask g)
    (kFeatureNumber g) (kSuperFeatureNumber g).

Definition CleanFeatures (g : FeatureGenerator) : FeatureGenerator :=
  set_features (replicate (kFeatureNumber g) 0) g.

(** [hash = (hash << 1) + GEARmx[c]]. *)
Definition gearmx_step (hash c : Z) : Z := (w64 (Z.shiftl hash 1) + gearmx c)%u64.

(** The inner loop at a sampled position. *)
Definition transform (hash a b f : Z) : Z :=
  let r := w64 (hash * a + b) in if f <? r then r else f.

Definition sample (g : FeatureGenerator) (hash : Z) (fs : list Z) : list Z :=
  zip_with (fun ab f => transform hash ab.1 ab.2 f)
    (zip (random_transform_args_a_ g) (random_transform_args_b_ g)) fs.

(** The loop over the chunk, from hash [hash]. *)
Fixpoint detect (g : FeatureGenerator) (value : bytes) (hash : Z) (fs : list Z) : list Z :=
  match value with
  | [] => fs
  | c :: value' =>
      let hash := gearmx_step hash c in
      let fs := if Z.land hash (kSampleRatioMask g) =? 0 then sample g hash fs else fs in
      detect g value' hash fs
  end.

Definition OdessResemblanceDetect (g : FeatureGenerator) (value : bytes) : FeatureGenerator :=
  set_features (detect g value 0 (features_ g)) g.

(** [XXH64(&features_[i * group_len], sizeof(feature_t) * group_len, 0x7fcaf1)]. *)
Definition group_hash (fs : list Z) (group_len i : nat) : Z :=
  XXH64 (flat_map (le_put 8) (take group_len (drop (i * group_len) fs))) 0x7fcaf1.

Definition CopyFeaturesAsSuperFeatures (g : FeatureGenerator) : list Z := features_ g.

Definition GroupFeaturesAsSuperFeatures (g : FeatureGenerator) : list Z :=
  (fun i => group_hash (features_ g) (kFeatureNumber g / kSuperFeatureNumber g) i)
    <$> seq 0 (kSuperFeatureNumber g).

Definition MakeSuperFeatures (g : FeatureGenerator) : list Z :=
  if Nat.eqb (kSuperFeatureNumber g) (kFeatureNumber g) then CopyFeaturesAsSuperFeatures g
  else GroupFeaturesAsSuperFeatures g.

Definition GenerateSuperFeatures (g : FeatureGenerator) (value : bytes) : list Z * FeatureGenerator :=
  let g := OdessResemblanceDetect (CleanFeatures g) value in
  (MakeSuperFeatures g, g).

(** The Palantir variant: the same detection, and three tiers of groups. *)
Definition PalantirResemblanceDetect (g : FeatureGenerator) (value : bytes) : FeatureGenerator :=
  set_features (detect g value 0 (features_ g)) g.

Definition PalantirMakeSF (g : FeatureGenerator) : list Z :=
  ((fun i => group_hash (features_ g) (kFeatureNumber g / 3) i) <$> seq 0 3) ++
  ((fun i => group_hash (features_ g) (kFeatureNumber g / 4) i) <$> seq 0 4) ++
  ((fun i => group_hash (features_ g) (kFeatureNumber g / 6) i) <$> seq 0 6).

Definition PalantirGetSF (g : FeatureGenerator) (value : bytes) : list Z * FeatureGenerator :=
  let g := PalantirResemblanceDetect (CleanFeatures g) value in
  (PalantirMakeSF g, g).

(** ** [FeatureIndexTable] *)

(** Iterating over an [unordered_set] visits its elements in an order the
    library chooses: [order] gives it. *)
Record FeatureIndexTable := mkTable {
  feature_generator_ : FeatureGenerator;
  feature_key_table_ : gmap Z (gset string);
  key_feature_table_ : gmap string (list Z);
  SFindex : gmap Z (list Z)
}.

Definition new_Table (g : FeatureGenerator) : FeatureIndexTable := mkTable g ∅ ∅ ∅.

(** [feature_key_table_[sf]], which creates the set when there is none. *)
Definition keys_at (t : gmap Z (gset string)) (sf : Z) : gset string := default ∅ (t !! sf).

Definition erase_key (key : string) (t : gmap Z (gset string)) (sf : Z) : gmap Z (gset string) :=
  <[sf := keys_at t sf ∖ {[key]}]> t.

Definition insert_key (key : string) (t : gmap Z (gset string)) (sf : Z) : gmap Z (gset string) :=
  <[sf := keys_at t sf ∪ {[key]}]> t.

Definition GetSuperFeatures (key : string) (t : FeatureIndexTable) : option (list Z) :=
  key_feature_table_ t !! key.

Definition ExecuteDelete (key : string) (sfs : list Z) (t : FeatureIndexTable) : FeatureIndexTable :=
  mkTable (feature_generator_ t) (foldl (erase_key key) (feature_key_table_ t) sfs)
    (delete key (key_feature_table_ t)) (SFindex t).

Definition Delete (key : string) (t : FeatureIndexTable) : FeatureIndexTable :=
  match GetSuperFeatures key t with
  | Some sfs => ExecuteDelete key sfs t
  | None => t
  end.

Definition Put (key : string) (value : bytes) (t : FeatureIndexTable) : FeatureIndexTable :=
  let t := Delete key t in
  let '(sfs, g) := GenerateSuperFeatures (feature_generator_ t) value in
  mkTable g (foldl (insert_key key) (feature_key_table_ t) sfs)
    (<[key := sfs]> (key_feature_table_ t)) (SFindex t).

(** The keys that share a super-feature with another one, counted. *)
Definition CountAllSimilarRecords (t : FeatureIndexTable) : nat :=
  size (map_fold (fun _ keys acc => if (1 <? Z.of_nat (size keys)) then acc ∪ keys else acc)
          (∅ : gset string) (feature_key_table_ t)).

Definition not_found : string := "not found".

Section Order.
Context (order : gset string -> list string).

(** The first key other than [key] in the set of a super-feature. *)
Fixpoint similar_key (key : string) (sfs : list Z) (t : gmap Z (gset string)) : string :=
  match sfs with
  | [] => not_found
  | sf :: sfs' =>
      match list_find (fun k => k <> key) (order (keys_at t sf)) with
      | Some (_, k) => k
      | None => similar_key key sfs' t
      end
  end.

Definition GetSimilarRecordsKeys (key : string) (t : FeatureIndexTable) : string :=
  match GetSuperFeatures key t with
  | None => not_found
  | Some sfs => similar_key key sfs (feature_key_table_ t)
  end.

(** [GetSimilarRecordKey]: the first key of the first super-feature present;
    an empty set passes the turn. *)
Fixpoint GetSimilarRecordKey (sfs : list Z) (t : FeatureIndexTable) : string :=
  match sfs with
  | [] => not_found
  | sf :: sfs' =>
      match order (keys_at (feature_key_table_ t) sf) with
      | k :: _ => k
      | [] => GetSimilarRecordKey sfs' t
      end
  end.
End Order.

(** [SF_Find]: the first id of the first super-feature present, else
    [UINT64_MAX]. *)
Fixpoint SF_Find (sfs : list Z) (t : gmap Z (list Z)) : Z :=
  match sfs with
  | [] => UINT64_MAX
  | sf :: sfs' =>
      match t !! sf with
      | Some (id :: _) => id
      | _ => SF_Find sfs' t
      end
  end.

(** [SF_Insert]: the id goes to the end of the first three lists. *)
Definition SF_Insert (sfs : list Z) (chunkid : Z) (t : FeatureIndexTable) : FeatureIndexTable :=
  mkTable (feature_generator_ t) (feature_key_table_ t) (key_feature_table_ t)
    (foldl (fun m i => let sf := nth i sfs 0 in <[sf := default [] (m !! sf) ++ [chunkid]]> m)
       (SFindex t) (seq 0 3)).

(** ** The Gear hash forgets all but 64 bytes *)

Definition gearmx_hash (hash : Z) (bs : bytes) : Z := foldl gearmx_step hash bs.

Lemma gearmx_step_alt hash c : gearmx_step hash c = w64 (hash * 2 + gearmx c).
Proof. unfold gearmx_step. by rewrite Z.shiftl_mul_pow2, w64_add_l by lia. Qed.

Lemma gearmx_hash_split hash bs :
  w64 (gearmx_hash hash bs) = w64 (hash * 2 ^ len bs + gearmx_hash 0 bs).
Proof.
  induction bs as [|c bs IH] using rev_ind.
  { rewrite (@len_nil Z). cbn. f_equal. lia. }
  unfold gearmx_hash in *. rewrite !foldl_app. cbn [foldl]. rewrite !gearmx_step_alt.
  rewrite len_app, (len_cons c), (@len_nil Z), Z.pow_add_r by slia.
  rewrite w64_add_r. change (2 ^ (1 + 0)) with 2.
  assert (forall x, w64 (w64 x) = w64 x) as Hidem by (intros x; apply Zmod_mod). rewrite Hidem.
  rewrite <- (w64_add_l (_ * 2)), <- (w64_mul_l (foldl gearmx_step hash bs)), IH, w64_mul_l, w64_add_l.
  f_equal. lia.
Qed.

Lemma gearmx_hash_bound hash bs : bs <> [] -> w64 (gearmx_hash hash bs) = gearmx_hash hash bs.
Proof.
  intros Hne. destruct bs as [|c bs] using rev_ind; [done|]. unfold gearmx_hash. rewrite foldl_app. cbn [foldl].
  rewrite gearmx_step_alt. apply w64_small, w64_bound.
Qed.

(** After 64 bytes, what came before no longer matters. *)
Lemma gearmx_hash_window hash bs : 64 <= len bs -> gearmx_hash hash bs = gearmx_hash 0 bs.
Proof.
  intros Hl. assert (bs <> []) as Hne by (intros ->; rewrite (@len_nil Z) in Hl; lia).
  rewrite <- (gearmx_hash_bound hash), <- (gearmx_hash_bound 0) by done.
  rewrite gearmx_hash_split. replace (len bs) with (64 + (len bs - 64)) by lia.
  rewrite Z.pow_add_r, Z.mul_assoc, (Z.mul_comm hash), <- Z.mul_assoc, Z.add_comm by lia.
  unfold w64. rewrite Z.mul_comm. apply Z_mod_plus_full.
Qed.

(** ** Features are maxima over the sampled hashes *)

(** The sampled hashes, in order. *)
Fixpoint samples (mask : Z) (value : bytes) (hash : Z) : list Z :=
  match value with
  | [] => []
  | c :: value' =>
      let hash := gearmx_step hash c in
      if Z.land hash mask =? 0 then hash :: samples mask value' hash else samples mask value' hash
  end.

Lemma samples_app mask v1 v2 hash :
  samples mask (v1 ++ v2) hash = samples mask v1 hash ++ samples mask v2 (gearmx_hash hash v1).
Proof.
  revert hash. induction v1 as [|c v1 IH]; intros hash; [done|]. cbn. rewrite IH.
  by destruct (_ =? 0).
Qed.

(** The largest transform of the samples [hs], from [f]. *)
Definition best (hs : list Z) (ab : Z * Z) (f : Z) : Z :=
  foldl (fun m h => Z.max m (w64 (h * ab.1 + ab.2))) f hs.

Definition args (g : FeatureGenerator) : list (Z * Z) :=
  zip (random_transform_args_a_ g) (random_transform_args_b_ g).

Lemma transform_max hash a b f : transform hash a b f = Z.max f (w64 (hash * a + b)).
Proof. unfold transform. destruct (Z.ltb_spec f (w64 (hash * a + b))); lia. Qed.

Lemma detect_best g value : forall hash fs,
  length fs = length (args g) ->
  detect g value hash fs = zip_with (best (samples (kSampleRatioMask g) value hash)) (args g) fs.
Proof.
  assert (forall (l : list (Z * Z)) fs, length fs = length l -> fs = zip_with (best []) l fs) as Hnil.
  { induction l as [|ab l IH]; intros [|f fs] Hl; try done. cbn. f_equal. apply IH. cbn in Hl. lia. }
  induction value as [|c value IH]; intros hash fs Hl; [by apply Hnil|].
  cbn [detect samples]. destruct (_ =? 0); [|by apply IH].
  assert (sample g (gearmx_step hash c) fs = zip_with (best [gearmx_step hash c]) (args g) fs) as ->.
  { unfold sample, args. apply zip_with_ext; [|done..]. intros [a b] f. by rewrite transform_max. }
  rewrite IH by (rewrite length_zip_with; lia). clear.
  revert fs. induction (args g) as [|ab l IH]; intros [|f fs]; try done. cbn. f_equal. apply IH.
Qed.

Lemma best_app hs ks ab f : best (hs ++ ks) ab f = Z.max (best hs ab f) (best ks ab 0) \/ f < 0.
Proof.
  destruct (Z.lt_ge_cases f 0); [by right|]. left. unfold best. rewrite foldl_app.
  set (m := foldl _ f hs).
  assert (0 <= m) as Hm.
  { subst m. revert f H. induction hs as [|h hs IH]; intros f Hf; [done|]. cbn. apply IH. lia. }
  clearbody m. clear -Hm. revert m Hm.
  assert (forall ks a b, 0 <= a -> 0 <= b ->
    foldl (fun m h => Z.max m (w64 (h * ab.1 + ab.2))) (Z.max a b) ks =
    Z.max a (foldl (fun m h => Z.max m (w64 (h * ab.1 + ab.2))) b ks)) as Hmax.
  { clear. induction ks as [|k ks IH]; intros a b Ha Hb; [done|]. cbn. rewrite <- IH by lia.
    f_equal. lia. }
  intros m Hm. rewrite <- Hmax by lia. f_equal. lia.
Qed.

(** The arrays of a generator have [kFeatureNumber] entries. *)
Definition gen_wf (g : FeatureGenerator) : Prop :=
  length (random_transform_args_a_ g) = kFeatureNumber g /\
  length (random_transform_args_b_ g) = kFeatureNumber g.

Lemma length_args g : gen_wf g -> length (args g) = kFeatureNumber g.
Proof. intros [H1 H2]. unfold args. rewrite length_zip_with. lia. Qed.

(** [features_] after [CleanFeatures] and the detection on [value]. *)
Definition features_of (g : FeatureGenerator) (value : bytes) : list Z :=
  features_ (OdessResemblanceDetect (CleanFeatures g) value).

Lemma features_of_best g value :
  gen_wf g -> features_of g value =
    (fun ab => best (samples (kSampleRatioMask g) value 0) ab 0) <$> args g.
Proof.
  intros Hg. unfold features_of, OdessResemblanceDetect, CleanFeatures. cbn [features_ set_features].
  rewrite (detect_best (set_features _ g)) by (rewrite length_replicate; symmetry; apply (length_args g Hg)).
  change (args (set_features _ g)) with (args g). cbn [kSampleRatioMask set_features].
  rewrite <- (length_args g Hg). clear. induction (args g) as [|ab l IH]; [done|]. cbn. f_equal. apply IH.
Qed.

(** ** The index stays consistent *)

Definition table_consistent (t : FeatureIndexTable) : Prop :=
  forall key sf, key ∈ keys_at (feature_key_table_ t) sf <->
    exists sfs, key_feature_table_ t !! key = Some sfs /\ sf ∈ sfs.

Lemma keys_at_insert t sf sf' ks : keys_at (<[sf := ks]> t) sf' = if decide (sf = sf') then ks else keys_at t sf'.
Proof. unfold keys_at. rewrite lookup_insert. by case_decide. Qed.

Lemma erase_keys key sfs : forall t k sf,
  k ∈ keys_at (foldl (erase_key key) t sfs) sf <-> k ∈ keys_at t sf /\ ~ (k = key /\ sf ∈ sfs).
Proof.
  induction sfs as [|s sfs IH]; intros t k sf; cbn [foldl].
  - rewrite elem_of_nil. tauto.
  - rewrite IH. unfold erase_key. rewrite keys_at_insert, elem_of_cons. case_decide; [subst|].
    + rewrite elem_of_difference, elem_of_singleton. tauto.
    + assert (sf <> s) by congruence. tauto.
Qed.

Lemma insert_keys key sfs : forall t k sf,
  k ∈ keys_at (foldl (insert_key key) t sfs) sf <-> k ∈ keys_at t sf \/ (k = key /\ sf ∈ sfs).
Proof.
  induction sfs as [|s sfs IH]; intros t k sf; cbn [foldl].
  - rewrite elem_of_nil. tauto.
  - rewrite IH. unfold insert_key. rewrite keys_at_insert, elem_of_cons. case_decide; [subst|].
    + rewrite elem_of_union, elem_of_singleton. tauto.
    + assert (sf <> s) by congruence. tauto.
Qed.

Lemma delete_consistent key t : table_consistent t -> table_consistent (Delete key t) /\
  key_feature_table_ (Delete key t) = delete key (key_feature_table_ t).
Proof.
  intros Ht. unfold Delete, GetSuperFeatures. destruct (_ !! key) as [sfs|] eqn:Hk.
  - split; [|done]. intros k sf. cbn [feature_key_table_ key_feature_table_ ExecuteDelete].
    rewrite erase_keys, (Ht k sf). rewrite lookup_delete. case_decide as He; [subst|].
    + split; [intros [(s & H1 & H2) Hn]; exfalso; apply Hn; split; [done|]; congruence|intros (? & ? & _); done].
    + split; [tauto|]. intros H. split; [done|]. intros [-> _]. done.
  - split; [done|]. by rewrite delete_id.
Qed.

Lemma put_consistent key value t : table_consistent t -> table_consistent (Put key value t).
Proof.
  intros Ht. destruct (delete_consistent key t Ht) as [Hd He]. unfold Put.
  destruct (GenerateSuperFeatures _ value) as [sfs g]. intros k sf.
  cbn [feature_key_table_ key_feature_table_]. rewrite insert_keys, (Hd k sf), He, lookup_insert, lookup_delete.
  case_decide as Hk; [subst|].
  - split; [intros [(? & ? & _)|[_ ?]]; [done|by eexists]|]. intros (? & [= <-] & ?). auto.
  - split; [intros [?|[-> _]]; done|auto].
Qed.

Inductive table_op := OpPut (key : string) (value : bytes) | OpDelete (key : string).

Definition run_table (t : FeatureIndexTable) (o : table_op) : FeatureIndexTable :=
  match o with
  | OpPut key value => Put key value t
  | OpDelete key => Delete key t
  end.

Lemma run_consistent ops t : table_consistent t -> table_consistent (foldl run_table t ops).
Proof.
  revert t. induction ops as [|o ops IH]; intros t Ht; [done|]. apply IH. destruct o.
  - by apply put_consistent.
  - by apply delete_consistent.
Qed.

(** What a lookup finds in one pass over the super-features. *)
Lemma similar_key_spec order key sfs t :
  (forall X, order X ≡ₚ elements X) ->
  (exists sf, sf ∈ sfs /\ similar_key order key sfs t <> key /\ similar_key order key sfs t ∈ keys_at t sf) \/
  (similar_key order key sfs t = not_found /\ forall sf k, sf ∈ sfs -> k ∈ keys_at t sf -> k = key).
Proof.
  intros Ho. induction sfs as [|s sfs IH]; cbn [similar_key].
  { right. split; [done|]. intros sf k Hsf. by apply not_elem_of_nil in Hsf. }
  destruct (list_find _ (order (keys_at t s))) as [[i k]|] eqn:Hf.
  - left. exists s. apply list_find_Some in Hf as (H1 & H2 & _). split; [by left|]. split; [done|].
    apply list_elem_of_lookup_2 in H1. rewrite (Ho _) in H1. by apply elem_of_elements.
  - apply list_find_None in Hf. rewrite Forall_forall in Hf.
    assert (forall k, k ∈ keys_at t s -> k = key) as Hs.
    { intros k Hk. destruct (decide (k = key)); [done|]. exfalso. apply (Hf k); [|done].
      rewrite (Ho _). by apply elem_of_elements. }
    destruct IH as [(sf & H1 & H2 & H3)|[H1 H2]].
    + left. exists sf. split; [by right|done].
    + right. split; [done|]. intros sf k [->|Hsf]%elem_of_cons Hk; [by apply Hs|by eapply H2].
Qed.

(** ** Properties *)

(** C27: features see shared content: the [i]-th feature of a chunk is the
    largest [i]-th transform over the sampled Gear hashes, and two chunks that
    share a stretch [w1 ++ w2], with [w1] at least 64 bytes long, have the same
    samples inside [w2] whatever precedes: every feature of [p ++ w1 ++ w2] is
    the larger of that of [p ++ w1] and a value that does not depend on [p]. *)
Theorem odess_features_see_shared_content (g : FeatureGenerator) (w1 w2 : bytes)
    (Hg : gen_wf g) (Hw : 64 <= len w1) :
  (forall v, features_of g v =
     (fun ab => foldl (fun m h => Z.max m (w64 (h * ab.1 + ab.2))) 0 (samples (kSampleRatioMask g) v 0))
       <$> args g) /\
  exists shared, forall p,
    features_of g (p ++ w1 ++ w2) = zip_with Z.max (features_of g (p ++ w1)) shared.
Proof.
  split; [intros v; by apply features_of_best|].
  exists ((fun ab => best (samples (kSampleRatioMask g) w2 (gearmx_hash 0 w1)) ab 0) <$> args g).
  intros p. rewrite !features_of_best by done. rewrite app_assoc.
  assert (gearmx_hash 0 (p ++ w1) = gearmx_hash 0 w1) as He.
  { unfold gearmx_hash at 1. rewrite foldl_app. by apply gearmx_hash_window. }
  rewrite samples_app, He. clear. induction (args g) as [|ab l IH]; [done|]. cbn. f_equal; [|done].
  destruct (best_app (samples (kSampleRatioMask g) (p ++ w1) 0)
    (samples (kSampleRatioMask g) w2 (gearmx_hash 0 w1)) ab 0) as [->|]; [done|lia].
Qed.

Lemma odess_features_see_shared_content_witness :
  let g := new_FeatureGenerator (replicate 24 3) in
  (forall v, features_of g v =
     (fun ab => foldl (fun m h => Z.max m (w64 (h * ab.1 + ab.2))) 0 (samples (kSampleRatioMask g) v 0))
       <$> args g) /\
  exists shared, forall p,
    features_of g (p ++ replicate 64 1 ++ [2; 3]) =
      zip_with Z.max (features_of g (p ++ replicate 64 1)) shared.
Proof. intros g. apply odess_features_see_shared_content; [done|by vm_compute]. Defined.

(** Palantir refines Odess: with the default sizes, the first tier of
    [PalantirGetSF] is exactly the super-features of Odess, and neither depends
    on what the generator computed before. *)
Theorem palantir_extends_odess (g g' : FeatureGenerator) (value : bytes)
    (Hn : kFeatureNumber g = 12%nat) (Hs : kSuperFeatureNumber g = 3%nat)
    (Hg : g' = set_features (features_ g') g) :
  take 3 (PalantirGetSF g value).1 = (GenerateSuperFeatures g' value).1 /\
  length (PalantirGetSF g value).1 = 13%nat.
Proof.
  rewrite Hg. unfold PalantirGetSF, GenerateSuperFeatures, MakeSuperFeatures, PalantirMakeSF.
  unfold PalantirResemblanceDetect, OdessResemblanceDetect, CleanFeatures, GroupFeaturesAsSuperFeatures.
  cbn [fst kFeatureNumber kSuperFeatureNumber set_features features_]. rewrite Hn, Hs. done.
Qed.

Lemma palantir_extends_odess_witness :
  let g := new_FeatureGenerator (replicate 24 3) in
  take 3 (PalantirGetSF g [1; 2]).1 = (GenerateSuperFeatures (set_features [7] g) [1; 2]).1 /\
  length (PalantirGetSF g [1; 2]).1 = 13%nat.
Proof. intros g. by apply palantir_extends_odess. Defined.

(** C28: the two tables of [FeatureIndexTable] are inverse to each other after
    any sequence of [Put] and [Delete], and [GetSimilarRecordsKeys] of a stored
    key returns another stored key that shares a super-feature with it, or
    reports that none does, whatever the iteration order of the sets. *)
Theorem feature_index_consistent (g : FeatureGenerator) (ops : list table_op)
    (order : gset string -> list string) (Ho : forall X, order X ≡ₚ elements X) :
  let t := foldl run_table (new_Table g) ops in
  (forall key sf, key ∈ keys_at (feature_key_table_ t) sf <->
     exists sfs, key_feature_table_ t !! key = Some sfs /\ sf ∈ sfs) /\
  (forall key sfs, key_feature_table_ t !! key = Some sfs ->
     let r := GetSimilarRecordsKeys order key t in
     (r <> key /\ exists sfs' sf, key_feature_table_ t !! r = Some sfs' /\ sf ∈ sfs /\ sf ∈ sfs') \/
     (r = not_found /\ forall key' sfs' sf, key_feature_table_ t !! key' = Some sfs' ->
        sf ∈ sfs -> sf ∈ sfs' -> key' = key)).
Proof.
  intros t. assert (table_consistent t) as Ht.
  { apply run_consistent. intros key sf. cbn. unfold keys_at. rewrite lookup_empty. cbn.
    rewrite elem_of_empty. split; [done|]. intros (? & ? & _). done. }
  split; [exact Ht|]. intros key sfs Hk r. subst r. unfold GetSimilarRecordsKeys, GetSuperFeatures. rewrite Hk.
  destruct (similar_key_spec order key sfs (feature_key_table_ t) Ho) as [(sf & H1 & H2 & H3)|[H1 H2]].
  - left. split; [done|]. apply Ht in H3 as (sfs' & H3 & H4). by exists sfs', sf.
  - right. split; [done|]. intros key' sfs' sf Hk' Hs Hs'. apply (H2 sf); [done|]. apply Ht. by exists sfs'.
Qed.

Lemma feature_index_consistent_witness :
  let t := foldl run_table (new_Table (new_FeatureGenerator (replicate 24 3)))
             [OpPut "a" [1]; OpPut "b" [2]; OpDelete "a"] in
  (forall key sf, key ∈ keys_at (feature_key_table_ t) sf <->
     exists sfs, key_feature_table_ t !! key = Some sfs /\ sf ∈ sfs) /\
  (forall key sfs, key_feature_table_ t !! key = Some sfs ->
     let r := GetSimilarRecordsKeys elements key t in
     (r <> key /\ exists sfs' sf, key_feature_table_ t !! r = Some sfs' /\ sf ∈ sfs /\ sf ∈ sfs') \/
     (r = not_found /\ forall key' sfs' sf, key_feature_table_ t !! key' = Some sfs' ->
        sf ∈ sfs -> sf ∈ sfs' -> key' = key)).
Proof. apply (feature_index_consistent _ _ elements). done. Defined.
