(* ===== verification/AbsMethod.v ===== *)
(** * The state and helpers every compression method shares

    [include/absmethod.h] and [src/method/absMethod.cc]: the fingerprint
    index, the Finesse super-feature index, hashing, the wrappers of LZ4 and
    xdelta, the statistics, the natural file-name order, and the merging and
    compression of whole files.  A method is a computation over [Abs X], where
    [X] is the state the method adds; [on_dw] runs an operation of its
    [dataWrite].  Timers are left out, and of
    the floating-point [DCESum] all but the division; what is printed is in
    [Logs.v]. *)

From S2P Require Import Prelude Lz4 Define Chunker Codec DataWrite.

(** ** Statistics: 64-bit counters *)

Inductive stat :=
  | logicalchunkNum | uniquechunkNum | basechunkNum | deltachunkNum | bugCount | SFnum
  | computeSFtimes | logicalchunkSize | uniquechunkSize | basechunkSize | basechunkOriSize
  | deltachunkSize | deltachunkOriSize | localchunkSize | localPrechunkSize | ContainerSize
  | DedupReduct | DeltaReduct | LocalReduct | LocalityReduct | FeatureReduct
  | oriLCSize | MLCSize.

#[export] Instance stat_eq_dec : EqDecision stat.
Proof. solve_decision. Defined.

Record Abs (X : Type) := mkAbs {
  dataWrite_ : dataWrite;
  FPindex : gmap (list Z) Z;
  SFindex : list (gmap (list Z) (list Z));
  lz4ChunkBuffer : bytes;
  stats : stat -> Z;
  ads_Version : Z;
  ext : X
}.
Arguments mkAbs {_}.
Arguments dataWrite_ {_}.
Arguments FPindex {_}.
Arguments SFindex {_}.
Arguments lz4ChunkBuffer {_}.
Arguments stats {_}.
Arguments ads_Version {_}.
Arguments ext {_}.

Definition new_Abs {X} (d : dataWrite) (x : X) : Abs X :=
  mkAbs d ∅ (replicate (Z.to_nat FINESSE_SF_NUM) ∅) [] (fun _ => 0) 0 x.

Section Method.
Context {X : Type} `{Lz4, Xdelta, Digest}.
Implicit Types s : Abs X.

Definition set_dw (d : dataWrite) s : Abs X :=
  mkAbs d (FPindex s) (SFindex s) (lz4ChunkBuffer s) (stats s) (ads_Version s) (ext s).
Definition set_fp (m : gmap (list Z) Z) s : Abs X :=
  mkAbs (dataWrite_ s) m (SFindex s) (lz4ChunkBuffer s) (stats s) (ads_Version s) (ext s).
Definition set_sf (m : list (gmap (list Z) (list Z))) s : Abs X :=
  mkAbs (dataWrite_ s) (FPindex s) m (lz4ChunkBuffer s) (stats s) (ads_Version s) (ext s).
Definition set_lz4buf (b : bytes) s : Abs X :=
  mkAbs (dataWrite_ s) (FPindex s) (SFindex s) b (stats s) (ads_Version s) (ext s).
Definition set_ext (x : X) s : Abs X :=
  mkAbs (dataWrite_ s) (FPindex s) (SFindex s) (lz4ChunkBuffer s) (stats s) (ads_Version s) x.
Definition set_version (v : Z) s : Abs X :=
  mkAbs (dataWrite_ s) (FPindex s) (SFindex s) (lz4ChunkBuffer s) (stats s) v (ext s).
Definition set_stat (st : stat) (v : Z) s : Abs X :=
  mkAbs (dataWrite_ s) (FPindex s) (SFindex s) (lz4ChunkBuffer s)
    (fun st' => if decide (st' = st) then v else stats s st') (ads_Version s) (ext s).

(** [st += n] and [st++]. *)
Definition add_stat (st : stat) (n : Z) : M (Abs X) unit :=
  modify (fun s => set_stat st (stats s st + n)%u64 s).

Definition on_dw {A} (m : DW A) : M (Abs X) A := fun s =>
  match m (dataWrite_ s) with
  | Ok (a, d) => Ok (a, set_dw d s)
  | Err e => Err e
  end.

(** ** Fingerprints *)

(** The OpenSSL calls are taken to succeed (a failure ends the process). *)
Definition GenerateHash (p : ptr) (dataSize : Z) : M (Abs X) bytes :=
  b ← on_dw (load p (w64 (s32 dataSize)));
  mret (EVP_sha256 b).

Definition FP_Find (fp : bytes) : M (Abs X) Z := gets (fun s =>
  match FPindex s !! fp with Some id => id | None => -1 end).

Definition FP_Insert (fp : bytes) (chunkid : Z) : M (Abs X) bool :=
  modify (fun s => set_fp (<[fp := s32 chunkid]> (FPindex s)) s) ;; mret true.

(** ** The super-feature index: three tables keyed by 32-byte digests *)

Definition sf_key (key : bytes) (i : nat) : bytes := sub (Z.of_nat i * CHUNK_HASH_SIZE) CHUNK_HASH_SIZE key.

(** The loop of [SF_Find]: the last id under the first key that is present;
    [back()] of an empty vector is [EmptyAccess]. *)
Fixpoint sf_find (tables : list (gmap (list Z) (list Z))) (i : nat) (key : bytes) : result Z :=
  match tables with
  | [] => Ok (-1)
  | t :: tables' =>
      match t !! sf_key key i with
      | Some ids => from_option_or EmptyAccess (last ids)
      | None => sf_find tables' (S i) key
      end
  end.

Definition SF_Find (key : bytes) : M (Abs X) Z := fun s =>
  lift (sf_find (SFindex s) 0 key) s.

Definition sf_insert (key : bytes) (id : Z) (tables : list (gmap (list Z) (list Z))) :=
  imap (fun i t => <[sf_key key i := default [] (t !! sf_key key i) ++ [id]]> t) tables.

Definition SF_Insert (key : bytes) (chunkid : Z) : M (Abs X) bool :=
  modify (fun s => set_sf (sf_insert key (s32 chunkid) (SFindex s)) s) ;; mret true.

(** ** Compression *)

(** [xd3_encode]: a fresh block holding the delta, and the delta's size.  An
    error code is printed and otherwise ignored. *)
Definition xd3_encode (target base : ptr) (target_size base_size : Z) : M (Abs X) (nat * Z) :=
  t ← on_dw (load target target_size);
  b ← on_dw (load base base_size);
  out ← lift (from_option_or Uninit (xd3_encode_memory t b (CONTAINER_MAX_SIZE * 2)).2);
  l ← on_dw (malloc (len out));
  on_dw (store l out) ;;
  mret (l, len out).

(** [LZ4_compress_fast(chunkPtr, lz4ChunkBuffer, chunkSize, chunkSize, 3)]. *)
Definition lz4_chunk (c : Chunk_t) : M (Abs X) Z :=
  src ← on_dw (load (chunkPtr c) (w64 (s32 (chunkSize c))));
  old ← gets lz4ChunkBuffer;
  let r := LZ4_compress_fast src old (s32 (chunkSize c)) 3 in
  modify (set_lz4buf r.2) ;;
  mret r.1.

(** ** Statistics of a delta chunk *)

(** [DCESum += chunkSize / saveSize]: the division of the two 64-bit sizes is
    that of integers; the sum is a [double] that is only printed. *)
Definition dce (c : Chunk_t) : M (Abs X) Z := lift (divide (chunkSize c) (saveSize c)).

Definition StatsDelta (c : Chunk_t) : M (Abs X) unit :=
  add_stat deltachunkOriSize (chunkSize c) ;;
  add_stat deltachunkSize (saveSize c) ;;
  add_stat deltachunkNum 1 ;;
  add_stat DeltaReduct (chunkSize c - saveSize c) ;;
  _ ← dce c;
  mret tt.

Definition StatsDeltaFeature (c : Chunk_t) : M (Abs X) unit :=
  add_stat deltachunkOriSize (chunkSize c) ;;
  add_stat deltachunkSize (saveSize c) ;;
  add_stat deltachunkNum 1 ;;
  add_stat DeltaReduct (chunkSize c - saveSize c) ;;
  add_stat FeatureReduct (chunkSize c - saveSize c) ;;
  _ ← dce c;
  mret tt.

Definition StatsDeltaLocality (c : Chunk_t) : M (Abs X) unit :=
  add_stat deltachunkOriSize (chunkSize c) ;;
  add_stat deltachunkSize (saveSize c) ;;
  add_stat deltachunkNum 1 ;;
  add_stat DeltaReduct (chunkSize c - saveSize c) ;;
  add_stat LocalityReduct (chunkSize c - saveSize c) ;;
  _ ← dce c;
  mret tt.

(** ** Storing *)

Definition set_id (id : Z) (f : DELTA_TYPE) (c : Chunk_t) : Chunk_t :=
  mkChunk id (chunkSize c) (saveSize c) (chunkPtr c) (basechunkID c) f (loadFromDisk c)
    (HeaderFlag c) (offset c) (containerID c).
Definition set_save (n : Z) (f : DELTA_TYPE) (c : Chunk_t) : Chunk_t :=
  mkChunk (chunkID c) (chunkSize c) n (chunkPtr c) (basechunkID c) f (loadFromDisk c)
    (HeaderFlag c) (offset c) (containerID c).
Definition set_base (b : Z) (c : Chunk_t) : Chunk_t :=
  mkChunk (chunkID c) (chunkSize c) (saveSize c) (chunkPtr c) b (deltaFlag c) (loadFromDisk c)
    (HeaderFlag c) (offset c) (containerID c).
Definition set_place (cid off : Z) (c : Chunk_t) : Chunk_t :=
  mkChunk (chunkID c) (chunkSize c) (saveSize c) (chunkPtr c) (basechunkID c) (deltaFlag c)
    (loadFromDisk c) (HeaderFlag c) off cid.

(** A base chunk: compressed, or raw when LZ4 does not fit it in its own size. *)
Definition compress_base (c : Chunk_t) : M (Abs X) Chunk_t :=
  n ← lz4_chunk c;
  mret (if 0 <? n then set_save n NO_DELTA c else set_save (chunkSize c) NO_LZ4 c).

Definition insert_base (c : Chunk_t) : M (Abs X) bool :=
  if decide (deltaFlag c = NO_LZ4) then on_dw (Chunk_Insert c)
  else buf ← gets lz4ChunkBuffer; on_dw (Chunk_Insert_lz4 c buf).

(** The end of every iteration: the recipe entry and the logical counts. *)
Definition record_chunk (c : Chunk_t) : M (Abs X) unit :=
  _ ← (if HeaderFlag c then on_dw (Recipe_Header_Insert (chunkID c))
       else on_dw (Recipe_Insert (chunkID c)));
  add_stat logicalchunkNum 1 ;;
  add_stat logicalchunkSize (chunkSize c).

(** Fetching the base and encoding the chunk against it. *)
Definition encode_against (c : Chunk_t) (baseid : Z) : M (Abs X) (Chunk_t * (nat * Z)) :=
  base ← on_dw (Get_Chunk_Info (s32 baseid));
  r ← xd3_encode (chunkPtr c) (chunkPtr base) (chunkSize c) (chunkSize base);
  mret (base, r).

(** [memcpy(chunkPtr, bs, |bs|)]; the chunks of the queue own heap blocks. *)
Definition store_ptr (p : ptr) (bs : bytes) : M (Abs X) unit :=
  match p with
  | PHeap l => on_dw (store l bs)
  | _ => throw BadPointer
  end.

(** The delta in the block [l] replaces the chunk's own bytes, with no check
    that it fits, and its block is freed. *)
Definition keep_delta (c : Chunk_t) (l : nat) (flag : DELTA_TYPE) (baseid : Z) : M (Abs X) Chunk_t :=
  d ← on_dw (load (PHeap l) (saveSize c));
  store_ptr (chunkPtr c) d ;;
  let c := set_base baseid (set_save (saveSize c) flag c) in
  StatsDelta c ;;
  on_dw (free (PHeap l)) ;;
  mret c.

(** The loop of [ProcessTrace] over the chunks the queue delivers; an
    iteration that returns [false] leaves [ProcessTrace]. *)
Fixpoint process_queue (one : Chunk_t -> M (Abs X) bool) (queue : list Chunk_t) : M (Abs X) bool :=
  match queue with
  | [] => mret true
  | c :: queue' => go ← one c; if (go : bool) then process_queue one queue' else mret false
  end.

(** A chunk whose fingerprint is known: its block is freed and the record of
    the first occurrence takes its place. *)
Definition dup_chunk (c : Chunk_t) (findRes : Z) : M (Abs X) Chunk_t :=
  on_dw (free (chunkPtr c)) ;;
  on_dw (Get_Chunk_MetaInfo findRes).
End Method.

(** ** The sub-chunk the N-transform method takes its features from *)

(** [ThirdCutPointHashMin]: the first longest piece of the chunk under the
    4 KiB content-defined cutter. *)
Fixpoint third_cut (fuel : nat) (src : bytes) (room len_ offset maxCut maxStart : Z) : result (Z * Z) :=
  if offset <? len_ then
    match fuel with
    | O => Err OutOfFuel
    | S fuel' =>
        cp ← Chunker.CutPointFastCDC (cdc_sizes 4096) (zdrop offset src) (room - offset)
               (len_ - offset)%u64;
        let '(maxCut, maxStart) := if maxCut <? cp then (cp, offset) else (maxCut, maxStart) in
        third_cut fuel' src room len_ (offset + cp)%u64 maxCut maxStart
    end
  else Ok (maxStart, w64 (maxStart + maxCut)).

Definition ThirdCutPointHashMin (src : bytes) (room len_ : Z) : result (Z * Z) :=
  third_cut (Z.to_nat len_) src room len_ 0 0 0.

(** ** The natural order of file names *)

Definition isdigit (c : Ascii.ascii) : bool :=
  (48 <=? Z.of_N (Ascii.N_of_ascii c)) && (Z.of_N (Ascii.N_of_ascii c) <=? 57).

Definition toupper (c : Ascii.ascii) : Z :=
  let n := Z.of_N (Ascii.N_of_ascii c) in
  if (97 <=? n) && (n <=? 122) then n - 32 else n.

(** [issa >> ia]: the digits at the start as a decimal [int] (an out-of-range
    number reads as [INT_MAX] and leaves the stream failed, so that the rest
    reads as empty), and the rest of the line. *)
Fixpoint read_int (acc : Z) (s : list Ascii.ascii) : Z * list Ascii.ascii :=
  match s with
  | c :: s' => if isdigit c then read_int (acc * 10 + (Z.of_N (Ascii.N_of_ascii c) - 48)) s' else (acc, s)
  | [] => (acc, [])
  end.

(** [getline]: up to the first newline. *)
Fixpoint first_line (s : list Ascii.ascii) : list Ascii.ascii :=
  match s with
  | c :: s' => if bool_decide (Z.of_N (Ascii.N_of_ascii c) = 10) then [] else c :: first_line s'
  | [] => []
  end.

Definition INT_MAX : Z := 2 ^ 31 - 1.

Definition parse_number (s : list Ascii.ascii) : Z * list Ascii.ascii :=
  let r := read_int 0 s in
  if INT_MAX <? r.1 then (INT_MAX, []) else (r.1, first_line r.2).

Fixpoint compareNat_loop (fuel : nat) (a b : list Ascii.ascii) : bool :=
  match fuel with
  | O => true
  | S fuel' =>
      match a, b with
      | [], _ => true
      | _, [] => false
      | ca :: a', cb :: b' =>
          if isdigit ca && negb (isdigit cb) then true
          else if negb (isdigit ca) && isdigit cb then false
          else if negb (isdigit ca) && negb (isdigit cb) then
            if toupper ca =? toupper cb then compareNat_loop fuel' a' b'
            else toupper ca <? toupper cb
          else
            let pa := parse_number a in
            let pb := parse_number b in
            if negb (pa.1 =? pb.1) then pa.1 <? pb.1
            else compareNat_loop fuel' pa.2 pb.2
      end
  end.

(** Each call drops at least one character of [a]. *)
Definition compareNat (a b : string) : bool :=
  compareNat_loop (S (length (String.list_ascii_of_string a)))
    (String.list_ascii_of_string a) (String.list_ascii_of_string b).

(** ** Whole files *)

(** [OriGenerate]: the readable files, in order, until [backupNum] were
    appended. *)
Fixpoint OriGenerate_loop (disk : gmap string bytes) (paths : list string) (backupNum : Z) (count : Z)
    : bytes :=
  match paths with
  | [] => []
  | p :: ps =>
      if backupNum <=? count then []
      else match disk !! p with
      | None => OriGenerate_loop disk ps backupNum count
      | Some bs => bs ++ OriGenerate_loop disk ps backupNum (count + 1)
      end
  end.

Definition OriGenerate (disk : gmap string bytes) (paths : list string) (backupNum : Z) : bytes :=
  OriGenerate_loop disk paths backupNum 0.

(** [CompressLargeFile]: blocks of 128 MiB, each preceded by its compressed
    size; the result is the sum of the sizes, and the file written so far.  A
    block LZ4 cannot compress makes the result 0. *)
Definition LC_BLOCK : Z := 128 * 1024 * 1024.

Section LargeFile.
Context `{Lz4}.

Fixpoint compress_blocks (fuel : nat) (block : Z) (input old out : bytes) (ans : Z)
    : option (Z * bytes) :=
  match input with
  | [] => Some (ans, out)
  | _ :: _ =>
      match fuel with
      | O => None
      | S fuel' =>
          let b := ztake block input in
          let r := LZ4_compress_fast b old (LZ4_compressBound block) 3 in
          if r.1 <=? 0 then Some (0, out)
          else compress_blocks fuel' block (zdrop block input) r.2
                 (out ++ le_put 4 r.1 ++ ztake r.1 r.2) (w64 (ans + r.1))
      end
  end.

Definition CompressLargeFile (input : bytes) : option (Z * bytes) :=
  compress_blocks (length input) LC_BLOCK input [] [] 0.

(** Reading such a file back. *)
Fixpoint expand_blocks (fuel : nat) (block : Z) (file : bytes) : option bytes :=
  match file with
  | [] => Some []
  | _ :: _ =>
      match fuel with
      | O => None
      | S fuel' =>
          let n := le_get (ztake 4 file) in
          let r := LZ4_decompress_safe (sub 4 n file) [] block in
          rest ← expand_blocks fuel' block (zdrop (4 + n) file);
          Some (ztake r.1 r.2 ++ rest)
      end
  end.
End LargeFile.

(** ** The order of file names is not strict *)

Lemma read_int_shorter acc s : (length (read_int acc s).2 <= length s)%nat.
Proof.
  revert acc. induction s as [|c s IH]; intros acc; [done|]. cbn. destruct (isdigit c); [|done].
  etransitivity; [apply IH|lia].
Qed.

Lemma first_line_shorter s : (length (first_line s) <= length s)%nat.
Proof. induction s as [|c s IH]; [done|]. cbn. destruct (bool_decide _); cbn; lia. Qed.

(** A number at the start takes at least its first digit away. *)
Lemma parse_number_shorter c s : isdigit c = true -> (length (parse_number (c :: s)).2 <= length s)%nat.
Proof.
  intros Hc. unfold parse_number. cbn [read_int]. rewrite Hc.
  destruct (INT_MAX <? _); [cbn; lia|]. cbn [snd]. etransitivity; [apply first_line_shorter|apply read_int_shorter].
Qed.

Lemma compareNat_fuel f : forall f' a b, (length a < f)%nat -> (length a < f')%nat ->
  compareNat_loop f a b = compareNat_loop f' a b.
Proof.
  induction f as [|f IH]; intros [|f'] a b H1 H2; [lia..|]. cbn [compareNat_loop].
  destruct a as [|ca a], b as [|cb b]; try done. cbn in H1, H2.
  destruct (isdigit ca) eqn:Ha, (isdigit cb); cbn [andb negb]; try done.
  - pose proof (parse_number_shorter ca a Ha). destruct (negb _); [done|]. apply IH; lia.
  - destruct (toupper ca =? toupper cb); [|done]. apply IH; lia.
Qed.

Lemma compareNat_loop_total f : forall a b, (length a < f)%nat -> (length b < f)%nat ->
  compareNat_loop f a a = true /\ (compareNat_loop f a b = true \/ compareNat_loop f b a = true).
Proof.
  induction f as [|f IH]; intros a b H1 H2; [lia|]. cbn [compareNat_loop].
  destruct a as [|ca a], b as [|cb b]; auto; cbn in H1, H2.
  { destruct (isdigit ca) eqn:Ha; cbn [andb negb]; rewrite Z.eqb_refl; cbn [negb]; split; auto;
      [pose proof (parse_number_shorter ca a Ha)|]; eapply (IH _ []); cbn; lia. }
  destruct (isdigit ca) eqn:Ha, (isdigit cb) eqn:Hb; cbn [andb negb]; rewrite !Z.eqb_refl; cbn [negb].
  - pose proof (parse_number_shorter ca a Ha). pose proof (parse_number_shorter cb b Hb).
    destruct (IH (parse_number (ca :: a)).2 (parse_number (cb :: b)).2) as [I1 I2]; [lia..|].
    split; [done|]. rewrite (Z.eqb_sym (parse_number (cb :: b)).1).
    destruct (Z.eqb_spec (parse_number (ca :: a)).1 (parse_number (cb :: b)).1); cbn [negb]; [done|].
    rewrite !Z.ltb_lt. lia.
  - pose proof (parse_number_shorter ca a Ha). split; [eapply (IH _ []); cbn; lia|by left].
  - split; [eapply (IH _ []); cbn; lia|by right].
  - destruct (IH a b) as [I1 I2]; [lia..|]. split; [done|]. rewrite (Z.eqb_sym (toupper cb)).
    destruct (Z.eqb_spec (toupper ca) (toupper cb)); [done|]. rewrite !Z.ltb_lt. lia.
Qed.

(** [compareNat], the comparison [main] gives to [std::sort], is not a strict
    order: every name compares as less than itself, and of any two names at
    least one is less than the other, so that it is the total preorder "not
    greater".  [std::sort] requires an irreflexive comparison. *)
Theorem compareNat_not_strict (a b : string) :
  compareNat a a = true /\ (compareNat a b = true \/ compareNat b a = true).
Proof.
  unfold compareNat. set (la := String.list_ascii_of_string a). set (lb := String.list_ascii_of_string b).
  set (f := S (Nat.max (length la) (length lb))).
  rewrite (compareNat_fuel _ f la la), (compareNat_fuel _ f la lb), (compareNat_fuel _ f lb la) by lia.
  apply compareNat_loop_total; lia.
Qed.
