(* ===== verification/MethodSpec.v ===== *)
(** * What a compression method guarantees

    The contract every [ProcessTrace] meets, and the lemmas that discharge it:
    a method stores one content per unique chunk, remembers its fingerprint,
    and pushes on the recipe of the current file an id that stands for the
    chunk's bytes ([step_ok]).  [trace_ok] lifts it to a whole trace, which
    together with [restoreFile] gives the round trip. *)

From S2P Require Import Prelude Lz4 Define LruCache ReadCache Codec DataWrite Store Restore AbsMethod.

(** Which contents are header chunks.  The chunker marks them, the store keeps
    the mark of the first occurrence, and the mark chooses the recipe: the
    contract is about runs in which the mark is a function of the content. *)
Class Kinds := is_header : bytes -> bool.

(** Every way of chunking but [TAR_MultiHeader] marks nothing. *)
#[export] Instance no_headers : Kinds | 100 := fun _ => false.

Section Contract.
Context {X : Type} `{HL : Lz4} `{HX : Xdelta} `{HD : Digest} `{HK : Kinds}.
Context `{!Lz4Laws} `{!XdeltaLaws}.
Context {E : fault -> Prop}.
Implicit Types s : Abs X.

Definition base_flag (c : Chunk_t) : Prop := deltaFlag c = NO_DELTA \/ deltaFlag c = NO_LZ4.

(** [origs !! i] is the data the unique chunk [i] was made from. *)
Record meth_ok (s : Abs X) (contents origs : list bytes) : Prop := {
  mo_store : store_ok (dataWrite_ s) contents;
  mo_can : can_store (dataWrite_ s);
  mo_origs : length origs = length contents;
  mo_num : stats s uniquechunkNum = len contents;
  mo_plain : forall i t, origs !! i = Some t ->
    plain (chunklist (dataWrite_ s)) contents (Z.of_nat i) t;
  mo_bytes : Forall (fun t => is_bytes t /\ len t <= CONTAINER_MAX_SIZE) origs;
  mo_ids : forall i c, chunklist (dataWrite_ s) !! i = Some c ->
    chunkID c = Z.of_nat i /\ exists t, origs !! i = Some t /\ HeaderFlag c = is_header t;
  mo_fp : forall h id, FPindex s !! h = Some id -> exists t, 0 <= id /\
    origs !! Z.to_nat id = Some t /\ EVP_sha256 t = h;
  mo_known : forall t, t ∈ origs -> is_Some (FPindex s !! EVP_sha256 t);
  mo_nodup : NoDup origs
}.

(** A chunk as the queue delivers it: its own block, holding its data. *)
Record delivered (d : dataWrite) (c : Chunk_t) (t : bytes) (l : nat) : Prop := {
  dl_ptr : chunkPtr c = PHeap l;
  dl_block : heap (mem d) !! l = Some (mkBlock (len t) t);
  dl_size : chunkSize c = len t;
  dl_max : len t <= CONTAINER_MAX_SIZE;
  dl_bytes : is_bytes t;
  dl_flag : HeaderFlag c = is_header t
}.

Definition pushed (h : bool) (id : Z) (r : Recipes) : Recipes :=
  if h then mkRecipes (filename r) (RecipeMap r) (push_recipe (RecipeMap_header r) (filename r) id)
  else mkRecipes (filename r) (push_recipe (RecipeMap r) (filename r) id) (RecipeMap_header r).

(** The counters the contract speaks about: the next id, and the bytes seen. *)
Definition same_totals (s s' : Abs X) : Prop :=
  stats s' uniquechunkNum = stats s uniquechunkNum /\ stats s' logicalchunkSize = stats s logicalchunkSize.

(** One iteration: the chunk is recorded under an id that stands for it, and
    its block is given back. *)
Record step_ok (s : Abs X) (t : bytes) (l : nat) (origs : list bytes) (s' : Abs X)
    (id : Z) (contents' origs' : list bytes) : Prop := {
  st_meth : meth_ok s' contents' origs';
  st_grow : (t ∈ origs /\ origs' = origs) \/ (t ∉ origs /\ origs' = origs ++ [t]);
  st_id : 0 <= id /\ origs' !! Z.to_nat id = Some t;
  st_recipe : recipes (dataWrite_ s') = pushed (is_header t) id (recipes (dataWrite_ s));
  st_heap : forall l' b, l' <> l -> heap (mem (dataWrite_ s)) !! l' = Some b ->
    heap (mem (dataWrite_ s')) !! l' = Some b;
  st_hdr : hdr (dataWrite_ s') = hdr (dataWrite_ s);
  st_wr : writable (fs (dataWrite_ s')) = writable (fs (dataWrite_ s));
  st_bytes : stats s' logicalchunkSize = (stats s logicalchunkSize + len t)%u64
}.

Definition no_leak (s : Abs X) (l : nat) (s' : Abs X) : Prop :=
  heap (mem (dataWrite_ s')) = delete l (heap (mem (dataWrite_ s))).

Lemma no_leak_heap s l s' : no_leak s l s' -> forall l' b, l' <> l ->
  heap (mem (dataWrite_ s)) !! l' = Some b -> heap (mem (dataWrite_ s')) !! l' = Some b.
Proof using Type. intros Hh l' b Hne Hl. rewrite Hh. by rewrite lookup_delete_ne by congruence. Qed.

(** ** Steps of the method monad *)

Lemma wp_on_dw {A} (m : DW A) (Q : A -> Abs X -> Prop) s :
  wp m (fun a d => Q a (set_dw d s)) (dataWrite_ s) -> wpe E (on_dw m) Q s.
Proof. unfold wpe, on_dw. by destruct (m (dataWrite_ s)) as [[a d]|]. Qed.

Lemma wp_add_stat st n (Q : unit -> Abs X -> Prop) s :
  Q tt (set_stat st (stats s st + n)%u64 s) -> wpe E (add_stat st n) Q s.
Proof. done. Qed.

Lemma stat_same st v s : stats (set_stat st v s) st = v.
Proof. cbn. by rewrite decide_True. Qed.

Lemma stat_other st st' v s : st' <> st -> stats (set_stat st v s) st' = stats s st'.
Proof. intros Hne. cbn. by rewrite decide_False. Qed.

Lemma read_delivered d c t l :
  delivered d c t l -> read_mem (chunkPtr c) (len t) d = Ok t.
Proof.
  intros [Hp Hb _ _ _]. rewrite Hp. cbn. rewrite Hb. cbn. pose proof (len_nonneg t).
  rewrite read_object_ok by lia. unfold sub. by rewrite zdrop_nonpos, ztake_all by lia.
Qed.

Lemma size_int (t : bytes) : len t <= CONTAINER_MAX_SIZE -> s32 (len t) = len t /\ w64 (s32 (len t)) = len t.
Proof.
  intros Hm. pose proof (len_nonneg t). assert (CONTAINER_MAX_SIZE = 4194304) as HM by done.
  rewrite s32_small by lia. split; [done|]. apply w64_small. lia.
Qed.

Lemma GenerateHash_ok s c t l (Q : bytes -> Abs X -> Prop) :
  delivered (dataWrite_ s) c t l -> Q (EVP_sha256 t) s ->
  wpe E (GenerateHash (chunkPtr c) (chunkSize c)) Q s.
Proof.
  intros Hd HQ. pose proof (read_delivered _ _ _ _ Hd) as Hr.
  unfold GenerateHash. rewrite (dl_size _ _ _ _ Hd).
  destruct (size_int t (dl_max _ _ _ _ Hd)) as [_ ->].
  apply wp_bind, wp_on_dw. eapply load_ok; [exact Hr|]. apply wp_ret. by destruct s.
Qed.

(** A chunk ready for [insert_base], with data [t]. *)
Record ready (buf : bytes) (c : Chunk_t) (t : bytes) : Prop := {
  rd_size : chunkSize c = len t;
  rd_save : saveSize c <= len t /\ (0 < len t -> 0 < saveSize c);
  rd_how : (deltaFlag c = NO_LZ4 /\ saveSize c = len t) \/
    (deltaFlag c = NO_DELTA /\ 0 <= saveSize c <= len buf /\ saveSize c <= CONTAINER_MAX_SIZE /\
     forall old, exists out, LZ4_decompress_safe (ztake (saveSize c) buf) old CONTAINER_MAX_SIZE =
       (len t, out) /\ ztake (len t) out = t)
}.

Lemma compress_base_ok s c t l (Q : Chunk_t -> Abs X -> Prop) :
  delivered (dataWrite_ s) c t l ->
  (forall buf n f, ready buf (set_save n f c) t -> Q (set_save n f c) (set_lz4buf buf s)) ->
  wpe E (compress_base c) Q s.
Proof.
  intros Hd HQ. pose proof (read_delivered _ _ _ _ Hd) as Hr.
  destruct (size_int t (dl_max _ _ _ _ Hd)) as [Hs1 Hs2].
  unfold compress_base, lz4_chunk. rewrite (dl_size _ _ _ _ Hd), Hs2, Hs1.
  apply wp_bind, wp_bind, wp_on_dw. eapply load_ok; [exact Hr|].
  apply wp_bind, wp_gets. cbv zeta. cbn [lz4ChunkBuffer set_dw].
  destruct (LZ4_compress_fast t (lz4ChunkBuffer s) (len t) 3) as [n buf] eqn:Hlz. cbn [fst snd].
  apply wp_bind, wp_modify, wp_ret, wp_ret.
  replace (set_lz4buf buf (set_dw (dataWrite_ s) s)) with (set_lz4buf buf s) by (by destruct s).
  destruct (Z.ltb_spec 0 n) as [Hn|Hn].
  - pose proof (dl_max _ _ _ _ Hd) as Hmax. assert (CONTAINER_MAX_SIZE = 4194304 /\ LZ4_MAX_INPUT_SIZE = 2113929216) as [E1 E2] by done.
    destruct (lz4_fits t (lz4ChunkBuffer s) (len t) 3 n buf (dl_bytes _ _ _ _ Hd) ltac:(lia) ltac:(lia) Hlz Hn) as (H1 & H2 & _).
    apply HQ. split; [apply (dl_size _ _ _ _ Hd)|cbn; lia|]. right. cbn. split_and!; try done; try lia.
    intros old. eapply lz4_roundtrip; [apply (dl_bytes _ _ _ _ Hd)|lia|idtac|exact Hlz|done|lia]. lia.
  - apply HQ. split; [apply (dl_size _ _ _ _ Hd)|cbn; lia|]. left. done.
Qed.

Lemma insert_base_ok s contents c t l (Q : bool -> Abs X -> Prop) :
  store_ok (dataWrite_ s) contents -> can_store (dataWrite_ s) -> len contents < 2 ^ 31 - 2 ->
  chunkPtr c = PHeap l -> heap (mem (dataWrite_ s)) !! l = Some (mkBlock (len t) t) ->
  len t <= CONTAINER_MAX_SIZE -> ready (lz4ChunkBuffer s) c t ->
  (forall d', store_ok d' (contents ++ [t]) -> inserted c l (dataWrite_ s) d' ->
     Q true (set_dw d' s)) ->
  wpe E (insert_base c) Q s.
Proof.
  intros Hok Hcan Hcnt Hp Hb Hm [Hsz _ Hhow] HQ. unfold insert_base.
  assert (read_mem (PHeap l) (len t) (dataWrite_ s) = Ok t) as Hr.
  { cbn. rewrite Hb. cbn. pose proof (len_nonneg t). rewrite read_object_ok by lia. unfold sub.
    by rewrite zdrop_nonpos, ztake_all by lia. }
  pose proof (len_nonneg t). destruct Hhow as [[Hf Hsv]|(Hf & Hn & HnM & Hlz)].
  - rewrite decide_True by done. apply wp_on_dw. eapply Chunk_Insert_ok; try done; [congruence|lia].
  - rewrite decide_False by congruence. apply wp_bind, wp_gets, wp_on_dw.
    eapply Chunk_Insert_lz4_ok; try done.
Qed.

(** ** Extending the store by one unique chunk *)

(** [d'] is [d] with the record of [c] added (and whatever blocks). *)
Record grown (c : Chunk_t) (d d' : dataWrite) : Prop := {
  gr_list : exists off cid, chunklist d' = chunklist d ++
    [mkChunk (chunkID c) (chunkSize c) (saveSize c) PNull (basechunkID c)
       (deltaFlag c) (loadFromDisk c) (HeaderFlag c) off cid];
  gr_rec : recipes d' = recipes d;
  gr_hdr : hdr d' = hdr d;
  gr_wr : writable (fs d') = writable (fs d)
}.

Lemma inserted_grown c l d d' : inserted c l d d' -> grown c d d'.
Proof using Type. intros []. by split. Qed.

Lemma plain_app cl contents k k' id t :
  plain cl contents id t -> plain (cl ++ k) (contents ++ k') id t.
Proof.
  intros (c & x & Hid & Hc & Hx & Hcase). exists c, x. split; [done|].
  split; [by apply lookup_app_l_Some|]. split; [by apply lookup_app_l_Some|].
  destruct (deltaFlag c); try done;
    destruct Hcase as (H1 & H2 & cb & y & H3 & H4 & H5 & H6);
    (split; [done|]; split; [done|]; exists cb, y; split; [done|];
     split; [by apply lookup_app_l_Some|]; split; [by apply lookup_app_l_Some|done]).
Qed.

Lemma store_lengths d contents : store_ok d contents -> length (chunklist d) = length contents.
Proof. intros Hok. eapply Forall2_length, (so_chunks _ _ Hok). Qed.

(** The state after [c], made from [t], was stored with content [x]. *)
Lemma meth_ok_new s s' d' r contents origs c t x :
  meth_ok s contents origs ->
  store_ok d' (contents ++ [x]) -> grown c (dataWrite_ s) d' ->
  chunkID c = len contents -> HeaderFlag c = is_header t -> is_bytes t -> len t <= CONTAINER_MAX_SIZE ->
  plain (chunklist d') (contents ++ [x]) (len contents) t ->
  dataWrite_ s' = set_recipes r d' ->
  FPindex s' = <[EVP_sha256 t := len contents]> (FPindex s) ->
  stats s' uniquechunkNum = len contents + 1 -> t ∉ origs ->
  meth_ok s' (contents ++ [x]) (origs ++ [t]).
Proof using Type.
  intros [M1 M2 M3 M4 M5 M6 M7 M8 M9 M10] Hok [(off & cid & I1) I2 I4 I3] Hid Hh Hb Hm Hp Hd Hf Hn Hnew.
  pose proof (store_lengths _ _ M1) as Hcl. rewrite (len_length contents) in Hid, Hp, Hf, Hn.
  split; rewrite ?Hd.
  - by apply store_ok_recipes.
  - intros k. cbn. rewrite I3. apply M2.
  - rewrite !length_app. cbn. lia.
  - rewrite Hn, len_app, (len_length contents). slia.
  - intros i u Hi. cbn [chunklist set_recipes]. apply lookup_app_Some in Hi as [Hi|[Hge Hi]].
    + rewrite I1. apply plain_app. by apply M5.
    + assert (i = length origs) as ->.
      { apply lookup_lt_Some in Hi. cbn in Hi. lia. }
      rewrite Nat.sub_diag in Hi. injection Hi as <-. by rewrite M3.
  - apply Forall_app. split; [done|]. constructor; [done|constructor].
  - intros i c' Hc'. cbn [chunklist set_recipes] in Hc'. rewrite I1 in Hc'.
    apply lookup_app_Some in Hc' as [Hc'|[Hge Hc']].
    { destruct (M7 _ _ Hc') as (E1 & u & E2 & E3). split; [done|]. exists u. split; [by apply lookup_app_l_Some|done]. }
    assert (i = length (chunklist (dataWrite_ s))) as ->.
    { apply lookup_lt_Some in Hc'. cbn in Hc'. lia. }
    rewrite Nat.sub_diag in Hc'. injection Hc' as <-. cbn. rewrite Hid, Hcl. split; [done|].
    exists t. split; [rewrite <- M3; by apply list_lookup_middle|done].
  - intros h id Hl. rewrite Hf, lookup_insert in Hl. case_decide as Heq.
    + injection Hl as <-. exists t. split; [lia|]. split; [|done].
      rewrite Nat2Z.id, <- M3. by apply list_lookup_middle.
    + destruct (M8 _ _ Hl) as (u & H1 & H2 & H3). exists u. split; [done|].
      split; [by apply lookup_app_l_Some|done].
  - intros u [Hu|Hu]%elem_of_app; rewrite Hf, lookup_insert; case_decide; try done.
    + by apply M9.
    + apply elem_of_cons in Hu as [->|Hu]; [done|]. by apply not_elem_of_nil in Hu.
  - apply NoDup_app. split; [done|]. split; [|apply NoDup_singleton].
    intros u Hu Hu'. apply elem_of_cons in Hu' as [->|Hu']; [done|].
    by apply not_elem_of_nil in Hu'.
Qed.

(** Nothing but counters, the LZ4 buffer and the recipes changed. *)
Lemma meth_ok_same s s' r contents origs :
  meth_ok s contents origs -> dataWrite_ s' = set_recipes r (dataWrite_ s) ->
  FPindex s' = FPindex s -> stats s' uniquechunkNum = stats s uniquechunkNum ->
  meth_ok s' contents origs.
Proof using Type.
  intros [M1 M2 M3 M4 M5 M6 M7 M8 M9 M10] Hd Hf Hn. split; rewrite ?Hd, ?Hf, ?Hn; try done.
  by apply store_ok_recipes.
Qed.

(** What the method keeps for itself is not part of [meth_ok]. *)
Lemma meth_ok_ext s s' contents origs :
  meth_ok s contents origs -> dataWrite_ s' = dataWrite_ s -> FPindex s' = FPindex s ->
  stats s' uniquechunkNum = stats s uniquechunkNum -> meth_ok s' contents origs.
Proof using Type.
  intros [M1 M2 M3 M4 M5 M6 M7 M8 M9 M10] E1 E2 E3.
  split; [by rewrite E1|by rewrite E1|done|by rewrite E3|by rewrite E1|done|by rewrite E1|by rewrite E2
    |by rewrite E2|done].
Qed.

(** Blocks do not matter, as long as the next one is fresh. *)
Lemma meth_ok_mem s m contents origs :
  meth_ok s contents origs -> (forall l, (next_loc m <= l)%nat -> heap m !! l = None) ->
  meth_ok (set_dw (set_mem m (dataWrite_ s)) s) contents origs.
Proof using Type.
  intros [M1 M2 M3 M4 M5 M6 M7 M8 M9 M10] Hm. split; try done. by apply store_ok_mem.
Qed.

(** A stored base chunk is its own content. *)
Lemma plain_base d d' contents c t :
  store_ok d contents -> len contents < 2 ^ 31 -> grown c d d' ->
  base_flag c -> chunkSize c = len t ->
  plain (chunklist d') (contents ++ [t]) (len contents) t.
Proof using Type.
  intros Hok Hcnt [(off & cid & I1) _ _ _] Hf Hsz. pose proof (store_lengths _ _ Hok) as Hl.
  rewrite (len_length contents) in Hcnt |- *. rewrite I1. eexists _, t. split; [lia|].
  rewrite Nat2Z.id. split; [rewrite <- Hl; by apply list_lookup_middle|].
  split; [by apply list_lookup_middle|]. cbn. by destruct Hf as [-> | ->].
Qed.

(** A stored delta decodes to the data it was made from. *)
Lemma plain_delta d d' contents c t x cb y :
  store_ok d contents -> len contents < 2 ^ 31 -> grown c d d' ->
  deltaFlag c <> NO_DELTA -> deltaFlag c <> NO_LZ4 -> saveSize c = len x -> chunkSize c = len t ->
  0 <= basechunkID c -> chunklist d !! Z.to_nat (basechunkID c) = Some cb ->
  contents !! Z.to_nat (basechunkID c) = Some y -> chunkSize cb = len y ->
  (xd3_decode_memory x y (CONTAINER_MAX_SIZE * 2)).2 = Some t ->
  plain (chunklist d') (contents ++ [x]) (len contents) t.
Proof using Type.
  intros Hok Hcnt [(off & cid & I1) _ _ _] Hf1 Hf2 Hsv Hsz Hb Hcb Hy Hyl Hdec.
  pose proof (store_lengths _ _ Hok) as Hl.
  rewrite (len_length contents) in Hcnt |- *. rewrite I1. eexists _, x. split; [lia|].
  rewrite Nat2Z.id. split; [rewrite <- Hl; by apply list_lookup_middle|].
  split; [by apply list_lookup_middle|]. cbn.
  destruct (deltaFlag c); try done;
    (split; [done|]; split; [done|]; exists cb, y; split; [done|];
     split; [by apply lookup_app_l_Some|]; split; [by apply lookup_app_l_Some|done]).
Qed.

(** ** The end of an iteration *)

(** The counters of logical chunks. *)
Definition logical_stat (st : stat) : bool :=
  match st with logicalchunkNum | logicalchunkSize => true | _ => false end.

Lemma stat_kept_num s s' :
  (forall st, logical_stat st = false -> stats s' st = stats s st) ->
  stats s' uniquechunkNum = stats s uniquechunkNum.
Proof using Type. intros Hk. by apply Hk. Qed.

Lemma record_chunk_ok s c (Q : unit -> Abs X -> Prop) :
  (forall s', dataWrite_ s' = set_recipes (pushed (HeaderFlag c) (chunkID c) (recipes (dataWrite_ s))) (dataWrite_ s) ->
     FPindex s' = FPindex s -> SFindex s' = SFindex s -> ext s' = ext s ->
     (forall st, logical_stat st = false -> stats s' st = stats s st) ->
     stats s' logicalchunkSize = (stats s logicalchunkSize + chunkSize c)%u64 -> Q tt s') ->
  wpe E (record_chunk c) Q s.
Proof using Type.
  intros HQ. unfold record_chunk, Recipe_Insert, Recipe_Header_Insert. apply wp_bind.
  destruct (HeaderFlag c); apply wp_on_dw, wp_bind, wp_modify, wp_ret;
    apply wp_bind, wp_add_stat, wp_add_stat; apply HQ; try done; intros st Hst; by destruct st.
Qed.

(** The size recorded for a chunk is that of the data it stands for. *)
Lemma plain_size cl contents i t c : plain cl contents (Z.of_nat i) t -> cl !! i = Some c -> chunkSize c = len t.
Proof using Type.
  intros (c' & x & _ & Hc' & _ & Hcase). rewrite Nat2Z.id in Hc'. intros Hc. simplify_eq.
  destruct (deltaFlag c'); first [by destruct Hcase as [-> ?] | by destruct Hcase as (_ & ? & _)].
Qed.

(** A known fingerprint: the block goes, the first record is taken. *)
Lemma dup_chunk_ok s contents origs c t l id (Q : Chunk_t -> Abs X -> Prop) :
  meth_ok s contents origs -> delivered (dataWrite_ s) c t l ->
  0 <= id -> origs !! Z.to_nat id = Some t ->
  (forall c' d', chunkID c' = id -> HeaderFlag c' = is_header t -> chunkSize c' = len t ->
     chunklist (dataWrite_ s) !! Z.to_nat id = Some c' ->
     d' = set_mem (mkMem (delete l (heap (mem (dataWrite_ s)))) (next_loc (mem (dataWrite_ s)))) (dataWrite_ s) ->
     meth_ok (set_dw d' s) contents origs -> Q c' (set_dw d' s)) ->
  wpe E (dup_chunk c id) Q s.
Proof using Type.
  intros Hok Hd Hid Ho HQ. unfold dup_chunk. rewrite (dl_ptr _ _ _ _ Hd).
  pose proof Hok as [M1 M2 M3 M4 M5 M6 M7 M8 M9 M10].
  apply wp_bind, wp_on_dw. eapply free_ok; [apply (dl_block _ _ _ _ Hd)|].
  apply wp_on_dw. unfold Get_Chunk_MetaInfo.
  assert (is_Some (chunklist (dataWrite_ s) !! Z.to_nat id)) as [c' Hc'].
  { apply lookup_lt_is_Some. apply lookup_lt_Some in Ho. rewrite (store_lengths _ _ M1). lia. }
  eapply chunk_at_ok; [done|exact Hc'|]. destruct (M7 _ _ Hc') as (H1 & u & Hu & H2).
  assert (u = t) as -> by congruence.
  apply (HQ c'); try done; [by rewrite H1, Z2Nat.id|by eapply plain_size; [apply M5|]|].
  split; try done. by apply next_fresh_delete.
Qed.

(** ** Known chunks *)

Definition no_collision (origs : list bytes) (t : bytes) : Prop :=
  forall o, o ∈ origs -> EVP_sha256 o = EVP_sha256 t -> o = t.

Lemma known_id s contents origs t id :
  meth_ok s contents origs -> no_collision origs t -> FPindex s !! EVP_sha256 t = Some id ->
  0 <= id /\ origs !! Z.to_nat id = Some t.
Proof using Type.
  intros Hok Hnc Hl. destruct (mo_fp _ _ _ Hok _ _ Hl) as (u & H1 & H2 & H3). split; [done|].
  rewrite (Hnc u) in H2; [done| |done]. by eapply list_elem_of_lookup_2.
Qed.

(** Closing an iteration that found the chunk in the store. *)
Lemma known_step (exact_ : Prop) s s' contents origs t l id d' :
  meth_ok (set_dw d' s) contents origs -> 0 <= id -> origs !! Z.to_nat id = Some t ->
  d' = set_mem (mkMem (delete l (heap (mem (dataWrite_ s)))) (next_loc (mem (dataWrite_ s)))) (dataWrite_ s) ->
  dataWrite_ s' = set_recipes (pushed (is_header t) id (recipes d')) d' -> FPindex s' = FPindex s ->
  stats s' uniquechunkNum = stats s uniquechunkNum ->
  stats s' logicalchunkSize = (stats s logicalchunkSize + len t)%u64 ->
  (exact_ -> no_leak s l s') /\
  exists id contents' origs', step_ok s t l origs s' id contents' origs'.
Proof using Type.
  intros Hok Hid Ho -> E1 E2 E3 E4.
  assert (no_leak s l s') as Hnl by (unfold no_leak; by rewrite E1). split; [done|].
  exists id, contents, origs. split.
  - eapply (meth_ok_same _ _ _ _ _ Hok); [exact E1|exact E2|exact E3].
  - left. split; [by eapply list_elem_of_lookup_2|done].
  - done.
  - by rewrite E1.
  - by apply no_leak_heap.
  - by rewrite E1.
  - by rewrite E1.
  - done.
Qed.

(** ** Delta chunks *)

Definition base_id (d : dataWrite) (id : Z) : Prop :=
  0 <= id /\ exists c, chunklist d !! Z.to_nat id = Some c /\ base_flag c.

Lemma base_id_reads d d' id : reads d d' -> base_id d id -> base_id d' id.
Proof using Type.
  intros Hr [Hid (c & Hc & Hf)]. split; [done|].
  destruct (meta_lookup _ _ _ _ (rd_meta _ _ Hr) Hc) as (c' & Hc' & He). exists c'.
  split; [done|]. unfold base_flag. destruct (meta_fields _ _ He) as (_ & _ & <- & _). done.
Qed.

Lemma base_id_grown d d' c id : grown c d d' -> base_id d id -> base_id d' id.
Proof using Type.
  intros [(off & cid & Hl) _ _ _] [Hid (c' & Hc & Hf)]. split; [done|]. exists c'.
  split; [|done]. rewrite Hl. by apply lookup_app_l_Some.
Qed.

Lemma base_id_new d d' contents c :
  store_ok d contents -> grown c d d' -> base_flag c -> base_id d' (len contents).
Proof using Type.
  intros Hok [(off & cid & Hl) _ _ _] Hf. pose proof (store_lengths _ _ Hok) as Hlen.
  rewrite len_length. split; [lia|]. eexists. rewrite Nat2Z.id, Hl.
  split; [rewrite <- Hlen; by apply list_lookup_middle|done].
Qed.

(** The content of a base chunk is the data it was made from. *)
Lemma base_content s contents origs id c :
  meth_ok s contents origs -> 0 <= id -> chunklist (dataWrite_ s) !! Z.to_nat id = Some c -> base_flag c ->
  id < 2 ^ 31 /\ exists y, contents !! Z.to_nat id = Some y /\ chunkSize c = len y /\ is_bytes y /\
    len y <= CONTAINER_MAX_SIZE /\ y ∈ origs.
Proof using Type.
  intros Hok Hid Hc Hf. pose proof Hok as [M1 M2 M3 M4 M5 M6 M7 M8 M9 M10].
  assert (is_Some (origs !! Z.to_nat id)) as [t Ht].
  { apply lookup_lt_is_Some. apply lookup_lt_Some in Hc. rewrite (store_lengths _ _ M1) in Hc. lia. }
  destruct (M5 _ _ Ht) as (c' & x & Hi & Hc' & Hx & Hcase). rewrite Z2Nat.id in * by lia.
  split; [lia|]. assert (c' = c) as -> by congruence. exists x. split; [done|].
  assert (t = x /\ chunkSize c = len x) as [-> ->] by (by destruct Hf as [Hf|Hf]; rewrite Hf in Hcase).
  split; [done|]. assert (x ∈ origs) as Hin by (by eapply list_elem_of_lookup_2).
  rewrite Forall_forall in M6. by destruct (M6 _ Hin).
Qed.

Lemma meth_ok_reads s d' contents origs :
  meth_ok s contents origs -> store_ok d' contents -> reads (dataWrite_ s) d' ->
  meth_ok (set_dw d' s) contents origs.
Proof using Type.
  intros [M1 M2 M3 M4 M5 M6 M7 M8 M9 M10] Hok Hr. split; try done.
  - intros k. cbn. rewrite (rd_fs _ _ Hr). apply M2.
  - intros i t Ht. cbn. eapply plain_meta; [apply (rd_meta _ _ Hr)|by apply M5].
  - intros i c Hc. cbn in Hc.
    destruct (meta_lookup _ _ _ _ (eq_sym (rd_meta _ _ Hr)) Hc) as (c' & Hc' & He).
    destruct (meta_fields _ _ He) as (_ & _ & _ & _ & -> & ->). by apply M7.
Qed.

Lemma taken_grow ld p h h' l b : taken ld p h h' -> h !! l = Some b -> h' !! l = Some b.
Proof using Type.
  destruct ld; cbn; [|by intros ->]. intros (l0 & b0 & -> & Hl & ->) Hb.
  rewrite lookup_insert_ne; [done|]. intros ->. congruence.
Qed.

Lemma taken_update ld p h h' l b blk :
  taken ld p h h' -> h !! l = Some b -> taken ld p (<[l := blk]> h) (<[l := blk]> h').
Proof using Type.
  destruct ld; cbn; [|by intros ->]. intros (l0 & b0 & -> & Hl & ->) Hb.
  assert (l <> l0) as Hne by (intros ->; congruence). exists l0, b0. split; [done|].
  rewrite lookup_insert_ne by done. split; [done|]. by apply insert_insert_ne.
Qed.

(** Encoding [t] against the base chunk [b]: the delta [x] is in the new block
    [dl], and decoding it against the base gives [t] back. *)
Record encoded (s : Abs X) contents (t : bytes) (b : Z) (base : Chunk_t) (dl : nat) (x : bytes)
    (d2 : dataWrite) (h1 : gmap nat Block) : Prop := {
  en_ok : store_ok d2 contents;
  en_reads : reads (dataWrite_ s) d2;
  en_base : exists cb y, chunklist (dataWrite_ s) !! Z.to_nat b = Some cb /\
    contents !! Z.to_nat b = Some y /\ chunkSize cb = len y /\
    (xd3_decode_memory x y (CONTAINER_MAX_SIZE * 2)).2 = Some t;
  en_taken : taken (loadFromDisk base) (chunkPtr base) (heap (mem (dataWrite_ s))) h1;
  en_fresh : h1 !! dl = None;
  en_heap : heap (mem d2) = <[dl := mkBlock (len x) x]> h1
}.

(** What the encoder was given and made: it reported no error, and the base is
    one of the chunks the store was made from. *)
Definition delta_from (contents origs : list bytes) (t : bytes) (b : Z) (x : bytes) : Prop :=
  exists y, contents !! Z.to_nat b = Some y /\ y ∈ origs /\
    xd3_encode_memory t y (CONTAINER_MAX_SIZE * 2) = (0, Some x) /\ 0 < len x <= CONTAINER_MAX_SIZE * 2.

Lemma encode_against_ok s0 s contents origs c t l b (Q : Chunk_t * (nat * Z) -> Abs X -> Prop) :
  meth_ok s0 contents origs -> dataWrite_ s = dataWrite_ s0 -> delivered (dataWrite_ s) c t l -> base_id (dataWrite_ s) b ->
  (forall y, contents !! Z.to_nat b = Some y -> y ∈ origs -> (xd3_encode_memory t y (CONTAINER_MAX_SIZE * 2)).1 = 0) ->
  (forall base dl x d2 h1, encoded s contents t b base dl x d2 h1 -> delta_from contents origs t b x ->
     Q (base, (dl, len x)) (set_dw d2 s)) ->
  wpe E (encode_against c b) Q s.
Proof using Type*.
  intros Hok Hdw Hd [Hb (cb & Hcb & Hbf)] Hret HQ. unfold encode_against.
  pose proof (mo_store _ _ _ Hok) as Hst. rewrite <- Hdw in Hst.
  destruct (base_content _ _ _ _ cb Hok Hb ltac:(by rewrite <- Hdw) Hbf) as (Hb31 & y & Hy & Hyl & Hyb & Hym & Hyo).
  pose proof (read_delivered _ _ _ _ Hd) as Hread.
  apply wp_bind, wp_on_dw. rewrite s32_small by lia.
  eapply Get_Chunk_Info_ok; [exact Hst|done|exact Hcb|exact Hy|].
  intros base d1 [G1 G2 G3 G4 G5 G6 G7].
  destruct (meta_fields _ _ G3) as (E1 & _). rewrite E1, Hyl, (dl_size _ _ _ _ Hd).
  assert (live (chunkPtr c) (dataWrite_ s)) as Hlive by (by rewrite (dl_ptr _ _ _ _ Hd)).
  pose proof (G6 _ _ _ Hlive Hread) as Hread1.
  destruct (xd3_encode_memory t y (CONTAINER_MAX_SIZE * 2)) as [ret out] eqn:Hx.
  specialize (Hret y Hy Hyo). rewrite Hx in Hret. cbn in Hret. subst ret.
  destruct (xd3_success _ _ _ _ Hx) as (x & -> & Hx0).
  destruct (xd3_bytes _ _ _ _ _ (dl_bytes _ _ _ _ Hd) Hyb Hx) as [_ Hxm].
  apply wp_bind. unfold xd3_encode.
  apply wp_bind, wp_on_dw. eapply load_ok; [exact Hread1|].
  apply wp_bind, wp_on_dw. eapply load_ok; [exact G4|].
  apply wp_bind. eapply wp_lift_ok; [by rewrite Hx|].
  apply wp_bind, wp_on_dw. unfold wpe at 1, malloc. cbn [dataWrite_ set_dw].
  apply wp_bind, wp_on_dw. unfold wpe at 1, store. cbn [dataWrite_ set_dw mem set_mem heap next_loc].
  rewrite lookup_insert_eq. cbn [blk_size blk_data]. rewrite Z.ltb_irrefl, blit_nil, insert_insert_eq.
  apply wp_ret, wp_ret.
  pose proof (heap_fresh _ _ (next_loc (mem d1)) G1 (le_n _)) as Hfresh.
  match goal with |- Q _ (set_dw (set_mem ?m _) _) => change (Q (base, (next_loc (mem d1), len x)) (set_dw (set_mem m d1) s)) end.
  match goal with |- Q _ (set_dw ?d2 _) => apply (HQ base (next_loc (mem d1)) x d2 (heap (mem d1))); [|by exists y] end.
  split; try done.
  - apply store_ok_mem; [done|]. intros l' Hl'. cbn in Hl' |- *.
    rewrite lookup_insert_ne by lia. apply (heap_fresh _ _ _ G1). lia.
  - exact (reads_mem _ _ _ G2).
  - exists cb, y. split_and!; try done. erewrite (xd3_roundtrip t y); [done| |done|exact Hx|].
    + apply (dl_bytes _ _ _ _ Hd).
    + pose proof (dl_max _ _ _ _ Hd). unfold CONTAINER_MAX_SIZE in *. lia.
Qed.

(** The counters of [StatsDelta]. *)
Definition delta_stat (st : stat) : bool :=
  match st with
  | deltachunkOriSize | deltachunkSize | deltachunkNum | DeltaReduct => true
  | _ => false
  end.

Lemma wp_dce (c : Chunk_t) (Q : unit -> Abs X -> Prop) s : saveSize c <> 0 -> Q tt s -> wpe E (_ ← dce c; mret tt) Q s.
Proof using Type. intros Hs HQ. unfold wpe, dce, divide. cbn. by rewrite (proj2 (Z.eqb_neq _ _) Hs). Qed.

Lemma keep_delta_ok s0 s contents t b base dl x h1 c l flag (Q : Chunk_t -> Abs X -> Prop) :
  encoded s0 contents t b base dl x (dataWrite_ s) h1 ->
  chunkPtr c = PHeap l -> heap (mem (dataWrite_ s0)) !! l = Some (mkBlock (len t) t) ->
  saveSize c = len x -> 0 < len x -> (len t < len x -> E OobWrite) ->
  (forall s', len x <= len t -> store_ok (dataWrite_ s') contents -> reads (dataWrite_ s0) (dataWrite_ s') ->
     heap (mem (dataWrite_ s')) = <[l := mkBlock (len t) (blit t 0 x)]> h1 ->
     FPindex s' = FPindex s -> SFindex s' = SFindex s -> ext s' = ext s ->
     (forall st, delta_stat st = false -> stats s' st = stats s st) ->
     Q (set_base b (set_save (len x) flag c)) s') ->
  wpe E (keep_delta c dl flag b) Q s.
Proof using Type*.
  intros [N1 N2 N3 N5 N6 N7] Hp Hl Hsv Hx0 Hbig HQ. pose proof (len_nonneg x). unfold keep_delta. rewrite Hsv, Hp.
  pose proof (taken_grow _ _ _ _ _ _ N5 Hl) as Hl1. assert (l <> dl) as Hne by congruence.
  apply wp_bind, wp_on_dw. apply (load_ok _ _ x).
  { cbn [read_mem]. rewrite N7, lookup_insert_eq. cbn. rewrite read_object_ok by lia.
    unfold sub. by rewrite zdrop_nonpos, ztake_all by lia. }
  apply wp_bind. cbn [store_ptr]. unfold wpe at 1, on_dw, store. cbn [dataWrite_ set_dw].
  rewrite N7, lookup_insert_ne, Hl1 by done. cbn [blk_size blk_data].
  destruct (Z.ltb_spec (len t) (len x)) as [Hgt|Hfit]; [by apply Hbig|].
  apply wp_bind. unfold StatsDelta. do 4 (apply wp_bind, wp_add_stat). apply wp_dce; [cbn; lia|].
  apply wp_bind, wp_on_dw. eapply free_ok.
  { cbn. rewrite lookup_insert_ne, lookup_insert_eq by done. reflexivity. }
  apply wp_ret. apply HQ; try done.
  - apply (store_ok_mem (dataWrite_ s) contents (mkMem _ _) N1). cbn. intros l' Hl'.
    rewrite lookup_delete, !lookup_insert. pose proof (heap_fresh _ _ l' N1 Hl') as Hf.
    rewrite N7, lookup_insert in Hf.
    repeat case_decide; subst; try done. congruence.
  - exact (reads_mem _ _ _ N2).
  - cbn. apply map_eq. intros k. rewrite lookup_delete, !lookup_insert.
    repeat case_decide; subst; congruence.
  - intros st Hst. by destruct st.
Qed.

(** Giving the base's block back and storing the delta. *)
Lemma store_delta_ok s0 s contents t b base dl x d2 h1 c l (Q : bool -> Abs X -> Prop) :
  encoded s0 contents t b base dl x d2 h1 -> len x <= len t ->
  store_ok (dataWrite_ s) contents -> can_store (dataWrite_ s0) -> reads (dataWrite_ s0) (dataWrite_ s) ->
  heap (mem (dataWrite_ s)) = <[l := mkBlock (len t) (blit t 0 x)]> h1 ->
  len contents < 2 ^ 31 - 2 -> heap (mem (dataWrite_ s0)) !! l = Some (mkBlock (len t) t) ->
  len t <= CONTAINER_MAX_SIZE -> chunkPtr c = PHeap l -> saveSize c = len x ->
  deltaFlag c <> NO_DELTA -> chunkSize c = len t ->
  (forall d3 d', store_ok d3 contents -> reads (dataWrite_ s0) d3 -> store_ok d' (contents ++ [x]) ->
     grown c d3 d' -> heap (mem d') = delete l (heap (mem (dataWrite_ s0))) -> Q true (set_dw d' s)) ->
  wpe E (on_dw (free_if (loadFromDisk base) (chunkPtr base)) ;; on_dw (Chunk_Insert c)) Q s.
Proof using Type*.
  intros [N1 N2 N3 N5 N6 N7] Hfit Hok Hcan Hr Hh Hcnt Hl Htm Hp Hsv Hf Hsz HQ.
  pose proof (len_nonneg x).
  apply wp_bind, wp_on_dw.
  eapply (free_if_ok _ _ _ _ (<[l := mkBlock (len t) (blit t 0 x)]> (heap (mem (dataWrite_ s0)))));
    [exact Hok|rewrite Hh; by eapply taken_update|].
  intros m Hm Hok3. apply wp_on_dw.
  assert (reads (dataWrite_ s0) (set_mem m (dataWrite_ s))) as Hr3 by (by apply reads_mem).
  eapply (Chunk_Insert_ok _ contents c l _ x); try done.
  - intros k. cbn. rewrite (rd_fs _ _ Hr). apply Hcan.
  - cbn. by rewrite Hm, lookup_insert_eq.
  - cbn. rewrite Hm, lookup_insert_eq. cbn.
    rewrite read_object_ok; [by rewrite sub_blit_0|lia|lia| |rewrite len_blit; lia].
    rewrite len_blit; lia.
  - lia.
  - lia.
  - intros d' Hok' Hins. apply (HQ (set_mem m (dataWrite_ s))); try done.
    + by eapply inserted_grown.
    + rewrite (in_mem _ _ _ _ Hins). cbn. rewrite Hm. by rewrite delete_insert_eq.
Qed.

(** ** Closing an iteration that stored a new chunk *)

Lemma unique_step s s' d3 d' contents origs c l t x :
  meth_ok s contents origs -> store_ok d3 contents -> reads (dataWrite_ s) d3 ->
  store_ok d' (contents ++ [x]) -> grown c d3 d' ->
  chunkID c = len contents -> HeaderFlag c = is_header t -> is_bytes t -> len t <= CONTAINER_MAX_SIZE ->
  plain (chunklist d') (contents ++ [x]) (len contents) t -> t ∉ origs ->
  len contents < 2 ^ 31 - 2 ->
  (forall l' b, l' <> l -> heap (mem (dataWrite_ s)) !! l' = Some b -> heap (mem d') !! l' = Some b) ->
  dataWrite_ s' = set_recipes (pushed (HeaderFlag c) (chunkID c) (recipes d')) d' ->
  FPindex s' = <[EVP_sha256 t := s32 (chunkID c)]> (FPindex s) ->
  stats s' uniquechunkNum = (stats s uniquechunkNum + 1)%u64 ->
  stats s' logicalchunkSize = (stats s logicalchunkSize + len t)%u64 ->
  step_ok s t l origs s' (len contents) (contents ++ [x]) (origs ++ [t]).
Proof using Type.
  intros Hok Hok3 Hr Hok' Hg Hid Hh Hb Hm Hp Hnew Hcnt Hheap Hd Hf Hn Hlog.
  pose proof (len_nonneg contents). pose proof (meth_ok_reads s d3 contents origs Hok Hok3 Hr) as Hok3'.
  split.
  - eapply (meth_ok_new (set_dw d3 s)); try done.
    + cbn. rewrite Hf, Hid, s32_small by lia. done.
    + rewrite Hn, (mo_num _ _ _ Hok), w64_small by lia. done.
  - right. by split.
  - split; [lia|]. rewrite len_length, Nat2Z.id, <- (mo_origs _ _ _ Hok). by apply list_lookup_middle.
  - rewrite Hd. cbn. by rewrite Hid, Hh, (gr_rec _ _ _ Hg), (rd_rec _ _ Hr).
  - rewrite Hd. exact Hheap.
  - rewrite Hd. cbn. by rewrite (gr_hdr _ _ _ Hg), (rd_hdr _ _ Hr).
  - rewrite Hd. cbn. rewrite (gr_wr _ _ _ Hg), (rd_fs _ _ Hr). done.
  - done.
Qed.

(** ** The interface of a method and its whole-trace guarantee

    [admissible] restricts the chunks, [faults] are those an iteration may stop
    with, [inv] is the method's own invariant on its index (it may only name
    base chunks of the store), and [exact_] says that the method frees every
    block it takes. *)
Class MethodStep (one : Chunk_t -> M (Abs X) bool) (admissible : bytes -> Prop)
    (faults : fault -> Prop) (inv : Abs X -> Prop) (exact_ : Prop) : Prop :=
  method_step s contents origs c t l :
    meth_ok s contents origs -> inv s -> len contents < 2 ^ 31 - 2 ->
    delivered (dataWrite_ s) c t l -> admissible t -> Forall admissible origs -> no_collision origs t ->
    wpe faults (one c) (fun go s' => go = true /\ inv s' /\
      (exact_ -> no_leak s l s') /\
      exists id contents' origs', step_ok s t l origs s' id contents' origs') s.

(** The trace: chunks with their data and their blocks. *)
Definition trace : Type := list (Chunk_t * bytes * nat).

Definition delivered_all (d : dataWrite) (tr : trace) : Prop :=
  NoDup tr.*2 /\ Forall (fun x => delivered d x.1.1 x.1.2 x.2) tr.

Definition datas (tr : trace) : list bytes := (fun x : Chunk_t * bytes * nat => x.1.2) <$> tr.

Definition recipe (d : dataWrite) : list Z := default [] (RecipeMap (recipes d) !! filename (recipes d)).
Definition header_recipe (d : dataWrite) : list Z :=
  default [] (RecipeMap_header (recipes d) !! filename (recipes d)).
End Contract.

(** [simp_stats] computes a counter after a run of [add_stat]s. *)
Ltac simp_stats := repeat first [rewrite stat_same | rewrite stat_other by done].

(** ** Whole traces *)

Section Trace.
Context {X : Type} `{HL : Lz4} `{HX : Xdelta} `{HD : Digest} `{HK : Kinds}.
Context `{!Lz4Laws} `{!XdeltaLaws}.
Context (one : Chunk_t -> M (Abs X) bool) (admissible : bytes -> Prop) (faults : fault -> Prop) (inv : Abs X -> Prop) (exact_ : Prop).
Context `{Hstep : !MethodStep one admissible faults inv exact_}.
Implicit Types s : Abs X.

(** Fingerprints tell the chunks of the backup apart. *)
Definition collision_free (ts : list bytes) : Prop :=
  forall a b, a ∈ ts -> b ∈ ts -> EVP_sha256 a = EVP_sha256 b -> a = b.

Definition stands_for (origs : list bytes) (id : Z) (t : bytes) : Prop :=
  0 <= id /\ origs !! Z.to_nat id = Some t.

(** The contents of one kind, and the ids marked with it. *)
Definition of_kind (h : bool) (ts : list bytes) : list bytes := filter (fun t => is_header t = h) ts.
Definition marked (h : bool) (ids : list (bool * Z)) : list Z := (filter (fun x => x.1 = h) ids).*2.

Definition marked_for (origs : list bytes) (x : bool * Z) (t : bytes) : Prop :=
  x.1 = is_header t /\ stands_for origs x.2 t.

(** [d'] is [d] after the ids were pushed on the current recipes. *)
Record traced (d d' : dataWrite) (ids : list (bool * Z)) : Prop := {
  tr_file : filename (recipes d') = filename (recipes d);
  tr_ids : recipe d' = recipe d ++ marked false ids;
  tr_hids : header_recipe d' = header_recipe d ++ marked true ids;
  tr_others : forall f, f <> filename (recipes d) ->
    RecipeMap (recipes d') !! f = RecipeMap (recipes d) !! f /\
    RecipeMap_header (recipes d') !! f = RecipeMap_header (recipes d) !! f;
  tr_hdr : hdr d' = hdr d;
  tr_wr : writable (fs d') = writable (fs d)
}.

Lemma marked_app h a b : marked h (a ++ b) = marked h a ++ marked h b.
Proof using Type. unfold marked. by rewrite filter_app, fmap_app. Qed.

Lemma marked_one h x : marked h [x] = if bool_decide (x.1 = h) then [x.2] else [].
Proof using Type.
  unfold marked. rewrite filter_cons. case_bool_decide; [by rewrite decide_True|by rewrite decide_False].
Qed.

Lemma of_kind_marked h origs ids ts : Forall2 (marked_for origs) ids ts -> Forall2 (stands_for origs) (marked h ids) (of_kind h ts).
Proof using Type.
  unfold marked, of_kind. induction 1 as [|x t ids ts [H1 H2] _ IH]; [constructor|]. rewrite !filter_cons, H1.
  destruct (decide _); [|done]. cbn. by constructor.
Qed.

Lemma traced_push d d' h id :
  recipes d' = pushed h id (recipes d) -> hdr d' = hdr d -> writable (fs d') = writable (fs d) -> traced d d' [(h, id)].
Proof using Type.
  intros Hr Hh Hw. unfold pushed, push_recipe in Hr. split; unfold recipe, header_recipe; rewrite ?marked_one, ?Hr; try done.
  - by destruct h.
  - destruct h; cbn; [by rewrite app_nil_r|by rewrite lookup_insert_eq].
  - destruct h; cbn; [by rewrite lookup_insert_eq|by rewrite app_nil_r].
  - intros f Hf. destruct h; cbn; by rewrite lookup_insert_ne.
Qed.

Lemma traced_trans d1 d2 d3 a b : traced d1 d2 a -> traced d2 d3 b -> traced d1 d3 (a ++ b).
Proof using Type.
  intros [A1 A2 A3 A4 A5 A6] [B1 B2 B3 B4 B5 B6].
  split; rewrite ?marked_app; [congruence|by rewrite B2, A2, app_assoc|by rewrite B3, A3, app_assoc| |congruence|congruence].
  intros f Hf. destruct (A4 f Hf) as [<- <-]. apply B4. congruence.
Qed.

Lemma stands_for_prefix origs k id t : stands_for origs id t -> stands_for (origs ++ k) id t.
Proof using Type. intros [H1 H2]. split; [done|by apply lookup_app_l_Some]. Qed.

Lemma delivered_after d d' x (tr : trace) :
  delivered_all d (x :: tr) ->
  (forall l b, l <> x.2 -> heap (mem d) !! l = Some b -> heap (mem d') !! l = Some b) ->
  delivered_all d' tr.
Proof using Type.
  intros [Hnd HF] Hh. cbn in Hnd. apply NoDup_cons in Hnd as [Hx Hnd]. inversion HF as [|? ? _ HF']; subst.
  split; [done|]. apply Forall_forall. intros y Hy. rewrite Forall_forall in HF'.
  destruct (HF' y Hy) as [D1 D2 D3 D4 D5 D6]. split; try done. apply Hh; [|done].
  intros He. apply Hx. rewrite <- He. apply list_elem_of_fmap. by exists y.
Qed.

Lemma trace_ok (tr : trace) : forall s contents origs (Q : bool -> Abs X -> Prop),
  meth_ok s contents origs -> inv s -> len contents + len tr < 2 ^ 31 - 2 ->
  delivered_all (dataWrite_ s) tr -> Forall admissible (datas tr) -> Forall admissible origs ->
  collision_free (origs ++ datas tr) ->
  (forall s' ids contents' k, meth_ok s' contents' (origs ++ k) -> inv s' ->
     traced (dataWrite_ s) (dataWrite_ s') ids -> Forall2 (marked_for (origs ++ k)) ids (datas tr) ->
     (forall t, t ∈ origs ++ k <-> t ∈ origs ++ datas tr) ->
     (length k <= length tr)%nat ->
     (exact_ -> heap (mem (dataWrite_ s')) =
        foldl (fun h l => delete l h) (heap (mem (dataWrite_ s))) tr.*2) ->
     eqm64 (stats s' logicalchunkSize) (stats s logicalchunkSize + len (concat (datas tr))) -> Q true s') ->
  wpe faults (process_queue one ((fun x => x.1.1) <$> tr)) Q s.
Proof using Hstep.
  induction tr as [|x tr IH]; intros s contents origs Q Hok Hinv Hcnt Hdel Hadm Hado Hcf HQ.
  { apply wp_ret. apply (HQ s [] contents []); rewrite ?app_nil_r; try done.
    - split; rewrite ?app_nil_r; try done; by rewrite (app_nil_r (_ : list Z)).
    - cbn. by rewrite Z.add_0_r. }
  unfold datas in Hadm. cbn in Hadm. inversion Hadm as [|? ? Ha Hadm']; subst.
  pose proof Hdel as [_ HF]. inversion HF as [|? ? Hd _]; subst.
  rewrite len_cons in Hcnt. pose proof (len_nonneg tr).
  cbn [fmap list_fmap process_queue]. apply wp_bind.
  eapply wp_mono; [eapply (method_step s contents origs x.1.1 x.1.2 x.2); try done; [lia|]|].
  { intros o Ho He. apply Hcf; [apply elem_of_app; by left| |done].
    apply elem_of_app. right. unfold datas. cbn. by left. }
  intros go s1 (-> & Hinv1 & Hleak & id & contents1 & origs1 & [S1 S2 [S3 S3'] S4 S5 S6 S7 S8]).
  assert (exists k1, origs1 = origs ++ k1 /\ (k1 = [] \/ k1 = [x.1.2])) as (k1 & -> & Hk1).
  { destruct S2 as [[_ ->] | [_ ->]]; [exists []|exists [x.1.2]]; rewrite ?app_nil_r; auto. }
  apply (IH s1 contents1 (origs ++ k1)); try done.
  - assert (length (origs ++ k1) <= length origs + 1)%nat as Hle.
    { rewrite length_app. destruct Hk1 as [-> | ->]; cbn; lia. }
    rewrite (mo_origs _ _ _ S1), (mo_origs _ _ _ Hok) in Hle.
    rewrite (len_length contents1), (len_length contents) in *. lia.
  - by eapply delivered_after.
  - apply Forall_app. split; [done|]. destruct Hk1 as [-> | ->]; by repeat constructor.
  - intros a b Ha' Hb' Hsha. apply Hcf; [| |done].
    + rewrite <- app_assoc in Ha'. apply elem_of_app in Ha' as [Ha'|Ha']; apply elem_of_app; [by left|].
      right. unfold datas. cbn. destruct Hk1 as [-> | ->]; [by right|done].
    + rewrite <- app_assoc in Hb'. apply elem_of_app in Hb' as [Hb'|Hb']; apply elem_of_app; [by left|].
      right. unfold datas. cbn. destruct Hk1 as [-> | ->]; [by right|done].
  - intros s' ids contents' k Hok' Hinv' Htr HF2 Hset Hlen Hheap Hby. rewrite <- app_assoc in Hok', HF2.
    apply (HQ s' ((is_header x.1.2, id) :: ids) contents' (k1 ++ k)); try done.
    + change (?x :: ids) with ([x] ++ ids). eapply traced_trans; [by apply traced_push|done].
    + unfold datas. cbn. constructor; [|done]. split; [done|]. rewrite app_assoc. by apply stands_for_prefix.
    + intros u. rewrite app_assoc, Hset. change (datas (x :: tr)) with ([x.1.2] ++ datas tr).
      rewrite !elem_of_app, elem_of_cons, elem_of_nil.
      destruct S2 as [[Hin He]|[_ He]].
      * assert (k1 = []) as -> by (apply (app_inv_head origs); by rewrite app_nil_r).
        rewrite ?elem_of_nil.
        split; [tauto|]. intros [?|[[->|[]]|?]]; auto.
      * apply app_inv_head in He as ->. rewrite elem_of_cons, elem_of_nil. tauto.
    + rewrite length_app. cbn [length]. destruct Hk1 as [-> | ->]; cbn [length]; lia.
    + intros He. rewrite (Hheap He), (Hleak He). done.
    + rewrite Hby, S8, w64_eqm. change (datas (x :: tr)) with (x.1.2 :: datas tr). cbn [concat]. rewrite len_app, Z.add_assoc. done.
Qed.

(** Back up the file [name] and restore it at once. *)
Definition backup (name : string) (tr : trace) : M (Abs X) bool :=
  on_dw (SetFilename name) ;; process_queue one ((fun x => x.1.1) <$> tr).

Definition backup_restore (name : string) (tr : trace) : M (Abs X) unit :=
  _ ← backup name tr; on_dw (restoreFile name).

Context (inv_recipes : forall s r, inv s -> inv (set_dw (set_recipes r (dataWrite_ s)) s)).

Lemma backup_restore_ok s contents origs name tr :
  meth_ok s contents origs -> inv s -> len contents + len tr < 2 ^ 31 - 2 ->
  delivered_all (dataWrite_ s) tr -> Forall admissible (datas tr) -> Forall admissible origs ->
  collision_free (origs ++ datas tr) ->
  RecipeMap (recipes (dataWrite_ s)) !! name = None ->
  writable (fs (dataWrite_ s)) (restore_path name) = true ->
  wpe faults (backup_restore name tr) (fun _ s' =>
    files (fs (dataWrite_ s')) !! restore_path name = Some (concat (of_kind false (datas tr))) /\
    (exact_ -> heap (mem (dataWrite_ s')) =
       foldl (fun h l => delete l h) (heap (mem (dataWrite_ s))) tr.*2)) s.
Proof using Hstep inv_recipes.
  intros Hok Hinv Hcnt Hdel Hadm Hado Hcf Hnew Hw. unfold backup_restore, backup.
  apply wp_bind, wp_bind, wp_on_dw. unfold SetFilename. apply wp_modify.
  set (r0 := mkRecipes name _ _).
  apply (trace_ok tr (set_dw (set_recipes r0 (dataWrite_ s)) s) contents origs); try done.
  - by eapply (meth_ok_same s).
  - by apply inv_recipes.
  - destruct Hdel as [Hnd HF]. split; [done|]. eapply Forall_impl; [exact HF|].
    intros x [D1 D2 D3 D4 D5 D6]. by split.
  - intros s' ids contents' k Hok' _ [Hfile Hids _ _ _ Hwr] HF _ _ Hheap _.
    apply (wp_on_dw (E := faults)). cbn in Hfile. unfold recipe in Hids. rewrite Hfile in Hids. cbn in Hids.
    rewrite Hnew in Hids. cbn in Hids.
    eapply wp_mono; [eapply restoreFile_ok; [apply (mo_store _ _ _ Hok')| |exact Hids|]|].
    + rewrite Hwr. cbn. done.
    + eapply Forall2_impl; [by apply of_kind_marked|]. intros id t [Hid Ht].
      apply (mo_plain _ _ _ Hok') in Ht. by rewrite Z2Nat.id in Ht.
    + intros [] d' (Hf & _ & Hh). split; [done|]. intros He. cbn. rewrite Hh. by apply Hheap.
Qed.

(** The number of unique chunks after a trace, and what was recorded. *)
Lemma trace_counts s contents origs tr :
  meth_ok s contents origs -> inv s -> len contents + len tr < 2 ^ 31 - 2 ->
  delivered_all (dataWrite_ s) tr -> Forall admissible (datas tr) -> Forall admissible origs ->
  collision_free (origs ++ datas tr) ->
  wpe faults (process_queue one ((fun x => x.1.1) <$> tr)) (fun go s' => go = true /\
    stats s' uniquechunkNum = Z.of_nat (size (list_to_set (origs ++ datas tr) : gset (list Z))) /\
    length (chunklist (dataWrite_ s')) = size (list_to_set (origs ++ datas tr) : gset (list Z)) /\
    eqm64 (stats s' logicalchunkSize) (stats s logicalchunkSize + len (concat (datas tr)))) s.
Proof using Hstep.
  intros Hok Hinv Hcnt Hdel Hadm Hado Hcf. eapply trace_ok; try done.
  intros s' ids contents' k Hok' _ _ _ Hset _ _ Hby.
  assert (size (list_to_set (origs ++ datas tr) : gset (list Z)) = length contents') as ->.
  { rewrite <- (mo_origs _ _ _ Hok'), <- (size_list_to_set (C := gset (list Z)) (origs ++ k));
      [|apply (mo_nodup _ _ _ Hok')].
    f_equal. apply set_eq. intros u. by rewrite !elem_of_list_to_set, Hset. }
  split; [done|]. split; [rewrite (mo_num _ _ _ Hok'); by rewrite len_length|].
  split; [|done]. apply store_lengths, (mo_store _ _ _ Hok').
Qed.
End Trace.

Lemma of_kind_plain ts : of_kind (HK := no_headers) false ts = ts.
Proof. unfold of_kind. induction ts as [|t ts IH]; [done|]. rewrite filter_cons_True by done. by rewrite IH. Qed.

(** A method at work on a fresh store. *)
Lemma new_meth_ok {X} `{Lz4, Xdelta, Digest, Kinds} m f (x : X) :
  (forall l, (next_loc m <= l)%nat -> heap m !! l = None) ->
  (forall k, writable f (container_path k) = true) ->
  meth_ok (new_Abs (new_dataWrite m f) x) [] [].
Proof.
  intros Hm Hf.
  split; [by apply new_store_ok|exact Hf|done|by rewrite len_length|done|constructor|done|done| |constructor].
  intros t Ht. by apply not_elem_of_nil in Ht.
Qed.

(** Two chunks in a heap of their own, for the witnesses. *)
Definition two_blocks (a b : bytes) : Mem :=
  mkMem (<[0%nat := mkBlock (len a) a]> {[ 1%nat := mkBlock (len b) b ]}) 2.

Definition queue_chunk `{Kinds} (l : nat) (t : bytes) : Chunk_t :=
  mkChunk 0 (len t) 0 (PHeap l) 0 NO_DELTA false (is_header t) 0 0.

Definition two_trace (a b : bytes) : trace := [(queue_chunk 0 a, a, 0%nat); (queue_chunk 1 b, b, 1%nat)].

Lemma two_blocks_fresh a b l : (2 <= l)%nat -> heap (two_blocks a b) !! l = None.
Proof. intros Hl. cbn. rewrite lookup_insert_ne, lookup_singleton_ne by lia. done. Qed.

Lemma two_delivered a b f :
  is_bytes a -> is_bytes b -> len a <= CONTAINER_MAX_SIZE -> len b <= CONTAINER_MAX_SIZE ->
  delivered_all (new_dataWrite (two_blocks a b) f) (two_trace a b).
Proof.
  intros Ha Hb Hla Hlb. split.
  - repeat constructor; set_solver.
  - repeat constructor; done.
Qed.

Lemma two_collision_free `{Digest} a b :
  EVP_sha256 a <> EVP_sha256 b -> collision_free [a; b].
Proof. intros Hab x y Hx Hy He. set_solver. Qed.
