(* ===== verification/Dedup.v ===== *)
(** * The deduplication method

    [src/method/Dedup.cc]: every unique chunk is compressed on its own and
    stored; a chunk whose fingerprint is known only gets a recipe entry.  The
    queue is the list of the chunks it delivers.  The [containerNum] this file
    sees is its own copy of the header's static ([ext]); the places it computes
    are overwritten by [Chunk_Insert]. *)

From S2P Require Import Prelude Define LruCache ReadCache Codec DataWrite Store Restore AbsMethod MethodSpec.

Section Dedup.
Context `{HL : Lz4} `{HX : Xdelta} `{HD : Digest} `{HK : Kinds}.

Definition Dedup : Type := Abs Z.

(** The container bookkeeping of the unique branch. *)
Definition place_chunk (c : Chunk_t) : M Dedup Chunk_t := fun s =>
  let full := CONTAINER_MAX_SIZE <? (stats s ContainerSize + chunkSize c)%u64 in
  let num := if full then s32 (ext s + 1) else ext s in
  let size := if full then 0 else stats s ContainerSize in
  Ok (set_place (w64 num) size c,
      set_stat ContainerSize (size + chunkSize c)%u64 (set_ext num s)).

Definition unique_chunk (c : Chunk_t) (hash : bytes) : M Dedup Chunk_t :=
  id ← gets (fun s => stats s uniquechunkNum);
  let c := set_id id NO_DELTA c in
  c ← compress_base c;
  FP_Insert hash (chunkID c) ;;
  c ← place_chunk c;
  insert_base c ;;
  add_stat basechunkNum 1 ;;
  add_stat basechunkSize (saveSize c) ;;
  add_stat uniquechunkNum 1 ;;
  add_stat uniquechunkSize (saveSize c) ;;
  add_stat LocalReduct (chunkSize c - saveSize c) ;;
  mret c.

Definition process_one (c : Chunk_t) : M Dedup bool :=
  hash ← GenerateHash (chunkPtr c) (chunkSize c);
  findRes ← FP_Find hash;
  c ← (if findRes =? -1 then unique_chunk c hash
       else
         c ← dup_chunk c findRes;
         add_stat DedupReduct (chunkSize c) ;;
         mret c);
  record_chunk c ;;
  mret true.

Definition ProcessTrace (queue : list Chunk_t) : M Dedup unit :=
  go ← process_queue process_one queue;
  if (go : bool) then modify (fun s => set_version (s32 (ads_Version s + 1)) s) else mret tt.

(** ** The contract *)

Context `{!Lz4Laws} `{!XdeltaLaws}.

#[export] Instance dedup_step : MethodStep process_one (fun _ => True) (fun _ => False) (fun _ => True) True.
Proof.
  intros s contents origs c t l Hok _ Hcnt Hd _ _ Hnc. pose proof Hok as [M1 M2 M3 M4 M5 M6 M7 M8 M9 M10].
  pose proof (len_nonneg contents).
  unfold process_one. apply wp_bind. eapply GenerateHash_ok; [exact Hd|].
  apply wp_bind. unfold FP_Find. apply wp_gets.
  destruct (FPindex s !! EVP_sha256 t) as [id|] eqn:Hfp.
  - destruct (known_id _ _ _ _ _ Hok Hnc Hfp) as [Hid Ho].
    rewrite (proj2 (Z.eqb_neq id (-1))) by lia.
    apply wp_bind, wp_bind. eapply dup_chunk_ok; [done..|].
    intros c' d' Hc1 Hc2 Hc3 _ -> Hok'. apply wp_bind, wp_add_stat, wp_ret.
    apply wp_bind, record_chunk_ok. intros s' E1 E2 _ _ E5%stat_kept_num E6. apply wp_ret. split; [done|]. split; [done|].
    eapply known_step; try done; [by rewrite E1, Hc1, Hc2|by rewrite E6, Hc3].
  - assert (t ∉ origs) as Hnew by (intros [? Hk]%M9; by rewrite Hfp in Hk).
    rewrite Z.eqb_refl. apply wp_bind. unfold unique_chunk. apply wp_bind, wp_gets. rewrite M4. cbv zeta.
    apply wp_bind. eapply compress_base_ok; [destruct Hd; by split|].
    intros buf n f Hready. apply wp_bind. unfold FP_Insert. apply wp_bind, wp_modify, wp_ret.
    apply wp_bind. unfold wpe at 1, place_chunk. cbv zeta.
    match goal with |- wpe _ _ _ ?s1 => set (sp := s1) end.
    apply wp_bind. destruct Hd as [D1 D2 D3 D4 D5 D6].
    eapply (insert_base_ok sp contents _ t l); [exact M1|exact M2|exact Hcnt|exact D1|exact D2|exact D4| |].
    { destruct Hready as [R1 R2 R3]. by split. }
    intros d' Hok' Hins. apply wp_bind, wp_add_stat, wp_bind, wp_add_stat, wp_bind, wp_add_stat.
    apply wp_bind, wp_add_stat, wp_bind, wp_add_stat, wp_ret.
    apply wp_bind, record_chunk_ok. intros s' E1 E2 _ _ E5%stat_kept_num E6. apply wp_ret. split; [done|]. split; [done|].
    pose proof Hins as [_ I2 I3 I4 I5 I6]. change (HeaderFlag _) with (HeaderFlag c) in E1. rewrite D6 in E1.
    assert (no_leak s l s') as Hnl by (unfold no_leak; rewrite E1; cbn; by rewrite I2). split; [done|].
    exists (len contents), (contents ++ [t]), (origs ++ [t]).
    split.
    + eapply (meth_ok_new s s' d');
        [exact Hok|exact Hok'|exact (inserted_grown _ _ _ _ Hins)|done|exact D6|exact D5|exact D4| |exact E1| | |exact Hnew].
      * eapply plain_base; [exact M1|lia|exact (inserted_grown _ _ _ _ Hins)| |exact D3].
        destruct Hready as [_ _ [[Hf _]|[Hf _]]]; [by right|by left].
      * rewrite E2. cbn. by rewrite s32_small by lia.
      * rewrite E5. simp_stats. unfold sp. cbn [stats set_dw]. simp_stats. cbn. rewrite M4, w64_small by lia. done.
    + right. by split.
    + split; [lia|]. rewrite len_length, Nat2Z.id, <- M3. by apply list_lookup_middle.
    + rewrite E1. cbn. by rewrite I3.
    + by apply no_leak_heap.
    + rewrite E1. cbn. by rewrite I5.
    + rewrite E1. cbn. by rewrite I6.
    + rewrite E6. simp_stats. unfold sp. cbn [stats set_dw]. simp_stats. cbn. by rewrite D3.
Qed.
End Dedup.

(** A store in which [t] was processed first, as the start of any method. *)
Definition seeded {X} `{Lz4, Digest} (x : X) (t u : bytes) : Abs X :=
  let s := match process_one (queue_chunk 0 t) (new_Abs (new_dataWrite (two_blocks t u) open_fs) 0) with
           | Ok (_, s) => s
           | Err _ => new_Abs (new_dataWrite (two_blocks t u) open_fs) 0
           end in
  mkAbs (dataWrite_ s) (FPindex s) (SFindex s) (lz4ChunkBuffer s) (stats s) (ads_Version s) x.

Lemma seeded_ok {X} `{HL : Lz4} `{HX : Xdelta} `{HD : Digest} `{!Lz4Laws} `{!XdeltaLaws} (x : X) t u :
  is_bytes t -> is_bytes u -> len t <= CONTAINER_MAX_SIZE -> len u <= CONTAINER_MAX_SIZE ->
  exists contents origs, meth_ok (seeded x t u) contents origs /\
    delivered (dataWrite_ (seeded x t u)) (queue_chunk 1 u) u 1.
Proof.
  intros Ht Hu Hlt Hlu. set (s := new_Abs (new_dataWrite (two_blocks t u) open_fs) 0 : Dedup).
  assert (meth_ok s [] []) as Hok by (apply new_meth_ok; [apply two_blocks_fresh|done]).
  assert (delivered (dataWrite_ s) (queue_chunk 0 t) t 0) as Hd by done.
  assert (no_collision [] t) as Hnc by set_solver.
  destruct (wp_result _ _ _ (dedup_step s [] [] _ t 0%nat Hok I ltac:(by vm_compute) Hd I (Forall_nil_2 _) Hnc))
    as (go & s' & He & _ & _ & _ & (id & contents & origs & [Hst _ _ _ Hh _])).
  exists contents, origs. unfold seeded. fold s. rewrite He. split; [destruct Hst; by split|].
  split; try done. by apply Hh.
Qed.

(** ** Properties *)

(** Back up and restore with deduplication alone: for any store in a
    consistent state, any file whose chunks fit a container and whose
    fingerprints do not collide (with each other or with stored chunks), after
    [ProcessTrace] has handled the chunks the chunker delivered,
    [restoreFile] writes the concatenation of their bytes, whatever was stored
    compressed, raw, or only referenced; and of all the heap only the blocks of
    the delivered chunks are gone: nothing leaks and nothing is freed twice. *)
Theorem dedup_backup_restores `{HL : Lz4} `{HX : Xdelta} `{HD : Digest} `{!Lz4Laws} `{!XdeltaLaws}
    (s : Dedup) (contents origs : list bytes) (name : string) (tr : trace)
    (Hok : meth_ok s contents origs) (Hcnt : len contents + len tr < 2 ^ 31 - 2)
    (Hdel : delivered_all (dataWrite_ s) tr) (Hcf : collision_free (origs ++ datas tr))
    (Hnew : RecipeMap (recipes (dataWrite_ s)) !! name = None)
    (Hw : writable (fs (dataWrite_ s)) (restore_path name) = true) :
  wp (backup_restore process_one name tr) (fun _ s' =>
    files (fs (dataWrite_ s')) !! restore_path name = Some (concat (datas tr)) /\
    heap (mem (dataWrite_ s')) = foldl (fun h l => delete l h) (heap (mem (dataWrite_ s))) tr.*2) s.
Proof.
  eapply wp_mono; [eapply (backup_restore_ok process_one (fun _ => True) (fun _ => False) (fun _ => True) True); try done|].
  - by apply Forall_true.
  - by apply Forall_true.
  - intros [] s' [H1 H2]. rewrite of_kind_plain in H1. auto.
Qed.

Lemma dedup_backup_restores_witness :
  let s := new_Abs (new_dataWrite (two_blocks [1; 2; 3] [1; 2; 3]) open_fs) 0 in
  let tr := two_trace [1; 2; 3] [1; 2; 3] in
  wp (@backup_restore _ StoreCodec.lz4 StoreCodec.xdelta
        (@process_one StoreCodec.lz4 StoreCodec.digest) "a.tar" tr)
     (fun _ s' => files (fs (dataWrite_ s')) !! restore_path "a.tar" = Some (concat (datas tr)) /\
        heap (mem (dataWrite_ s')) = foldl (fun h l => delete l h) (heap (mem (dataWrite_ s))) tr.*2) s.
Proof.
  intros s tr.
  refine (@dedup_backup_restores StoreCodec.lz4 StoreCodec.xdelta StoreCodec.digest
           StoreCodec.lz4_laws StoreCodec.xdelta_laws s [] [] "a.tar" tr _ _ _ _ _ _).
  - apply (@new_meth_ok Z StoreCodec.lz4 StoreCodec.xdelta StoreCodec.digest); [apply two_blocks_fresh|done].
  - by vm_compute.
  - by apply two_delivered.
  - intros x y Hx Hy _. cbn in Hx, Hy. set_solver.
  - reflexivity.
  - reflexivity.
Defined.

(** C9: deduplication is exact: after any trace, the store holds one chunk per
    distinct content (among the contents stored before and those of the
    trace), and [uniquechunkNum] counts them. *)
Theorem dedup_stores_once `{HL : Lz4} `{HX : Xdelta} `{HD : Digest} `{!Lz4Laws} `{!XdeltaLaws}
    (s : Dedup) (contents origs : list bytes) (tr : trace)
    (Hok : meth_ok s contents origs) (Hcnt : len contents + len tr < 2 ^ 31 - 2)
    (Hdel : delivered_all (dataWrite_ s) tr) (Hcf : collision_free (origs ++ datas tr)) :
  wp (ProcessTrace ((fun x => x.1.1) <$> tr)) (fun _ s' =>
    stats s' uniquechunkNum = Z.of_nat (size (list_to_set (origs ++ datas tr) : gset (list Z))) /\
    length (chunklist (dataWrite_ s')) = size (list_to_set (origs ++ datas tr) : gset (list Z))) s.
Proof.
  unfold ProcessTrace. apply wp_bind. eapply wp_mono.
  - eapply (trace_counts process_one (fun _ => True) (fun _ => False) (fun _ => True) True); try done; by apply Forall_true.
  - intros go s' (-> & H1 & H2 & _). by apply wp_modify.
Qed.

Lemma dedup_stores_once_witness :
  wp (@ProcessTrace StoreCodec.lz4 StoreCodec.digest
        ((fun x : Chunk_t * bytes * nat => x.1.1) <$> two_trace [7] [7]))
     (fun _ s' => stats s' uniquechunkNum = Z.of_nat (size (list_to_set ([] ++ [[7]; [7]]) : gset (list Z))) /\
        length (chunklist (dataWrite_ s')) = size (list_to_set ([] ++ [[7]; [7]]) : gset (list Z)))
     (new_Abs (new_dataWrite (two_blocks [7] [7]) open_fs) 0).
Proof.
  apply (@dedup_stores_once StoreCodec.lz4 StoreCodec.xdelta StoreCodec.digest
           StoreCodec.lz4_laws StoreCodec.xdelta_laws _ [] [] (two_trace [7] [7])); try done.
  - apply (@new_meth_ok Z StoreCodec.lz4 StoreCodec.xdelta StoreCodec.digest); [apply two_blocks_fresh|done].
  - by apply two_delivered.
  - intros x y Hx Hy _. cbn in Hx, Hy. set_solver.
Defined.
