(* ===== verification/DeltaSpec.v ===== *)
(** * The methods that store deltas

    The steps the delta methods share: a unique chunk ends up [stored], as a
    base chunk or as a delta against a base chunk of the store, whatever index
    proposed the base; [finish_unique] turns that into [step_ok].  The
    invariant every similarity index keeps is that it only names base chunks
    ([base_id]). *)

From S2P Require Import Prelude Define LruCache ReadCache Codec DataWrite Store Restore AbsMethod MethodSpec.

(** ** Similarity indexes *)

Section Index.
Context `{Countable K}.

(** Every list of a table is non-empty and names base chunks only. *)
Definition table_ok (d : dataWrite) (t : gmap K (list Z)) : Prop :=
  map_Forall (fun _ ids => ids <> [] /\ Forall (base_id d) ids) t.

Definition index_ok (d : dataWrite) : list (gmap K (list Z)) -> Prop := Forall (table_ok d).

Lemma index_ok_mono d d' tables :
  (forall id, base_id d id -> base_id d' id) -> index_ok d tables -> index_ok d' tables.
Proof.
  intros Hd Hok. eapply Forall_impl; [exact Hok|]. intros t Ht k ids Hk. destruct (Ht k ids Hk) as [H1 H2].
  split; [done|]. by eapply Forall_impl.
Qed.

Lemma index_new n d : index_ok d (replicate n ∅).
Proof. apply Forall_replicate, map_Forall_empty. Qed.

Lemma table_hit d t k ids :
  table_ok d t -> t !! k = Some ids -> exists id, last ids = Some id /\ base_id d id.
Proof.
  intros Ht Hk. destruct (Ht _ _ Hk) as [Hne HF]. destruct (last ids) as [id|] eqn:Hl; [|by apply last_None in Hl].
  exists id. split; [done|]. rewrite Forall_forall in HF. apply HF.
  rewrite last_lookup in Hl. by eapply list_elem_of_lookup_2.
Qed.

Lemma table_push d t k id :
  table_ok d t -> base_id d id -> table_ok d (<[k := default [] (t !! k) ++ [id]]> t).
Proof.
  intros Ht Hid. apply map_Forall_insert_2; [|done]. split; [by destruct (default [] _)|].
  apply Forall_app. split; [|by constructor].
  destruct (t !! k) as [ids|] eqn:Hk; cbn; [by apply (Ht _ _ Hk)|constructor].
Qed.
End Index.

(** ** What may go wrong with the deltas of a run

    [U] holds the chunks of the run.  The methods do not look at what xdelta
    returns, so that nothing can be said of a run in which it reports an error
    ([encodes_in] excludes it).  Finesse and the N-transform copy a delta over
    its chunk whatever its size: this is the one fault they may stop with. *)
Definition encodes_in `{Xdelta} (U : bytes -> Prop) (t : bytes) : Prop :=
  t <> [] /\ U t /\ forall y, U y -> (xd3_encode_memory t y (CONTAINER_MAX_SIZE * 2)).1 = 0.

Definition oversized_in `{Xdelta} (U : bytes -> Prop) (e : fault) : Prop :=
  e = OobWrite /\ exists t y x, U t /\ U y /\
    xd3_encode_memory t y (CONTAINER_MAX_SIZE * 2) = (0, Some x) /\ len t < len x.

Lemma encodes_against `{Xdelta} U t origs y :
  encodes_in U t -> Forall (encodes_in U) origs -> y ∈ origs -> (xd3_encode_memory t y (CONTAINER_MAX_SIZE * 2)).1 = 0.
Proof. intros (_ & _ & Ht) Ho Hy. rewrite Forall_forall in Ho. apply Ht. by destruct (Ho y Hy) as (_ & ? & _). Qed.

Section Delta.
Context {X : Type} `{HL : Lz4} `{HX : Xdelta} `{HD : Digest} `{HK : Kinds}.
Context `{!Lz4Laws} `{!XdeltaLaws} {E : fault -> Prop}.
Implicit Types s : Abs X.

(** From [s], the chunk [c] made from [t] in the block [l] was stored with
    content [x]; [exact_] when no block was leaked on the way. *)
Record stored (exact_ : Prop) s (contents : list bytes) (t : bytes) (l : nat) (c : Chunk_t)
    (x : bytes) (s' : Abs X) : Prop := {
  sd_id : chunkID c = len contents;
  sd_flag : HeaderFlag c = is_header t;
  sd_store : store_ok (dataWrite_ s') (contents ++ [x]);
  sd_grown : exists d3, store_ok d3 contents /\ reads (dataWrite_ s) d3 /\ grown c d3 (dataWrite_ s');
  sd_plain : plain (chunklist (dataWrite_ s')) (contents ++ [x]) (len contents) t;
  sd_heap : forall l' b, l' <> l -> heap (mem (dataWrite_ s)) !! l' = Some b ->
    heap (mem (dataWrite_ s')) !! l' = Some b;
  sd_exact : exact_ -> no_leak s l s';
  sd_fp : FPindex s' = <[EVP_sha256 t := len contents]> (FPindex s);
  sd_num : same_totals s s'
}.

(** Base chunks stay base chunks, and a new one is one. *)
Lemma stored_base_id e s contents t l c x s' id :
  stored e s contents t l c x s' -> base_id (dataWrite_ s) id -> base_id (dataWrite_ s') id.
Proof using Type.
  intros [_ _ _ (d3 & _ & Hr & Hg) _ _ _ _ _] Hid. eapply base_id_grown; [exact Hg|].
  by eapply base_id_reads.
Qed.

Lemma stored_new_id e s contents t l c x s' :
  stored e s contents t l c x s' -> base_flag c -> base_id (dataWrite_ s') (len contents).
Proof using Type.
  intros [_ _ _ (d3 & Hok & Hr & Hg) _ _ _ _ _] Hf. by eapply base_id_new.
Qed.

Lemma delivered_same d d' c c' t l :
  delivered d c t l -> mem d' = mem d -> chunkPtr c' = chunkPtr c -> chunkSize c' = chunkSize c ->
  HeaderFlag c' = HeaderFlag c -> delivered d' c' t l.
Proof using Type. intros [D1 D2 D3 D4 D5 D6] Hm Hp Hs Hh. split; congruence. Qed.

(** Nothing but the index, the LZ4 buffer and counters changed since [s], and
    the fingerprint of [t] was recorded. *)
Record pending s (contents : list bytes) (t : bytes) (sp : Abs X) : Prop := {
  pd_dw : dataWrite_ sp = dataWrite_ s;
  pd_fp : FPindex sp = <[EVP_sha256 t := len contents]> (FPindex s);
  pd_num : same_totals s sp
}.

(** [pending] up to reads of the store and blocks taken meanwhile; [exact_]
    when there are none. *)
Record between (exact_ : Prop) s (contents : list bytes) (t : bytes) (sp : Abs X) : Prop := {
  bt_store : store_ok (dataWrite_ sp) contents;
  bt_reads : reads (dataWrite_ s) (dataWrite_ sp);
  bt_heap : forall l b, heap (mem (dataWrite_ s)) !! l = Some b -> heap (mem (dataWrite_ sp)) !! l = Some b;
  bt_exact : exact_ -> heap (mem (dataWrite_ sp)) = heap (mem (dataWrite_ s));
  bt_fp : FPindex sp = <[EVP_sha256 t := len contents]> (FPindex s);
  bt_num : same_totals s sp
}.

Lemma pending_between s contents origs t sp :
  meth_ok s contents origs -> pending s contents t sp -> between True s contents t sp.
Proof using Type.
  intros Hok [P1 P2 P3]. split; rewrite ?P1; first [done | apply Hok | apply reads_refl].
Qed.

(** The block of [t] is still there. *)
Lemma between_delivered e s contents t sp c c' l :
  between e s contents t sp -> delivered (dataWrite_ s) c t l -> chunkPtr c' = chunkPtr c ->
  chunkSize c' = chunkSize c -> HeaderFlag c' = HeaderFlag c -> delivered (dataWrite_ sp) c' t l.
Proof using Type.
  intros Hb [D1 D2 D3 D4 D5 D6] Hp Hs Hh. split; try congruence. by apply (bt_heap _ _ _ _ _ Hb).
Qed.

Lemma delta_oversized U contents origs t b x :
  encodes_in U t -> Forall (encodes_in U) origs -> delta_from contents origs t b x -> len t < len x ->
  oversized_in U OobWrite.
Proof using Type.
  intros (_ & Ht & _) Ho (y & _ & Hy & Hx & _) Hlt. rewrite Forall_forall in Ho. destruct (Ho y Hy) as (_ & Hu & _).
  split; [done|]. by exists t, y, x.
Qed.

Lemma store_base_ok e s sp contents origs c0 c t l (Q : bool -> Abs X -> Prop) :
  meth_ok s contents origs -> len contents < 2 ^ 31 - 2 -> delivered (dataWrite_ s) c0 t l ->
  between e s contents t sp -> ready (lz4ChunkBuffer sp) c t ->
  chunkPtr c = PHeap l -> chunkID c = len contents -> HeaderFlag c = is_header t ->
  (forall s', stored e s contents t l c t s' -> base_flag c ->
     heap (mem (dataWrite_ s')) = delete l (heap (mem (dataWrite_ sp))) ->
     SFindex s' = SFindex sp -> ext s' = ext sp -> stats s' = stats sp -> Q true s') ->
  wpe E (insert_base c) Q sp.
Proof using Type*.
  intros Hok Hcnt [D1 D2 D3 D4 D5 D6] [B1 B2 B3 B4 B5 B6] Hready Hp Hid Hf HQ.
  pose proof Hok as [M1 M2 _ _ _ _ _ _ _ _].
  apply (insert_base_ok sp contents c t l); try done; [intros k; rewrite (rd_fs _ _ B2); apply M2|by apply B3|].
  intros d' Hok' Hins.
  assert (base_flag c) as Hbf.
  { destruct Hready as [_ _ [[Hr _]|[Hr _]]]; [by right|by left]. }
  pose proof (len_nonneg contents).
  apply HQ; try done; [|cbn; by rewrite (in_mem _ _ _ _ Hins)].
  split; try done.
  - exists (dataWrite_ sp). split; [done|]. split; [done|by eapply inserted_grown].
  - eapply plain_base; [exact B1|lia|by eapply inserted_grown|exact Hbf|apply (rd_size _ _ _ Hready)].
  - intros l' b Hne Hl. cbn. rewrite (in_mem _ _ _ _ Hins). cbn. rewrite lookup_delete_ne by congruence. by apply B3.
  - intros He. unfold no_leak. cbn. rewrite (in_mem _ _ _ _ Hins). cbn. by rewrite B4.
Qed.

(** The size of a stored chunk. *)
Lemma grown_size d d' contents c t x : store_ok d contents -> grown c d d' ->
  plain (chunklist d') (contents ++ [x]) (len contents) t -> chunkSize c = len t.
Proof using Type.
  intros Hok [(off & cid & Ecl) _ _ _] Hp. rewrite len_length in Hp.
  change (chunkSize (mkChunk (chunkID c) (chunkSize c) (saveSize c) PNull (basechunkID c) (deltaFlag c) (loadFromDisk c)
    (HeaderFlag c) off cid) = len t).
  eapply plain_size; [exact Hp|]. rewrite Ecl, <- (store_lengths _ _ Hok). by apply list_lookup_middle.
Qed.

Lemma finish_unique e s s1 s2 contents origs c0 c t l x :
  meth_ok s contents origs -> len contents < 2 ^ 31 - 2 -> delivered (dataWrite_ s) c0 t l ->
  t ∉ origs -> stored e s contents t l c x s1 ->
  dataWrite_ s2 = set_recipes (pushed (HeaderFlag c) (chunkID c) (recipes (dataWrite_ s1))) (dataWrite_ s1) ->
  FPindex s2 = FPindex s1 -> stats s2 uniquechunkNum = (stats s1 uniquechunkNum + 1)%u64 ->
  stats s2 logicalchunkSize = (stats s1 logicalchunkSize + chunkSize c)%u64 ->
  step_ok s t l origs s2 (len contents) (contents ++ [x]) (origs ++ [t]) /\ (e -> no_leak s l s2).
Proof using Type.
  intros Hok Hcnt [D1 D2 D3 D4 D5 D6] Hnew [S1 S2 S3 (d3 & G1 & G2 & G3) S5 S6 S7 S8 S9] E1 E2 E3 E4.
  pose proof (len_nonneg contents). pose proof (grown_size _ _ _ _ _ _ G1 G3 S5) as Hsz. split.
  - eapply (unique_step s s2 d3 (dataWrite_ s1)); try done.
    + by rewrite E2, S8, S1, s32_small by lia.
    + by rewrite E3, (proj1 S9).
    + by rewrite E4, (proj2 S9), Hsz.
  - intros He. unfold no_leak. rewrite E1. cbn. by apply S7.
Qed.

(** The chunk as it is stored after [keep_delta]. *)
Record delta_of (c0 : Chunk_t) (b n : Z) (c : Chunk_t) : Prop := {
  do_id : chunkID c = chunkID c0;
  do_size : chunkSize c = chunkSize c0;
  do_ptr : chunkPtr c = chunkPtr c0;
  do_head : HeaderFlag c = HeaderFlag c0;
  do_base : basechunkID c = b;
  do_save : saveSize c = n;
  do_flag : deltaFlag c <> NO_DELTA /\ deltaFlag c <> NO_LZ4
}.

(** The state between [keep_delta] and the insertion. *)
Record kept s contents (t : bytes) (l : nat) (x : bytes) (h1 : gmap nat Block) (sp : Abs X) : Prop := {
  kp_store : store_ok (dataWrite_ sp) contents;
  kp_reads : reads (dataWrite_ s) (dataWrite_ sp);
  kp_heap : heap (mem (dataWrite_ sp)) = <[l := mkBlock (len t) (blit t 0 x)]> h1;
  kp_fp : FPindex sp = <[EVP_sha256 t := len contents]> (FPindex s);
  kp_num : same_totals s sp
}.

Lemma delta_plain s contents t b base dl x d2 h1 c d3 d' :
  encoded s contents t b base dl x d2 h1 -> store_ok d3 contents -> reads (dataWrite_ s) d3 ->
  grown c d3 d' -> 0 <= b -> basechunkID c = b -> deltaFlag c <> NO_DELTA -> deltaFlag c <> NO_LZ4 ->
  saveSize c = len x -> chunkSize c = len t -> len contents < 2 ^ 31 ->
  plain (chunklist d') (contents ++ [x]) (len contents) t.
Proof using Type.
  intros [_ _ (cb & y & N1 & N2 & N3 & N4) _ _ _] Hok3 Hr Hg Hb Hbc Hf1 Hf2 Hsv Hsz Hcnt.
  destruct (meta_lookup _ _ _ _ (rd_meta _ _ Hr) N1) as (cb' & Hcb' & He).
  destruct (meta_fields _ _ He) as (Es & _).
  eapply (plain_delta d3 d' contents c t x cb' y); rewrite ?Hbc; try done.
  congruence.
Qed.

(** The order of Finesse and the N-transform: the base's block goes first. *)
Lemma store_delta_stored s contents origs t b base dl x d2 h1 c0 c l sp (Q : bool -> Abs X -> Prop) :
  meth_ok s contents origs -> len contents < 2 ^ 31 - 2 -> delivered (dataWrite_ s) c0 t l -> 0 <= b ->
  encoded s contents t b base dl x d2 h1 -> len x <= len t -> kept s contents t l x h1 sp ->
  delta_of c0 b (len x) c -> chunkID c = len contents ->
  (forall s', stored True s contents t l c x s' ->
     SFindex s' = SFindex sp -> ext s' = ext sp -> stats s' = stats sp -> Q true s') ->
  wpe E (on_dw (free_if (loadFromDisk base) (chunkPtr base)) ;; on_dw (Chunk_Insert c)) Q sp.
Proof using Type*.
  intros Hok Hcnt [D1 D2 D3 D4 D5 D6] Hb Hen Hfit [K1 K2 K3 K4 K5] [C1 C2 C3 C4 C5 C6 [C7 C8]] Hid HQ.
  pose proof Hok as [M1 M2 _ _ _ _ _ _ _ _].
  eapply (store_delta_ok s sp); [exact Hen|exact Hfit|exact K1|exact M2|exact K2|exact K3|exact Hcnt|exact D2|exact D4
    |by rewrite C3|exact C6|exact C7|by rewrite C2|].
  intros d3 d' Hok3 Hr Hok' Hg Hh. apply HQ; try done.
  split; try done.
  - by rewrite C4.
  - by exists d3.
  - eapply delta_plain; try done; [by rewrite C2|lia].
  - intros l' b' Hne Hl. cbn. rewrite Hh. by rewrite lookup_delete_ne by congruence.
Qed.

(** ** The order of Palantir: the base's block goes after the insertion *)

Lemma taken_delete ld p h h' l b :
  taken ld p h h' -> h !! l = Some b -> taken ld p (delete l h) (delete l h').
Proof using Type.
  destruct ld; cbn; [|by intros ->]. intros (l0 & b0 & -> & Hl & ->) Hb.
  assert (l <> l0) as Hne by (intros ->; congruence). exists l0, b0. split; [done|].
  rewrite lookup_delete_ne by done. split; [done|]. by rewrite delete_insert_ne.
Qed.

Lemma insert_delta_stored s contents origs t b base dl x d2 h1 c0 c l sp (Q : bool -> Abs X -> Prop) :
  meth_ok s contents origs -> len contents < 2 ^ 31 - 2 -> delivered (dataWrite_ s) c0 t l -> 0 <= b ->
  encoded s contents t b base dl x d2 h1 -> len x <= len t -> kept s contents t l x h1 sp ->
  delta_of c0 b (len x) c -> chunkID c = len contents ->
  (forall s', stored False s contents t l c x s' ->
     heap (mem (dataWrite_ s')) = delete l h1 ->
     SFindex s' = SFindex sp -> ext s' = ext sp -> stats s' = stats sp -> Q true s') ->
  wpe E (on_dw (Chunk_Insert c)) Q sp.
Proof using Type*.
  intros Hok Hcnt [D1 D2 D3 D4 D5 D6] Hb Hen Hfit [K1 K2 K3 K4 K5] [C1 C2 C3 C4 C5 C6 [C7 C8]] Hid HQ.
  pose proof Hok as [M1 M2 _ _ _ _ _ _ _ _]. pose proof (len_nonneg x). pose proof (len_nonneg contents).
  pose proof (len_nonneg t). apply wp_on_dw.
  eapply (Chunk_Insert_ok _ contents c l _ x); try done.
  - intros k. rewrite (rd_fs _ _ K2). apply M2.
  - by rewrite C3.
  - by rewrite K3, lookup_insert_eq.
  - cbn. rewrite K3, lookup_insert_eq. cbn.
    rewrite read_object_ok; [by rewrite sub_blit_0|lia|lia| |rewrite len_blit; lia]. rewrite len_blit; lia.
  - lia.
  - rewrite C2, D3. lia.
  - intros d' Hok' Hins.
    assert (heap (mem d') = delete l h1) as Hh.
    { rewrite (in_mem _ _ _ _ Hins). cbn. rewrite K3. apply delete_insert_eq. }
    apply HQ; try done. split; try done.
    + by rewrite C4.
    + exists (dataWrite_ sp). split; [done|]. split; [done|by eapply inserted_grown].
    + eapply delta_plain; [exact Hen|exact K1|exact K2|by eapply inserted_grown|exact Hb|exact C5|exact C7|exact C8
        |exact C6|by rewrite C2|lia].
    + intros l' b' Hne Hl. cbn. rewrite Hh, lookup_delete_ne by congruence.
      eapply taken_grow; [apply Hen|done].
Qed.

(** Giving back the base's block once the chunk is stored. *)
Lemma late_free_ok e s contents t l c x base h0 sp (Q : unit -> Abs X -> Prop) :
  stored False s contents t l c x sp ->
  taken (loadFromDisk base) (chunkPtr base) h0 (heap (mem (dataWrite_ sp))) ->
  (forall l' b, l' <> l -> heap (mem (dataWrite_ s)) !! l' = Some b -> h0 !! l' = Some b) ->
  (e -> h0 = delete l (heap (mem (dataWrite_ s)))) ->
  (forall s', stored e s contents t l c x s' -> SFindex s' = SFindex sp -> ext s' = ext sp ->
     stats s' = stats sp -> chunklist (dataWrite_ s') = chunklist (dataWrite_ sp) -> Q tt s') ->
  wpe E (on_dw (free_if (loadFromDisk base) (chunkPtr base))) Q sp.
Proof using Type.
  intros [S1 S2 S3 (d3 & G1 & G2 & [I1 I2 I3]) S5 S6 S7 S8 S9] Ht Hh He HQ. apply wp_on_dw.
  eapply (free_if_ok _ _ _ _ h0); [exact S3|exact Ht|]. intros m Hm Hok.
  apply HQ; try done. split; try done.
  - exists d3. split; [done|]. split; [done|]. by split.
  - intros l' b Hne Hl. cbn. rewrite Hm. by apply Hh.
  - intros He'. unfold no_leak. cbn. rewrite Hm. by apply He.
Qed.
End Delta.
