(* ===== verification/Finesse.v ===== *)
(** * The Finesse method

    [src/method/Finesse.cc] and the feature extraction [GetSF] of
    [src/method/absMethod.cc]: twelve sub-chunks give one rolling-hash maximum
    each, the maxima are ranked in groups of three and hashed into three
    super-features; a chunk that shares a super-feature with a stored base
    chunk is stored as a delta against it. *)

From stdpp Require Import sorting.
From S2P Require Import Prelude Define PolyHash LruCache ReadCache Codec DataWrite Store Restore AbsMethod MethodSpec DeltaSpec Dedup.

(** ** Features *)

Definition A : Z := 37.
Definition MOD : Z := 1000000007.
Definition WINDOW_SIZE : Z := 48.
Definition FEATURE_NUM : Z := 12.

(** [A^(WINDOW_SIZE - 1) % MOD], by repeated multiplication. *)
Definition Apower : Z := Nat.iter 47 (fun p => (p * A)%u64 mod MOD) 1.

(** [subchunkIndex[i]]. *)
Definition subchunkIndex (BLOCK_SIZE i : Z) : Z := Z.quot (s32 (BLOCK_SIZE * i)) FEATURE_NUM.

(** [ptr[j]]. *)
Definition byte_at (b : bytes) (j : Z) : result Z :=
  if j <? 0 then Err OobRead else from_option_or OobRead (b !! Z.to_nat j).

(** The fingerprint of the [n] bytes from [j]; [fp] is an [int64_t], and [%]
    the C remainder. *)
Fixpoint first_window (n : nat) (b : bytes) (j fp : Z) : result Z :=
  match n with
  | O => Ok fp
  | S n' => c ← byte_at b j; first_window n' b (j + 1) (Z.rem (fp * A + c) MOD)
  end.

(** [while (fp < 0) fp += MOD]. *)
Fixpoint make_nonneg (fuel : nat) (fp : Z) : result Z :=
  if fp <? 0 then
    match fuel with
    | O => Err OutOfFuel
    | S fuel' => make_nonneg fuel' (fp + MOD)
    end
  else Ok fp.

(** The rolling loop, [n] positions from [j]; [last] is the last position.  The
    removed byte takes away less than [MOD], so one addition is enough. *)
Fixpoint roll (n : nat) (b : bytes) (last j fp feature : Z) : result Z :=
  match n with
  | O => Ok feature
  | S n' =>
      let feature := if feature <? fp then w32 fp else feature in
      c ← byte_at b j;
      fp ← make_nonneg 1 (fp - (c * Apower)%u64 mod MOD);
      fp ← (if j =? last then Ok fp
            else c' ← byte_at b (j + WINDOW_SIZE); Ok (Z.rem (fp * A + c') MOD));
      roll n' b last (j + 1) fp feature
  end.

(** [feature[i]]. *)
Definition feature (b : bytes) (dataSize i : Z) : result Z :=
  let lo := subchunkIndex dataSize i in
  let hi := subchunkIndex dataSize (i + 1) in
  fp ← first_window (Z.to_nat WINDOW_SIZE) b lo 0;
  roll (Z.to_nat (hi - WINDOW_SIZE + 1 - lo)) b (hi - WINDOW_SIZE) lo fp 0.

Fixpoint features (n : nat) (b : bytes) (dataSize i : Z) : result (list Z) :=
  match n with
  | O => Ok []
  | S n' => f ← feature b dataSize i; fs ← features n' b dataSize (i + 1); Ok (f :: fs)
  end.

(** [std::sort] on each group of [SF_NUM] features. *)
Definition sort_groups (f : list Z) : list Z :=
  flat_map (fun i => merge_sort Z.le (take 3 (drop (3 * i) f))) (seq 0 4).

(** The bytes hashed into super-feature [i]: the [i]-th of every group, as
    64-bit words. *)
Definition sf_words (f : list Z) (i : nat) : bytes :=
  flat_map (fun j => le_put 8 (nth (j * 3 + i) f 0)) (seq 0 4).

Section Finesse.
Context `{HL : Lz4} `{HX : Xdelta} `{HD : Digest} `{HK : Kinds}.

Definition Finesse : Type := Abs unit.

Definition super_features (f : list Z) : bytes :=
  flat_map (fun i => EVP_sha256 (sf_words (sort_groups f) i)) (seq 0 3).

(** The random transposes [TRANSPOSE_M] and [TRANSPOSE_A] are drawn and never
    used. *)
Definition GetSF (p : ptr) (dataSize : Z) : M Finesse bytes :=
  b ← on_dw (load p (w64 dataSize));
  f ← lift (features (Z.to_nat FEATURE_NUM) b dataSize 0);
  mret (super_features f).

(** ** [ProcessTrace] *)

(** The super-features and the base found; [tmpChunkSF] is only used for chunks
    above 576 bytes, the size of twelve windows. *)
Definition find_base (c : Chunk_t) : M Finesse (option bytes * Z) :=
  if 576 <? chunkSize c then
    sf ← GetSF (chunkPtr c) (s32 (chunkSize c));
    id ← SF_Find sf;
    add_stat computeSFtimes 1 ;;
    mret (Some sf, id)
  else mret (None, -1).

Definition base_chunk (c : Chunk_t) (sf : option bytes) : M Finesse Chunk_t :=
  c ← compress_base c;
  let c := set_base (-1) c in
  (match sf with
   | Some sf => _ ← SF_Insert sf (chunkID c); mret tt
   | None => mret tt
   end) ;;
  add_stat basechunkNum 1 ;;
  add_stat basechunkSize (saveSize c) ;;
  insert_base c ;;
  add_stat LocalReduct (chunkSize c - saveSize c) ;;
  mret c.

(** [None]: the delta is empty and [ProcessTrace] returns. *)
Definition delta_chunk (c : Chunk_t) (baseid : Z) : M Finesse (option Chunk_t) :=
  r ← encode_against c baseid;
  let '(base, (dl, n)) := r in
  let c := set_save n (deltaFlag c) c in
  (if chunkSize c <? saveSize c then add_stat bugCount 1 else mret tt) ;;
  if saveSize c =? 0 then mret None
  else
    c ← keep_delta c dl FINESSE_DELTA baseid;
    (on_dw (free_if (loadFromDisk base) (chunkPtr base)) ;; on_dw (Chunk_Insert c)) ;;
    mret (Some c).

Definition unique_chunk (c : Chunk_t) (hash : bytes) : M Finesse (option Chunk_t) :=
  id ← gets (fun s => stats s uniquechunkNum);
  let c := set_id id NO_DELTA c in
  FP_Insert hash (chunkID c) ;;
  r ← find_base c;
  o ← (if r.2 =? -1 then c ← base_chunk c r.1; mret (Some c) else delta_chunk c r.2);
  match o with
  | None => mret None
  | Some c =>
      add_stat uniquechunkNum 1 ;;
      add_stat uniquechunkSize (saveSize c) ;;
      mret (Some c)
  end.

Definition process_one (c : Chunk_t) : M Finesse bool :=
  hash ← GenerateHash (chunkPtr c) (chunkSize c);
  findRes ← FP_Find hash;
  o ← (if findRes =? -1 then unique_chunk c hash
       else
         c ← dup_chunk c findRes;
         add_stat DedupReduct (chunkSize c) ;;
         mret (Some c));
  match o with
  | None => mret false
  | Some c => record_chunk c ;; mret true
  end.

Definition ProcessTrace (queue : list Chunk_t) : M Finesse unit :=
  go ← process_queue process_one queue;
  if (go : bool) then
    modify (fun s => set_stat SFnum (stats s basechunkNum * 3)%u64
                       (set_version (s32 (ads_Version s + 1)) s))
  else mret tt.
End Finesse.

(** ** The features are the maxima of a polynomial hash *)

(** The hash of a window, computed from scratch. *)
Definition window_hash (b : bytes) (j : Z) : Z := poly A (sub j WINDOW_SIZE b) mod MOD.

(** The largest hash of the [n] windows that start from [j]. *)
Fixpoint max_hash (n : nat) (b : bytes) (j m : Z) : Z :=
  match n with
  | O => m
  | S n' => max_hash n' b (j + 1) (Z.max m (window_hash b j))
  end.

Definition reference_feature (b : bytes) (i : Z) : Z :=
  let lo := len b * i / 12 in
  let hi := len b * (i + 1) / 12 in
  max_hash (Z.to_nat (hi - WINDOW_SIZE + 1 - lo)) b lo 0.

Lemma Apower_ok : Apower = A ^ 47 mod MOD.
Proof. by vm_compute. Qed.

Lemma byte_at_ok (b : bytes) j :
  is_bytes b -> 0 <= j < len b -> exists c, byte_at b j = Ok c /\ 0 <= c < 256 /\ sub j 1 b = [c].
Proof.
  intros Hb [Hj1 Hj2]. rewrite len_length in Hj2. unfold byte_at. rewrite (proj2 (Z.ltb_ge j 0)) by lia.
  destruct (lookup_lt_is_Some_2 b (Z.to_nat j)) as [c Hc]; [lia|]. exists c. rewrite Hc.
  split; [done|]. split.
  - apply Is_true_true in Hb. unfold is_bytes in Hb. rewrite forallb_forall in Hb.
    specialize (Hb c). unfold is_byte in Hb. rewrite andb_true_iff in Hb.
    apply list_elem_of_lookup_2, list_elem_of_In in Hc. specialize (Hb Hc). lia.
  - unfold sub, ztake, zdrop. by rewrite (drop_S _ _ _ Hc).
Qed.

Lemma hash_step v c : (v mod MOD * A + c) mod MOD = (v * A + c) mod MOD.
Proof.
  rewrite <- (Zplus_mod_idemp_l (v mod MOD * A)), Zmult_mod_idemp_l. apply Zplus_mod_idemp_l.
Qed.

(** The first window is hashed from scratch. *)
Lemma first_window_ok (n : nat) : forall (b : bytes) j v,
  is_bytes b -> 0 <= j -> j + Z.of_nat n <= len b -> 0 <= v ->
  first_window n b j (v mod MOD) =
    Ok (foldl (fun v c => v * A + c) v (sub j (Z.of_nat n) b) mod MOD).
Proof.
  induction n as [|n IH]; intros b j v Hb Hj Hn Hv.
  { cbn. unfold sub. by rewrite ztake_nonpos. }
  cbn [first_window]. destruct (byte_at_ok b j Hb) as (c & -> & Hc & Hs); [lia|].
  cbn [mbind result_bind].
  rewrite Z.rem_mod_nonneg by (pose proof (Z.mod_pos_bound v MOD ltac:(done)); unfold A, MOD in *; lia).
  rewrite hash_step.
  rewrite IH; [|done|lia|lia|unfold A; lia]. replace (Z.of_nat (S n)) with (1 + Z.of_nat n) by lia.
  rewrite sub_split by lia. by rewrite Hs.
Qed.

(** Removing the byte that leaves the window. *)
Lemma remove_byte_ok x c :
  0 <= x < MOD -> 0 <= c < 256 ->
  exists fp, make_nonneg 1 (x - (c * Apower)%u64 mod MOD) = Ok fp /\ 0 <= fp < MOD /\
    fp mod MOD = (x - c * A ^ 47) mod MOD.
Proof.
  intros Hx Hc. pose proof (Z.mod_pos_bound (c * Apower) MOD ltac:(done)) as Hr.
  assert (0 <= Apower < MOD) as Ha by by vm_compute.
  rewrite w64_small by (unfold MOD in *; nia).
  assert ((c * Apower) mod MOD = (c * A ^ 47) mod MOD) as He by (rewrite Apower_ok; apply Zmult_mod_idemp_r).
  rewrite <- Zminus_mod_idemp_r, <- He. clear He. set (r := (c * Apower) mod MOD) in *.
  exists (if x <? r then x - r + MOD else x - r). cbn [make_nonneg].
  destruct (Z.ltb_spec x r).
  - rewrite (proj2 (Z.ltb_lt _ 0)) by lia. rewrite (proj2 (Z.ltb_ge _ 0)) by lia. split; [done|]. split; [lia|].
    rewrite <- (Z_mod_plus_full (x - r) 1 MOD). f_equal; lia.
  - rewrite (proj2 (Z.ltb_ge _ 0)) by lia. split; [done|]. split; [lia|done].
Qed.

Lemma add_ok (b : bytes) j c c' fp :
  0 <= j -> 0 <= c' < 256 -> sub j 1 b = [c] -> sub (j + WINDOW_SIZE) 1 b = [c'] ->
  0 <= fp < MOD -> fp mod MOD = (window_hash b j - c * A ^ 47) mod MOD ->
  Z.rem (fp * A + c') MOD = window_hash b (j + 1).
Proof.
  intros Hj Hc' Hs Hs' Hfp Heq. unfold window_hash at 1.
  rewrite (poly_slide A WINDOW_SIZE b j c c') by done.
  rewrite Z.rem_mod_nonneg by (unfold A, MOD in *; lia).
  rewrite <- hash_step, Heq, <- (hash_step (_ - _)). unfold window_hash.
  by rewrite Zminus_mod_idemp_l.
Qed.

Lemma window_hash_bound b j : 0 <= window_hash b j < MOD.
Proof. by apply Z.mod_pos_bound. Qed.

(** The rolling loop keeps the hash of the current window. *)
Lemma roll_ok (n : nat) : forall (b : bytes) last j m,
  is_bytes b -> 0 <= j -> j + Z.of_nat n = last + 1 -> last + WINDOW_SIZE <= len b ->
  roll n b last j (window_hash b j) m = Ok (max_hash n b j m).
Proof.
  induction n as [|n IH]; intros b last j m Hb Hj Hn Hl; [done|]. unfold WINDOW_SIZE in Hl.
  pose proof (window_hash_bound b j) as Hw. cbn [roll max_hash].
  destruct (byte_at_ok b j Hb) as (c & -> & Hc & Hs); [lia|]. cbn [mbind result_bind].
  assert ((if m <? window_hash b j then w32 (window_hash b j) else m) = Z.max m (window_hash b j)) as ->.
  { unfold MOD in *. destruct (Z.ltb_spec m (window_hash b j)); rewrite ?w32_small by lia; lia. }
  destruct (remove_byte_ok (window_hash b j) c Hw Hc) as (fp & -> & Hfp & Heq). cbn [mbind result_bind].
  destruct (Z.eqb_spec j last) as [->|Hne].
  { assert (n = 0%nat) as -> by lia. done. }
  destruct (byte_at_ok b (j + WINDOW_SIZE) Hb) as (c' & -> & Hc' & Hs'); [unfold WINDOW_SIZE; lia|].
  cbn [mbind result_bind]. rewrite (add_ok b j c c') by done. apply IH; try done; lia.
Qed.

Lemma first_window_hash (b : bytes) j :
  is_bytes b -> 0 <= j -> j + WINDOW_SIZE <= len b ->
  first_window (Z.to_nat WINDOW_SIZE) b j 0 = Ok (window_hash b j).
Proof.
  intros Hb Hj Hl. unfold WINDOW_SIZE in Hl. exact (first_window_ok 48 b j 0 Hb Hj Hl (Z.le_refl 0)).
Qed.

Lemma subchunk_ok n i : 0 <= n < 2 ^ 27 -> 0 <= i <= 12 -> subchunkIndex n i = n * i / 12.
Proof.
  intros Hn Hi. unfold subchunkIndex, FEATURE_NUM. rewrite s32_small by nia. apply Z.quot_div_nonneg; lia.
Qed.

Lemma feature_ok (b : bytes) i :
  is_bytes b -> 576 <= len b < 2 ^ 27 -> 0 <= i < 12 -> feature b (len b) i = Ok (reference_feature b i).
Proof.
  intros Hb Hn Hi. unfold feature, reference_feature. rewrite !subchunk_ok by lia.
  assert (len b * i / 12 + 48 <= len b * (i + 1) / 12) as Hd.
  { rewrite <- Z.div_add by lia. apply Z.div_le_mono; lia. }
  assert (len b * (i + 1) / 12 <= len b) by (apply Z.div_le_upper_bound; nia).
  assert (0 <= len b * i / 12) by (apply Z.div_pos; nia).
  rewrite first_window_hash; [|done|lia|unfold WINDOW_SIZE; lia]. cbn [mbind result_bind].
  apply roll_ok; unfold WINDOW_SIZE in *; try done; lia.
Qed.

Lemma features_ok (n : nat) : forall (b : bytes) i,
  is_bytes b -> 576 <= len b < 2 ^ 27 -> 0 <= i -> i + Z.of_nat n <= 12 ->
  features n b (len b) i = Ok ((fun k => reference_feature b (i + Z.of_nat k)) <$> seq 0 n).
Proof.
  induction n as [|n IH]; intros b i Hb Hn Hi Hin; [done|]. cbn [features].
  rewrite feature_ok by (done || lia). cbn [mbind result_bind]. rewrite IH by (done || lia).
  cbn [mbind result_bind]. f_equal. cbn [seq fmap list_fmap]. f_equal; [f_equal; lia|].
  rewrite <- (fmap_S_seq 0 n), <- list_fmap_compose. apply list_fmap_ext. intros k x _. cbn. f_equal. lia.
Qed.

(** ** The contract of [ProcessTrace] *)

Section Contract.
Context `{HL : Lz4} `{HX : Xdelta} `{HD : Digest} `{HK : Kinds} `{!Lz4Laws} `{!XdeltaLaws}.
Context (U : bytes -> Prop).
Implicit Types s : Finesse.

Definition finesse_inv s : Prop := index_ok (dataWrite_ s) (SFindex s).

Lemma sf_find_ok d tables key i :
  index_ok d tables -> exists id, sf_find tables i key = Ok id /\ (id = -1 \/ base_id d id).
Proof using Type.
  revert i. induction tables as [|t tables IH]; intros i Hok; [by exists (-1); auto|].
  inversion Hok as [|? ? Ht Hok']; subst. cbn [sf_find].
  destruct (t !! sf_key key i) as [ids|] eqn:Hk; [|by apply IH].
  destruct (table_hit _ _ _ _ Ht Hk) as (id & -> & Hid). exists id. auto.
Qed.

Lemma sf_insert_ok d tables key id :
  index_ok d tables -> base_id d id -> index_ok d (sf_insert key id tables).
Proof using Type.
  intros Hok Hid. apply Forall_lookup. intros i t Ht. unfold sf_insert in Ht.
  rewrite list_lookup_imap in Ht. destruct (tables !! i) as [t0|] eqn:Ht0; [|done].
  injection Ht as <-. unfold index_ok in Hok. rewrite Forall_lookup in Hok. by apply table_push; [eapply Hok|].
Qed.

Lemma find_base_ok s contents t s0 c l (Q : option bytes * Z -> Finesse -> Prop) :
  pending s0 contents t s -> delivered (dataWrite_ s) c t l -> finesse_inv s ->
  (forall sf id s', (id = -1 \/ base_id (dataWrite_ s) id) -> pending s0 contents t s' ->
     dataWrite_ s' = dataWrite_ s -> SFindex s' = SFindex s -> Q (sf, id) s') ->
  wpe (oversized_in U) (find_base c) Q s.
Proof using Type.
  intros Hp Hd Hinv HQ. pose proof Hd as [D1 D2 D3 D4 D5 D6]. unfold find_base. rewrite D3.
  destruct (Z.ltb_spec 576 (len t)) as [Ht|Ht]; [|by apply wp_ret, HQ; auto].
  destruct (size_int t D4) as [E1 E2]. apply wp_bind. unfold GetSF. rewrite E1.
  apply wp_bind, wp_on_dw. rewrite <- E1, E2.
  eapply load_ok; [by eapply read_delivered|]. replace (set_dw (dataWrite_ s) s) with s by (by destruct s).
  apply wp_bind. eapply wp_lift_ok; [rewrite E1; apply features_ok; try done; unfold CONTAINER_MAX_SIZE in *; lia|].
  apply wp_ret, wp_bind. destruct (sf_find_ok _ _ (super_features
    ((fun k => reference_feature t (0 + Z.of_nat k)) <$> seq 0 (Z.to_nat FEATURE_NUM))) 0 Hinv) as (id & Hf & Hid).
  unfold SF_Find. unfold wpe at 1. rewrite Hf. cbn [lift].
  apply wp_bind, wp_add_stat, wp_ret. apply HQ; try done.
  destruct Hp. by split.
Qed.

Lemma finesse_base_chunk_ok s contents origs t s0 c0 c sf l (Q : Chunk_t -> Finesse -> Prop) :
  meth_ok s0 contents origs -> len contents < 2 ^ 31 - 2 -> delivered (dataWrite_ s0) c0 t l ->
  pending s0 contents t s -> delivered (dataWrite_ s) c t l -> chunkID c = len contents ->
  finesse_inv s ->
  (forall c' s', stored True s0 contents t l c' t s' -> finesse_inv s' -> Q c' s') ->
  wpe (oversized_in U) (base_chunk c sf) Q s.
Proof using Type*.
  intros Hok Hcnt Hd0 [P1 P2 P3] Hd Hid Hinv HQ. pose proof Hd as [D1 D2 D3 D4 D5 D6].
  pose proof (len_nonneg contents).
  unfold base_chunk. apply wp_bind. eapply compress_base_ok; [exact Hd|].
  intros buf n f Hready. cbv zeta. set (c' := set_base (-1) (set_save n f c)).
  assert (ready buf c' t) as Hready' by (destruct Hready as [R1 R2 R3]; by split).
  apply wp_bind. set (s1 := set_lz4buf buf s).
  assert (forall s2, pending s0 contents t s2 -> lz4ChunkBuffer s2 = buf ->
    (SFindex s2 = SFindex s \/ exists key, SFindex s2 = sf_insert key (len contents) (SFindex s)) ->
    wpe (oversized_in U) (add_stat basechunkNum 1 ;; add_stat basechunkSize (saveSize c') ;; insert_base c' ;;
        add_stat LocalReduct (chunkSize c' - saveSize c') ;; mret c') Q s2) as Hrest.
  { intros s2 [B1 B2 B3] Hbuf Hsf. apply wp_bind, wp_add_stat, wp_bind, wp_add_stat, wp_bind.
    eapply (store_base_ok True s0 _ contents origs c0 c' t l);
    [exact Hok|exact Hcnt|exact Hd0| |cbn; by rewrite Hbuf|exact D1|exact Hid|exact D6|].
    { eapply pending_between; [exact Hok|by split]. }
    intros s' Hst Hbf _ Esf _ _. apply wp_bind, wp_add_stat, wp_ret.
    assert (stored True s0 contents t l c' t (set_stat LocalReduct
      (stats s' LocalReduct + (chunkSize c' - saveSize c'))%u64 s')) as Hst' by (destruct Hst; by split).
    apply HQ; [done|]. unfold finesse_inv. cbn [dataWrite_ SFindex set_stat]. rewrite Esf. cbn [SFindex set_stat].
    assert (index_ok (dataWrite_ s') (SFindex s)) as Hmono.
    { eapply index_ok_mono; [|exact Hinv]. intros id Hi. eapply stored_base_id; [exact Hst|]. by rewrite <- P1. }
    destruct Hsf as [-> | [key ->]]; [done|]. apply sf_insert_ok; [done|]. by eapply stored_new_id. }
  destruct sf as [sf|].
  - apply wp_bind. unfold SF_Insert. apply wp_bind, wp_modify, wp_ret, wp_ret. apply Hrest; [by split|done|].
    right. exists sf. cbn. by rewrite Hid, s32_small by lia.
  - apply wp_ret. apply Hrest; [by split|done|by left].
Qed.

Lemma finesse_delta_chunk_ok s contents origs t s0 c0 c b l (Q : option Chunk_t -> Finesse -> Prop) :
  meth_ok s0 contents origs -> len contents < 2 ^ 31 - 2 -> delivered (dataWrite_ s0) c0 t l ->
  pending s0 contents t s -> delivered (dataWrite_ s) c t l -> chunkID c = len contents ->
  finesse_inv s -> base_id (dataWrite_ s) b -> encodes_in U t -> Forall (encodes_in U) origs ->
  (forall c' x s', stored True s0 contents t l c' x s' -> finesse_inv s' -> Q (Some c') s') ->
  wpe (oversized_in U) (delta_chunk c b) Q s.
Proof using Type*.
  intros Hok Hcnt Hd0 [P1 P2 P3] Hd Hid Hinv Hb Hfit Hfito HQ. pose proof Hd as [D1 D2 D3 D4 D5 D6].
  unfold delta_chunk. apply wp_bind.
  eapply (encode_against_ok s0 s); try done; [intros y _ Hy; by eapply encodes_against|].
  intros base dl x d2 h1 Hen Hfrom. pose proof Hfrom as (_ & _ & _ & _ & Hx).
  set (c1 := set_save (len x) (deltaFlag c) c).
  apply wp_bind. eapply (wp_mono _ _ (fun _ sk => dataWrite_ sk = d2 /\ FPindex sk = FPindex s /\
    SFindex sk = SFindex s /\ same_totals s sk)).
  { destruct (chunkSize c1 <? saveSize c1); [by apply wp_add_stat|by apply wp_ret]. }
  intros [] sk (<- & F1 & F2 & F3). replace (saveSize c1 =? 0) with false by (symmetry; apply Z.eqb_neq; cbn; lia).
  apply wp_bind. eapply (keep_delta_ok s _ contents t b base dl x h1 c1 l); try done; [lia|intros Hbig; by eapply delta_oversized|].
  intros s1 Hle K1 K2 K3 K4 K5 _ K7. apply wp_bind.
  assert (encoded s0 contents t b base dl x (dataWrite_ sk) h1) as Hen0 by (destruct Hen; rewrite P1 in *; by split).
  eapply (store_delta_stored s0 contents origs t b base dl x (dataWrite_ sk) h1 c _ l s1); try done.
  - by rewrite <- P1.
  - apply Hb.
  - split; try done; [by rewrite <- P1|by rewrite K4, F1|unfold same_totals in *; rewrite !K7 by done; by rewrite (proj1 F3), (proj2 F3)].
  - intros s' Hst Esf _ _. apply wp_ret. eapply HQ; [exact Hst|]. unfold finesse_inv. rewrite Esf, K5, F2.
    eapply index_ok_mono; [|exact Hinv]. intros id Hi. eapply stored_base_id; [exact Hst|]. by rewrite <- P1.
Qed.

Lemma finesse_unique_chunk_ok s contents origs c t l (Q : option Chunk_t -> Finesse -> Prop) :
  meth_ok s contents origs -> len contents < 2 ^ 31 - 2 -> delivered (dataWrite_ s) c t l ->
  finesse_inv s -> encodes_in U t -> Forall (encodes_in U) origs ->
  (forall c' x s', stored True s contents t l c' x s' -> finesse_inv s' ->
     Q (Some c') (set_stat uniquechunkSize (stats s' uniquechunkSize + saveSize c')%u64
                    (set_stat uniquechunkNum (stats s' uniquechunkNum + 1)%u64 s'))) ->
  wpe (oversized_in U) (unique_chunk c (EVP_sha256 t)) Q s.
Proof using Type*.
  intros Hok Hcnt Hd Hinv Hfit Hfito HQ. pose proof (len_nonneg contents).
  unfold unique_chunk. apply wp_bind, wp_gets. rewrite (mo_num _ _ _ Hok). cbv zeta.
  set (c1 := set_id (len contents) NO_DELTA c).
  assert (forall d, mem d = mem (dataWrite_ s) -> delivered d c1 t l) as Hd1.
  { intros d Hm. by eapply delivered_same. }
  apply wp_bind. unfold FP_Insert. apply wp_bind, wp_modify, wp_ret. set (s1 := set_fp _ s).
  assert (pending s contents t s1) as Hp1.
  { split; try done. cbn. by rewrite s32_small by lia. }
  apply wp_bind. eapply (find_base_ok s1 contents t s); [done|by apply Hd1|done|].
  intros sf b s2 Hb Hp2 E1 E2. cbn [fst snd].
  assert (finesse_inv s2) as Hinv2 by (unfold finesse_inv; by rewrite E1, E2).
  assert (delivered (dataWrite_ s2) c1 t l) as Hd2 by (apply Hd1; by rewrite E1).
  apply wp_bind. destruct (Z.eqb_spec b (-1)) as [->|Hne].
  - apply wp_bind. eapply (finesse_base_chunk_ok s2); try done. intros c' s' Hst Hi.
    apply wp_ret, wp_bind, wp_add_stat, wp_bind, wp_add_stat, wp_ret. exact (HQ _ _ _ Hst Hi).
  - destruct Hb as [?|Hb]; [done|].
    eapply (finesse_delta_chunk_ok s2 contents origs t s c); try done. by rewrite E1.
Qed.

#[export] Instance finesse_step : MethodStep process_one (encodes_in U) (oversized_in U) finesse_inv True.
Proof using Type*.
  intros s contents origs c t l Hok Hinv Hcnt Hd Hfit Hfito Hnc. pose proof Hd as [_ _ _ _ _ D6].
  unfold process_one. apply wp_bind. eapply GenerateHash_ok; [exact Hd|].
  apply wp_bind. unfold FP_Find. apply wp_gets.
  destruct (FPindex s !! EVP_sha256 t) as [id|] eqn:Hfp.
  - destruct (known_id _ _ _ _ _ Hok Hnc Hfp) as [Hid Ho].
    rewrite (proj2 (Z.eqb_neq id (-1))) by lia.
    apply wp_bind, wp_bind. eapply dup_chunk_ok; [done..|].
    intros c' d' Hc1 Hc2 Hc3 _ -> Hok'. apply wp_bind, wp_add_stat, wp_ret.
    apply wp_bind, record_chunk_ok. intros s' E1 E2 E3 _ E5%stat_kept_num E6. apply wp_ret.
    split; [done|]. split; [unfold finesse_inv; by rewrite E1, E3|].
    eapply known_step; try done; [by rewrite E1, Hc1, Hc2|by rewrite E6, Hc3].
  - assert (t ∉ origs) as Hnew by (intros [? Hk]%(mo_known _ _ _ Hok); by rewrite Hfp in Hk).
    rewrite Z.eqb_refl. apply wp_bind. eapply finesse_unique_chunk_ok; try done.
    intros c' x s1 Hst Hi. apply wp_bind, record_chunk_ok.
    intros s2 E1 E2 E3 _ E5%stat_kept_num E6. apply wp_ret. split; [done|].
    split; [unfold finesse_inv; rewrite E1, E3; cbn; done|].
    destruct (finish_unique True s s1 s2 contents origs c c' t l x) as [S1 S2]; try done.
    split; [done|]. by eexists _, _, _.
Qed.
End Contract.

(** ** Properties *)

(** C25: the rolling hash of [GetSF] is the polynomial hash: for a delivered
    chunk of at least 576 bytes, every feature is the maximum, over the windows
    of 48 bytes inside its sub-chunk, of the polynomial hash of the window in
    base 37 modulo 1000000007, and no read leaves the chunk. *)
Theorem finesse_features_are_window_maxima `{HL : Lz4} `{HX : Xdelta} `{HD : Digest}
    (s : Finesse) (c : Chunk_t) (t : bytes) (l : nat)
    (Hd : delivered (dataWrite_ s) c t l) (Hsize : 576 <= len t) :
  wp (GetSF (chunkPtr c) (chunkSize c)) (fun sf s' => s' = s /\
    sf = super_features ((fun i => reference_feature t (Z.of_nat i)) <$> seq 0 12)) s.
Proof.
  pose proof Hd as [D1 D2 D3 D4 D5 D6]. destruct (size_int t D4) as [E1 E2]. rewrite E1 in E2.
  unfold GetSF. rewrite D3. apply wp_bind, wp_on_dw. rewrite E2.
  eapply load_ok; [by eapply read_delivered|]. replace (set_dw (dataWrite_ s) s) with s by (by destruct s).
  apply wp_bind. eapply wp_lift_ok; [apply features_ok; try done; unfold CONTAINER_MAX_SIZE in *; lia|].
  by apply wp_ret.
Qed.

Lemma finesse_features_are_window_maxima_witness :
  let t := replicate 576 9 in
  wp (@GetSF StoreCodec.digest (PHeap 0) 576) (fun sf s' =>
    s' = new_Abs (new_dataWrite (two_blocks t t) open_fs) tt /\
    sf = @super_features StoreCodec.digest ((fun i => reference_feature t (Z.of_nat i)) <$> seq 0 12))
    (new_Abs (new_dataWrite (two_blocks t t) open_fs) tt).
Proof.
  intros t. refine (@finesse_features_are_window_maxima StoreCodec.lz4 StoreCodec.xdelta StoreCodec.digest
    _ (queue_chunk 0 t) t 0 _ _).
  - split; try reflexivity; by vm_compute.
  - by vm_compute.
Defined.

(** C33: a delta larger than its chunk is copied over the chunk's block without
    a check: when [b], the base proposed for a chunk [t], is a stored base chunk
    of content [y], and xdelta encodes [t] against [y] in more bytes
    than [t] has, [Finesse] counts a [bug], prints it, and then [memcpy]s past
    the end of the block. *)
Theorem finesse_oversized_delta_overflows `{HL : Lz4} `{HX : Xdelta} `{HD : Digest}
    `{!Lz4Laws} `{!XdeltaLaws} (s : Finesse) (contents origs : list bytes) (c : Chunk_t)
    (t : bytes) (l : nat) (b : Z) (y x : bytes)
    (Hok : meth_ok s contents origs) (Hd : delivered (dataWrite_ s) c t l)
    (Hb : base_id (dataWrite_ s) b) (Hy : contents !! Z.to_nat b = Some y)
    (Hx : xd3_encode_memory t y (CONTAINER_MAX_SIZE * 2) = (0, Some x)) (Hbig : len t < len x) :
  delta_chunk c b s = Err OobWrite.
Proof.
  assert (wpe (fun e => e = OobWrite) (delta_chunk c b) (fun _ _ => False) s) as Hw.
  2: { unfold wpe in Hw. destruct (delta_chunk c b s) as [[]|e]; [done|by subst e]. }
  pose proof (dl_ptr _ _ _ _ Hd) as D1. pose proof (dl_block _ _ _ _ Hd) as D2.
  unfold delta_chunk. apply wp_bind. eapply (encode_against_ok s s); try done.
  { intros y' Hy' _. simplify_eq. by rewrite Hx. }
  intros base dl x' d2 h1 Hen (y' & Hy' & _ & Hx' & Hpos).
  assert (y' = y) as -> by congruence. assert (x' = x) as -> by congruence.
  apply wp_bind. eapply (wp_mono _ _ (fun _ sk => dataWrite_ sk = d2)).
  { case_match; [by apply wp_add_stat|by apply wp_ret]. }
  intros [] sk <-. cbn [saveSize set_save]. rewrite (proj2 (Z.eqb_neq (len x) 0)) by lia.
  apply wp_bind. eapply (keep_delta_ok s sk contents t b base dl x h1 _ l); try done; [lia|lia].
Qed.

Lemma finesse_oversized_delta_overflows_witness :
  @delta_chunk StoreCodec.lz4 StoreCodec.tagged (queue_chunk 1 [4; 5]) 0
    (@seeded _ StoreCodec.lz4 StoreCodec.digest tt [1; 2; 3] [4; 5]) = Err OobWrite.
Proof.
  destruct (@seeded_ok _ StoreCodec.lz4 StoreCodec.tagged StoreCodec.digest StoreCodec.lz4_laws
    StoreCodec.tagged_laws tt [1; 2; 3] [4; 5]) as (contents & origs & Hok & Hd);
    [done|done|by vm_compute|by vm_compute|].
  assert (base_id (dataWrite_ (@seeded _ StoreCodec.lz4 StoreCodec.digest tt [1; 2; 3] [4; 5])) 0) as Hb.
  { split; [done|]. eexists. split; [vm_compute; reflexivity|by left]. }
  pose proof Hb as [Hb0 (cb & Hcb & Hbf)]. destruct (base_content _ _ _ _ _ Hok Hb0 Hcb Hbf) as (_ & y & Hy & _).
  refine (@finesse_oversized_delta_overflows StoreCodec.lz4 StoreCodec.tagged StoreCodec.digest
    StoreCodec.lz4_laws StoreCodec.tagged_laws _ contents origs _ [4; 5] 1 0 y [0; 4; 5] Hok Hd Hb Hy _ _).
  - reflexivity.
  - by vm_compute.
Defined.
