(* ===== verification/NTrans.v ===== *)
(** * The N-transform method

    [src/method/NTrans.cc] and the feature generator of
    [src/method/Ntrans_similarity.cc] ([include/NTransFormSF.h]): the windows of
    the chunk's longest piece are hashed with a rolling polynomial, twelve
    linear transforms pick one window each, and the picks are hashed in groups
    of four into three super-features.  The transform coefficients are drawn
    from [std::default_random_engine], whose sequence the language leaves to
    the library: they are data of the state. *)

From S2P Require Import Prelude Define XXHash PolyHash Chunker Chunking LruCache ReadCache Codec DataWrite Store Restore AbsMethod MethodSpec DeltaSpec Dedup.

(** ** The feature generator *)

Definition slidingWinSize_ : Z := 64.
Definition polyBase_ : Z := 257.
Definition FEATURE_NUMBER : nat := 12.
Definition FEATURE_NUMBER_PER_SF : nat := 4.
Definition SF_NUMBER : nat := 3.

(** [powerLUT_[i]]; [polyMOD_] is [UINT64_MAX], so [& polyMOD_] keeps 64 bits. *)
Definition powerLUT_ (i : nat) : Z := Nat.iter i (fun p => (p * polyBase_)%u64) 1.

(** [removeLUT_[v]]: what takes byte [v] out of the window, once it moved. *)
Definition removeLUT_ (v : Z) : Z :=
  let r := (v * powerLUT_ 63)%u64 in
  if r =? 0 then r else w64 (UINT64_MAX - r + 1).

Record FeatureGen := mkFeatureGen {
  mSet : list Z;
  aSet : list Z;
  feature : list Z;
  superfeature : list Z;
  sfTable : list (gmap Z (list Z))
}.

(** The constructor, on the numbers drawn. *)
Definition new_FeatureGen (m a : list Z) : FeatureGen :=
  mkFeatureGen m a (replicate FEATURE_NUMBER 0) (replicate SF_NUMBER 0) (replicate SF_NUMBER ∅).

(** Filling the window: the first 64 bytes, then [None]; the fingerprints the
    sliding pushes.  [win] is the window, oldest byte first. *)
Fixpoint slide (win rest : bytes) (winFp : Z) : list Z :=
  match win, rest with
  | v :: win', c :: rest' =>
      winFp :: slide (win' ++ [c]) rest' (w64 (w64 (winFp + removeLUT_ v) * polyBase_ + c))
  | _, _ => []
  end.

Fixpoint fill (p : bytes) (i : nat) (winFp : Z) : Z :=
  match p with
  | [] => winFp
  | c :: p' => fill p' (S i) (w64 (winFp + c * powerLUT_ (63 - i)))
  end.

(** [fpList]: one fingerprint per byte after the first 64, pushed before that
    byte enters the window. *)
Definition fpList (chunk : bytes) : list Z :=
  slide (ztake slidingWinSize_ chunk) (zdrop slidingWinSize_ chunk) (fill (ztake slidingWinSize_ chunk) 0 0).

(** The loop over [fpList]: the first fingerprint with the largest transform
    above 0. *)
Fixpoint pick (m a : Z) (fps : list Z) (maxPi targetFp : Z) : Z :=
  match fps with
  | [] => targetFp
  | fp :: fps' =>
      let Pi := w32 (w64 (m * fp + a)) in
      if maxPi <? Pi then pick m a fps' Pi fp else pick m a fps' maxPi targetFp
  end.

(** The 32-byte block of super-feature [i]: feature [3 j + i] of each group. *)
Definition sf_block (features : list Z) (i : nat) : bytes :=
  flat_map (fun j => le_put 8 (nth (j * SF_NUMBER + i) features 0)) (seq 0 FEATURE_NUMBER_PER_SF).

(** [getFeatureList]: [featureList] keeps 64-bit fingerprints, the [feature]
    array and the super-features their low 32 bits. *)
Definition getFeatureList (g : FeatureGen) (chunk : bytes) : list Z * list Z * FeatureGen :=
  let fps := fpList chunk in
  let featureList := zip_with (fun m a => pick m a fps 0 0) (mSet g) (aSet g) in
  let features := w32 <$> featureList in
  let sf := (fun i => XXH64 (sf_block features i) 0) <$> seq 0 SF_NUMBER in
  (featureList, sf, mkFeatureGen (mSet g) (aSet g) features (replicate SF_NUMBER 0) (sfTable g)).

Fixpoint querySF_loop (tables : list (gmap Z (list Z))) (sf : list Z) : result Z :=
  match tables, sf with
  | t :: tables', k :: sf' =>
      match t !! k with
      | Some ids => from_option_or EmptyAccess (last ids)
      | None => querySF_loop tables' sf'
      end
  | _, _ => Ok (-1)
  end.

Definition querySF (g : FeatureGen) (sf : list Z) : result Z := querySF_loop (sfTable g) sf.

Definition push_ids (tables : list (gmap Z (list Z))) (sf : list Z) (id : Z) : list (gmap Z (list Z)) :=
  zip_with (fun t k => <[k := default [] (t !! k) ++ [s32 id]]> t) tables sf.

Definition insertSFIndex (g : FeatureGen) (sf : list Z) (id : Z) : FeatureGen :=
  mkFeatureGen (mSet g) (aSet g) (feature g) (superfeature g) (push_ids (sfTable g) sf id).

(** [insert], on the [superfeature] member. *)
Definition insert_label (g : FeatureGen) (label : Z) : FeatureGen :=
  insertSFIndex g (superfeature g) label.

(** ** [ProcessTrace] *)

(** The members the class adds. *)
Record NExt := mkNExt { ntrans : FeatureGen; fealist : list Z; PrevDedupChunkid : Z }.

Section NTransForm.
Context `{HL : Lz4} `{HX : Xdelta} `{HD : Digest} `{HK : Kinds}.

Definition NTransForm : Type := Abs NExt.

Definition set_ntrans (g : FeatureGen) (s : NTransForm) : NTransForm :=
  set_ext (mkNExt g (fealist (ext s)) (PrevDedupChunkid (ext s))) s.

(** The super-features of the longest piece. *)
Definition super_features (c : Chunk_t) : M NTransForm (list Z) :=
  b ← on_dw (load (chunkPtr c) (chunkSize c));
  r ← lift (ThirdCutPointHashMin b (chunkSize c) (chunkSize c));
  let '(start, end_) := r in
  s ← gets ext;
  let '(fl, sf, g) := getFeatureList (ntrans s) (sub start (s32 (end_ - start)) b) in
  modify (set_ext (mkNExt g fl (PrevDedupChunkid s))) ;;
  mret sf.

Definition base_chunk (c : Chunk_t) (sf : list Z) : M NTransForm Chunk_t :=
  c ← compress_base c;
  let c := set_base (-1) c in
  modify (fun s => set_ntrans (insertSFIndex (ntrans (ext s)) sf (chunkID c)) s) ;;
  add_stat basechunkNum 1 ;;
  add_stat basechunkSize (saveSize c) ;;
  add_stat LocalReduct (chunkSize c - saveSize c) ;;
  insert_base c ;;
  mret c.

(** [None]: the delta is empty and [ProcessTrace] returns. *)
Definition delta_chunk (c : Chunk_t) (baseid : Z) : M NTransForm (option Chunk_t) :=
  r ← encode_against c baseid;
  let '(base, (dl, n)) := r in
  let c := set_save n (deltaFlag c) c in
  if saveSize c =? 0 then mret None
  else
    c ← keep_delta c dl DELTA baseid;
    (on_dw (free_if (loadFromDisk base) (chunkPtr base)) ;; on_dw (Chunk_Insert c)) ;;
    mret (Some c).

Definition unique_chunk (c : Chunk_t) (hash : bytes) : M NTransForm (option Chunk_t) :=
  id ← gets (fun s => stats s uniquechunkNum);
  let c := set_id id NO_DELTA c in
  FP_Insert hash (chunkID c) ;;
  sf ← super_features c;
  s ← gets ext;
  baseid ← lift (querySF (ntrans s) sf);
  o ← (if baseid =? -1 then c ← base_chunk c sf; mret (Some c) else delta_chunk c baseid);
  match o with
  | None => mret None
  | Some c =>
      add_stat uniquechunkNum 1 ;;
      add_stat uniquechunkSize (saveSize c) ;;
      mret (Some c)
  end.

Definition known_chunk (c : Chunk_t) (findRes : Z) : M NTransForm Chunk_t :=
  c ← dup_chunk c findRes;
  modify (fun s => set_ext (mkNExt (ntrans (ext s)) (fealist (ext s)) findRes) s) ;;
  add_stat DedupReduct (chunkSize c) ;;
  mret c.

Definition process_one (c : Chunk_t) : M NTransForm bool :=
  hash ← GenerateHash (chunkPtr c) (chunkSize c);
  findRes ← FP_Find hash;
  o ← (if findRes =? -1 then unique_chunk c hash
       else c ← known_chunk c findRes; mret (Some c));
  match o with
  | None => mret false
  | Some c => record_chunk c ;; mret true
  end.

Definition ProcessTrace (queue : list Chunk_t) : M NTransForm unit :=
  go ← process_queue process_one queue;
  if (go : bool) then
    modify (fun s => set_stat SFnum (stats s basechunkNum * 3)%u64
                       (set_version (s32 (ads_Version s + 1)) s))
  else mret tt.
End NTransForm.

(** ** The piece the features are taken from *)

(** The first longest of the pieces [cs], which start at [off]. *)
Fixpoint longest (cs : list bytes) (off maxCut maxStart : Z) : Z * Z :=
  match cs with
  | [] => (maxStart, maxStart + maxCut)
  | c :: cs' =>
      if maxCut <? len c then longest cs' (off + len c) (len c) off
      else longest cs' (off + len c) maxCut maxStart
  end.

Definition pieces (src : bytes) : result (list bytes) :=
  whole_chunks (length src) (next_cut FASTCDC (cdc_sizes 4096)) src.

Lemma third_cut_longest fuel : forall src off maxCut maxStart cs,
  0 <= off <= len src -> len src < 2 ^ 63 -> 0 <= maxCut -> 0 <= maxStart -> maxStart + maxCut <= len src ->
  whole_chunks fuel (next_cut FASTCDC (cdc_sizes 4096)) (zdrop off src) = Ok cs ->
  third_cut fuel src (len src) (len src) off maxCut maxStart = Ok (longest cs off maxCut maxStart).
Proof.
  induction fuel as [|fuel IH]; intros src off maxCut maxStart cs Hoff Hsrc Hm1 Hm2 Hm3 Hcs.
  - destruct (zdrop off src) as [|b r] eqn:Hr; [|done]. injection Hcs as <-. cbn [third_cut longest].
    apply (f_equal len) in Hr. rewrite len_zdrop, (@len_nil Z) in Hr.
    rewrite (proj2 (Z.ltb_ge _ _)) by lia. by rewrite w64_small by lia.
  - destruct (decide (zdrop off src = [])) as [Hr|Hr].
    { rewrite Hr in Hcs. injection Hcs as <-. cbn [third_cut longest].
      apply (f_equal len) in Hr. rewrite len_zdrop, (@len_nil Z) in Hr.
      rewrite (proj2 (Z.ltb_ge _ _)) by lia. by rewrite w64_small by lia. }
    rewrite whole_chunks_step in Hcs by done.
    assert (len (zdrop off src) = len src - off) as Hl by (rewrite len_zdrop; lia).
    assert (0 < len src - off) by (rewrite <- Hl; pose proof (len_nonneg (zdrop off src));
      assert (len (zdrop off src) <> 0) by (intros ?%len_0_nil; done); lia).
    destruct (good_total _ _ _ (fastcdc_good 4096 ltac:(lia) ltac:(by vm_compute)) _ Hr)
      as (cp & Hcp & Hrange).
    rewrite Hcp in Hcs. cbn [mbind result_bind] in Hcs.
    rewrite zdrop_zdrop in Hcs by lia.
    destruct (whole_chunks fuel _ _) as [cs'|] eqn:Hcs'; [|done]. injection Hcs as <-.
    cbn [third_cut]. rewrite (proj2 (Z.ltb_lt _ _)) by lia.
    cbn [next_cut] in Hcp. rewrite Hl in Hcp. rewrite w64_small by lia. rewrite Hcp. cbn [mbind result_bind].
    cbn [longest]. assert (len (ztake cp (zdrop off src)) = cp) as -> by (rewrite len_ztake; lia).
    rewrite (w64_small (off + cp)) by lia.
    destruct (Z.ltb_spec maxCut cp); apply IH; try done; lia.
Qed.

(** What [longest] returns, when some piece is longer than [maxCut]. *)
Lemma longest_spec cs : forall off maxCut maxStart,
  0 <= maxCut ->
  (longest cs off maxCut maxStart = (maxStart, maxStart + maxCut) /\ Forall (fun c => len c <= maxCut) cs) \/
  (exists pre p post, cs = pre ++ p :: post /\
     longest cs off maxCut maxStart = (off + len (concat pre), off + len (concat pre) + len p) /\
     maxCut < len p /\ Forall (fun q => len q < len p) pre /\ Forall (fun q => len q <= len p) post).
Proof.
  induction cs as [|c cs IH]; intros off maxCut maxStart Hm; [by left|]. cbn [longest].
  pose proof (len_nonneg c). destruct (Z.ltb_spec maxCut (len c)) as [Hlt|Hge].
  - right. destruct (IH (off + len c) (len c) off ltac:(lia)) as [[-> HF]|(pre & p & post & -> & -> & H1 & H2 & H3)].
    + exists [], c, cs. cbn. rewrite (@len_nil Z). split; [done|]. split; [f_equal; lia|]. by split_and!.
    + exists (c :: pre), p, post. cbn. rewrite len_app. split; [done|]. split; [f_equal; lia|].
      split; [lia|]. split; [|done]. constructor; [lia|done].
  - destruct (IH (off + len c) maxCut maxStart ltac:(lia)) as [[-> HF]|(pre & p & post & -> & -> & H1 & H2 & H3)].
    + left. split; [done|]. by constructor.
    + right. exists (c :: pre), p, post. cbn. rewrite len_app. split; [done|]. split; [f_equal; lia|].
      split; [lia|]. split; [|done]. constructor; [lia|done].
Qed.

Lemma third_cut_ok (src : bytes) :
  src <> [] -> len src < 2 ^ 63 ->
  exists pre p post, pieces src = Ok (pre ++ p :: post) /\ concat (pre ++ p :: post) = src /\
    0 < len p /\ Forall (fun q => len q < len p) pre /\ Forall (fun q => len q <= len p) post /\
    ThirdCutPointHashMin src (len src) (len src) = Ok (len (concat pre), len (concat pre) + len p).
Proof.
  intros Hne Hlen. pose proof (len_nonneg src).
  destruct (whole_chunks_ok FASTCDC (cdc_sizes 4096) _ (fastcdc_good 4096 ltac:(lia) ltac:(by vm_compute))
    (length src) src (le_n _)) as (cs & Hcs & Hcat & Hall & _).
  assert (ThirdCutPointHashMin src (len src) (len src) = Ok (longest cs 0 0 0)) as Hthird.
  { unfold ThirdCutPointHashMin. rewrite len_length, Nat2Z.id, <- len_length.
    apply third_cut_longest; try lia. by rewrite zdrop_nonpos. }
  destruct (longest_spec cs 0 0 0 ltac:(lia)) as [[_ HF]|(pre & p & post & -> & Hl & H1 & H2 & H3)].
  - exfalso. destruct cs as [|c cs]; [by subst|].
    rewrite Forall_cons in HF, Hall. lia.
  - exists pre, p, post. split; [done|]. split; [done|]. split; [done|]. split; [done|]. split; [done|].
    by rewrite Hthird, Hl.
Qed.

(** ** The sliding window computes polynomial hashes *)

Definition window_fp (w : bytes) : Z := w64 (poly polyBase_ w).

Lemma powerLUT_ok i : powerLUT_ i = w64 (polyBase_ ^ Z.of_nat i).
Proof.
  induction i as [|i IH]; [done|]. change (powerLUT_ (S i)) with ((powerLUT_ i * polyBase_)%u64). rewrite IH, w64_mul_l.
  f_equal. rewrite Nat2Z.inj_succ, Z.pow_succ_r by lia. lia.
Qed.

Lemma removeLUT_ok v x : w64 (x + removeLUT_ v) = w64 (x - v * polyBase_ ^ 63).
Proof.
  unfold removeLUT_. rewrite powerLUT_ok, w64_mul_r. change (Z.of_nat 63) with 63.
  set (y := v * polyBase_ ^ 63). destruct (Z.eqb_spec (w64 y) 0) as [Hz|Hnz].
  - rewrite Hz, <- (w64_sub_r x y), Hz. f_equal; lia.
  - unfold UINT64_MAX. rewrite w64_add_r. replace (x + (2 ^ 64 - 1 - w64 y + 1)) with ((x - w64 y) + 1 * 2 ^ 64) by lia.
    unfold w64 at 1. rewrite Z_mod_plus_full. apply w64_sub_r.
Qed.

Lemma slide_ok rest : forall win,
  length win = 64%nat ->
  slide win rest (window_fp win) =
    (fun j => window_fp (sub (Z.of_nat j) 64 (win ++ rest))) <$> seq 0 (length rest).
Proof.
  induction rest as [|c rest IH]; intros win Hw; [by destruct win|].
  destruct win as [|v win]; [done|]. cbn [slide].
  assert (len win = 63) as Hl by (rewrite len_length; cbn in Hw; lia).
  replace (w64 (w64 (window_fp (v :: win) + removeLUT_ v) * polyBase_ + c)) with (window_fp (win ++ [c])).
  - rewrite IH by (rewrite length_app; cbn in *; lia). cbn [length seq fmap list_fmap]. f_equal.
    + unfold sub. rewrite zdrop_nonpos by lia. change 64 with (1 + 63) at 1.
      f_equal. rewrite <- Hl, <- (len_cons v). symmetry. apply (ztake_app_len (v :: win)).
    + rewrite <- (fmap_S_seq 0), <- list_fmap_compose. apply list_fmap_ext. intros i j _. cbn [compose].
      f_equal. unfold sub. f_equal. rewrite Nat2Z.inj_succ, <- app_assoc. cbn [app].
      unfold zdrop. rewrite (Z2Nat.inj_succ (Z.of_nat j)) by lia. done.
  - rewrite removeLUT_ok. unfold window_fp at 2.
    rewrite w64_sub_l, <- (w64_add_l (_ * polyBase_)), w64_mul_l, w64_add_l.
    unfold window_fp. by rewrite (poly_shift polyBase_ v win c), Hl.
Qed.

Lemma fill_ok p : forall i v,
  (i + length p = 64)%nat -> fill p i (w64 v) = w64 (v + poly polyBase_ p).
Proof.
  induction p as [|c p IH]; intros i v Hi; [cbn; f_equal; lia|]. cbn [fill].
  rewrite powerLUT_ok, <- w64_add_r, w64_mul_r, w64_add_r, w64_add_l. rewrite IH by (cbn in Hi; lia).
  f_equal. rewrite poly_cons. cbn [length] in Hi. rewrite len_length.
  replace (63 - i)%nat with (length p) by lia. lia.
Qed.

Lemma fpList_ok (chunk : bytes) :
  fpList chunk =
    (fun j => window_fp (sub (Z.of_nat j) 64 chunk)) <$> seq 0 (length chunk - 64).
Proof.
  unfold fpList, slidingWinSize_. destruct (Z.le_gt_cases 64 (len chunk)) as [Hl|Hl].
  - assert (length (ztake 64 chunk) = 64%nat) as Hw.
    { pose proof (len_ztake 64 chunk). rewrite !len_length in *. lia. }
    replace (fill _ 0 0) with (window_fp (ztake 64 chunk)).
    + rewrite slide_ok, ztake_zdrop by done. do 2 f_equal. unfold zdrop. by rewrite length_drop.
    + symmetry. change (fill (ztake 64 chunk) 0 0) with (fill (ztake 64 chunk) 0 (w64 0)).
      rewrite fill_ok by lia. done.
  - rewrite zdrop_all by lia. rewrite len_length in Hl.
    replace (length chunk - 64)%nat with 0%nat by lia. by destruct (ztake 64 chunk).
Qed.

(** ** The contract of [ProcessTrace] *)

Section Contract.
Context `{HL : Lz4} `{HX : Xdelta} `{HD : Digest} `{HK : Kinds} `{!Lz4Laws} `{!XdeltaLaws}.
Context (U : bytes -> Prop).
Implicit Types s : NTransForm.

Definition ntrans_inv s : Prop := index_ok (dataWrite_ s) (sfTable (ntrans (ext s))).

Lemma querySF_ok d tables sf :
  index_ok d tables -> exists id, querySF_loop tables sf = Ok id /\ (id = -1 \/ base_id d id).
Proof using Type.
  revert sf. induction tables as [|t tables IH]; intros sf Hok; [by exists (-1); auto|].
  destruct sf as [|k sf]; [by exists (-1); auto|]. inversion Hok as [|? ? Ht Hok']; subst. cbn [querySF_loop].
  destruct (t !! k) as [ids|] eqn:Hk; [|by apply IH].
  destruct (table_hit _ _ _ _ Ht Hk) as (id & -> & Hid). exists id. auto.
Qed.

Lemma push_ids_ok d tables sf id :
  index_ok d tables -> base_id d (s32 id) -> index_ok d (push_ids tables sf id).
Proof using Type.
  intros Hok Hid. revert sf. induction Hok as [|t tables Ht Hok IH]; intros [|k sf]; try constructor.
  - by apply table_push.
  - apply IH.
Qed.

Lemma ntrans_super_features_ok s contents t s0 c l (Q : list Z -> NTransForm -> Prop) :
  pending s0 contents t s -> delivered (dataWrite_ s) c t l -> t <> [] ->
  (forall sf s', pending s0 contents t s' -> dataWrite_ s' = dataWrite_ s ->
     sfTable (ntrans (ext s')) = sfTable (ntrans (ext s)) -> Q sf s') ->
  wpe (oversized_in U) (super_features c) Q s.
Proof using Type.
  intros Hp Hd Hne HQ. pose proof Hd as [D1 D2 D3 D4 D5 D6]. unfold super_features. rewrite D3.
  apply wp_bind, wp_on_dw. eapply load_ok; [by eapply read_delivered|].
  replace (set_dw (dataWrite_ s) s) with s by (by destruct s).
  destruct (third_cut_ok t Hne) as (pre & p & post & _ & _ & _ & _ & _ & Ht);
    [unfold CONTAINER_MAX_SIZE in *; lia|].
  apply wp_bind. eapply wp_lift_ok; [exact Ht|]. cbv beta iota. apply wp_bind, wp_gets.
  cbn [getFeatureList]. apply wp_bind, wp_modify, wp_ret. apply HQ; try done.
  destruct Hp. by split.
Qed.

Lemma ntrans_base_chunk_ok s contents origs t s0 c0 c sf l (Q : Chunk_t -> NTransForm -> Prop) :
  meth_ok s0 contents origs -> len contents < 2 ^ 31 - 2 -> delivered (dataWrite_ s0) c0 t l ->
  pending s0 contents t s -> delivered (dataWrite_ s) c t l -> chunkID c = len contents ->
  ntrans_inv s ->
  (forall c' s', stored True s0 contents t l c' t s' -> ntrans_inv s' -> Q c' s') ->
  wpe (oversized_in U) (base_chunk c sf) Q s.
Proof using Type*.
  intros Hok Hcnt Hd0 [P1 P2 P3] Hd Hid Hinv HQ. pose proof Hd as [D1 D2 D3 D4 D5 D6].
  pose proof (len_nonneg contents).
  unfold base_chunk. apply wp_bind. eapply compress_base_ok; [exact Hd|].
  intros buf n f Hready. cbv zeta. set (c' := set_base (-1) (set_save n f c)).
  assert (ready buf c' t) as Hready' by (destruct Hready as [R1 R2 R3]; by split).
  apply wp_bind, wp_modify. do 3 (apply wp_bind, wp_add_stat). apply wp_bind.
  eapply (store_base_ok True s0 _ contents origs c0 c' t l);
    [exact Hok|exact Hcnt|exact Hd0| |exact Hready'|exact D1|exact Hid|exact D6|].
  { eapply pending_between; [exact Hok|by split]. }
  intros s' Hst Hbf _ _ Eext _. apply wp_ret, HQ; [done|]. unfold ntrans_inv. rewrite Eext. cbn.
  apply push_ids_ok; [|rewrite Hid, s32_small by lia; by eapply stored_new_id].
  eapply index_ok_mono; [|exact Hinv]. intros id Hi. eapply stored_base_id; [exact Hst|]. by rewrite <- P1.
Qed.

Lemma ntrans_delta_chunk_ok s contents origs t s0 c0 c b l (Q : option Chunk_t -> NTransForm -> Prop) :
  meth_ok s0 contents origs -> len contents < 2 ^ 31 - 2 -> delivered (dataWrite_ s0) c0 t l ->
  pending s0 contents t s -> delivered (dataWrite_ s) c t l -> chunkID c = len contents ->
  ntrans_inv s -> base_id (dataWrite_ s) b -> encodes_in U t -> Forall (encodes_in U) origs ->
  (forall c' x s', stored True s0 contents t l c' x s' -> ntrans_inv s' -> Q (Some c') s') ->
  wpe (oversized_in U) (delta_chunk c b) Q s.
Proof using Type*.
  intros Hok Hcnt Hd0 [P1 P2 P3] Hd Hid Hinv Hb Hfit Hfito HQ. pose proof Hd as [D1 D2 D3 D4 D5 D6].
  unfold delta_chunk. apply wp_bind.
  eapply (encode_against_ok s0 s); try done; [intros y _ Hy; by eapply encodes_against|].
  intros base dl x d2 h1 Hen Hfrom. pose proof Hfrom as (_ & _ & _ & _ & Hx).
  set (c1 := set_save (len x) (deltaFlag c) c).
  replace (saveSize c1 =? 0) with false by (symmetry; apply Z.eqb_neq; cbn; lia).
  apply wp_bind. eapply (keep_delta_ok s _ contents t b base dl x h1 c1 l); try done; [lia|intros Hbig; by eapply delta_oversized|].
  intros s1 Hle K1 K2 K3 K4 _ K6 K7. apply wp_bind.
  assert (encoded s0 contents t b base dl x d2 h1) as Hen0 by (destruct Hen; rewrite P1 in *; by split).
  eapply (store_delta_stored s0 contents origs t b base dl x d2 h1 c _ l s1); try done.
  - by rewrite <- P1.
  - apply Hb.
  - split; try done; [by rewrite <- P1|by rewrite K4|unfold same_totals; rewrite !K7 by done; exact P3].
  - intros s' Hst _ Eext _. apply wp_ret. eapply HQ; [exact Hst|]. unfold ntrans_inv. rewrite Eext, K6. cbn.
    eapply index_ok_mono; [|exact Hinv]. intros id Hi. eapply stored_base_id; [exact Hst|]. by rewrite <- P1.
Qed.

Lemma ntrans_unique_chunk_ok s contents origs c t l (Q : option Chunk_t -> NTransForm -> Prop) :
  meth_ok s contents origs -> len contents < 2 ^ 31 - 2 -> delivered (dataWrite_ s) c t l ->
  ntrans_inv s -> encodes_in U t -> Forall (encodes_in U) origs ->
  (forall c' x s', stored True s contents t l c' x s' -> ntrans_inv s' ->
     Q (Some c') (set_stat uniquechunkSize (stats s' uniquechunkSize + saveSize c')%u64
                    (set_stat uniquechunkNum (stats s' uniquechunkNum + 1)%u64 s'))) ->
  wpe (oversized_in U) (unique_chunk c (EVP_sha256 t)) Q s.
Proof using Type*.
  intros Hok Hcnt Hd Hinv Hfit Hfito HQ. pose proof (len_nonneg contents).
  pose proof Hfit as [Hne _].
  unfold unique_chunk. apply wp_bind, wp_gets. rewrite (mo_num _ _ _ Hok). cbv zeta.
  set (c1 := set_id (len contents) NO_DELTA c).
  assert (forall d, mem d = mem (dataWrite_ s) -> delivered d c1 t l) as Hd1.
  { intros d Hm. by eapply delivered_same. }
  apply wp_bind. unfold FP_Insert. apply wp_bind, wp_modify, wp_ret. set (s1 := set_fp _ s).
  assert (pending s contents t s1) as Hp1.
  { split; try done. cbn. by rewrite s32_small by lia. }
  apply wp_bind. eapply (ntrans_super_features_ok s1 contents t s); [done|by apply Hd1|done|].
  intros sf s2 Hp2 E1 E2. apply wp_bind, wp_gets.
  assert (ntrans_inv s2) as Hinv2 by (unfold ntrans_inv; by rewrite E1, E2).
  assert (delivered (dataWrite_ s2) c1 t l) as Hd2 by (apply Hd1; by rewrite E1).
  destruct (querySF_ok _ _ sf Hinv2) as (b & Hq & Hb).
  apply wp_bind. eapply wp_lift_ok; [exact Hq|].
  apply wp_bind. destruct (Z.eqb_spec b (-1)) as [->|Hneq].
  - apply wp_bind. eapply (ntrans_base_chunk_ok s2); try done. intros c' s' Hst Hi.
    apply wp_ret, wp_bind, wp_add_stat, wp_bind, wp_add_stat, wp_ret. exact (HQ _ _ _ Hst Hi).
  - destruct Hb as [?|Hb]; [done|].
    by eapply (ntrans_delta_chunk_ok s2 contents origs t s c).
Qed.

#[export] Instance ntrans_step : MethodStep process_one (encodes_in U) (oversized_in U) ntrans_inv True.
Proof using Type*.
  intros s contents origs c t l Hok Hinv Hcnt Hd Hfit Hfito Hnc.
  unfold process_one. apply wp_bind. eapply GenerateHash_ok; [exact Hd|].
  apply wp_bind. unfold FP_Find. apply wp_gets.
  destruct (FPindex s !! EVP_sha256 t) as [id|] eqn:Hfp.
  - destruct (known_id _ _ _ _ _ Hok Hnc Hfp) as [Hid Ho].
    rewrite (proj2 (Z.eqb_neq id (-1))) by lia.
    apply wp_bind, wp_bind. unfold known_chunk. apply wp_bind. eapply dup_chunk_ok; [done..|].
    intros c' d' Hc1 Hc2 Hc3 _ -> Hok'. apply wp_bind, wp_modify, wp_bind, wp_add_stat, wp_ret, wp_ret.
    apply wp_bind, record_chunk_ok. intros s' E1 E2 E3 E4 E5%stat_kept_num E6. apply wp_ret.
    split; [done|]. split; [unfold ntrans_inv; by rewrite E1, E4|].
    eapply known_step; try done; [by rewrite E1, Hc1, Hc2|by rewrite E6, Hc3].
  - assert (t ∉ origs) as Hnew by (intros [? Hk]%(mo_known _ _ _ Hok); by rewrite Hfp in Hk).
    rewrite Z.eqb_refl. apply wp_bind. eapply ntrans_unique_chunk_ok; try done.
    intros c' x s1 Hst Hi. apply wp_bind, record_chunk_ok.
    intros s2 E1 E2 _ E4 E5%stat_kept_num E6. apply wp_ret. split; [done|].
    split; [unfold ntrans_inv; rewrite E1, E4; cbn; done|].
    destruct (finish_unique True s s1 s2 contents origs c c' t l x) as [S1 S2]; try done.
    split; [done|]. by eexists _, _, _.
Qed.
End Contract.

(** ** Properties *)

(** The sub-chunk that stands for a chunk: for every non-empty chunk,
    [ThirdCutPointHashMin] returns the bounds of the first longest piece of the
    chunk's content-defined cutting (average size 4096); earlier pieces are
    strictly shorter, later ones no longer. *)
Theorem third_cut_is_first_longest_piece (src : bytes) (Hne : src <> []) (Hlen : len src < 2 ^ 63) :
  exists pre p post, pieces src = Ok (pre ++ p :: post) /\ concat (pre ++ p :: post) = src /\
    0 < len p /\ Forall (fun q => len q < len p) pre /\ Forall (fun q => len q <= len p) post /\
    ThirdCutPointHashMin src (len src) (len src) = Ok (len (concat pre), len (concat pre) + len p).
Proof. by apply third_cut_ok. Qed.

Lemma third_cut_is_first_longest_piece_witness :
  exists pre p post, pieces [1; 2; 3] = Ok (pre ++ p :: post) /\ concat (pre ++ p :: post) = [1; 2; 3] /\
    0 < len p /\ Forall (fun q => len q < len p) pre /\ Forall (fun q => len q <= len p) post /\
    ThirdCutPointHashMin [1; 2; 3] (len [1; 2; 3]) (len [1; 2; 3]) =
      Ok (len (concat pre), len (concat pre) + len p).
Proof. apply third_cut_is_first_longest_piece; [done|by vm_compute]. Defined.

(** C26: the rolling fingerprints of [getFeatureList] are the polynomial hashes
    (base 257, modulo 2^64) of the 64-byte windows, one per byte that follows a
    window: the last window of the chunk is never pushed, and a chunk of at
    most 64 bytes has no fingerprint, so that all such chunks get the same
    super-features. *)
Theorem ntrans_fingerprints_are_window_hashes (g : FeatureGen) (chunk : bytes) :
  fpList chunk = (fun j => window_fp (sub (Z.of_nat j) 64 chunk)) <$> seq 0 (length chunk - 64) /\
  (len chunk <= 64 -> (getFeatureList g chunk).1.2 = (getFeatureList g []).1.2).
Proof.
  split; [apply fpList_ok|]. intros Hl.
  assert (fpList chunk = []) as Hf.
  { rewrite fpList_ok. rewrite len_length in Hl. by replace (length chunk - 64)%nat with 0%nat by lia. }
  unfold getFeatureList. by rewrite Hf.
Qed.

Lemma ntrans_fingerprints_are_window_hashes_witness :
  (getFeatureList (new_FeatureGen (replicate 12 3) (replicate 12 5)) [1; 2; 3]).1.2 =
  (getFeatureList (new_FeatureGen (replicate 12 3) (replicate 12 5)) []).1.2.
Proof. apply ntrans_fingerprints_are_window_hashes. by vm_compute. Defined.
