(* ===== verification/Palantir.v ===== *)
(** * The Palantir method

    [src/method/palantir.cc]: thirteen super-features per chunk in three tiers,
    an index that keeps the latest chunk per super-feature, aged by version in
    the two looser tiers, and a test that falls back to LZ4 when the delta
    compresses worse than LZ4 has so far on average.  [CleanIndex] runs at the
    end of a trace. *)

From stdpp Require Import gmap.
From S2P Require Import Prelude Define Double XXHash Features LruCache ReadCache Codec DataWrite Store Restore AbsMethod MethodSpec DeltaSpec Dedup.

(** [chunkid_version]. *)
Definition chunkid_version : Type := Z * Z.

(** The members the class adds. *)
Record PExt := mkPExt {
  generator : FeatureGenerator;
  SFindex1 : gmap Z (list Z);
  SFindex2 : gmap Z (list chunkid_version);
  SFindex3 : gmap Z (list chunkid_version);
  LZ4Ratio : dbl;
  Version : Z;
  SFNew : Z;
  SFDelete : Z;
  PrevDedupChunkid : Z
}.

Definition new_PExt (g : FeatureGenerator) : PExt :=
  mkPExt g ∅ ∅ ∅ (mkDbl 2 0) 0 0 0 (-1).

Definition set_index (m1 : gmap Z (list Z)) (m2 m3 : gmap Z (list chunkid_version)) (new del : Z)
    (e : PExt) : PExt :=
  mkPExt (generator e) m1 m2 m3 (LZ4Ratio e) (Version e) new del (PrevDedupChunkid e).

(** ** The index *)

(** The first id of a list under one of the super-features. *)
Fixpoint find_id (sfs : list Z) (m : gmap Z (list Z)) : option Z :=
  match sfs with
  | [] => None
  | sf :: sfs' =>
      match m !! sf with
      | Some (id :: _) => Some id
      | _ => find_id sfs' m
      end
  end.

(** [begin()->chunkid] of the first super-feature present: an empty vector has
    no first element. *)
Fixpoint find_version (sfs : list Z) (m : gmap Z (list chunkid_version)) : result (option Z) :=
  match sfs with
  | [] => Ok None
  | sf :: sfs' =>
      match m !! sf with
      | Some (cv :: _) => Ok (Some cv.1)
      | Some [] => Err EmptyAccess
      | None => find_version sfs' m
      end
  end.

(** [SF_Find]: every tier is searched for all thirteen super-features. *)
Definition SF_Find (sfs : list Z) (e : PExt) : result Z :=
  match find_id sfs (SFindex1 e) with
  | Some id => Ok id
  | None =>
      r2 ← find_version sfs (SFindex2 e);
      match r2 with
      | Some id => Ok id
      | None =>
          r3 ← find_version sfs (SFindex3 e);
          match r3 with
          | Some id => Ok id
          | None => Ok UINT64_MAX
          end
      end
  end.

(** One step of [SF_Insert]: a new list, or its first entry replaced; the
    second component counts the new lists. *)
Definition put_first {A} (x : A) (mn : gmap Z (list A) * Z) (sf : Z) : gmap Z (list A) * Z :=
  match default [] (mn.1 !! sf) with
  | [] => (<[sf := [x]]> mn.1, s32 (mn.2 + 1))
  | _ :: r => (<[sf := x :: r]> mn.1, mn.2)
  end.

Definition SF_Insert (sfs : list Z) (chunkid : Z) (e : PExt) : PExt :=
  let '(m1, n) := foldl (put_first chunkid) (SFindex1 e, SFNew e) (take 3 sfs) in
  let '(m2, n) := foldl (put_first (chunkid, Version e)) (SFindex2 e, n) (take 4 (drop 3 sfs)) in
  let '(m3, n) := foldl (put_first (chunkid, Version e)) (SFindex3 e, n) (take 6 (drop 7 sfs)) in
  set_index m1 m2 m3 n (SFDelete e) e.

(** One map of [CleanIndex]: an old first entry is erased, the list stays. *)
Definition is_old (limit : Z) (ids : list chunkid_version) : bool :=
  match ids with
  | (_, v) :: _ => v <? limit
  | [] => false
  end.

Definition clean (limit : Z) (m : gmap Z (list chunkid_version)) : gmap Z (list chunkid_version) :=
  (fun ids => if is_old limit ids then tail ids else ids) <$> m.

Definition count_old (limit : Z) (m : gmap Z (list chunkid_version)) : Z :=
  Z.of_nat (size (filter (fun p => is_old limit p.2 = true) m)).

Definition CleanIndex (e : PExt) : PExt :=
  let l2 := s32 (Version e - 5) in
  let l3 := s32 (Version e - 2) in
  set_index (SFindex1 e) (clean l2 (SFindex2 e)) (clean l3 (SFindex3 e)) (SFNew e)
    (s32 (SFDelete e + count_old l2 (SFindex2 e) + count_old l3 (SFindex3 e))) e.

(** ** [ProcessTrace] *)

Section Palantir.
Context `{HL : Lz4} `{HX : Xdelta} `{HD : Digest} `{HK : Kinds}.

Definition Palantir : Type := Abs PExt.

Definition on_ext (f : PExt -> PExt) : M Palantir unit := modify (fun s => set_ext (f (ext s)) s).

Definition set_generator (g : FeatureGenerator) (e : PExt) : PExt :=
  mkPExt g (SFindex1 e) (SFindex2 e) (SFindex3 e) (LZ4Ratio e) (Version e) (SFNew e) (SFDelete e)
    (PrevDedupChunkid e).
Definition set_ratio (r : dbl) (e : PExt) : PExt :=
  mkPExt (generator e) (SFindex1 e) (SFindex2 e) (SFindex3 e) r (Version e) (SFNew e) (SFDelete e)
    (PrevDedupChunkid e).
Definition set_prev (id : Z) (e : PExt) : PExt :=
  mkPExt (generator e) (SFindex1 e) (SFindex2 e) (SFindex3 e) (LZ4Ratio e) (Version e) (SFNew e)
    (SFDelete e) id.
Definition next_version (e : PExt) : PExt :=
  mkPExt (generator e) (SFindex1 e) (SFindex2 e) (SFindex3 e) (LZ4Ratio e) (s32 (Version e + 1))
    (SFNew e) (SFDelete e) (PrevDedupChunkid e).

Definition super_features (c : Chunk_t) : M Palantir (list Z) :=
  b ← on_dw (load (chunkPtr c) (chunkSize c));
  g ← gets (fun s => generator (ext s));
  let '(sfs, g) := PalantirGetSF g b in
  on_ext (set_generator g) ;;
  mret sfs.

(** The base branch, which the source repeats for a delta that compresses worse
    than LZ4 on average. *)
Definition base_chunk (c : Chunk_t) (sfs : list Z) : M Palantir Chunk_t :=
  c ← compress_base c;
  let c := set_base (-1) c in
  on_ext (SF_Insert sfs (chunkID c)) ;;
  add_stat basechunkNum 1 ;;
  add_stat basechunkOriSize (chunkSize c) ;;
  add_stat basechunkSize (saveSize c) ;;
  modify (fun s => set_ext (set_ratio (dbl_div (dbl_of_Z (stats s basechunkOriSize))
                                         (dbl_of_Z (stats s basechunkSize))) (ext s)) s) ;;
  insert_base c ;;
  add_stat LocalReduct (chunkSize c - saveSize c) ;;
  mret c.

(** [None]: the delta is empty and [ProcessTrace] returns.  The block of a
    rejected delta is never freed. *)
Definition delta_chunk (c : Chunk_t) (sfs : list Z) (baseid : Z) : M Palantir (option Chunk_t) :=
  r ← encode_against c baseid;
  let '(base, (dl, n)) := r in
  let c := set_save n (deltaFlag c) c in
  if saveSize c =? 0 then mret None
  else
    ratio ← gets (fun s => LZ4Ratio (ext s));
    c ← (if dbl_ltb (dbl_div (dbl_of_Z (chunkSize c)) (dbl_of_Z (saveSize c))) ratio then
           base_chunk c sfs
         else
           c ← keep_delta c dl DELTA (s32 baseid);
           on_dw (Chunk_Insert c) ;;
           mret c);
    on_dw (free_if (loadFromDisk base) (chunkPtr base)) ;;
    mret (Some c).

Definition unique_chunk (c : Chunk_t) (hash : bytes) (sfs : list Z) : M Palantir (option Chunk_t) :=
  id ← gets (fun s => stats s uniquechunkNum);
  let c := set_id id NO_DELTA c in
  FP_Insert hash (chunkID c) ;;
  e ← gets ext;
  baseid ← lift (SF_Find sfs e);
  o ← (if baseid =? UINT64_MAX then c ← base_chunk c sfs; mret (Some c)
       else delta_chunk c sfs baseid);
  match o with
  | None => mret None
  | Some c =>
      add_stat uniquechunkNum 1 ;;
      add_stat uniquechunkSize (saveSize c) ;;
      mret (Some c)
  end.

(** A duplicate of a base chunk refreshes its index entries. *)
Definition known_chunk (c : Chunk_t) (findRes : Z) (sfs : list Z) : M Palantir Chunk_t :=
  c ← dup_chunk c findRes;
  (if decide (deltaFlag c = NO_DELTA \/ deltaFlag c = NO_LZ4) then on_ext (SF_Insert sfs (chunkID c))
   else mret tt) ;;
  add_stat DedupReduct (chunkSize c) ;;
  on_ext (set_prev findRes) ;;
  mret c.

Definition process_one (c : Chunk_t) : M Palantir bool :=
  hash ← GenerateHash (chunkPtr c) (chunkSize c);
  findRes ← FP_Find hash;
  sfs ← super_features c;
  o ← (if findRes =? -1 then unique_chunk c hash sfs
       else c ← known_chunk c findRes sfs; mret (Some c));
  match o with
  | None => mret false
  | Some c => record_chunk c ;; mret true
  end.

Definition ProcessTrace (queue : list Chunk_t) : M Palantir unit :=
  go ← process_queue process_one queue;
  if (go : bool) then
    on_ext CleanIndex ;;
    on_ext next_version ;;
    modify (fun s => set_stat SFnum (w64 (s32 (SFNew (ext s) - SFDelete (ext s))))
                       (set_version (s32 (ads_Version s + 1)) s))
  else mret tt.
End Palantir.

(** ** The contract of [ProcessTrace] *)

Section Contract.
Context `{HL : Lz4} `{HX : Xdelta} `{HD : Digest} `{HK : Kinds} `{!Lz4Laws} `{!XdeltaLaws}.
Implicit Types s : Palantir.

(** The last version the index has to work for. *)
Context (last_ : Z) (U : bytes -> Prop).

(** Every list of a table is non-empty and its entries satisfy [P]. *)
Definition entries {A} (P : A -> Prop) (m : gmap Z (list A)) : Prop :=
  map_Forall (fun _ l => l <> [] /\ Forall P l) m.

Lemma entries_mono {A} (P P' : A -> Prop) m : (forall x, P x -> P' x) -> entries P m -> entries P' m.
Proof using Type.
  intros HP Hm k l Hl. destruct (Hm k l Hl) as [H1 H2]. split; [done|]. by eapply Forall_impl.
Qed.

Lemma entries_put {A} (P : A -> Prop) x mn sf : entries P mn.1 -> P x -> entries P (put_first x mn sf).1.
Proof using Type.
  intros Hm Hx. unfold put_first. destruct (mn.1 !! sf) as [[|y l]|] eqn:Hl; cbn;
    (apply map_Forall_insert_2; [|done]); (split; [done|]); constructor; try done.
  destruct (Hm _ _ Hl) as [_ HF]. by inversion HF.
Qed.

Lemma entries_puts {A} (P : A -> Prop) x sfs : forall mn,
  entries P mn.1 -> P x -> entries P (foldl (put_first x) mn sfs).1.
Proof using Type.
  induction sfs as [|sf sfs IH]; intros mn Hm Hx; [done|]. apply IH; [by apply entries_put|done].
Qed.

Record index_inv (d : dataWrite) (e : PExt) : Prop := {
  ii_1 : entries (base_id d) (SFindex1 e);
  ii_2 : entries (fun cv => base_id d cv.1 /\ 0 <= cv.2) (SFindex2 e);
  ii_3 : entries (fun cv => base_id d cv.1 /\ 0 <= cv.2) (SFindex3 e);
  ii_version : 0 <= Version e <= last_
}.

(** The sizes of the base chunks, LZ4 never making one larger. *)
Record palantir_inv (s : Palantir) : Prop := {
  pi_index : index_inv (dataWrite_ s) (ext s);
  pi_ratio : dbl_ge_one (LZ4Ratio (ext s));
  pi_sizes : 0 <= stats s basechunkSize <= stats s basechunkOriSize;
  pi_bound : stats s basechunkOriSize <= Z.of_nat (length (chunklist (dataWrite_ s))) * CONTAINER_MAX_SIZE
}.

Lemma index_inv_mono d d' e :
  (forall id, base_id d id -> base_id d' id) -> index_inv d e -> index_inv d' e.
Proof using Type.
  intros Hd [H1 H2 H3 H4]. split; [by eapply entries_mono| | |done];
    (eapply entries_mono; [|done]); intros x [Hx ?]; auto.
Qed.

Lemma SF_Insert_ok d e sfs id : index_inv d e -> base_id d id -> index_inv d (SF_Insert sfs id e).
Proof using Type.
  intros [H1 H2 H3 H4] Hid. unfold SF_Insert.
  assert (base_id d (id, Version e).1 /\ 0 <= (id, Version e).2) as Hv by (split; [done|apply H4]).
  pose proof (entries_puts _ id (take 3 sfs) (SFindex1 e, SFNew e) H1 Hid) as P1.
  destruct (foldl (put_first id) _ _) as [m1 n1].
  pose proof (entries_puts _ (id, Version e) (take 4 (drop 3 sfs)) (SFindex2 e, n1) H2 Hv) as P2.
  destruct (foldl (put_first (id, Version e)) _ (take 4 _)) as [m2 n2].
  pose proof (entries_puts _ (id, Version e) (take 6 (drop 7 sfs)) (SFindex3 e, n2) H3 Hv) as P3.
  by destruct (foldl (put_first (id, Version e)) _ (take 6 _)) as [m3 n3].
Qed.

Lemma SF_Insert_rest e sfs id :
  LZ4Ratio (SF_Insert sfs id e) = LZ4Ratio e /\ generator (SF_Insert sfs id e) = generator e /\
  Version (SF_Insert sfs id e) = Version e.
Proof using Type. unfold SF_Insert. repeat destruct (foldl _ _ _) as [? ?]. done. Qed.

Lemma find_id_ok (P : Z -> Prop) sfs m id : entries P m -> find_id sfs m = Some id -> P id.
Proof using Type.
  intros Hm. induction sfs as [|sf sfs IH]; [done|]. cbn. destruct (m !! sf) as [[|x l]|] eqn:Hl; try done.
  intros [= <-]. destruct (Hm _ _ Hl) as [_ HF]. by inversion HF.
Qed.

Lemma find_version_ok d sfs (m : gmap Z (list chunkid_version)) :
  entries (fun cv : chunkid_version => base_id d cv.1 /\ 0 <= cv.2) m ->
  exists r, find_version sfs m = Ok r /\ forall id, r = Some id -> base_id d id.
Proof using Type.
  intros Hm. induction sfs as [|sf sfs IH]; [by exists None|]. cbn.
  destruct (m !! sf) as [[|cv l]|] eqn:Hl; [by destruct (Hm _ _ Hl)| |exact IH].
  exists (Some cv.1). split; [done|]. intros id [= <-]. destruct (Hm _ _ Hl) as [_ HF]. by inversion HF as [|? ? [??]].
Qed.

Lemma SF_Find_ok d e sfs :
  index_inv d e -> exists id, SF_Find sfs e = Ok id /\ (id = UINT64_MAX \/ base_id d id).
Proof using Type.
  intros [H1 H2 H3 _]. unfold SF_Find. destruct (find_id sfs (SFindex1 e)) as [id|] eqn:Hf.
  { exists id. split; [done|]. right. by eapply find_id_ok. }
  destruct (find_version_ok d sfs _ H2) as (r2 & -> & Hr2). cbn [mbind result_bind].
  destruct r2 as [id|]; [exists id; auto|].
  destruct (find_version_ok d sfs _ H3) as (r3 & -> & Hr3). cbn [mbind result_bind].
  destruct r3 as [id|]; [exists id; auto|]. exists UINT64_MAX. auto.
Qed.

(** The size counters after one more base chunk. *)
Lemma ratio_update (a b x y : Z) (n : nat) :
  0 <= b <= a -> a <= Z.of_nat n * CONTAINER_MAX_SIZE -> Z.of_nat n < 2 ^ 31 - 2 ->
  0 < y <= x -> x <= CONTAINER_MAX_SIZE ->
  (a + x)%u64 = a + x /\ (b + y)%u64 = b + y /\ 0 <= b + y <= a + x /\
  a + x <= Z.of_nat (S n) * CONTAINER_MAX_SIZE /\
  dbl_ge_one (dbl_div (dbl_of_Z (a + x)) (dbl_of_Z (b + y))).
Proof using Type.
  intros Hb Ha Hn Hy Hx. unfold CONTAINER_MAX_SIZE in *.
  assert (a + x < 2 ^ 53) by lia. rewrite !w64_small by lia.
  split; [done|]. split; [done|]. split; [lia|]. split; [lia|].
  rewrite dbl_div_sizes by lia. apply ratio_ge_one; lia.
Qed.

Lemma index_inv_ext d e e' :
  index_inv d e -> SFindex1 e' = SFindex1 e -> SFindex2 e' = SFindex2 e -> SFindex3 e' = SFindex3 e ->
  Version e' = Version e -> index_inv d e'.
Proof using Type. intros [H1 H2 H3 H4] E1 E2 E3 E4. split; [by rewrite E1|by rewrite E2|by rewrite E3|by rewrite E4]. Qed.

Lemma palantir_super_features_ok s c t l (Q : list Z -> Palantir -> Prop) :
  delivered (dataWrite_ s) c t l ->
  (forall sfs g, Q sfs (set_ext (set_generator g (ext s)) s)) ->
  wp (super_features c) Q s.
Proof using Type.
  intros Hd HQ. unfold super_features. rewrite (dl_size _ _ _ _ Hd).
  apply wp_bind, wp_on_dw. eapply load_ok; [by eapply read_delivered|].
  replace (set_dw (dataWrite_ s) s) with s by (by destruct s).
  apply wp_bind, wp_gets. destruct (PalantirGetSF (generator (ext s)) t) as [sfs g].
  apply wp_bind, wp_modify, wp_ret, HQ.
Qed.

Lemma palantir_inv_after e s contents t l c x s' s0 :
  stored e s contents t l c x s' -> palantir_inv s0 -> dbl_ge_one (LZ4Ratio (ext s')) ->
  length (chunklist (dataWrite_ s0)) = length contents ->
  index_inv (dataWrite_ s') (ext s') ->
  stats s' basechunkSize = stats s0 basechunkSize -> stats s' basechunkOriSize = stats s0 basechunkOriSize ->
  palantir_inv s'.
Proof using Type.
  intros Hst [_ _ I3 I4] Hr Hn Hi E1 E2.
  pose proof (store_lengths _ _ (sd_store _ _ _ _ _ _ _ _ Hst)) as Hl. rewrite length_app in Hl. cbn in Hl.
  split; [done|done|by rewrite E1, E2|]. rewrite E2, Hl. rewrite Hn in I4.
  unfold CONTAINER_MAX_SIZE in *. lia.
Qed.

Lemma palantir_base_chunk_ok e s contents origs t s0 c0 c sfs l (Q : Chunk_t -> Palantir -> Prop) :
  meth_ok s0 contents origs -> len contents < 2 ^ 31 - 2 -> delivered (dataWrite_ s0) c0 t l ->
  between e s0 contents t s -> delivered (dataWrite_ s) c t l -> chunkID c = len contents ->
  palantir_inv (set_dw (dataWrite_ s0) s) -> t <> [] ->
  (forall c' s', stored e s0 contents t l c' t s' ->
     heap (mem (dataWrite_ s')) = delete l (heap (mem (dataWrite_ s))) -> palantir_inv s' -> Q c' s') ->
  wp (base_chunk c sfs) Q s.
Proof using Type*.
  intros Hok Hcnt Hd0 Hbt Hd Hid [I1 I2 I3 I4] Hne HQ. pose proof Hd as [D1 D2 D3 D4 D5 D6].
  assert (0 < len t) as Ht by (pose proof (len_nonneg t); assert (len t <> 0) by (by intros ?%len_0_nil); lia).
  unfold base_chunk. apply wp_bind. eapply compress_base_ok; [exact Hd|].
  intros buf n f Hready. cbv zeta. set (c' := set_base (-1) (set_save n f c)).
  assert (ready buf c' t) as Hready' by (destruct Hready as [R1 R2 R3]; by split).
  pose proof (store_lengths _ _ (mo_store _ _ _ Hok)) as Hl. cbn [stats set_dw dataWrite_ ext] in *.
  destruct (ratio_update (stats s basechunkOriSize) (stats s basechunkSize) (chunkSize c') (saveSize c')
    (length contents)) as (U1 & U2 & U3 & U4 & U5).
  { done. } { by rewrite <- Hl. } { by rewrite <- len_length. }
  { rewrite (rd_size _ _ _ Hready'). destruct (rd_save _ _ _ Hready'); auto. }
  { by rewrite (rd_size _ _ _ Hready'). }
  apply wp_bind, wp_modify. do 3 (apply wp_bind, wp_add_stat). apply wp_bind, wp_modify, wp_bind.
  eapply (store_base_ok e s0 _ contents origs c0 c' t l); [exact Hok|exact Hcnt|exact Hd0|
    |exact Hready'|exact D1|exact Hid|exact D6|].
  { destruct Hbt. by split. }
  intros s' Hst Hbf Hh _ Eext Est. apply wp_bind, wp_add_stat, wp_ret.
  assert (stored e s0 contents t l c' t (set_stat LocalReduct
    (stats s' LocalReduct + (chunkSize c' - saveSize c'))%u64 s')) as Hst' by (destruct Hst; by split).
  destruct (SF_Insert_rest (ext s) sfs (chunkID c')) as [Er _].
  apply HQ; [done|done|]. split; cbn [ext set_stat dataWrite_]; rewrite ?Eext.
  - eapply (index_inv_ext _ (SF_Insert sfs (chunkID c') (ext s))); [|done..].
    apply SF_Insert_ok; [|cbn; rewrite Hid; by eapply stored_new_id].
    eapply index_inv_mono; [|exact I1]. intros id Hi. by eapply stored_base_id.
  - cbn [ext set_ext LZ4Ratio set_ratio]. simp_stats. cbn [stats set_ext set_lz4buf]. by rewrite U1, U2.
  - rewrite !stat_other by done. rewrite Est. simp_stats. cbn [stats set_ext set_lz4buf]. by rewrite U1, U2.
  - rewrite !stat_other by done. rewrite Est. simp_stats. cbn [stats set_ext set_lz4buf]. rewrite U1.
    pose proof (store_lengths _ _ (sd_store _ _ _ _ _ _ _ _ Hst)) as Hl'. rewrite length_app in Hl'. cbn in Hl'.
    rewrite Hl'. by rewrite Nat.add_1_r.
Qed.
(** [palantir_inv] reads the index, the counters and which chunks are base chunks. *)
Lemma palantir_inv_same s s' :
  palantir_inv s -> chunklist (dataWrite_ s') = chunklist (dataWrite_ s) -> ext s' = ext s ->
  stats s' basechunkSize = stats s basechunkSize ->
  stats s' basechunkOriSize = stats s basechunkOriSize -> palantir_inv s'.
Proof using Type.
  intros [I1 I2 I3 I4] E1 E2 E3 E4. split; rewrite ?E1, ?E2, ?E3, ?E4; try done.
  eapply index_inv_mono; [|exact I1]. intros id [Hid Hc]. split; [done|by rewrite E1].
Qed.

(** A delta that passes the test is no larger than its chunk. *)
Lemma ratio_fits (t : bytes) n r :
  dbl_ge_one r -> 0 < n -> n < 2 ^ 53 -> t <> [] ->
  dbl_ltb (dbl_div (dbl_of_Z (len t)) (dbl_of_Z n)) r = false -> len t < 2 ^ 53 -> n <= len t.
Proof using Type.
  intros Hr Hn Hn53 Hne Hlt Ht. assert (0 < len t).
  { pose proof (len_nonneg t). assert (len t <> 0) by (by intros ?%len_0_nil). lia. }
  rewrite dbl_div_sizes in Hlt by lia. destruct (Z.le_gt_cases n (len t)) as [?|Hgt]; [done|].
  rewrite below_one_lt in Hlt; [done| |done]. apply ratio_lt_one; lia.
Qed.

Section DeltaBranch.
Context (s0 s : Palantir) (contents origs : list bytes) (t : bytes) (c0 c : Chunk_t) (b : Z) (l : nat).
Context (Hok : meth_ok s0 contents origs) (Hcnt : len contents < 2 ^ 31 - 2).
Context (Hd0 : delivered (dataWrite_ s0) c0 t l) (Hp : pending s0 contents t s).
Context (Hd : delivered (dataWrite_ s) c t l) (Hid : chunkID c = len contents).
Context (Hinv : palantir_inv s) (Hb : base_id (dataWrite_ s) b) (Hne : t <> []).

(** What both outcomes of the test start from. *)
Context (base : Chunk_t) (dl : nat) (x : bytes) (d2 : dataWrite) (h1 : gmap nat Block).
Context (Hen : encoded s0 contents t b base dl x d2 h1) (Hx : 0 < len x <= CONTAINER_MAX_SIZE * 2).

Lemma rejected_ok {A} sfs c1 (k : Chunk_t -> M Palantir A) (Q : A -> Palantir -> Prop) :
  delivered d2 c1 t l -> chunkID c1 = len contents ->
  (forall c' s', stored False s0 contents t l c' t s' -> palantir_inv s' -> wp (k c') Q s') ->
  wp (c ← base_chunk c1 sfs; on_dw (free_if (loadFromDisk base) (chunkPtr base)) ;; k c) Q (set_dw d2 s).
Proof using Type*.
  intros Hd1 Hid1 HQ. pose proof Hen as [N1 N2 N3 N5 N6 N7]. pose proof Hd0 as [_ D2 _ _ _ _].
  apply wp_bind. eapply (palantir_base_chunk_ok False (set_dw d2 s) contents origs t s0 c0 c1 sfs l); try done.
  - split; try done.
    + intros l' b' Hl'. cbn. rewrite N7, lookup_insert_ne; [by eapply taken_grow|].
      intros ->. by rewrite (taken_grow _ _ _ _ _ _ N5 Hl') in N6.
    + cbn. apply (pd_fp _ _ _ _ Hp).
    + apply (pd_num _ _ _ _ Hp).
  - eapply palantir_inv_same; [exact Hinv|cbn; by rewrite (pd_dw _ _ _ _ Hp)|done..].
  - intros c' s' Hst Hh Hi. cbn [dataWrite_ set_dw] in Hh. rewrite N7 in Hh.
    apply wp_bind. eapply (late_free_ok False s0 contents t l c' t base
      (delete l (<[dl := mkBlock (len x) x]> (heap (mem (dataWrite_ s0)))))); [exact Hst| | |done|].
    + rewrite Hh. assert (heap (mem (dataWrite_ s0)) !! dl = None) as Hfr.
      { destruct (heap (mem (dataWrite_ s0)) !! dl) eqn:He; [|done].
        by rewrite (taken_grow _ _ _ _ _ _ N5 He) in N6. }
      eapply taken_delete; [by apply taken_insert|]. rewrite lookup_insert_ne by congruence. exact D2.
    + intros l' b' Hne' Hl'. rewrite lookup_delete_ne by congruence. rewrite lookup_insert_ne; [done|].
      intros ->. by rewrite (taken_grow _ _ _ _ _ _ N5 Hl') in N6.
    + intros s'' Hst' E1 E2 E3 E4. apply HQ; [done|].
      eapply palantir_inv_same; [exact Hi|done|done|by rewrite E3|by rewrite E3].
Qed.

Lemma accepted_ok {A} (k : Chunk_t -> M Palantir A) (Q : A -> Palantir -> Prop) :
  0 < len x <= len t ->
  (forall c' s', stored False s0 contents t l c' x s' -> palantir_inv s' -> wp (k c') Q s') ->
  wp (c ← (c ← keep_delta (set_save (len x) (deltaFlag c) c) dl DELTA b; on_dw (Chunk_Insert c) ;; mret c);
      on_dw (free_if (loadFromDisk base) (chunkPtr base)) ;; k c) Q (set_dw d2 s).
Proof using Type*.
  intros Hfit HQ. pose proof Hen as [N1 N2 N3 N5 N6 N7]. pose proof Hd0 as [D1 D2 D3 _ _ D6].
  pose proof Hd as [E1 _ E3 _ _ E6].
  apply wp_bind, wp_bind.
  eapply (keep_delta_ok s0 (set_dw d2 s) contents t b base dl x h1 _ l); try done; [apply Hfit|lia|].
  intros s1 _ K1 K2 K3 K4 _ K6 K7. apply wp_bind.
  eapply (insert_delta_stored s0 contents origs t b base dl x d2 h1 c _ l s1);
    [exact Hok|exact Hcnt|rewrite <- (pd_dw _ _ _ _ Hp); exact Hd|apply Hb|exact Hen|apply Hfit| | |exact Hid|].
  { split; [done|done|done| |]; [rewrite K4; apply Hp|unfold same_totals; rewrite !K7 by done; apply Hp]. }
  { by split. }
  intros s' Hst Hh _ F2 F3. apply wp_ret, wp_bind.
  eapply (late_free_ok False s0 contents t l _ x base (delete l (heap (mem (dataWrite_ s0)))));
    [exact Hst| | |done|].
  - rewrite Hh. by eapply taken_delete.
  - intros l' b' Hne' Hl'. by rewrite lookup_delete_ne by congruence.
  - intros s'' Hst' G1 G2 G3 G4. apply HQ; [exact Hst'|]. pose proof Hp as [P1 _ _].
    eapply (palantir_inv_after False s0 contents t l _ x s'' s); [exact Hst'|exact Hinv| | | | |].
    + rewrite G2, F2, K6. apply Hinv.
    + rewrite P1. apply store_lengths, (mo_store _ _ _ Hok).
    + rewrite G2, F2, K6. eapply index_inv_mono; [|apply Hinv]. intros id Hi.
      eapply stored_base_id; [exact Hst'|]. by rewrite <- P1.
    + rewrite G3, F3. by apply K7.
    + rewrite G3, F3. by apply K7.
Qed.
End DeltaBranch.
Lemma palantir_delta_chunk_ok s0 s contents origs t c0 c b l sfs (Q : option Chunk_t -> Palantir -> Prop) :
  meth_ok s0 contents origs -> len contents < 2 ^ 31 - 2 -> delivered (dataWrite_ s0) c0 t l ->
  pending s0 contents t s -> delivered (dataWrite_ s) c t l -> chunkID c = len contents ->
  palantir_inv s -> base_id (dataWrite_ s) b -> encodes_in U t -> Forall (encodes_in U) origs ->
  (forall c' x s', stored False s0 contents t l c' x s' -> palantir_inv s' -> Q (Some c') s') ->
  wp (delta_chunk c sfs b) Q s.
Proof using Type*.
  intros Hok Hcnt Hd0 Hp Hd Hid Hinv Hb Hdp Hdo HQ. pose proof Hp as [P1 P2 P3]. pose proof Hdp as [Hne _].
  pose proof Hd as [D1 D2 D3 D4 D5 D6]. unfold delta_chunk. apply wp_bind.
  eapply (encode_against_ok s0 s); try done; [intros y _ Hy; by eapply encodes_against|].
  intros base dl x d2 h1 Hen (_ & _ & _ & _ & Hx). cbv zeta.
  assert (encoded s0 contents t b base dl x d2 h1) as Hen0 by (destruct Hen; rewrite P1 in *; by split).
  set (c1 := set_save (len x) (deltaFlag c) c).
  replace (saveSize c1 =? 0) with false by (symmetry; apply Z.eqb_neq; cbn; lia).
  apply wp_bind, wp_gets. cbn [ext set_dw].
  assert (s32 b = b) as Hb32.
  { destruct Hb as [Hb0 (cb & Hcb & Hbf)]. rewrite P1 in Hcb.
    destruct (base_content _ _ _ _ cb Hok Hb0 Hcb Hbf) as [? _]. apply s32_small. lia. }
  assert (forall s', mem (dataWrite_ s') = mem d2 -> delivered (dataWrite_ s') c1 t l) as Hd1.
  { intros s' Hm. pose proof Hen0 as [_ _ _ N5 N6 N7]. rewrite P1 in D2. pose proof (taken_grow _ _ _ _ _ _ N5 D2) as Hl.
    split; try done. rewrite Hm, N7, lookup_insert_ne by congruence. done. }
  destruct (dbl_ltb _ _) eqn:Hlt.
  - eapply (rejected_ok s0 s contents origs t c0 c b l); try done; [by apply (Hd1 (set_dw d2 s))|].
    intros c' s' Hst Hi. apply wp_ret. exact (HQ _ _ _ Hst Hi).
  - rewrite Hb32.
    eapply (accepted_ok s0 s contents origs t c0 c b l); try done; [|intros c' s' Hst Hi; apply wp_ret; exact (HQ _ _ _ Hst Hi)].
    unfold c1 in Hlt. cbn [chunkSize saveSize set_save] in Hlt. rewrite D3 in Hlt.
    unfold CONTAINER_MAX_SIZE in *.
    split; [lia|]. eapply (ratio_fits t); [apply Hinv| | |exact Hne|exact Hlt|]; lia.
Qed.

Lemma palantir_unique_chunk_ok s contents origs c t l sfs (Q : option Chunk_t -> Palantir -> Prop) :
  meth_ok s contents origs -> len contents < 2 ^ 31 - 2 -> delivered (dataWrite_ s) c t l ->
  palantir_inv s -> encodes_in U t -> Forall (encodes_in U) origs ->
  (forall c' x s', stored False s contents t l c' x s' -> palantir_inv s' ->
     Q (Some c') (set_stat uniquechunkSize (stats s' uniquechunkSize + saveSize c')%u64
                    (set_stat uniquechunkNum (stats s' uniquechunkNum + 1)%u64 s'))) ->
  wp (unique_chunk c (EVP_sha256 t) sfs) Q s.
Proof using Type*.
  intros Hok Hcnt Hd Hinv Hdp Hdo HQ. pose proof (len_nonneg contents).
  unfold unique_chunk. apply wp_bind, wp_gets. rewrite (mo_num _ _ _ Hok). cbv zeta.
  set (c1 := set_id (len contents) NO_DELTA c).
  assert (delivered (dataWrite_ s) c1 t l) as Hd1 by (by eapply delivered_same).
  apply wp_bind. unfold FP_Insert. apply wp_bind, wp_modify, wp_ret. set (s1 := set_fp _ s).
  assert (pending s contents t s1) as Hp1.
  { split; try done. cbn. by rewrite s32_small by lia. }
  assert (palantir_inv s1) as Hinv1 by (by eapply palantir_inv_same).
  apply wp_bind, wp_gets, wp_bind.
  destruct (SF_Find_ok (dataWrite_ s1) (ext s1) sfs) as (b & -> & Hb); [apply Hinv1|].
  unfold wpe at 1. cbn [lift]. apply wp_bind. destruct (Z.eqb_spec b UINT64_MAX) as [->|Hne].
  - apply wp_bind. eapply (palantir_base_chunk_ok True s1 contents origs t s c c1 sfs l);
      [exact Hok|exact Hcnt|exact Hd|by eapply pending_between|exact Hd1|done| |apply Hdp|].
    + eapply palantir_inv_same; [exact Hinv1|done..].
    + intros c' s' Hst _ Hi. assert (stored False s contents t l c' t s') as Hst' by (destruct Hst; by split).
      apply wp_ret, wp_bind, wp_add_stat, wp_bind, wp_add_stat, wp_ret. exact (HQ _ _ _ Hst' Hi).
  - destruct Hb as [?|Hb]; [done|].
    eapply (palantir_delta_chunk_ok s s1 contents origs t c c1 b l);
      [exact Hok|exact Hcnt|exact Hd|exact Hp1|exact Hd1|done|exact Hinv1|exact Hb|exact Hdp|exact Hdo|].
    intros c' x s' Hst Hi.
    apply wp_bind, wp_add_stat, wp_bind, wp_add_stat, wp_ret. exact (HQ _ _ _ Hst Hi).
Qed.

Lemma refresh_ok c sfs s (Q : unit -> Palantir -> Prop) :
  palantir_inv s -> (base_flag c -> base_id (dataWrite_ s) (chunkID c)) ->
  (forall e, palantir_inv (set_ext e s) -> Q tt (set_ext e s)) ->
  wp (if decide (deltaFlag c = NO_DELTA \/ deltaFlag c = NO_LZ4) then on_ext (SF_Insert sfs (chunkID c))
      else mret tt) Q s.
Proof using Type.
  intros Hinv Hb HQ. pose proof Hinv as [I1 I2 I3 I4]. case_decide as Hf.
  - apply wp_modify, HQ. split; cbn; [|by rewrite (proj1 (SF_Insert_rest _ _ _))|done|done].
    apply SF_Insert_ok; [done|by apply Hb].
  - apply wp_ret. replace s with (set_ext (ext s) s) by (by destruct s). apply HQ. by destruct s.
Qed.

Lemma set_prev_inv s id : palantir_inv s -> palantir_inv (set_ext (set_prev id (ext s)) s).
Proof using Type.
  intros [I1 I2 I3 I4]. split; try done. by eapply index_inv_ext.
Qed.

Lemma known_ok s contents origs c t l id sfs (Q : Chunk_t -> Palantir -> Prop) :
  meth_ok s contents origs -> palantir_inv s -> delivered (dataWrite_ s) c t l ->
  0 <= id -> origs !! Z.to_nat id = Some t ->
  (forall c' d' s', chunkID c' = id -> HeaderFlag c' = is_header t -> chunkSize c' = len t -> meth_ok (set_dw d' s) contents origs ->
     d' = set_mem (mkMem (delete l (heap (mem (dataWrite_ s)))) (next_loc (mem (dataWrite_ s)))) (dataWrite_ s) ->
     dataWrite_ s' = d' -> FPindex s' = FPindex s -> same_totals s s' ->
     palantir_inv s' -> Q c' s') ->
  wp (known_chunk c id sfs) Q s.
Proof using Type*.
  intros Hok Hinv Hd Hid Ho HQ. unfold known_chunk. apply wp_bind.
  eapply dup_chunk_ok; [exact Hok|exact Hd|exact Hid|exact Ho|]. intros c' d' Hc1 Hc2 Hsz Hc3 Hd' Hok'.
  apply wp_bind, refresh_ok.
  - eapply palantir_inv_same; [exact Hinv|by rewrite Hd'|done..].
  - intros Hf. rewrite Hd', Hc1. split; [done|]. by exists c'.
  - intros e He. apply wp_bind, wp_add_stat, wp_bind, wp_modify, wp_ret.
    apply (HQ c' d'); [exact Hc1|exact Hc2|exact Hsz|exact Hok'|exact Hd'|done|done|done|].
    apply set_prev_inv. eapply palantir_inv_same; [exact He|done..].
Qed.

#[export] Instance palantir_step : MethodStep process_one (encodes_in U) (fun _ => False) palantir_inv False.
Proof using Type*.
  intros s contents origs c t l Hok Hinv Hcnt Hd Hdp Hdo Hnc. pose proof Hd as [_ _ _ _ _ D6].
  unfold process_one. apply wp_bind. eapply GenerateHash_ok; [exact Hd|].
  apply wp_bind. unfold FP_Find. apply wp_gets.
  apply wp_bind. eapply palantir_super_features_ok; [exact Hd|]. intros sfs g.
  set (s0 := set_ext (set_generator g (ext s)) s).
  assert (meth_ok s0 contents origs) as Hok0 by (by eapply (meth_ok_ext s)).
  assert (palantir_inv s0) as Hinv0.
  { destruct Hinv as [I1 I2 I3 I4]. split; [by eapply index_inv_ext|done..]. }
  destruct (FPindex s !! EVP_sha256 t) as [id|] eqn:Hfp.
  - destruct (known_id _ _ _ _ _ Hok Hnc Hfp) as [Hid Ho].
    rewrite (proj2 (Z.eqb_neq id (-1))) by lia.
    apply wp_bind, wp_bind. eapply (known_ok s0); [exact Hok0|exact Hinv0|exact Hd|exact Hid|exact Ho|].
    intros c' d' s' Hc1 Hc2 Hsz Hok' -> E1 E2 [E3 E4] Hi. apply wp_ret.
    apply wp_bind, record_chunk_ok. intros s'' F1 F2 _ F4 F5 F6. apply wp_ret.
    split; [done|]. split; [eapply palantir_inv_same; [exact Hi|by rewrite F1|done|by apply F5..]|].
    eapply (known_step _ s); [by eapply meth_ok_ext; [exact Hok'|..]|exact Hid|exact Ho
      |reflexivity|by rewrite F1, E1, Hc1, Hc2|by rewrite F2, E2|by rewrite F5, E3|by rewrite F6, E4, Hsz].
  - assert (t ∉ origs) as Hnew by (intros [? Hk]%(mo_known _ _ _ Hok); by rewrite Hfp in Hk).
    rewrite Z.eqb_refl. apply wp_bind.
    eapply (palantir_unique_chunk_ok s0); [exact Hok0|exact Hcnt|exact Hd|exact Hinv0|exact Hdp|exact Hdo|].
    intros c' x s1 Hst Hi. apply wp_bind, record_chunk_ok.
    intros s2 E1 E2 E3 E4 E5 E6. apply wp_ret. split; [done|].
    split; [eapply palantir_inv_same; [exact Hi|by rewrite E1|done|by rewrite E5..]|].
    destruct (finish_unique False s0 s1 s2 contents origs c c' t l x Hok0 Hcnt Hd Hnew Hst E1 E2) as [[] S2];
      [by rewrite E5|exact E6|].
    split; [done|]. eexists _, _, _. by split.
Qed.
End Contract.

(** ** Ageing *)

Lemma clean_find limit (m : gmap Z (list chunkid_version)) pre sf post id v :
  Forall (fun k => m !! k = None) pre -> m !! sf = Some ([(id, v)] : list chunkid_version) ->
  find_version (pre ++ sf :: post) (clean limit m) = if v <? limit then Err EmptyAccess else Ok (Some id).
Proof.
  intros Hpre Hsf. induction Hpre as [|k pre Hk _ IH]; cbn [app find_version].
  - unfold clean. rewrite lookup_fmap, Hsf. cbn. by destruct (v <? limit).
  - unfold clean at 1. by rewrite lookup_fmap, Hk.
Qed.

Lemma palantir_new n m f g : 0 <= n -> palantir_inv n (new_Abs (new_dataWrite m f) (new_PExt g)).
Proof. intros Hn. split; [split; [apply map_Forall_empty..|done]|reflexivity|done|by vm_compute]. Qed.

(** While no entry is old, the end of a file leaves the index as it is. *)
Lemma clean_young (P : chunkid_version -> Prop) limit m : limit <= 0 ->
  entries (fun cv => P cv /\ 0 <= cv.2) m -> clean limit m = m.
Proof.
  intros Hl Hm. unfold clean. rewrite <- (map_fmap_id m) at 2. apply map_fmap_ext. intros k ids Hk.
  destruct (Hm k ids Hk) as [_ HF]. destruct ids as [|[id v] ids]; [done|]. inversion HF as [|? ? [_ Hv] _]. cbn in *.
  by rewrite (proj2 (Z.ltb_ge v limit)) by lia.
Qed.

Lemma end_keeps_index d e last_ : Version e <= 2 -> index_inv last_ d e ->
  index_inv (Z.max last_ (Version e + 1)) d (next_version (CleanIndex e)).
Proof.
  intros Hv [H1 H2 H3 H4].
  assert (s32 (Version e - 5) <= 0 /\ s32 (Version e - 2) <= 0 /\ s32 (Version e + 1) = Version e + 1) as (L2 & L3 & L)
    by (unfold s32; rewrite !Z.mod_small by lia; lia).
  unfold CleanIndex, next_version, set_index. split; cbn.
  - done.
  - by rewrite (clean_young _ _ _ L2 H2).
  - by rewrite (clean_young _ _ _ L3 H3).
  - rewrite L. lia.
Qed.

(** ** Properties *)

(** C34: [CleanIndex] against [SF_Find]: after a version ends, a chunk whose
    first similar entry is in the second tier finds that entry's chunk when it
    is at most five versions old; when it is older, the entry is erased but its
    empty list stays, and [SF_Find] takes the first element of an empty
    vector. *)
Theorem palantir_aged_entry_faults (e : PExt) (pre post : list Z) (sf id v : Z)
    (Hmiss : find_id (pre ++ sf :: post) (SFindex1 e) = None)
    (Hpre : Forall (fun k => SFindex2 e !! k = None) pre)
    (Hsf : SFindex2 e !! sf = Some ([(id, v)] : list chunkid_version)) :
  SF_Find (pre ++ sf :: post) (CleanIndex e) =
    if v <? s32 (Version e - 5) then Err EmptyAccess else Ok id.
Proof.
  unfold SF_Find, CleanIndex. cbn [set_index SFindex1 SFindex2]. rewrite Hmiss.
  rewrite (clean_find _ _ _ _ _ id v) by done. by destruct (v <? _).
Qed.

Lemma palantir_aged_entry_faults_witness :
  let e := Nat.iter 6 next_version (SF_Insert [1; 2; 3; 4; 5; 6; 7; 8; 9; 10; 11; 12; 13] 0
    (new_PExt (new_FeatureGenerator (replicate 24 3)))) in
  SF_Find [101; 102; 103; 4; 105] (CleanIndex e) = Err EmptyAccess.
Proof.
  intros e. apply (palantir_aged_entry_faults e [101; 102; 103] [105] 4 0 0); [reflexivity| |reflexivity].
  repeat constructor.
Defined.
