(* ===== verification/Locality.v ===== *)
(** * The locality method

    [src/method/Locality.cc]: after a duplicate, the unique chunks that follow
    it are stored as deltas against the chunks that followed its first
    occurrence.  The base handed to xdelta is not the base chunk's data but
    whatever the LZ4 buffer holds, and the base recorded is not always the
    chunk that was fetched: deltas do not decode to the chunk they were made
    from, as the theorem at the end shows.  Only the first file, for which none
    are tried, is safe.  The float [compressionRatio] of [plchunk] is never read
    and is left out. *)

From stdpp Require Import gmap.
From S2P Require Import Prelude Define Codec DataWrite Store Restore AbsMethod MethodSpec DeltaSpec.

(** The members the class adds; [plchunk] is its [chunkId] and [chunkType]. *)
Record LExt := mkLExt {
  pl_chunkId : Z;
  pl_chunkType : PLCHUNKTYPE;
  DedupGap : Z;
  Version : Z;
  localError : Z;
  localFlag : bool;
  localLogicalSize : Z;
  localUniqueSize : Z
}.

Definition new_LExt : LExt := mkLExt UINT64_MAX DUP 0 0 0 true 0 0.

Definition LOCAL_MAX_ERROR : Z := 2.

(** [plchunk.chunkId + DedupGap], a [uint64_t]. *)
Definition neighbour (e : LExt) : Z := w64 (pl_chunkId e + DedupGap e).

Section Locality.
Context `{HL : Lz4} `{HX : Xdelta} `{HD : Digest}.

Definition LocalDedup : Type := Abs LExt.

Definition on_ext (f : LExt -> LExt) : M LocalDedup unit := modify (fun s => set_ext (f (ext s)) s).

Definition next_gap (e : LExt) : LExt :=
  mkLExt (pl_chunkId e) (pl_chunkType e) (s32 (DedupGap e + 1)) (Version e) (localError e) (localFlag e)
    (localLogicalSize e) (localUniqueSize e).

(** A delta was accepted. *)
Definition count_delta (c : Chunk_t) (e : LExt) : LExt :=
  mkLExt (pl_chunkId e) (pl_chunkType e) (DedupGap e) (Version e) 0 (localFlag e)
    (localLogicalSize e + chunkSize c)%u64 (localUniqueSize e + saveSize c)%u64.

(** A delta was rejected. *)
Definition count_error (e : LExt) : LExt :=
  let n := s32 (localError e + 1) in
  mkLExt (pl_chunkId e) (pl_chunkType e) (DedupGap e) (Version e) n
    (if LOCAL_MAX_ERROR <? n then false else localFlag e) (localLogicalSize e) (localUniqueSize e).

(** A duplicate was found. *)
Definition at_duplicate (c : Chunk_t) (findRes : Z) (e : LExt) : LExt :=
  mkLExt (if HeaderFlag c then pl_chunkId e else w64 findRes) DUP 0 (Version e) (localError e) true
    (localLogicalSize e) (localUniqueSize e).

Definition next_version (e : LExt) : LExt :=
  mkLExt (pl_chunkId e) (pl_chunkType e) (DedupGap e) (s32 (Version e + 1)) (localError e) (localFlag e)
    (localLogicalSize e) (localUniqueSize e).

(** The LZ4 branches; [f] is what the rejected one adds to the counters. *)
Definition base_chunk (f : LExt -> LExt) (c : Chunk_t) : M LocalDedup Chunk_t :=
  c ← compress_base c;
  on_ext f ;;
  let c := set_base (-1) c in
  add_stat basechunkNum 1 ;;
  add_stat basechunkSize (saveSize c) ;;
  add_stat LocalReduct (chunkSize c - saveSize c) ;;
  insert_base c ;;
  mret c.

(** [xd3_encode(tmpChunk.chunkPtr, cp, lz4ChunkBuffer, tmpbaseChunkinfo.chunkSize, ...)]. *)
Definition encode_local (c : Chunk_t) (base : Chunk_t) : M LocalDedup (nat * Z) :=
  t ← on_dw (load (chunkPtr c) (chunkSize c));
  buf ← gets lz4ChunkBuffer;
  b ← lift (read_object CONTAINER_MAX_SIZE 0 (chunkSize base) buf);
  out ← lift (from_option_or Uninit (xd3_encode_memory t b (CONTAINER_MAX_SIZE * 2)).2);
  l ← on_dw (malloc (len out));
  on_dw (store l out) ;;
  mret (l, len out).

(** The chunk fetched as the base: the neighbour's own base when the neighbour
    is a delta. *)
Definition fetch_base (nb : Z) : M LocalDedup Chunk_t :=
  info ← on_dw (Get_Chunk_MetaInfo (s32 nb));
  if decide (deltaFlag info = LOCAL_DELTA) then on_dw (Get_Chunk_Info (basechunkID info))
  else on_dw (Get_Chunk_Info (s32 nb)).

Definition accept_delta (c : Chunk_t) (dl : nat) (n nb : Z) : M LocalDedup Chunk_t :=
  let c := set_base (s32 nb) (set_save n LOCAL_DELTA c) in
  d ← on_dw (load (PHeap dl) n);
  store_ptr (chunkPtr c) d ;;
  on_dw (free (PHeap dl)) ;;
  StatsDelta c ;;
  on_ext (count_delta c) ;;
  add_stat localchunkSize (saveSize c) ;;
  add_stat localPrechunkSize (chunkSize c) ;;
  on_dw (Chunk_Insert c) ;;
  mret c.

Definition delta_chunk (c : Chunk_t) (nb : Z) : M LocalDedup Chunk_t :=
  base ← fetch_base nb;
  r ← encode_local c base;
  let '(dl, n) := r in
  c ← (if chunkSize c <? n then
         add_stat bugCount 1 ;;
         on_dw (free (PHeap dl)) ;;
         base_chunk count_error (set_save (chunkSize c) NO_DELTA c)
       else accept_delta c dl n nb);
  on_dw (free_if (loadFromDisk base) (chunkPtr base)) ;;
  mret c.

Definition unique_chunk (c : Chunk_t) (hash : bytes) : M LocalDedup Chunk_t :=
  id ← gets (fun s => stats s uniquechunkNum);
  let c := set_id id NO_DELTA c in
  FP_Insert hash (chunkID c) ;;
  on_ext next_gap ;;
  e ← gets ext;
  c ← (if (neighbour e <? (chunkID c - 1)%u64) && (0 <? Version e)
       then delta_chunk c (neighbour e)
       else base_chunk (fun e => e) c);
  add_stat uniquechunkNum 1 ;;
  add_stat uniquechunkSize (saveSize c) ;;
  mret c.

Definition known_chunk (c : Chunk_t) (findRes : Z) : M LocalDedup Chunk_t :=
  c ← dup_chunk c findRes;
  on_ext (at_duplicate c findRes) ;;
  add_stat DedupReduct (chunkSize c) ;;
  mret c.

Definition process_one (c : Chunk_t) : M LocalDedup bool :=
  hash ← GenerateHash (chunkPtr c) (chunkSize c);
  findRes ← FP_Find hash;
  c ← (if findRes =? -1 then unique_chunk c hash else known_chunk c findRes);
  record_chunk c ;;
  mret true.

Definition ProcessTrace (queue : list Chunk_t) : M LocalDedup unit :=
  go ← process_queue process_one queue;
  if (go : bool) then
    on_ext next_version ;;
    modify (fun s => set_version (s32 (ads_Version s + 1)) s)
  else mret tt.
End Locality.

(** ** The first file

    Deltas are tried from the second version on: before, the method keeps what it
    is given. *)
Section First.
Context `{HL : Lz4} `{HX : Xdelta} `{HD : Digest} `{HK : Kinds} `{!Lz4Laws} `{!XdeltaLaws}.

Definition first_file (s : LocalDedup) : Prop := Version (ext s) = 0.

Lemma locality_base_chunk_ok s contents origs t s0 c0 c l (Q : Chunk_t -> LocalDedup -> Prop) :
  meth_ok s0 contents origs -> len contents < 2 ^ 31 - 2 -> delivered (dataWrite_ s0) c0 t l ->
  pending s0 contents t s -> delivered (dataWrite_ s) c t l -> chunkID c = len contents -> first_file s ->
  (forall c' s', stored True s0 contents t l c' t s' -> first_file s' -> Q c' s') ->
  wp (base_chunk (fun e => e) c) Q s.
Proof using Type*.
  intros Hok Hcnt Hd0 [P1 P2 P3] Hd Hid Hinv HQ. pose proof Hd as [D1 D2 D3 D4 D5 D6].
  unfold base_chunk. apply wp_bind. eapply compress_base_ok; [exact Hd|].
  intros buf n f Hready. apply wp_bind. unfold on_ext. apply wp_modify. cbv zeta. set (c' := set_base (-1) (set_save n f c)).
  apply wp_bind, wp_add_stat, wp_bind, wp_add_stat, wp_bind, wp_add_stat, wp_bind.
  eapply (store_base_ok True s0 _ contents origs c0 c' t l); [exact Hok|exact Hcnt|exact Hd0| | |exact D1|exact Hid|exact D6|].
  - eapply pending_between; [exact Hok|by split].
  - destruct Hready as [R1 R2 R3]. by split.
  - intros s' Hst _ _ _ Eext _. apply wp_ret, HQ; [done|]. unfold first_file. by rewrite Eext.
Qed.

Lemma locality_unique_chunk_ok s contents origs c t l (Q : Chunk_t -> LocalDedup -> Prop) :
  meth_ok s contents origs -> len contents < 2 ^ 31 - 2 -> delivered (dataWrite_ s) c t l -> first_file s ->
  (forall c' s', stored True s contents t l c' t s' -> first_file s' ->
     Q c' (set_stat uniquechunkSize (stats s' uniquechunkSize + saveSize c')%u64
             (set_stat uniquechunkNum (stats s' uniquechunkNum + 1)%u64 s'))) ->
  wp (unique_chunk c (EVP_sha256 t)) Q s.
Proof using Type*.
  intros Hok Hcnt Hd Hinv HQ. pose proof (len_nonneg contents).
  unfold unique_chunk. apply wp_bind, wp_gets. rewrite (mo_num _ _ _ Hok). cbv zeta.
  set (c1 := set_id (len contents) NO_DELTA c).
  apply wp_bind. unfold FP_Insert. apply wp_bind, wp_modify, wp_ret.
  apply wp_bind. unfold on_ext at 1. apply wp_modify, wp_bind, wp_gets.
  match goal with |- wpe _ _ _ ?s1 => assert (pending s contents t s1 /\ first_file s1) as [Hp1 Hf1] end.
  { split; [|exact Hinv]. split; try done. cbn. by rewrite s32_small by lia. }
  unfold first_file in Hf1. rewrite Hf1, andb_false_r.
  apply wp_bind. eapply (locality_base_chunk_ok _ contents origs t s c); try done; by destruct Hd; split.
Qed.

#[export] Instance locality_step : MethodStep process_one (fun _ => True) (fun _ => False) first_file True.
Proof using Type*.
  intros s contents origs c t l Hok Hinv Hcnt Hd _ _ Hnc. pose proof Hd as [_ _ _ _ _ D6].
  unfold process_one. apply wp_bind. eapply GenerateHash_ok; [exact Hd|].
  apply wp_bind. unfold FP_Find. apply wp_gets.
  destruct (FPindex s !! EVP_sha256 t) as [id|] eqn:Hfp.
  - destruct (known_id _ _ _ _ _ Hok Hnc Hfp) as [Hid Ho].
    rewrite (proj2 (Z.eqb_neq id (-1))) by lia.
    apply wp_bind. unfold known_chunk. apply wp_bind. eapply dup_chunk_ok; [done..|].
    intros c' d' Hc1 Hc2 Hc3 _ -> Hok'. apply wp_bind. unfold on_ext. apply wp_modify, wp_bind, wp_add_stat, wp_ret.
    apply wp_bind, record_chunk_ok. intros s' E1 E2 _ Eext E5%stat_kept_num E6. apply wp_ret. split; [done|].
    split; [unfold first_file; by rewrite Eext|]. eapply known_step; try done; [by rewrite E1, Hc1, Hc2|by rewrite E6, Hc3].
  - assert (t ∉ origs) as Hnew by (intros [? Hk]%(mo_known _ _ _ Hok); by rewrite Hfp in Hk).
    rewrite Z.eqb_refl. apply wp_bind. eapply locality_unique_chunk_ok; try done.
    intros c' s1 Hst Hi. apply wp_bind, record_chunk_ok.
    intros s2 E1 E2 _ Eext E5%stat_kept_num E6. apply wp_ret. split; [done|].
    split; [unfold first_file; by rewrite Eext|].
    destruct (finish_unique True s s1 s2 contents origs c c' t l t) as [S1 S2]; try done.
    split; [done|]. by eexists _, _, _.
Qed.
End First.

(** ** The files after the first

    The delta is encoded against the bytes that the LZ4 buffer happens to hold,
    as many as the neighbour has, but recorded against the neighbour. *)
Section Others.
Context `{HL : Lz4} `{HX : Xdelta} `{HD : Digest} `{HK : Kinds} `{!Lz4Laws} `{!XdeltaLaws}.
Implicit Types s : LocalDedup.

Lemma fetch_base_ok s contents nb cb y (Q : Chunk_t -> LocalDedup -> Prop) :
  store_ok (dataWrite_ s) contents -> 0 <= nb < 2 ^ 31 -> chunklist (dataWrite_ s) !! Z.to_nat nb = Some cb ->
  base_flag cb -> contents !! Z.to_nat nb = Some y ->
  (forall base d1, got (dataWrite_ s) contents cb y base d1 -> Q base (set_dw d1 s)) ->
  wp (fetch_base nb) Q s.
Proof using Type*.
  intros Hst Hnb Hcb Hbf Hy HQ. unfold fetch_base. rewrite s32_small by lia.
  apply wp_bind, wp_on_dw. unfold Get_Chunk_MetaInfo. eapply chunk_at_ok; [lia|exact Hcb|].
  replace (set_dw (dataWrite_ s) s) with s by (by destruct s).
  rewrite decide_False by (by destruct Hbf as [-> | ->]).
  apply wp_on_dw. eapply Get_Chunk_Info_ok; [exact Hst|lia|exact Hcb|exact Hy|]. exact HQ.
Qed.

(** What the buffer gives for a neighbour of [n] bytes. *)
Definition buffer_base s (n : Z) : bytes := ztake n (lz4ChunkBuffer s).

Lemma encode_local_ok s d1 contents t l c cb y base x u (Q : nat * Z -> LocalDedup -> Prop) nb :
  delivered (dataWrite_ s) c t l -> got (dataWrite_ s) contents cb y base d1 ->
  chunklist (dataWrite_ s) !! Z.to_nat nb = Some cb -> contents !! Z.to_nat nb = Some y -> chunkSize cb = len y ->
  len y <= len (lz4ChunkBuffer s) <= CONTAINER_MAX_SIZE ->
  xd3_encode_memory t (buffer_base s (len y)) (CONTAINER_MAX_SIZE * 2) = (0, Some x) ->
  (xd3_decode_memory x y (CONTAINER_MAX_SIZE * 2)).2 = Some u ->
  (forall dl d2 h1, encoded s contents u nb base dl x d2 h1 -> Q (dl, len x) (set_dw d2 s)) ->
  wp (encode_local c base) Q (set_dw d1 s).
Proof using Type*.
  intros Hd [G1 G2 G3 G4 G5 G6 G7] Hcb Hy Hyl Hbuf Hx Hu HQ. unfold encode_local.
  destruct (meta_fields _ _ G3) as (E1 & _). pose proof (len_nonneg y).
  assert (live (chunkPtr c) (dataWrite_ s)) as Hlive by (by rewrite (dl_ptr _ _ _ _ Hd)).
  pose proof (G6 _ _ _ Hlive (read_delivered _ _ _ _ Hd)) as Hread.
  apply wp_bind, wp_on_dw. rewrite (dl_size _ _ _ _ Hd). eapply load_ok; [exact Hread|].
  apply wp_bind, wp_gets, wp_bind. cbn [lz4ChunkBuffer set_dw].
  eapply wp_lift_ok; [rewrite E1, Hyl; apply read_object_ok; lia|]. unfold sub. rewrite zdrop_nonpos by lia.
  apply wp_bind. eapply wp_lift_ok; [unfold buffer_base in Hx; by rewrite Hx|].
  apply wp_bind, wp_on_dw. unfold wpe at 1, malloc. cbn [dataWrite_ set_dw].
  apply wp_bind, wp_on_dw. unfold wpe at 1, store. cbn [dataWrite_ set_dw mem set_mem heap next_loc].
  rewrite lookup_insert_eq. cbn [blk_size blk_data]. rewrite Z.ltb_irrefl, blit_nil, insert_insert_eq. apply wp_ret.
  pose proof (heap_fresh _ _ (next_loc (mem d1)) G1 (le_n _)) as Hfresh.
  match goal with |- Q _ (set_dw (set_mem ?m _) _) => change (Q (next_loc (mem d1), len x) (set_dw (set_mem m d1) s)) end.
  apply (HQ _ _ (heap (mem d1))). split; try done.
  - apply store_ok_mem; [done|]. intros l' Hl'. cbn in Hl' |- *.
    rewrite lookup_insert_ne by lia. apply (heap_fresh _ _ _ G1). lia.
  - exact (reads_mem _ _ _ G2).
  - by exists cb, y.
Qed.
(** The state after the delta was copied over the chunk and its block freed. *)
Lemma overwritten_ok s0 d contents u nb base dl x h1 t l :
  encoded s0 contents u nb base dl x d h1 -> heap (mem (dataWrite_ s0)) !! l = Some (mkBlock (len t) t) ->
  let m := mkMem (delete dl (<[l := mkBlock (len t) (blit t 0 x)]> (heap (mem d)))) (next_loc (mem d)) in
  heap (mem d) !! l = Some (mkBlock (len t) t) /\ l <> dl /\
  heap m = <[l := mkBlock (len t) (blit t 0 x)]> h1 /\ store_ok (set_mem m d) contents.
Proof using Type.
  intros [N1 N2 N3 N5 N6 N7] Hl m. pose proof (taken_grow _ _ _ _ _ _ N5 Hl) as Hl1. assert (l <> dl) as Hne by congruence.
  assert (heap m = <[l := mkBlock (len t) (blit t 0 x)]> h1) as Hm.
  { unfold m. cbn. rewrite N7. apply map_eq. intros k. rewrite lookup_delete, !lookup_insert. repeat case_decide; subst; congruence. }
  split; [by rewrite N7, lookup_insert_ne|]. split; [done|]. split; [done|]. apply store_ok_mem; [done|].
  intros l' Hl'. rewrite Hm. pose proof (heap_fresh _ _ l' N1 Hl') as Hf. rewrite N7 in Hf. rewrite lookup_insert in Hf |- *.
  repeat case_decide; subst; congruence.
Qed.

Lemma accept_delta_ok s0 s contents u nb base dl x h1 c t l (Q : Chunk_t -> LocalDedup -> Prop) :
  encoded s0 contents u nb base dl x (dataWrite_ s) h1 -> can_store (dataWrite_ s0) -> len contents < 2 ^ 31 - 2 ->
  chunkPtr c = PHeap l -> heap (mem (dataWrite_ s0)) !! l = Some (mkBlock (len t) t) -> chunkSize c = len t ->
  len t <= CONTAINER_MAX_SIZE -> 0 < len x <= len t -> 0 <= nb < 2 ^ 31 ->
  (forall c' s' d3, delta_of c nb (len x) c' -> store_ok d3 contents -> reads (dataWrite_ s0) d3 ->
     store_ok (dataWrite_ s') (contents ++ [x]) -> grown c' d3 (dataWrite_ s') ->
     heap (mem (dataWrite_ s')) = delete l h1 -> Q c' s') ->
  wp (accept_delta c dl (len x) nb) Q s.
Proof using Type*.
  intros Hen Hcan Hcnt Hp Hl Hsz Htm Hx Hnb HQ. pose proof (len_nonneg t). pose proof (len_nonneg contents).
  destruct (overwritten_ok _ _ _ _ _ _ _ _ _ _ _ Hen Hl) as (Hl1 & Hne & Hm & Hok3). pose proof Hen as [N1 N2 _ _ N6 N7].
  unfold accept_delta. rewrite s32_small by lia. cbv zeta.
  apply wp_bind, wp_on_dw. apply (load_ok _ _ x).
  { cbn [read_mem]. rewrite N7, lookup_insert_eq. cbn. rewrite read_object_ok by lia.
    unfold sub. by rewrite zdrop_nonpos, ztake_all by lia. }
  apply wp_bind. cbn [store_ptr chunkPtr set_base set_save]. rewrite Hp. apply wp_on_dw. unfold wpe at 1, store. cbn [dataWrite_ set_dw].
  rewrite Hl1. cbn [blk_size blk_data]. rewrite (proj2 (Z.ltb_ge (len t) (len x))) by lia.
  apply wp_bind, wp_on_dw. eapply free_ok.
  { cbn. rewrite lookup_insert_ne by congruence. rewrite N7. by rewrite lookup_insert_eq. }
  apply wp_bind. unfold StatsDelta. do 4 (apply wp_bind, wp_add_stat). apply wp_dce; [cbn; lia|].
  apply wp_bind. unfold on_ext. apply wp_modify, wp_bind, wp_add_stat, wp_bind, wp_add_stat, wp_bind, wp_on_dw.
  cbn [dataWrite_ set_stat set_ext set_dw mem set_mem heap next_loc].
  assert (reads (dataWrite_ s0) (set_mem (mkMem (delete dl (<[l := mkBlock (len t) (blit t 0 x)]> (heap (mem (dataWrite_ s))))) (next_loc (mem (dataWrite_ s)))) (dataWrite_ s))) as Hr3
    by (by apply reads_mem).
  eapply (Chunk_Insert_ok _ contents _ l _ x); [exact Hok3| |exact Hcnt|done|exact Hp| | |done| | |].
  - intros k. cbn. rewrite (rd_fs _ _ N2). apply Hcan.
  - cbn [mem set_mem]. rewrite Hm. by rewrite lookup_insert_eq.
  - cbn [read_mem mem set_mem]. rewrite Hm, lookup_insert_eq. cbn.
    rewrite read_object_ok; [by rewrite sub_blit_0|lia|lia| |rewrite len_blit; lia]. rewrite len_blit; lia.
  - lia.
  - cbn. lia.
  - intros d' Hok' Hins. apply wp_ret. eapply HQ; [|exact Hok3|exact Hr3|exact Hok'|by eapply inserted_grown|].
    + by split.
    + cbn [dataWrite_ set_dw]. rewrite (in_mem _ _ _ _ Hins). etransitivity; [exact (f_equal (delete l) Hm)|apply delete_insert_eq].
Qed.
(** The neighbour [nb] proposed for [t] is a base chunk of content [y]; xdelta
    makes [x] of [t] and the LZ4 buffer, and would make [u] of [x] and [y]. *)
Record misled s (contents : list bytes) (t y x u : bytes) (nb : Z) : Prop := {
  ml_base : exists cb, chunklist (dataWrite_ s) !! Z.to_nat nb = Some cb /\ base_flag cb;
  ml_content : contents !! Z.to_nat nb = Some y;
  ml_buffer : len y <= len (lz4ChunkBuffer s) <= CONTAINER_MAX_SIZE;
  ml_encode : xd3_encode_memory t (buffer_base s (len y)) (CONTAINER_MAX_SIZE * 2) = (0, Some x);
  ml_fits : len x <= len t;
  ml_decode : (xd3_decode_memory x y (CONTAINER_MAX_SIZE * 2)).2 = Some u;
  ml_length : len u = len t
}.

Lemma locality_delta_chunk_ok s0 s contents origs c t l y x u nb (Q : Chunk_t -> LocalDedup -> Prop) :
  meth_ok s0 contents origs -> dataWrite_ s = dataWrite_ s0 -> len contents < 2 ^ 31 - 2 ->
  delivered (dataWrite_ s) c t l -> chunkID c = len contents -> 0 <= nb -> misled s contents t y x u nb ->
  (forall c' s', chunkID c' = len contents -> HeaderFlag c' = HeaderFlag c -> store_ok (dataWrite_ s') (contents ++ [x]) ->
     plain (chunklist (dataWrite_ s')) (contents ++ [x]) (len contents) u ->
     (forall id v, plain (chunklist (dataWrite_ s)) contents id v -> plain (chunklist (dataWrite_ s')) (contents ++ [x]) id v) ->
     recipes (dataWrite_ s') = recipes (dataWrite_ s) -> writable (fs (dataWrite_ s')) = writable (fs (dataWrite_ s)) -> Q c' s') ->
  wp (delta_chunk c nb) Q s.
Proof using Type*.
  intros Hok Hdw Hcnt Hd Hid Hnb0 [(cb & Hcb & Hbf) Hy Hbuf Hx Hfit Hu Hlu] HQ. pose proof Hd as [D1 D2 D3 D4 D5 D6].
  pose proof (mo_store _ _ _ Hok) as Hst. rewrite <- Hdw in Hst.
  destruct (base_content _ _ _ _ cb Hok Hnb0 ltac:(by rewrite <- Hdw) Hbf) as (Hnb & y' & Hy' & Hyl & _). simplify_eq.
  destruct (xd3_success _ _ _ _ Hx) as (x' & [= <-] & Hx0).
  unfold delta_chunk. apply wp_bind. eapply (fetch_base_ok s); [exact Hst|lia|exact Hcb|exact Hbf|exact Hy|]. intros base d1 Hgot.
  apply wp_bind. eapply encode_local_ok; [exact Hd|exact Hgot|exact Hcb|exact Hy|exact Hyl|exact Hbuf|exact Hx|exact Hu|].
  intros dl d2 h1 Hen. rewrite D3, (proj2 (Z.ltb_ge _ _)) by lia. apply wp_bind.
  eapply (accept_delta_ok s (set_dw d2 s) contents u nb base dl x h1 c t l); try done; [rewrite Hdw; apply Hok|].
  intros c' s' d3 [C1 C2 C3 C4 C5 C6 [C7 C8]] Hok3 Hr Hok' Hg Hh. apply wp_bind, wp_on_dw.
  eapply (free_if_ok _ _ _ _ (delete l (heap (mem (dataWrite_ s))))); [exact Hok'|rewrite Hh; by eapply taken_delete; [apply Hen|]|].
  intros m _ Hok''. apply wp_ret. pose proof Hg as [(off & cid & Hlist) Hrec Hhd Hwr].
  apply HQ; [by rewrite C1|done|exact Hok''| | |cbn; by rewrite Hrec, (rd_rec _ _ Hr)|cbn; by rewrite Hwr, (rd_fs _ _ Hr)].
  - eapply (delta_plain s contents u nb base dl x d2 h1 c' d3); try done; [|by rewrite C2, D3, Hlu|lia].
    split; [by exists off, cid|done..].
  - intros id v Hv. cbn. rewrite Hlist. apply plain_app. eapply plain_meta; [apply (rd_meta _ _ Hr)|exact Hv].
Qed.
End Others.

(** ** Properties *)

(** C35: the locality method does not keep what it is given.  After the first
    file, in a consistent store, let a new chunk [t] follow a duplicate, so that the neighbour of its
    place is proposed as its base, and let this be a base chunk of content [y];
    let [x] be the delta xdelta makes of [t] and of the first bytes of the LZ4
    buffer, as many as [y] has (and the buffer holds), which is what the code hands it, with no more
    bytes than [t]; and let xdelta decode [x] against [y] to [u], of the size of
    [t].  Then [ProcessTrace] accepts the delta without an error, and
    [restoreFile] writes [u] where [t] was, after the chunks [ts] the file had
    before. *)
Theorem locality_restores_other_bytes `{HL : Lz4} `{HX : Xdelta} `{HD : Digest} `{!Lz4Laws} `{!XdeltaLaws}
    (s : LocalDedup) (contents origs : list bytes) (c : Chunk_t) (t : bytes) (l : nat) (y x u : bytes) (name : string) (ts : list bytes)
    (Hok : meth_ok s contents origs) (Hcnt : len contents < 2 ^ 31 - 2) (Hd : delivered (dataWrite_ s) c t l)
    (Hnew : FPindex s !! EVP_sha256 t = None) (Hv : 0 < Version (ext s))
    (Hnb : neighbour (next_gap (ext s)) < w64 (len contents - 1))
    (Hm : misled s contents t y x u (neighbour (next_gap (ext s))))
    (Hname : filename (recipes (dataWrite_ s)) = name) (Hw : writable (fs (dataWrite_ s)) (restore_path name) = true)
    (Hts : Forall2 (stands_for origs) (default [] (RecipeMap (recipes (dataWrite_ s)) !! name)) ts) :
  wp (_ ← process_one c; on_dw (restoreFile name))
    (fun _ s' => files (fs (dataWrite_ s')) !! restore_path name = Some (concat ts ++ u)) s.
Proof.
  pose proof Hd as [_ _ _ _ _ D6]. pose proof (len_nonneg contents).
  unfold process_one. apply wp_bind, wp_bind. eapply GenerateHash_ok; [exact Hd|].
  apply wp_bind. unfold FP_Find. apply wp_gets. rewrite Hnew, Z.eqb_refl.
  apply wp_bind. unfold unique_chunk. apply wp_bind, wp_gets. rewrite (mo_num _ _ _ Hok). cbv zeta.
  apply wp_bind. unfold FP_Insert. apply wp_bind, wp_modify, wp_ret, wp_bind. unfold on_ext at 1. apply wp_modify, wp_bind, wp_gets.
  match goal with |- wpe _ _ _ ?s1 => set (sg := s1) end. change (ext sg) with (next_gap (ext s)).
  cbn [chunkID set_id]. rewrite (proj2 (Z.ltb_lt _ _) Hnb), (proj2 (Z.ltb_lt 0 _)) by done. cbn [andb]. apply wp_bind.
  eapply (locality_delta_chunk_ok s sg contents origs _ t l y x u); [exact Hok|done|exact Hcnt|by destruct Hd; split|done|
    unfold neighbour; apply w64_bound|by destruct Hm; split|].
  intros c' s' C1 C2 Hok' Hu Hold Hr Hwr. change (dataWrite_ sg) with (dataWrite_ s) in *.
  apply wp_bind, wp_add_stat, wp_bind, wp_add_stat, wp_ret, wp_bind, record_chunk_ok.
  intros s2 E1 _ _ _ _ _. apply wp_ret, wp_on_dw. cbn [dataWrite_ set_stat] in E1.
  change (HeaderFlag c') with (HeaderFlag c') in E1. rewrite C2, C1 in E1. cbn [HeaderFlag set_id] in E1. rewrite D6 in E1.
  rewrite E1. eapply wp_mono; [eapply (restoreFile_ok name (default [] (RecipeMap (recipes (dataWrite_ s)) !! name) ++ [len contents]) (ts ++ [u]))|].
  - by apply store_ok_recipes.
  - cbn. by rewrite Hwr.
  - cbn. rewrite Hr, Hname. unfold push_recipe. by rewrite lookup_insert_eq.
  - cbn [chunklist set_recipes]. apply Forall2_app; [|by repeat constructor].
    eapply Forall2_impl; [exact Hts|]. intros id v [Hid0 Hv']. apply Hold. apply (mo_plain _ _ _ Hok) in Hv'. by rewrite Z2Nat.id in Hv'.
  - intros [] d' (Hf & _). cbn. rewrite Hf, concat_app. cbn. by rewrite app_nil_r.
Qed.

(** A store of two chunks, made by the first file, and a third chunk in a block
    of its own; a duplicate was just seen in the second file. *)
Definition demo_blocks : Mem := mkMem (list_to_map [(0%nat, mkBlock 2 [1; 1]); (1%nat, mkBlock 3 [7; 8; 9]); (2%nat, mkBlock 2 [7; 8])]) 3.

Definition demo_trace : trace := [(queue_chunk 0 [1; 1], [1; 1], 0%nat); (queue_chunk 1 [7; 8; 9], [7; 8; 9], 1%nat)].

Definition demo_start : LocalDedup := new_Abs (new_dataWrite demo_blocks open_fs) new_LExt.

Definition second_file (s : LocalDedup) : LocalDedup :=
  let r := recipes (dataWrite_ s) in
  set_ext (mkLExt UINT64_MAX DUP 0 1 0 true 0 0)
    (set_dw (set_recipes (mkRecipes "v2" (RecipeMap r) (RecipeMap_header r)) (dataWrite_ s)) s).

Definition demo_state : LocalDedup :=
  match @process_queue _ (@process_one StoreCodec.lz4 StoreCodec.same StoreCodec.digest) ((fun x => x.1.1) <$> demo_trace) demo_start with
  | Ok (_, s) => second_file s
  | Err _ => demo_start
  end.

Lemma demo_state_ok : exists contents origs, @meth_ok _ StoreCodec.lz4 StoreCodec.same StoreCodec.digest _ demo_state contents origs /\
  len contents = 2 /\ (forall y, y ∈ origs -> y ∈ [[1; 1]; [7; 8; 9]]).
Proof.
  assert (@meth_ok _ StoreCodec.lz4 StoreCodec.same StoreCodec.digest _ demo_start [] []) as H0.
  { apply new_meth_ok; [|done]. intros l Hl. cbn in *. by rewrite !lookup_insert_ne by lia. }
  assert (delivered_all (dataWrite_ demo_start) demo_trace) as Hdel.
  { split; [apply (bool_decide_unpack _); by vm_compute|]. repeat constructor; by vm_compute. }
  assert (@collision_free StoreCodec.digest ([] ++ datas demo_trace)) as Hcf by (apply two_collision_free; by vm_compute).
  destruct (wp_result (@process_queue _ (@process_one StoreCodec.lz4 StoreCodec.same StoreCodec.digest) ((fun x => x.1.1) <$> demo_trace))
    (fun _ s => exists contents origs, @meth_ok _ StoreCodec.lz4 StoreCodec.same StoreCodec.digest _ s contents origs /\
       (forall y, y ∈ origs <-> y ∈ [[1; 1]; [7; 8; 9]])) demo_start) as (go & s & He & contents & origs & Hok & Hset).
  { eapply (@trace_ok _ StoreCodec.lz4 StoreCodec.same StoreCodec.digest _ process_one (fun _ => True) (fun _ => False) first_file True
      (@locality_step StoreCodec.lz4 StoreCodec.same StoreCodec.digest _ StoreCodec.lz4_laws StoreCodec.same_laws) demo_trace demo_start [] []);
      [exact H0|done|by vm_compute|exact Hdel|by apply Forall_true|constructor|exact Hcf|].
    intros s' ids contents' k Hk _ _ _ Hset _ _ _. exists contents', ([] ++ k). split; [exact Hk|exact Hset]. }
  assert (demo_state = second_file s) as -> by (unfold demo_state; by rewrite He).
  exists contents, origs. split; [|split; [|intros y; apply Hset]].
  - eapply (meth_ok_same (X := LExt) s); [exact Hok|done..].
  - assert (stats s uniquechunkNum = 2) as Hn.
    { assert (match @process_queue _ (@process_one StoreCodec.lz4 StoreCodec.same StoreCodec.digest) ((fun x => x.1.1) <$> demo_trace) demo_start with
              | Ok (_, s1) => stats s1 uniquechunkNum = 2 | Err _ => False end) as Hn by (by vm_compute). by rewrite He in Hn. }
    by rewrite <- (mo_num _ _ _ Hok).
Qed.

Lemma demo_buffer : lz4ChunkBuffer demo_state = [7; 8; 9].
Proof. by vm_compute. Qed.

Lemma locality_restores_other_bytes_witness :
  exists u, u <> [7; 8] /\
    wp (_ ← @process_one StoreCodec.lz4 StoreCodec.same StoreCodec.digest (queue_chunk 2 [7; 8]);
        on_dw (@restoreFile StoreCodec.lz4 StoreCodec.same "v2"))
      (fun _ s' => files (fs (dataWrite_ s')) !! restore_path "v2" = Some (concat [] ++ u)) demo_state.
Proof.
  destruct demo_state_ok as (contents & origs & Hok & Hlen & Horigs).
  assert (exists cb, chunklist (dataWrite_ demo_state) !! 0%nat = Some cb /\ base_flag cb /\ chunkSize cb = 2) as (cb & Hcb & Hbf & Hsz).
  { eexists. split; [vm_compute; reflexivity|]. split; [by left|done]. }
  destruct (base_content _ _ _ 0 cb Hok ltac:(lia) Hcb Hbf) as (_ & y & Hy & Hyl & Hyb & _ & Hyo).
  rewrite Hsz in Hyl. exists y. split.
  { intros ->. assert ([7; 8] ∉ [[1; 1]; [7; 8; 9]]) as Hn by (apply (bool_decide_unpack _); by vm_compute). by apply Hn, Horigs. }
  refine (@locality_restores_other_bytes StoreCodec.lz4 StoreCodec.same StoreCodec.digest StoreCodec.lz4_laws StoreCodec.same_laws
    demo_state contents origs (queue_chunk 2 [7; 8]) [7; 8] 2 y [1] y "v2" [] Hok _ _ _ _ _ _ _ _ _).
  - by rewrite Hlen.
  - by split.
  - by vm_compute.
  - by vm_compute.
  - rewrite Hlen. by vm_compute.
  - assert (neighbour (next_gap (ext demo_state)) = 0) as -> by by vm_compute. split.
    + exists cb. split; [exact Hcb|exact Hbf].
    + exact Hy.
    + rewrite <- Hyl, demo_buffer. by split.
    + unfold buffer_base. by rewrite <- Hyl, demo_buffer.
    + done.
    + done.
    + by rewrite <- Hyl.
  - by vm_compute.
  - by vm_compute.
  - replace (default [] _) with ([] : list Z) by (by vm_compute). constructor.
Defined.
