(* ===== verification/Odess.v ===== *)
(** * Migratory compression: the Odess method

    [src/method/Odess.cc], run by [src/app/main.cc]: chunks are grouped
    by their first super-feature ([ProcessTrace]), the groups are written one
    after the other to [output.me] ([Migratory]), and that file is compressed
    as a whole ([MLC]); [OriGenerate] and [OriLC] do the same for the files in
    their original order, as the baseline.  Nothing is deduplicated, and the
    blocks of the chunks are kept for good. *)

From stdpp Require Import gmap.
From S2P Require Import Prelude Lz4 Define XXHash Features Codec DataWrite Store Restore AbsMethod MethodSpec.

(** The members the class uses: the feature generator of [table], [hashTable]
    and [insertionOrder]. *)
Record OExt := mkOExt {
  generator : FeatureGenerator;
  hashTable : gmap Z (list Chunk_t);
  insertionOrder : list Z
}.

Definition new_OExt (g : FeatureGenerator) : OExt := mkOExt g ∅ [].

(** [hashTable[firstFeature].push_back(chunk)] and the record of a new key. *)
Definition insert_chunk (key : Z) (c : Chunk_t) (e : OExt) : OExt :=
  mkOExt (generator e)
    (<[key := default [] (hashTable e !! key) ++ [c]]> (hashTable e))
    (match hashTable e !! key with
     | None => insertionOrder e ++ [key]
     | Some _ => insertionOrder e
     end).

Definition set_generator (g : FeatureGenerator) (e : OExt) : OExt :=
  mkOExt g (hashTable e) (insertionOrder e).

(** [long long firstFeature = superfeature[0]]. *)
Definition s64 (x : Z) : Z := w64 (x + 2 ^ 63) - 2 ^ 63.

Section Odess.
Context `{HL : Lz4} `{HX : Xdelta} `{HD : Digest}.

Definition Odess : Type := Abs OExt.

Definition super_features (c : Chunk_t) : M Odess (list Z) :=
  b ← on_dw (load (chunkPtr c) (chunkSize c));
  g ← gets (fun s => generator (ext s));
  let '(sfs, g) := GenerateSuperFeatures g b in
  modify (fun s => set_ext (set_generator g (ext s)) s) ;;
  mret sfs.

Definition process_one (c : Chunk_t) : M Odess bool :=
  id ← gets (fun s => stats s uniquechunkNum);
  let c := mkChunk id (chunkSize c) (saveSize c) (chunkPtr c) (basechunkID c) (deltaFlag c)
             (loadFromDisk c) (HeaderFlag c) (offset c) (containerID c) in
  add_stat uniquechunkNum 1 ;;
  add_stat logicalchunkSize (chunkSize c) ;;
  sfs ← super_features c;
  sf ← lift (from_option_or EmptyAccess (head sfs));
  modify (fun s => set_ext (insert_chunk (s64 sf) c (ext s)) s) ;;
  add_stat localchunkSize (chunkSize c) ;;
  mret true.

Definition ProcessTrace (queue : list Chunk_t) : M Odess unit :=
  go ← process_queue process_one queue;
  if (go : bool) then modify (fun s => set_version (s32 (ads_Version s + 1)) s) else mret tt.

(** ** [Migratory] *)

Fixpoint write_chunks (cs : list Chunk_t) : M Odess bytes :=
  match cs with
  | [] => mret []
  | c :: cs' => b ← on_dw (load (chunkPtr c) (chunkSize c)); bs ← write_chunks cs'; mret (b ++ bs)
  end.

(** The groups in the order of their keys; [hashTable[key]] of a missing key
    is an empty group. *)
Fixpoint write_groups (keys : list Z) : M Odess bytes :=
  match keys with
  | [] => mret []
  | key :: keys' =>
      e ← gets ext;
      b ← write_chunks (default [] (hashTable e !! key));
      bs ← write_groups keys';
      mret (b ++ bs)
  end.

(** The file is opened first; a failure is printed. *)
Definition Migratory : M Odess unit :=
  ok ← gets (fun s => writable (fs (dataWrite_ s)) "output.me"%string);
  if (ok : bool) then
    e ← gets ext;
    out ← write_groups (insertionOrder e);
    _ ← on_dw (write_file "output.me" out);
    mret tt
  else mret tt.

(** ** Compressing whole files *)

(** [CompressLargeFile] with its files; a file that does not open makes the
    result 0. *)
Definition compress_file {X} (input output : string) : M (Abs X) Z :=
  i ← gets (fun s => files (fs (dataWrite_ s)) !! input);
  w ← gets (fun s => writable (fs (dataWrite_ s)) output);
  match i with
  | Some bs =>
      if (w : bool) then
        r ← lift (from_option_or OutOfFuel (CompressLargeFile bs));
        _ ← on_dw (write_file output r.2);
        mret r.1
      else mret 0
  | None => mret 0
  end.

Definition MLC : M Odess unit :=
  n ← compress_file "output.me" "output.me.lz4";
  modify (set_stat MLCSize n).

Definition OriLC {X} (inputFilePath : string) : M (Abs X) unit :=
  n ← compress_file inputFilePath "ori.lz4";
  modify (set_stat oriLCSize n).

(** [OriGenerate] with its files: [ori] is opened, and so truncated, first. *)
Definition generate_ori {X} (readfileList : list string) (backupNum : Z) : M (Abs X) unit :=
  ok ← on_dw (write_file "ori" []);
  if (ok : bool) then
    disk ← gets (fun s => files (fs (dataWrite_ s)));
    _ ← on_dw (write_file "ori" (OriGenerate disk readfileList backupNum));
    mret tt
  else mret tt.

(** The calls of [main] after its loop, in [main.cc]. *)
Definition finish (readfileList : list string) (backupNum : Z) : M Odess unit :=
  Migratory ;;
  MLC ;;
  generate_ori readfileList backupNum ;;
  OriLC "ori".
End Odess.

(** ** Grouping *)

(** The distinct elements, in the order of their first occurrences. *)
Fixpoint first_occurrences (ks : list Z) : list Z :=
  match ks with
  | [] => []
  | k :: ks' => k :: filter (fun k' => k' <> k) (first_occurrences ks')
  end.

Section Group.
Context {A : Type} (key : A -> Z).
Implicit Types ts : list A.

Definition group (ts : list A) (k : Z) : list A := filter (fun t => key t = k) ts.

(** The elements of [ts], those with equal keys together. *)
Definition grouped (ts : list A) : list A := concat (group ts <$> first_occurrences (key <$> ts)).

Lemma elem_of_first_occurrences ks k : k ∈ first_occurrences ks <-> k ∈ ks.
Proof.
  induction ks as [|k' ks IH]; [done|]. cbn. rewrite !elem_of_cons, list_elem_of_filter, IH.
  destruct (decide (k = k')); tauto.
Qed.

Lemma NoDup_first_occurrences ks : NoDup (first_occurrences ks).
Proof.
  induction ks as [|k ks IH]; [constructor|]. constructor; [|by apply NoDup_filter].
  rewrite list_elem_of_filter. tauto.
Qed.

Lemma first_occurrences_snoc ks k :
  first_occurrences (ks ++ [k]) =
    if decide (k ∈ ks) then first_occurrences ks else first_occurrences ks ++ [k].
Proof.
  induction ks as [|k' ks IH]; [by rewrite decide_False by apply not_elem_of_nil|].
  cbn [app first_occurrences]. rewrite IH. destruct (decide (k ∈ ks)) as [Hin|Hin].
  - rewrite decide_True; [done|by right].
  - destruct (decide (k = k')) as [->|Hne].
    + rewrite decide_True by left. rewrite filter_app, filter_cons_False by tauto. cbn. by rewrite app_nil_r.
    + rewrite decide_False by (intros [?|?]%elem_of_cons; done).
      rewrite filter_app, filter_cons_True by done. done.
Qed.

Lemma group_cons t ts k : group (t :: ts) k = (if decide (key t = k) then [t] else []) ++ group ts k.
Proof. unfold group. rewrite filter_cons. by case_decide. Qed.

(** An element joins one group only. *)
Lemma groups_cons t ts ks : NoDup ks -> key t ∈ ks ->
  concat (group (t :: ts) <$> ks) ≡ₚ t :: concat (group ts <$> ks).
Proof.
  induction 1 as [|k ks Hk Hnd IH]; intros Hin; [by apply not_elem_of_nil in Hin|].
  cbn [fmap list_fmap concat]. rewrite group_cons. case_decide as Hkey.
  - cbn [app]. do 2 f_equiv. subst k. clear -Hk.
    replace (group (t :: ts) <$> ks) with (group ts <$> ks); [done|]. apply list_fmap_ext. intros i k Hi.
    rewrite group_cons, decide_False; [done|]. intros He. apply Hk. rewrite He. by eapply list_elem_of_lookup_2.
  - apply elem_of_cons in Hin as [?|Hin]; [done|]. cbn [app]. rewrite (IH Hin). by rewrite Permutation_middle.
Qed.

Lemma group_perm ts : forall ks, NoDup ks -> (forall t, t ∈ ts -> key t ∈ ks) ->
  concat (group ts <$> ks) ≡ₚ ts.
Proof.
  induction ts as [|t ts IH]; intros ks Hnd Hin.
  { clear. induction ks; [done|]. done. }
  rewrite groups_cons; [|done|apply Hin; by left].
  f_equiv. apply IH; [done|]. intros u Hu. apply Hin. by right.
Qed.

Lemma grouped_perm ts : grouped ts ≡ₚ ts.
Proof.
  apply group_perm; [apply NoDup_first_occurrences|]. intros t Ht.
  rewrite elem_of_first_occurrences. by apply list_elem_of_fmap_2.
Qed.

Lemma group_snoc ts t k : group (ts ++ [t]) k = group ts k ++ (if decide (key t = k) then [t] else []).
Proof. unfold group. by rewrite filter_app. Qed.

Lemma group_nil ts k : k ∉ key <$> ts -> group ts k = [].
Proof.
  intros Hk. induction ts as [|t ts IH]; [done|]. cbn in Hk. apply not_elem_of_cons in Hk as [Hne Hk].
  unfold group. rewrite filter_cons_False by congruence. by apply IH.
Qed.
End Group.

(** ** The index built by [ProcessTrace] *)

(** The key of a chunk: its first super-feature, as a signed integer. *)
Definition chunk_key (g : FeatureGenerator) (t : bytes) : Z :=
  s64 (default 0 (head (GenerateSuperFeatures g t).1)).

Section Process.
Context `{HL : Lz4} `{HX : Xdelta} `{HD : Digest}.
Context (draws : list Z).
Implicit Types s : Odess.

Definition gen0 : FeatureGenerator := new_FeatureGenerator draws.
Definition key0 : bytes -> Z := chunk_key gen0.

Definition holds (d : dataWrite) (c : Chunk_t) (t : bytes) : Prop := read_mem (chunkPtr c) (chunkSize c) d = Ok t.

(** The state after the chunks [ts] were processed. *)
Record indexed (ts : list bytes) s : Prop := {
  ix_gen : exists f, generator (ext s) = set_features f gen0;
  ix_keys : insertionOrder (ext s) = first_occurrences (key0 <$> ts);
  ix_none : forall k, hashTable (ext s) !! k = None <-> k ∉ key0 <$> ts;
  ix_groups : forall k, Forall2 (holds (dataWrite_ s)) (default [] (hashTable (ext s) !! k)) (group key0 ts k);
  ix_size : stats s logicalchunkSize = w64 (len (concat ts))
}.

Lemma new_indexed d : indexed [] (new_Abs d (new_OExt gen0)).
Proof using Type.
  split; try done.
  - by exists (replicate 12 0).
  - intros k. split; [intros _; apply not_elem_of_nil|]. intros _. apply lookup_empty.
Qed.

Lemma generate_again f t : GenerateSuperFeatures (set_features f gen0) t = GenerateSuperFeatures gen0 t.
Proof using Type. done. Qed.

Lemma generate_head t : exists sf sfs g, GenerateSuperFeatures gen0 t = (sf :: sfs, g) /\ key0 t = s64 sf /\
  exists f, g = set_features f gen0.
Proof using Type.
  unfold key0, chunk_key. unfold GenerateSuperFeatures, MakeSuperFeatures.
  cbn -[XXH64 OdessResemblanceDetect]. eexists _, _, _. split; [reflexivity|]. split; [done|].
  unfold OdessResemblanceDetect. by eexists.
Qed.

(** Adding a chunk to its group. *)
Lemma insert_chunk_indexed ts t c s s' g' :
  indexed ts s -> holds (dataWrite_ s) c t -> (exists f, g' = set_features f gen0) ->
  dataWrite_ s' = dataWrite_ s -> ext s' = insert_chunk (key0 t) c (set_generator g' (ext s)) ->
  stats s' logicalchunkSize = (stats s logicalchunkSize + len t)%u64 ->
  indexed (ts ++ [t]) s'.
Proof using Type.
  intros [I2 I3 I4 I5 I6] Hc Hg E1 E2 E3. split; rewrite ?E2, ?E1; try done.
  - unfold insert_chunk. cbn [insertionOrder set_generator hashTable]. rewrite fmap_app.
    cbn [fmap list_fmap]. rewrite first_occurrences_snoc, I3.
    destruct (hashTable (ext s) !! key0 t) eqn:Hk.
    + rewrite decide_True; [done|]. destruct (decide (key0 t ∈ key0 <$> ts)) as [?|Hn]; [done|].
      apply I4 in Hn. congruence.
    + rewrite decide_False; [done|]. by apply I4.
  - intros k. unfold insert_chunk. cbn [hashTable set_generator]. rewrite lookup_insert, fmap_app, not_elem_of_app.
    cbn [fmap list_fmap]. rewrite list_elem_of_singleton, <- I4. case_decide as Hk.
    + split; [done|]. intros [_ []]. congruence.
    + split; [intros ?; split; [done|congruence]|tauto].
  - intros k. unfold insert_chunk. cbn [hashTable set_generator]. rewrite lookup_insert, group_snoc.
    case_decide as Hk.
    + subst k. cbn [default]. apply Forall2_app; [apply I5|]. by repeat constructor.
    + rewrite app_nil_r. apply I5.
  - rewrite E3, I6, concat_app, len_app. cbn [concat]. rewrite app_nil_r. apply w64_add_l.
Qed.

Lemma odess_process_one_ok ts s c t l :
  indexed ts s -> delivered (dataWrite_ s) c t l ->
  wp (process_one c) (fun go s' => go = true /\ indexed (ts ++ [t]) s' /\ dataWrite_ s' = dataWrite_ s) s.
Proof using Type.
  intros Hi Hd. pose proof Hi as [[f I2] I3 I4 I5 I6]. pose proof (read_delivered _ _ _ _ Hd) as Hr.
  unfold process_one. apply wp_bind, wp_gets. cbv zeta. apply wp_bind, wp_add_stat, wp_bind, wp_add_stat.
  cbn [chunkSize chunkPtr]. apply wp_bind. unfold super_features. cbn [chunkSize chunkPtr].
  apply wp_bind, wp_on_dw. cbn [dataWrite_ set_stat].
  eapply load_ok; [rewrite (dl_size _ _ _ _ Hd); exact Hr|].
  apply wp_bind, wp_gets. cbn [ext set_stat set_dw]. rewrite I2, generate_again.
  destruct (generate_head t) as (sf & sfs & g & -> & Hkey & Hg).
  apply wp_bind, wp_modify, wp_ret. apply wp_bind. eapply wp_lift_ok; [reflexivity|].
  apply wp_bind, wp_modify, wp_bind, wp_add_stat, wp_ret. split; [done|]. split; [|done].
  refine (insert_chunk_indexed ts t _ s _ g Hi _ Hg _ _ _); [| |by rewrite Hkey|].
  - unfold holds. cbn [chunkPtr chunkSize]. by rewrite (dl_size _ _ _ _ Hd).
  - done.
  - simp_stats. cbn [stats set_ext]. simp_stats. cbn [stats set_dw]. simp_stats. by rewrite (dl_size _ _ _ _ Hd).
Qed.

(** Every chunk of a trace, and what [ProcessTrace] does when it is over. *)
Lemma odess_queue_ok tr : forall ts s,
  indexed ts s -> Forall (fun x => delivered (dataWrite_ s) x.1.1 x.1.2 x.2) tr ->
  wp (process_queue process_one ((fun x => x.1.1) <$> tr))
     (fun go s' => go = true /\ indexed (ts ++ datas tr) s' /\ dataWrite_ s' = dataWrite_ s) s.
Proof using Type.
  induction tr as [|x tr IH]; intros ts s Hi HF.
  { apply wp_ret. split; [done|]. unfold datas. cbn. by rewrite app_nil_r. }
  inversion HF as [|? ? Hd HF']; subst. cbn [fmap list_fmap process_queue]. apply wp_bind.
  eapply wp_mono; [by eapply odess_process_one_ok|]. intros go s' (-> & Hi' & Hdw). cbv beta iota.
  eapply wp_mono; [apply IH; [done|by rewrite Hdw]|]. intros go s'' (-> & Hi'' & Hdw'). split; [done|].
  unfold datas in *. cbn [fmap list_fmap]. rewrite <- app_assoc in Hi''. split; [done|by rewrite Hdw'].
Qed.

Lemma odess_trace_ok tr ts s :
  indexed ts s -> Forall (fun x => delivered (dataWrite_ s) x.1.1 x.1.2 x.2) tr ->
  wp (ProcessTrace ((fun x => x.1.1) <$> tr))
     (fun _ s' => indexed (ts ++ datas tr) s' /\ dataWrite_ s' = dataWrite_ s) s.
Proof using Type.
  intros Hi HF. unfold ProcessTrace. apply wp_bind. eapply wp_mono; [by apply odess_queue_ok|].
  intros go s' (-> & Hi' & Hdw). cbv beta iota. apply wp_modify. split; [|done]. by destruct Hi'.
Qed.

(** The index lives on as long as its chunks can be read. *)
Lemma indexed_readable ts s d' :
  indexed ts s -> (forall p n x, read_mem p n (dataWrite_ s) = Ok x -> read_mem p n d' = Ok x) -> indexed ts (set_dw d' s).
Proof using Type.
  intros [I1 I2 I3 I4 I5] Hr. split; try done. intros k. eapply Forall2_impl; [apply I4|].
  intros c t. apply Hr.
Qed.

Lemma write_chunks_ok cs ts s : Forall2 (holds (dataWrite_ s)) cs ts ->
  wp (write_chunks cs) (fun bs s' => bs = concat ts /\ s' = s) s.
Proof using Type.
  intros HF. induction HF as [|c t cs ts Hc _ IH]; [by apply wp_ret|]. cbn [write_chunks].
  apply wp_bind, wp_on_dw. eapply load_ok; [exact Hc|].
  replace (set_dw (dataWrite_ s) s) with s by (by destruct s).
  apply wp_bind. eapply wp_mono; [exact IH|]. intros bs s' [-> ->]. by apply wp_ret.
Qed.

Lemma write_groups_ok ts s ks : indexed ts s ->
  wp (write_groups ks) (fun bs s' => bs = concat (concat (group key0 ts <$> ks)) /\ s' = s) s.
Proof using Type.
  intros Hi. induction ks as [|k ks IH]; [by apply wp_ret|]. cbn [write_groups].
  apply wp_bind, wp_gets, wp_bind.
  eapply wp_mono; [eapply write_chunks_ok, (ix_groups _ _ Hi)|]. intros bs s' [-> ->].
  apply wp_bind. eapply wp_mono; [exact IH|]. intros bs s' [-> ->]. apply wp_ret.
  split; [|done]. cbn [fmap list_fmap concat]. by rewrite concat_app.
Qed.

Lemma migratory_ok ts s (Q : unit -> Odess -> Prop) :
  indexed ts s -> writable (fs (dataWrite_ s)) "output.me" = true ->
  Q tt (set_dw (put_file "output.me" (concat (grouped key0 ts)) (dataWrite_ s)) s) ->
  wp Migratory Q s.
Proof using Type.
  intros Hi Hw HQ. unfold Migratory. apply wp_bind, wp_gets. rewrite Hw.
  apply wp_bind, wp_gets, wp_bind. eapply wp_mono; [by apply write_groups_ok|].
  intros bs s' [-> ->]. rewrite (ix_keys _ _ Hi). apply wp_bind, wp_on_dw, write_file_ok; [done|]. by apply wp_ret.
Qed.
End Process.

(** ** Whole-file compression and its inverse *)

Section LargeFileRoundTrip.
Context `{HL : Lz4} `{!Lz4Laws} (block : Z).
Context (Hblock : 0 < block <= LZ4_MAX_INPUT_SIZE).

Lemma bound_mono a : 0 <= a <= block -> LZ4_compressBound a <= LZ4_compressBound block < 2 ^ 31.
Proof using Hblock.
  unfold LZ4_compressBound, LZ4_MAX_INPUT_SIZE in *. intros Ha. rewrite !w32_small, !(proj2 (Z.ltb_ge _ _)) by lia.
  Z.to_euclidean_division_equations; lia.
Qed.

Definition nblocks (input : bytes) : Z := (len input + block - 1) / block.

Lemma nblocks_step (input : bytes) : input <> [] -> nblocks input = 1 + nblocks (zdrop block input).
Proof using Hblock.
  intros Hne. unfold nblocks. pose proof (len_nonneg input) as Hn.
  assert (len input <> 0) by (by intros ?%len_0_nil). rewrite len_zdrop, (Z.max_r 0 block) by lia.
  destruct (Z.le_gt_cases (len input) block).
  - replace (Z.max 0 (len input - block)) with 0 by lia. assert ((0 + block - 1) / block = 0) as -> by (apply Z.div_small; lia).
    symmetry. apply (Z.div_unique _ _ _ (len input - 1)); lia.
  - replace (Z.max 0 (len input - block)) with (len input - block) by lia.
    replace (len input + block - 1) with (len input - block + block - 1 + 1 * block) by lia.
    rewrite Z.div_add by lia. lia.
Qed.

Lemma is_bytes_split n bs : is_bytes bs -> is_bytes (ztake n bs) /\ is_bytes (zdrop n bs).
Proof using Type.
  intros Hb. rewrite <- (ztake_zdrop n bs) in Hb. unfold is_bytes in *. rewrite forallb_app in Hb.
  by apply andb_prop_elim in Hb.
Qed.

(** Reading back one block. *)
Lemma expand_block (b old : bytes) n out rest fuel r :
  is_bytes b -> len b <= block -> LZ4_compress_fast b old (LZ4_compressBound block) 3 = (n, out) -> 0 < n ->
  expand_blocks fuel block rest = Some r ->
  expand_blocks (S fuel) block (le_put 4 n ++ ztake n out ++ rest) = Some (b ++ r).
Proof using Type*.
  intros Hb Hl Hc Hn Hr. pose proof (len_nonneg b). pose proof (bound_mono (len b) ltac:(lia)) as [_ H31].
  destruct (lz4_fits b old (LZ4_compressBound block) 3 n out Hb ltac:(lia) H31 Hc Hn) as (H1 & H2 & _).
  assert (len (ztake n out) = n) as Hz by (rewrite len_ztake; lia).
  assert (exists x xs, le_put 4 n ++ ztake n out ++ rest = x :: xs) as (x & xs & Hx) by (by eexists _, _).
  cbn [expand_blocks]. rewrite Hx, <- Hx.
  assert (ztake 4 (le_put 4 n ++ ztake n out ++ rest) = le_put 4 n) as ->.
  { pose proof (len_le_put 4 n) as H4. rewrite ztake_app_le by lia. apply ztake_all. lia. }
  rewrite le_get_put, Z.mod_small by lia.
  assert (sub 4 n (le_put 4 n ++ ztake n out ++ rest) = ztake n out) as ->.
  { unfold sub. rewrite (zdrop_app_len (le_put 4 n)). rewrite <- Hz at 1. apply ztake_app_len. }
  assert (zdrop (4 + n) (le_put 4 n ++ ztake n out ++ rest) = rest) as ->.
  { rewrite zdrop_app_ge by (rewrite len_le_put; lia). rewrite len_le_put.
    replace (4 + n - Z.of_nat 4) with (len (ztake n out)) by lia. apply zdrop_app_len. }
  unfold LZ4_MAX_INPUT_SIZE in *.
  destruct (lz4_roundtrip b old (LZ4_compressBound block) 3 n out [] block Hb ltac:(unfold LZ4_MAX_INPUT_SIZE; lia) H31 Hc Hn ltac:(lia)) as (o & -> & Ho).
  cbn [fst snd]. by rewrite Ho, Hr.
Qed.

(** The outcome of compressing [input] after [out] was written and [ans] counted. *)
Definition compressed (input out : bytes) (ans ans' : Z) (out' : bytes) : Prop :=
  exists tail, out' = out ++ tail /\ ans' = w64 (ans + (len tail - 4 * nblocks input)) /\
    forall fuel, (length tail <= fuel)%nat -> expand_blocks fuel block tail = Some input.

Lemma compressed_nil out ans : w64 ans = ans -> compressed [] out ans ans out.
Proof using Hblock.
  intros Ha. exists []. rewrite app_nil_r. split; [done|]. split.
  - unfold nblocks. rewrite !(@len_nil Z), (Z.div_small (0 + block - 1)), Z.mul_0_r by lia. by rewrite Z.add_0_r.
  - intros fuel _. by destruct fuel.
Qed.

Lemma compress_blocks_ok (fuel : nat) : forall (input old out : bytes) ans,
  (length input <= fuel)%nat -> is_bytes input -> w64 ans = ans ->
  exists ans' out', compress_blocks fuel block input old out ans = Some (ans', out') /\
    compressed input out ans ans' out'.
Proof using Type*.
  induction fuel as [|fuel IH]; intros input old out ans Hf Hb Ha.
  { destruct input; [|cbn in Hf; lia]. eexists _, _. split; [reflexivity|by apply compressed_nil]. }
  destruct (decide (input = [])) as [->|Hne].
  { eexists _, _. split; [reflexivity|by apply compressed_nil]. }
  assert (0 < len input).
  { pose proof (len_nonneg input). assert (len input <> 0) by (by intros ?%len_0_nil). lia. }
  destruct (is_bytes_split block input Hb) as [Hb1 Hb2].
  assert (len (ztake block input) <= block) as Hl by (rewrite len_ztake; lia).
  assert (length (zdrop block input) <= fuel)%nat as Hf'.
  { pose proof (len_zdrop block input) as Hz. rewrite !len_length in Hz. rewrite len_length in *. lia. }
  destruct (LZ4_compress_fast (ztake block input) old (LZ4_compressBound block) 3) as [n o] eqn:Hc.
  assert (compress_blocks (S fuel) block input old out ans =
    if n <=? 0 then Some (0, out)
    else compress_blocks fuel block (zdrop block input) o (out ++ le_put 4 n ++ ztake n o) (w64 (ans + n))) as ->.
  { cbn [compress_blocks]. destruct input; [done|]. by rewrite Hc. }
  assert (0 < len (ztake block input)) as Hpos by (rewrite len_ztake; lia).
  pose proof (bound_mono (len (ztake block input)) ltac:(lia)) as H31.
  assert (0 < n) as Hn by (eapply (lz4_succeeds (ztake block input)); [exact Hb1|lia|exact H31|exact Hc]). rewrite (proj2 (Z.leb_gt n 0)) by lia.
  destruct (IH (zdrop block input) o (out ++ le_put 4 n ++ ztake n o) (w64 (ans + n)) Hf' Hb2) as (ans' & out' & -> & Hok).
  { apply w64_small, w64_bound. }
  eexists _, _. split; [reflexivity|]. destruct Hok as (tail & -> & -> & He).
  destruct (lz4_fits (ztake block input) old (LZ4_compressBound block) 3 n o Hb1 ltac:(lia) ltac:(lia) Hc Hn) as (H1 & H2 & _).
  exists (le_put 4 n ++ ztake n o ++ tail). split; [by rewrite <- !app_assoc|]. split.
  - rewrite w64_add_l, (nblocks_step input) by done. f_equal. rewrite !len_app, len_le_put, len_ztake. lia.
  - intros fuel' Hlen. rewrite !length_app in Hlen. pose proof (len_le_put 4 n) as H4. rewrite len_length in H4.
    destruct fuel' as [|fuel']; [lia|].
    rewrite (expand_block _ _ _ _ _ _ (zdrop block input) Hb1 Hl Hc Hn); [by rewrite ztake_zdrop|].
    apply He. lia.
Qed.
End LargeFileRoundTrip.

(** The file [CompressLargeFile] writes for an input, and what it returns. *)
Definition lc_file `{HL : Lz4} (input : bytes) (ans : Z) (out : bytes) : Prop :=
  expand_blocks (length out) LC_BLOCK out = Some input /\ ans = w64 (len out - 4 * nblocks LC_BLOCK input).

Lemma compress_large_file_ok `{HL : Lz4} `{!Lz4Laws} (input : bytes) : is_bytes input ->
  exists ans out, CompressLargeFile input = Some (ans, out) /\ lc_file input ans out.
Proof.
  intros Hb. destruct (compress_blocks_ok LC_BLOCK ltac:(by vm_compute) (length input) input [] [] 0)
    as (ans & out & He & (tail & -> & -> & Ht)); [done|done|by vm_compute|..].
  eexists _, _. split; [exact He|]. cbn [app]. split; [by apply Ht|f_equal; lia].
Qed.

(** The calls of [main] after its loop. *)
Section Finish.
Context `{HL : Lz4} `{HX : Xdelta} `{HD : Digest} `{!Lz4Laws}.
Implicit Types s : Odess.

Lemma compress_file_ok input output bs s (Q : Z -> Odess -> Prop) :
  files (fs (dataWrite_ s)) !! input = Some bs -> writable (fs (dataWrite_ s)) output = true -> is_bytes bs ->
  (forall ans out, lc_file bs ans out -> Q ans (set_dw (put_file output out (dataWrite_ s)) s)) ->
  wp (compress_file input output) Q s.
Proof using Type*.
  intros Hi Hw Hb HQ. destruct (compress_large_file_ok bs Hb) as (ans & out & He & Hout).
  unfold compress_file. apply wp_bind, wp_gets, wp_bind, wp_gets. rewrite Hi, Hw.
  apply wp_bind. eapply wp_lift_ok; [by rewrite He|]. apply wp_bind, wp_on_dw, write_file_ok; [done|].
  apply wp_ret. by apply HQ.
Qed.

(** [OriGenerate] appends the files in order while it may. *)
Lemma ori_generate_ok disk inputs n rest : Forall (fun input : string * bytes => disk !! input.1 = Some input.2) inputs ->
  forall k, n = k + len inputs -> OriGenerate_loop disk (inputs.*1 ++ rest) n k = concat inputs.*2.
Proof using Type.
  induction 1 as [|[p bs] inputs Hp _ IH]; intros k Hn.
  - rewrite len_nil, Z.add_0_r in Hn. subst. cbn [fmap list_fmap app concat]. destruct rest; [done|]. cbn. by rewrite Z.leb_refl.
  - cbn [fmap list_fmap app concat fst snd OriGenerate_loop] in *. rewrite len_cons in Hn. rewrite Hp.
    pose proof (len_nonneg inputs). rewrite (proj2 (Z.leb_gt _ _)) by lia. f_equal. apply IH. lia.
Qed.
End Finish.
