(* ===== verification/Interleave.v ===== *)
(** * Programs that share memory, and rely-guarantee reasoning

    A thread is a tree of atomic accesses to the shared state ([prog]); threads
    interleave between any two accesses.  [rgwp] is a weakest precondition
    for one thread: at every access the other threads may have taken any number
    of steps allowed by the rely [R], and the access itself must keep the
    invariant and be allowed by the guarantee [G].  [R], [G] and the assertions
    speak of a ghost state [g] that the invariant [Inv] ties to the memory, so
    that the history of the run and the absolute positions behind wrapped
    indices can be talked about. *)

From S2P Require Import Prelude.

Inductive prog (S A : Type) : Type :=
  | Ret (a : A)
  | Act (B : Type) (f : S -> result (B * S)) (k : B -> prog S A).
Arguments Ret {_ _} _.
Arguments Act {_ _ _} _ _.

Fixpoint prog_bind {S A B} (k : A -> prog S B) (p : prog S A) : prog S B :=
  match p with
  | Ret a => k a
  | Act f k' => Act f (fun b => prog_bind k (k' b))
  end.

#[export] Instance prog_ret {S} : MRet (prog S) := @Ret S.
#[export] Instance prog_mbind {S} : MBind (prog S) := @prog_bind S.

(** One read, one write, an [assert]. *)
Definition read {S B} (f : S -> result B) : prog S B := Act (fun s => b ← f s; Ok (b, s)) Ret.
Definition write {S} (f : S -> result S) : prog S unit := Act (fun s => s' ← f s; Ok (tt, s')) Ret.
Definition fail {S A} (e : fault) : prog S A := read (fun _ => Err e).
Definition assert_ {S} (b : bool) : prog S unit := if b then Ret tt else fail AssertFailed.

(** Running a thread with no interference. *)
Fixpoint exec {S A} (p : prog S A) : M S A :=
  match p with
  | Ret a => mret a
  | Act f k => fun s => match f s with Ok (b, s') => exec (k b) s' | Err e => Err e end
  end.

Lemma exec_bind {S A B} (p : prog S A) (k : A -> prog S B) s :
  exec (p ≫= k) s = match exec p s with Ok (a, s') => exec (k a) s' | Err e => Err e end.
Proof.
  revert s. induction p as [a|C f k' IH]; cbn; intros s; [done|]. destruct (f s) as [[b s']|e]; [apply IH|done].
Qed.

(** One access of a thread. *)
Definition access {S A} (p : prog S A) (s : S) (p' : prog S A) (s' : S) : Prop :=
  match p with
  | Ret _ => False
  | Act f k => exists b, f s = Ok (b, s') /\ p' = k b
  end.

(** The thread cannot go on: its next access is a fault. *)
Definition faults {S A} (p : prog S A) (s : S) : Prop :=
  match p with
  | Ret _ => False
  | Act f _ => exists e, f s = Err e
  end.

Section RelyGuarantee.
Context {S Gh : Type} (Inv : S -> Gh -> Prop) (R G : Gh -> Gh -> Prop).
Implicit Types g : Gh.

Fixpoint rgwp {A} (p : prog S A) (Q : A -> Gh -> Prop) (g : Gh) : Prop :=
  match p with
  | Ret a => forall g', R g g' -> Q a g'
  | Act f k => forall s g', R g g' -> Inv s g' ->
      exists b s' g'', f s = Ok (b, s') /\ Inv s' g'' /\ G g' g'' /\ rgwp (k b) Q g''
  end.

Context `{!PreOrder R}.

Lemma rgwp_stable {A} (p : prog S A) Q g g' : rgwp p Q g -> R g g' -> rgwp p Q g'.
Proof.
  destruct p as [a|B f k]; cbn.
  - intros H HR g'' HR'. apply H. by etransitivity.
  - intros H HR s g'' HR'. apply H. by etransitivity.
Qed.

Lemma rgwp_mono {A} (p : prog S A) (Q Q' : A -> Gh -> Prop) g :
  rgwp p Q g -> (forall a g', Q a g' -> Q' a g') -> rgwp p Q' g.
Proof.
  revert g. induction p as [a|B f k IH]; cbn; intros g H HQ; [eauto|].
  intros s g' HR HI. destruct (H s g' HR HI) as (b & s' & g'' & ? & ? & ? & ?). eauto 8.
Qed.

Lemma rgwp_bind {A B} (p : prog S A) (k : A -> prog S B) Q g :
  rgwp p (fun a => rgwp (k a) Q) g -> rgwp (p ≫= k) Q g.
Proof.
  revert g. induction p as [a|C f k' IH]; cbn; intros g H.
  - by apply H.
  - intros s g' HR HI. destruct (H s g' HR HI) as (b & s' & g'' & ? & ? & ? & ?).
    exists b, s', g''. split_and!; [done..|]. by apply IH.
Qed.

Lemma rgwp_ret {A} (a : A) (Q : A -> Gh -> Prop) g : (forall g', R g g' -> Q a g') -> rgwp (Ret a) Q g.
Proof. done. Qed.

(** A read that nothing has to be said about: the ghost state stays. *)
Lemma rgwp_read {A B} (f : S -> result B) (k : B -> prog S A) Q g `{!Reflexive G} :
  (forall s g', R g g' -> Inv s g' -> exists b, f s = Ok b /\ rgwp (k b) Q g') ->
  rgwp (read f ≫= k) Q g.
Proof.
  cbn. intros H s g' HR HI. destruct (H s g' HR HI) as (b & Hb & Hk).
  exists b, s, g'. by rewrite Hb.
Qed.

Lemma rgwp_write {A} (f : S -> result S) (k : unit -> prog S A) Q g :
  (forall s g', R g g' -> Inv s g' ->
     exists s' g'', f s = Ok s' /\ Inv s' g'' /\ G g' g'' /\ rgwp (k tt) Q g'') ->
  rgwp (write f ≫= k) Q g.
Proof.
  cbn. intros H s g' HR HI. destruct (H s g' HR HI) as (s' & g'' & Hs & Hk).
  exists tt, s', g''. by rewrite Hs.
Qed.

Lemma rgwp_assert {A} (b : bool) (k : unit -> prog S A) Q g :
  b = true -> rgwp (k tt) Q g -> rgwp (assert_ b ≫= k) Q g.
Proof. intros ->. done. Qed.

(** A thread run alone. *)
Lemma rgwp_exec `{!PreOrder G} {A} (p : prog S A) Q s g :
  rgwp p Q g -> Inv s g ->
  exists a s' g', exec p s = Ok (a, s') /\ Inv s' g' /\ G g g' /\ Q a g'.
Proof.
  revert s g. induction p as [a|B f k IH]; cbn; intros s g H HI.
  - exists a, s, g. split_and!; try done. by apply H.
  - destruct (H s g) as (b & s' & g'' & -> & HI' & HG & Hk); [done..|].
    destruct (IH b s' g'' Hk HI') as (a & s'' & g3 & He & ? & ? & ?).
    exists a, s'', g3. split_and!; try done. by etransitivity.
Qed.

(** An access of a thread among others. *)
Lemma rgwp_access {A} (p p' : prog S A) Q s s' g :
  rgwp p Q g -> Inv s g -> access p s p' s' ->
  exists g', Inv s' g' /\ G g g' /\ rgwp p' Q g'.
Proof.
  destruct p as [a|B f k]; [done|]. intros H HI (b & Hf & ->).
  destruct (H s g) as (b' & s'' & g' & Hf' & HI' & HG & Hk); [done..|].
  rewrite Hf in Hf'. injection Hf' as <- <-. by exists g'.
Qed.

Lemma rgwp_no_fault {A} (p : prog S A) Q s g : rgwp p Q g -> Inv s g -> ~ faults p s.
Proof.
  destruct p as [a|B f k]; intros H HI; [by intros []|]. intros [e He].
  destruct (H s g) as (b & s' & g' & Hf & _); [done..|]. congruence.
Qed.
End RelyGuarantee.
