(* ===== verification/RwQueue.v ===== *)
(** * The single-producer single-consumer queue

    [include/readerwriterqueue.h], class [ReaderWriterQueue], built without the
    debugging guards.  Blocks are the elements of [heap], and a [Block*] is an
    index; blocks are never freed while the queue lives.  Each operation is a
    program of atomic accesses in the order of the source; the fences keep the
    processor to that order, and accesses are taken to be sequentially
    consistent.  Elements are copied and need no destructor, as the [Chunk_t]
    of this program. *)

From S2P Require Import Prelude Interleave.

Definition MAX_BLOCK_SIZE : Z := 512.

(** The smallest power of two at or above [x]. *)
Definition smear (k x : Z) : Z := Z.lor x (Z.shiftr x k).

(** [for (size_t i = 1; i < sizeof(size_t); i <<= 1)]. *)
Fixpoint smear_loop (fuel : nat) (i x : Z) : Z :=
  match fuel with
  | O => x
  | S fuel' => if i <? 8 then smear_loop fuel' (Z.shiftl i 1) (smear (Z.shiftl i 3) x) else x
  end.

Definition ceilToPow2 (x : Z) : Z :=
  let x := (x - 1)%u64 in
  let x := smear 1 x in
  let x := smear 2 x in
  let x := smear 4 x in
  let x := smear_loop 8 1 x in
  (x + 1)%u64.

Section RwQueue.
Context {T : Type}.

Record Block := mkBlock {
  front : Z;
  localTail : Z;
  tail : Z;
  localFront : Z;
  next : option nat;
  data : list (option T);
  sizeMask : Z
}.

Definition set_front (v : Z) (b : Block) : Block :=
  mkBlock v (localTail b) (tail b) (localFront b) (next b) (data b) (sizeMask b).
Definition set_localTail (v : Z) (b : Block) : Block :=
  mkBlock (front b) v (tail b) (localFront b) (next b) (data b) (sizeMask b).
Definition set_tail (v : Z) (b : Block) : Block :=
  mkBlock (front b) (localTail b) v (localFront b) (next b) (data b) (sizeMask b).
Definition set_localFront (v : Z) (b : Block) : Block :=
  mkBlock (front b) (localTail b) (tail b) v (next b) (data b) (sizeMask b).
Definition set_next (v : option nat) (b : Block) : Block :=
  mkBlock (front b) (localTail b) (tail b) (localFront b) v (data b) (sizeMask b).
Definition set_data (v : list (option T)) (b : Block) : Block :=
  mkBlock (front b) (localTail b) (tail b) (localFront b) (next b) v (sizeMask b).

(** [Block(_size, ...)]; the elements are uninitialised. *)
Definition make_block (capacity : Z) : Block :=
  mkBlock 0 0 0 0 None (replicate (Z.to_nat capacity) None) (capacity - 1)%u64.

Record ReaderWriterQueue := mkRwq {
  frontBlock : nat;
  tailBlock : nat;
  largestBlockSize : Z;
  heap : list Block
}.

Definition set_heap (h : list Block) (q : ReaderWriterQueue) : ReaderWriterQueue :=
  mkRwq (frontBlock q) (tailBlock q) (largestBlockSize q) h.

(** ** Construction *)

(** Linking [block] in: the loop body of the constructor. *)
Definition link_block (i : nat) (size : Z) (h : list Block) : list Block :=
  let h := h ++ [make_block size] in
  let h := if decide (i = 0%nat) then h else alter (set_next (Some i)) (i - 1)%nat h in
  alter (set_next (Some 0%nat)) i h.

Fixpoint link_blocks (n : nat) (size : Z) : list Block :=
  match n with
  | O => []
  | S n' => link_block n' size (link_blocks n' size)
  end.

(** No call of [malloc] fails. *)
Definition new_ReaderWriterQueue (size : Z) : ReaderWriterQueue :=
  let large := ceilToPow2 (size + 1)%u64 in
  if MAX_BLOCK_SIZE * 2 <? large then
    let initialBlockCount := (size + MAX_BLOCK_SIZE * 2 - 3)%u64 / (MAX_BLOCK_SIZE - 1) in
    mkRwq 0 0 MAX_BLOCK_SIZE (link_blocks (Z.to_nat initialBlockCount) MAX_BLOCK_SIZE)
  else mkRwq 0 0 large (link_block 0 large []).

(** ** Accesses *)

Abbreviation P := (prog ReaderWriterQueue).

Definition load {X} (b : nat) (f : Block -> X) : P X :=
  read (fun q => match heap q !! b with Some blk => Ok (f blk) | None => Err BadPointer end).

Definition load_next (b : nat) : P nat :=
  read (fun q => match heap q !! b with
                 | Some blk => from_option_or BadPointer (next blk)
                 | None => Err BadPointer
                 end).

Definition store (b : nat) (f : Block -> Block) : P unit :=
  write (fun q => match heap q !! b with
                  | Some blk => Ok (set_heap (<[b := f blk]> (heap q)) q)
                  | None => Err BadPointer
                  end).

Definition load_frontBlock : P nat := read (fun q => Ok (frontBlock q)).
Definition load_tailBlock : P nat := read (fun q => Ok (tailBlock q)).
Definition store_frontBlock (b : nat) : P unit :=
  write (fun q => Ok (mkRwq b (tailBlock q) (largestBlockSize q) (heap q))).
Definition store_tailBlock (b : nat) : P unit :=
  write (fun q => Ok (mkRwq (frontBlock q) b (largestBlockSize q) (heap q))).

(** [data[i]]. *)
Definition get_elem (i : Z) (blk : Block) : result T :=
  if i <? 0 then Err OobRead
  else match data blk !! Z.to_nat i with
       | None => Err OobRead
       | Some None => Err Uninit
       | Some (Some x) => Ok x
       end.

Definition load_elem (b : nat) (i : Z) : P T :=
  read (fun q => match heap q !! b with Some blk => get_elem i blk | None => Err BadPointer end).

Definition put_elem (i : Z) (x : T) (blk : Block) : result Block :=
  if (0 <=? i) && (i <? len (data blk)) then Ok (set_data (<[Z.to_nat i := Some x]> (data blk)) blk)
  else Err OobWrite.

Definition store_elem (b : nat) (i : Z) (x : T) : P unit :=
  write (fun q => match heap q !! b with
                  | Some blk => blk ← put_elem i x blk; Ok (set_heap (<[b := blk]> (heap q)) q)
                  | None => Err BadPointer
                  end).

(** ** The producer *)

(** [nextBlockTail != blockFront || nextBlockTail != (tailBlock_->localFront =
    tailBlock_->front.load())]. *)
Definition has_room (tailBlock_ : nat) (nextBlockTail blockFront : Z) : P bool :=
  if negb (nextBlockTail =? blockFront) then Ret true
  else
    f ← load tailBlock_ front;
    store tailBlock_ (set_localFront f) ;;
    Ret (negb (nextBlockTail =? f)).

(** The new block before it is reachable. *)
Definition new_block (size : Z) (x : T) (nxt : nat) : result Block :=
  blk ← put_elem 0 x (make_block size);
  Ok (set_next (Some nxt) (set_tail 1 (set_localTail 1 blk))).

(** [malloc_ok]: [make_block] gets its memory. *)
Definition inner_enqueue (canAlloc malloc_ok : bool) (x : T) : P bool :=
  tailBlock_ ← load_tailBlock;
  blockFront ← load tailBlock_ localFront;
  blockTail ← load tailBlock_ tail;
  mask ← load tailBlock_ sizeMask;
  let nextBlockTail := Z.land (blockTail + 1)%u64 mask in
  room ← has_room tailBlock_ nextBlockTail blockFront;
  if (room : bool) then
    store_elem tailBlock_ blockTail x ;;
    store tailBlock_ (set_tail nextBlockTail) ;;
    Ret true
  else
    nxt ← load_next tailBlock_;
    fb ← load_frontBlock;
    if negb (Nat.eqb nxt fb) then
      tailBlockNext ← load_next tailBlock_;
      nextBlockFront ← load tailBlockNext front;
      store tailBlockNext (set_localFront nextBlockFront) ;;
      nextBlockTail ← load tailBlockNext tail;
      assert_ (nextBlockFront =? nextBlockTail) ;;
      store tailBlockNext (set_localFront nextBlockFront) ;;
      store_elem tailBlockNext nextBlockTail x ;;
      mask ← load tailBlockNext sizeMask;
      store tailBlockNext (set_tail (Z.land (nextBlockTail + 1)%u64 mask)) ;;
      store_tailBlock tailBlockNext ;;
      Ret true
    else if canAlloc then
      largest ← read (fun q => Ok (largestBlockSize q));
      let newBlockSize := if MAX_BLOCK_SIZE <=? largest then largest else (largest * 2)%u64 in
      if negb malloc_ok then Ret false
      else
        write (fun q => Ok (mkRwq (frontBlock q) (tailBlock q) newBlockSize (heap q))) ;;
        nxt ← load_next tailBlock_;
        newBlock ← Act (fun q => blk ← new_block newBlockSize x nxt;
                          Ok (length (heap q), set_heap (heap q ++ [blk]) q)) Ret;
        store tailBlock_ (set_next (Some newBlock)) ;;
        store_tailBlock newBlock ;;
        Ret true
    else Ret false.

Definition try_enqueue (x : T) : P bool := inner_enqueue false true x.
Definition enqueue (malloc_ok : bool) (x : T) : P bool := inner_enqueue true malloc_ok x.

(** ** The consumer *)

(** [blockFront != blockTail || blockFront != (frontBlock_->localTail =
    frontBlock_->tail.load())]. *)
Definition not_empty (frontBlock_ : nat) (blockFront blockTail : Z) : P bool :=
  if negb (blockFront =? blockTail) then Ret true
  else
    t ← load frontBlock_ tail;
    store frontBlock_ (set_localTail t) ;;
    Ret (negb (blockFront =? t)).

(** The code behind the label [non_empty_front_block]: the element is moved
    out by [try_dequeue] and left by [pop]; then the index advances. *)
Definition drop_front (b : nat) (blockFront : Z) : P unit :=
  mask ← load b sizeMask;
  store b (set_front (Z.land (blockFront + 1)%u64 mask)).

Definition take_front (b : nat) (blockFront : Z) : P T :=
  x ← load_elem b blockFront;
  drop_front b blockFront ;;
  Ret x.

(** The code that [try_dequeue] and [pop] share. *)
Definition dequeue_with {X} (take : nat -> Z -> P X) : P (option X) :=
  frontBlock_ ← load_frontBlock;
  blockTail ← load frontBlock_ localTail;
  blockFront ← load frontBlock_ front;
  here ← not_empty frontBlock_ blockFront blockTail;
  if (here : bool) then x ← take frontBlock_ blockFront; Ret (Some x)
  else
    tb ← load_tailBlock;
    if negb (Nat.eqb frontBlock_ tb) then
      frontBlock_ ← load_frontBlock;
      blockTail ← load frontBlock_ tail;
      store frontBlock_ (set_localTail blockTail) ;;
      blockFront ← load frontBlock_ front;
      if negb (blockFront =? blockTail) then x ← take frontBlock_ blockFront; Ret (Some x)
      else
        nextBlock ← load_next frontBlock_;
        nextBlockFront ← load nextBlock front;
        nextBlockTail ← load nextBlock tail;
        store nextBlock (set_localTail nextBlockTail) ;;
        assert_ (negb (nextBlockFront =? nextBlockTail)) ;;
        store_frontBlock nextBlock ;;
        x ← take nextBlock nextBlockFront;
        Ret (Some x)
    else Ret None.

Definition try_dequeue : P (option T) := dequeue_with take_front.

Definition pop : P bool :=
  r ← dequeue_with drop_front;
  Ret (match r with Some _ => true | None => false end).

(** The element itself stands for the pointer to it. *)
Definition peek : P (option T) :=
  frontBlock_ ← load_frontBlock;
  blockTail ← load frontBlock_ localTail;
  blockFront ← load frontBlock_ front;
  here ← not_empty frontBlock_ blockFront blockTail;
  if (here : bool) then x ← load_elem frontBlock_ blockFront; Ret (Some x)
  else
    tb ← load_tailBlock;
    if negb (Nat.eqb frontBlock_ tb) then
      frontBlock_ ← load_frontBlock;
      blockTail ← load frontBlock_ tail;
      store frontBlock_ (set_localTail blockTail) ;;
      blockFront ← load frontBlock_ front;
      if negb (blockFront =? blockTail) then x ← load_elem frontBlock_ blockFront; Ret (Some x)
      else
        nextBlock ← load_next frontBlock_;
        nextBlockFront ← load nextBlock front;
        t ← load nextBlock tail;
        assert_ (negb (nextBlockFront =? t)) ;;
        x ← load_elem nextBlock nextBlockFront;
        Ret (Some x)
    else Ret None.

(** ** Either thread *)

(** The loops over the ring; [fuel] bounds the number of blocks. *)
Fixpoint size_loop (fuel : nat) (frontBlock_ block : nat) (result : Z) : P Z :=
  match fuel with
  | O => fail OutOfFuel
  | S fuel' =>
      blockFront ← load block front;
      blockTail ← load block tail;
      mask ← load block sizeMask;
      let result := (result + Z.land (blockTail - blockFront)%u64 mask)%u64 in
      block ← load_next block;
      if Nat.eqb block frontBlock_ then Ret result else size_loop fuel' frontBlock_ block result
  end.

(** The first read only provides the fuel. *)
Definition block_count : P nat := read (fun q => Ok (length (heap q))).

Definition size_approx : P Z :=
  fuel ← block_count;
  frontBlock_ ← load_frontBlock;
  size_loop fuel frontBlock_ frontBlock_ 0.

Fixpoint capacity_loop (fuel : nat) (frontBlock_ block : nat) (result : Z) : P Z :=
  match fuel with
  | O => fail OutOfFuel
  | S fuel' =>
      mask ← load block sizeMask;
      let result := (result + mask)%u64 in
      block ← load_next block;
      if Nat.eqb block frontBlock_ then Ret result else capacity_loop fuel' frontBlock_ block result
  end.

Definition max_capacity : P Z :=
  fuel ← block_count;
  frontBlock_ ← load_frontBlock;
  capacity_loop fuel frontBlock_ frontBlock_ 0.

(** ** Destruction *)

(** [for (i = blockFront; i != blockTail; i = (i + 1) & sizeMask)]: the elements
    that are destroyed. *)
Fixpoint destroy_elems (fuel : nat) (i blockTail : Z) (blk : Block) : result (list T) :=
  if i =? blockTail then Ok []
  else
    match fuel with
    | O => Err OutOfFuel
    | S fuel' =>
        x ← get_elem i blk;
        xs ← destroy_elems fuel' (Z.land (i + 1)%u64 (sizeMask blk)) blockTail blk;
        Ok (x :: xs)
    end.

(** The blocks that are not freed yet are [Some]; a freed one must not be
    touched.  The [do] loop once around the ring. *)
Fixpoint delete_loop (fuel : nat) (frontBlock_ block : nat) (live : list (option Block))
    : result (list T * list (option Block)) :=
  match fuel with
  | O => Err OutOfFuel
  | S fuel' =>
      blk ← from_option_or BadPointer (mjoin (live !! block));
      nextBlock ← from_option_or BadPointer (next blk);
      xs ← destroy_elems (length (data blk)) (front blk) (tail blk) blk;
      let live := <[block := None]> live in
      if Nat.eqb nextBlock frontBlock_ then Ok (xs, live)
      else r ← delete_loop fuel' frontBlock_ nextBlock live; Ok (xs ++ r.1, r.2)
  end.

Definition delete_ReaderWriterQueue (q : ReaderWriterQueue) : result (list T * list (option Block)) :=
  delete_loop (length (heap q)) (frontBlock q) (frontBlock q) (Some <$> heap q).
End RwQueue.
