(* ===== verification/RwQueueSpec.v ===== *)
(** * What the queue holds, and the proof of its operations

    A block with its absolute positions: [bF], [bLT], [bT], [bLF] count the
    elements taken from and put into the block since it was made, and stand
    behind [front], [localTail], [tail] and [localFront]; [bW] is one past
    the last element written.  The ring of blocks is split into those in use,
    from [frontBlock] to [tailBlock], and those that are free. *)

From stdpp Require Import functions.
From S2P Require Import Prelude Interleave RwQueue.

Section Spec.
Context {T : Type}.

Record BlockGhost := mkBG {
  bF : Z; bLT : Z; bT : Z; bW : Z; bLF : Z; bM : Z;
  bval : Z -> T
}.

Record Ghost := mkGhost {
  used : list nat;
  free : list nat;
  gb : nat -> BlockGhost;
  glarge : Z;
  pend : bool;
  closed : bool;
  spare : option (nat * @Block T);
  fixed : bool;
  pushed : list T;
  popped : list T
}.
Implicit Types g : Ghost.
Implicit Types q : @ReaderWriterQueue T.
Implicit Types blk : @Block T.

Definition bg_items (bg : BlockGhost) : list T := bval bg <$> seqZ (bF bg) (bT bg - bF bg).
Definition gitems g : list T := concat (bg_items ∘ gb g <$> used g).
Definition ring g : list nat := used g ++ free g.
Definition zsum (l : list Z) : Z := foldr Z.add 0 l.
Definition ring_cap g : Z := zsum ((fun b => bM (gb g b)) <$> ring g).

(** ** The invariant *)

Definition bg_order (bg : BlockGhost) : Prop :=
  0 <= bLF bg <= bF bg /\ bF bg <= bLT bg <= bT bg /\ bT bg <= bW bg <= bLF bg + bM bg.

Record blk_ok (bg : BlockGhost) (blk : @Block T) : Prop := {
  bk_pow : exists k, 1 <= k <= 62 /\ bM bg = 2 ^ k - 1;
  bk_mask : sizeMask blk = bM bg;
  bk_len : len (data blk) = bM bg + 1;
  bk_front : front blk = bF bg mod (bM bg + 1);
  bk_localTail : localTail blk = bLT bg mod (bM bg + 1);
  bk_tail : tail blk = bT bg mod (bM bg + 1);
  bk_localFront : localFront blk = bLF bg mod (bM bg + 1);
  bk_data : forall i, bF bg <= i < bW bg -> data blk !! Z.to_nat (i mod (bM bg + 1)) = Some (Some (bval bg i));
  bk_order : bg_order bg
}.

(** The blocks of [l], each the next of the one before, lead to [t]. *)
Fixpoint chain (h : list (@Block T)) (l : list nat) (t : nat) : Prop :=
  match l with
  | [] => True
  | b :: l' => (h !! b ≫= next) = Some (default t (head l')) /\ chain h l' t
  end.

Definition free_ok (gb : nat -> BlockGhost) (pend : bool) (l : list nat) : Prop :=
  match l with
  | [] => pend = false
  | b :: l' => (if pend then bT (gb b) = bF (gb b) + 1 /\ bLF (gb b) = bF (gb b) else bT (gb b) = bF (gb b)) /\
               Forall (fun b => bT (gb b) = bF (gb b)) l'
  end.

(** Blocks in use after the first are not empty and their [localFront] is
    exact; those between the first and the last are full. *)
Record ghost_ok g : Prop := {
  go_nodup : NoDup (ring g);
  go_rest : forall b, b ∈ drop 1 (used g) -> bF (gb g b) < bT (gb g b) /\ bLF (gb g b) = bF (gb g b);
  go_full : forall l1 b l2, used g = l1 ++ b :: l2 -> l1 <> [] -> l2 <> [] -> bT (gb g b) = bF (gb g b) + bM (gb g b);
  go_free : free_ok (gb g) (pend g) (free g);
  go_items : pushed g = popped g ++ gitems g;
  go_cap : ring_cap g < 2 ^ 64;
  go_large : 1 <= glarge g <= 1024 /\ exists k, 0 <= k /\ glarge g = 2 ^ k
}.

Record Inv q g : Prop := {
  iv_front : head (used g) = Some (frontBlock q);
  iv_tail : last (used g) = Some (tailBlock q);
  iv_ring : chain (heap q) (ring g) (frontBlock q);
  iv_blocks : forall b, b ∈ ring g -> exists blk, heap q !! b = Some blk /\ blk_ok (gb g b) blk;
  iv_large : largestBlockSize q = glarge g;
  iv_spare : forall b blk, spare g = Some (b, blk) -> b ∉ ring g /\ heap q !! b = Some blk;
  iv_ghost : ghost_ok g
}.

(** ** What each thread may do *)

(** Rely of the producer: the steps of the consumer. *)
Record Rp g g' : Prop := {
  rp_block : forall b, let x := gb g b in let y := gb g' b in
    bT y = bT x /\ bW y = bW x /\ bLF y = bLF x /\ bM y = bM x /\ bval y = bval x /\ bF x <= bF y;
  rp_free : forall b, b ∈ free g -> bF (gb g' b) = bF (gb g b);
  rp_used : exists r, used g = r ++ used g' /\ free g' = free g ++ r;
  rp_some : used g <> [] -> used g' <> [];
  rp_pend : pend g' = pend g;
  rp_closed : closed g' = closed g;
  rp_pushed : pushed g' = pushed g;
  rp_large : glarge g' = glarge g;
  rp_out : forall b, b ∉ ring g -> gb g' b = gb g b;
  rp_spare : spare g' = spare g;
  rp_fixed : fixed g' = fixed g;
  rp_popped : popped g `prefix_of` popped g'
}.

(** Rely of the consumer: the steps of the producer. *)
Record Rc g g' : Prop := {
  rc_closed : closed g = true -> g' = g;
  rc_own : forall b, b ∈ ring g -> let x := gb g b in let y := gb g' b in
    bF y = bF x /\ bLT y = bLT x /\ bM y = bM x;
  rc_T : forall b, b ∈ used g -> bT (gb g b) <= bT (gb g' b);
  rc_val : forall b i, b ∈ used g -> i < bT (gb g b) -> bval (gb g' b) i = bval (gb g b) i;
  rc_used : exists r, used g' = used g ++ r;
  rc_ring : forall b, b ∈ ring g -> b ∈ ring g';
  rc_last : forall l1 b l2, used g = l1 ++ b :: l2 -> l2 <> [] -> bT (gb g' b) = bT (gb g b);
  rc_fixed : fixed g' = fixed g /\ (fixed g = true -> ring g' ≡ₚ ring g);
  rc_popped : popped g' = popped g;
  rc_pushed : pushed g `prefix_of` pushed g'
}.

#[export] Instance Rp_preorder : PreOrder Rp.
Proof.
  split.
  - intros g. split; try done. by exists []; rewrite app_nil_r.
  - intros g1 g2 g3 [A1 A2 [r1 [A3 A4]] A10 A5 A6 A7 A8 A11 A12 A13 A9] [B1 B2 [r2 [B3 B4]] B10 B5 B6 B7 B8 B11 B12 B13 B9].
    split; try congruence; auto; [| | | |by etransitivity].
    + intros b. destruct (A1 b) as (?&?&?&?&?&?), (B1 b) as (?&?&?&?&?&?). cbn. split_and!; try congruence. lia.
    + intros b Hb. rewrite B2, A2; [done|done|]. rewrite A4. apply elem_of_app. by left.
    + exists (r1 ++ r2). rewrite A3, B3, B4, A4. by rewrite !app_assoc.
    + intros b Hb. rewrite B11, A11; [done|done|]. intros Hin. apply Hb. unfold ring in *.
      rewrite A3, !elem_of_app. rewrite A4, !elem_of_app in Hin. tauto.
Qed.

#[export] Instance Rc_preorder : PreOrder Rc.
Proof.
  split.
  - intros g. split; try done. by exists []; rewrite app_nil_r.
  - intros g1 g2 g3 [A1 A2 A3 A4 [r1 A5] A6 A7 [A10 A11] A8 A9] [B1 B2 B3 B4 [r2 B5] B6 B7 [B10 B11] B8 B9].
    assert (forall b, b ∈ used g1 -> b ∈ used g2) as Hu by (intros b ?; rewrite A5; apply elem_of_app; by left).
    split.
    + intros Hc. specialize (A1 Hc). subst g2. by apply B1.
    + intros b Hb. destruct (A2 b Hb) as (?&?&?), (B2 b (A6 b Hb)) as (?&?&?). cbn. split_and!; congruence.
    + intros b Hb. etransitivity; [by apply A3|by apply B3, Hu].
    + intros b i Hb Hi. rewrite B4; [by apply A4|by apply Hu|]. specialize (A3 b Hb). lia.
    + exists (r1 ++ r2). by rewrite B5, A5, app_assoc.
    + auto.
    + intros l1 b l2 Hl Hne. rewrite (B7 l1 b (l2 ++ r1)); [by apply (A7 l1 b l2)| |].
      * by rewrite A5, Hl, <- app_assoc.
      * intros [? _]%app_eq_nil. done.
    + split; [congruence|]. intros Hf. rewrite B11 by congruence. by apply A11.
    + congruence.
    + by etransitivity.
Qed.

(** ** Wrapped indices *)

Lemma land_mask M x : (exists k, 1 <= k <= 62 /\ M = 2 ^ k - 1) -> Z.land x M = x mod (M + 1).
Proof.
  intros (k & Hk & ->). replace (2 ^ k - 1) with (Z.ones k) by (rewrite Z.ones_equiv; lia).
  rewrite Z.land_ones by lia. f_equal. rewrite Z.ones_equiv. lia.
Qed.

Lemma mask_bound M : (exists k, 1 <= k <= 62 /\ M = 2 ^ k - 1) -> 1 <= M < 2 ^ 62.
Proof.
  intros (k & Hk & ->). pose proof (Z.pow_le_mono_r 2 1 k). pose proof (Z.pow_le_mono_r 2 k 62). lia.
Qed.

Lemma next_index M a : (exists k, 1 <= k <= 62 /\ M = 2 ^ k - 1) ->
  Z.land (a mod (M + 1) + 1)%u64 M = (a + 1) mod (M + 1).
Proof.
  intros HM. pose proof (mask_bound M HM). rewrite land_mask by done.
  pose proof (Z.mod_pos_bound a (M + 1)). rewrite w64_small by lia.
  by rewrite Zplus_mod_idemp_l.
Qed.

Lemma mod_inj_near n x y : 0 < n -> x <= y < x + n -> x mod n = y mod n -> x = y.
Proof.
  intros Hn Hy He. pose proof (Z.div_mod x n ltac:(lia)) as Hx. pose proof (Z.div_mod y n ltac:(lia)) as Hy'.
  rewrite He in Hx. set (a := x / n) in *. set (b := y / n) in *. set (r := y mod n) in *.
  assert (b = a) by nia. lia.
Qed.

(** ** Chains *)

Lemma chain_app h l1 b l2 t : chain h (l1 ++ b :: l2) t <-> chain h l1 b /\ chain h (b :: l2) t.
Proof.
  induction l1 as [|x l1 IH]; [by cbn; tauto|]. cbn [app chain]. rewrite IH.
  destruct l1; cbn; tauto.
Qed.

Lemma chain_ext h h' l t :
  (forall b, b ∈ l -> (h' !! b ≫= next) = (h !! b ≫= next)) -> chain h l t -> chain h' l t.
Proof.
  induction l as [|b l IH]; [done|]. cbn. intros He [H1 H2]. split; [rewrite He; [done|by left]|].
  apply IH; [|done]. intros c Hc. apply He. by right.
Qed.

(** The ring starts one block later. *)
Lemma chain_rotate h b c l : chain h (b :: c :: l) b <-> chain h (c :: l ++ [b]) c.
Proof.
  change (c :: l ++ [b]) with ((c :: l) ++ [b]). rewrite chain_app. cbn. tauto.
Qed.

(** ** The ghost state of one block changes *)

Definition upd_bg (b : nat) (bg : BlockGhost) g : Ghost :=
  mkGhost (used g) (free g) (<[b := bg]> (gb g)) (glarge g) (pend g) (closed g) (spare g) (fixed g) (pushed g) (popped g).

Lemma gb_upd b bg g : gb (upd_bg b bg g) b = bg.
Proof. cbn. by rewrite fn_lookup_insert. Qed.

Lemma gb_upd_ne b bg g c : c <> b -> gb (upd_bg b bg g) c = gb g c.
Proof. intros Hc. cbn. by rewrite fn_lookup_insert_ne. Qed.

(** A change that the counts of elements do not see. *)
Definition minor (x y : BlockGhost) : Prop :=
  bF y = bF x /\ bT y = bT x /\ bM y = bM x /\ bLF x <= bLF y <= bF x /\
  forall i, bF x <= i < bT x -> bval y i = bval x i.

Lemma minor_refl x : bLF x <= bF x -> minor x x.
Proof. intros Hx. unfold minor. split_and!; try done. Qed.

Lemma minor_items x y : minor x y -> bg_items y = bg_items x.
Proof.
  intros (H1 & H2 & _ & _ & H). unfold bg_items. rewrite H1, H2. apply list_fmap_ext.
  intros i z Hz. apply H. apply lookup_seqZ in Hz. lia.
Qed.

Lemma ghost_ok_minor g g' :
  ghost_ok g -> used g' = used g -> free g' = free g -> glarge g' = glarge g -> pend g' = pend g ->
  pushed g' = pushed g -> popped g' = popped g ->
  (forall b, b ∈ ring g -> minor (gb g b) (gb g' b)) -> ghost_ok g'.
Proof.
  intros [H1 H2 H3 H4 H5 H6 H7] E1 E2 E3 E4 E5 E6 HM.
  assert (forall b, b ∈ used g -> minor (gb g b) (gb g' b)) as HMu by (intros; apply HM, elem_of_app; auto).
  assert (forall b, b ∈ free g -> minor (gb g b) (gb g' b)) as HMf by (intros; apply HM, elem_of_app; auto).
  assert (forall b, b ∈ drop 1 (used g) -> b ∈ used g) as Hd by (intros b Hb; destruct (used g); [done|by right]).
  split; unfold gitems, ring_cap, ring in *; rewrite ?E1, ?E2, ?E3, ?E4, ?E5, ?E6; try done.
  - intros b Hb. destruct (HMu b (Hd b Hb)) as (M1 & M2 & M3 & M4 & M5), (H2 b Hb). lia.
  - intros l1 b l2 Hl Hl1 Hl2. assert (b ∈ used g) as Hb by (rewrite Hl; apply elem_of_app; right; left).
    destruct (HMu b Hb) as (M1 & M2 & M3 & M4 & M5). pose proof (H3 l1 b l2 Hl Hl1 Hl2). lia.
  - destruct (free g) as [|b l]; [done|]. destruct H4 as [H4 H4']. split.
    + destruct (HMf b) as (M1 & M2 & M3 & M4 & M5); [by left|]. destruct (pend g); lia.
    + rewrite Forall_forall in *. intros c Hc. destruct (HMf c) as (M1 & M2 & _); [by right|].
      rewrite M1, M2. by apply H4'.
  - rewrite H5. f_equal. f_equal. apply list_fmap_ext. intros i b Hb%list_elem_of_lookup_2. cbn.
    symmetry. by apply minor_items, HMu.
  - erewrite (list_fmap_ext (fun b => bM (gb g' b)) (fun b => bM (gb g b))); [exact H6|]. intros i b Hb%list_elem_of_lookup_2. cbn.
    by destruct (HM b Hb) as (_ & _ & ? & _).
Qed.

(** A heap update together with a ghost update that keeps the shape. *)
Lemma inv_store q g g' b blk blk' :
  Inv q g -> heap q !! b = Some blk -> b ∈ ring g -> next blk' = next blk ->
  used g' = used g -> free g' = free g -> glarge g' = glarge g -> spare g' = spare g ->
  (forall c, c <> b -> gb g' c = gb g c) -> blk_ok (gb g' b) blk' -> ghost_ok g' ->
  Inv (set_heap (<[b := blk']> (heap q)) q) g'.
Proof.
  intros [H1 H2 H3 H4 H5 H7 H6] Hb Hr Hn E1 E2 E3 E4 Hne Hok Hg.
  split; unfold ring in *; rewrite ?E1, ?E2, ?E3, ?E4; try done; cbn.
  - eapply chain_ext; [|exact H3]. intros c _. destruct (decide (c = b)) as [->|Hc].
    + rewrite list_lookup_insert_eq by (by eapply lookup_lt_Some). by rewrite Hb; cbn.
    + by rewrite list_lookup_insert_ne.
  - intros c Hc. destruct (decide (c = b)) as [->|Hcb].
    + rewrite list_lookup_insert_eq by (by eapply lookup_lt_Some). by exists blk'.
    + rewrite list_lookup_insert_ne, Hne by done. by apply H4.
  - intros c cblk Hc. destruct (H7 c cblk Hc) as [Hcr Hcb]. split; [done|].
    rewrite list_lookup_insert_ne; [done|]. by intros <-.
Qed.

Lemma inv_minor q g b blk blk' bg :
  Inv q g -> heap q !! b = Some blk -> b ∈ ring g -> blk_ok bg blk' -> next blk' = next blk -> minor (gb g b) bg ->
  Inv (set_heap (<[b := blk']> (heap q)) q) (upd_bg b bg g).
Proof.
  intros HI Hb Hr Hok Hn Hm. eapply inv_store; [exact HI|exact Hb|exact Hr|done..| | |].
  { intros c Hc. by apply gb_upd_ne. }
  { by rewrite gb_upd. }
  apply (ghost_ok_minor g); try done; [apply HI|]. intros c Hc. cbn.
  destruct (decide (c = b)) as [->|Hne]; [by rewrite fn_lookup_insert|].
  rewrite fn_lookup_insert_ne by done. apply minor_refl.
  destruct (iv_blocks _ _ HI c Hc) as (x & _ & [_ _ _ _ _ _ _ _ Ho]). unfold bg_order in Ho. lia.
Qed.

(** ** The steps of the producer *)

Definition bg_LF (v : Z) (x : BlockGhost) : BlockGhost :=
  mkBG (bF x) (bLT x) (bT x) (bW x) v (bM x) (bval x).
Definition bg_write (v : T) (x : BlockGhost) : BlockGhost :=
  mkBG (bF x) (bLT x) (bT x) (bT x + 1) (bLF x) (bM x) (<[bT x := v]> (bval x)).
Definition bg_T (x : BlockGhost) : BlockGhost :=
  mkBG (bF x) (bLT x) (bT x + 1) (bW x) (bLF x) (bM x) (bval x).

Lemma Rc_upd g b bg :
  closed g = false -> let x := gb g b in
  bF bg = bF x -> bLT bg = bLT x -> bM bg = bM x -> bT bg = bT x -> (forall i, i < bT x -> bval bg i = bval x i) ->
  Rc g (upd_bg b bg g).
Proof.
  intros Hc x E1 E2 E3 E4 E5. subst x. split; try done.
  - congruence.
  - intros c _. cbn. destruct (decide (c = b)) as [->|Hne]; [by rewrite fn_lookup_insert|by rewrite fn_lookup_insert_ne].
  - intros c _. cbn. destruct (decide (c = b)) as [->|Hne]; [rewrite fn_lookup_insert; lia|by rewrite fn_lookup_insert_ne].
  - intros c i _ Hi. cbn. destruct (decide (c = b)) as [->|Hne]; [rewrite fn_lookup_insert; auto|by rewrite fn_lookup_insert_ne].
  - exists []. by rewrite app_nil_r.
  - intros l1 c l2 _ _. cbn. destruct (decide (c = b)) as [->|Hne]; [by rewrite fn_lookup_insert|by rewrite fn_lookup_insert_ne].
Qed.

Lemma inv_localFront q g b blk f0 :
  Inv q g -> heap q !! b = Some blk -> b ∈ ring g -> blk_ok (gb g b) blk -> bLF (gb g b) <= f0 <= bF (gb g b) ->
  Inv (set_heap (<[b := set_localFront (f0 mod (bM (gb g b) + 1)) blk]> (heap q)) q) (upd_bg b (bg_LF f0 (gb g b)) g).
Proof.
  intros HI Hb Hr [B1 B2 B3 B4 B5 B6 B7 B8 B9] Hf. unfold bg_order in B9.
  eapply inv_minor; [exact HI|exact Hb|exact Hr| |done|].
  - split; try done. unfold bg_order. cbn. lia.
  - unfold minor. cbn. split_and!; done || lia.
Qed.

Lemma inv_write q g b blk x :
  Inv q g -> heap q !! b = Some blk -> b ∈ ring g -> blk_ok (gb g b) blk ->
  bT (gb g b) + 1 <= bLF (gb g b) + bM (gb g b) ->
  exists blk', put_elem (bT (gb g b) mod (bM (gb g b) + 1)) x blk = Ok blk' /\
    Inv (set_heap (<[b := blk']> (heap q)) q) (upd_bg b (bg_write x (gb g b)) g).
Proof.
  intros HI Hb Hr [B1 B2 B3 B4 B5 B6 B7 B8 B9] Hroom. unfold bg_order in B9.
  pose proof (mask_bound _ B1) as HM. set (bg := gb g b) in *.
  pose proof (Z.mod_pos_bound (bT bg) (bM bg + 1)) as Hmod. eexists. unfold put_elem.
  rewrite (proj2 (Z.leb_le _ _)), (proj2 (Z.ltb_lt _ _)) by lia. cbn [andb]. split; [reflexivity|].
  eapply inv_minor; [exact HI|exact Hb|exact Hr| |done|].
  - split; try done; cbn.
    + by rewrite len_length, length_insert, <- len_length.
    + intros i Hi. destruct (decide (i = bT bg)) as [->|Hne].
      * rewrite fn_lookup_insert, list_lookup_insert_eq; [done|]. rewrite len_length in B3. lia.
      * rewrite fn_lookup_insert_ne by done. rewrite list_lookup_insert_ne; [apply B8; lia|].
        intros He%Z2Nat.inj; [|lia|apply Z.mod_pos_bound; lia]. symmetry in He. apply mod_inj_near in He; lia.
    + unfold bg_order. cbn. lia.
  - fold bg. unfold minor. cbn. split_and!; try lia. intros i Hi. by rewrite fn_lookup_insert_ne by lia.
Qed.

Lemma Rc_write g b x : closed g = false -> Rc g (upd_bg b (bg_write x (gb g b)) g).
Proof. intros Hc. apply Rc_upd; try done. intros i Hi. cbn. by rewrite fn_lookup_insert_ne by lia. Qed.

Lemma blk_ok_tail x blk : blk_ok x blk -> bT x + 1 <= bW x ->
  blk_ok (bg_T x) (set_tail ((bT x + 1) mod (bM x + 1)) blk).
Proof. intros [B1 B2 B3 B4 B5 B6 B7 B8 B9] Hw. split; try done. unfold bg_order in *. cbn. lia. Qed.

Lemma bg_items_T x : bF x <= bT x -> bg_items (bg_T x) = bg_items x ++ [bval x (bT x)].
Proof.
  intros Hx. unfold bg_items. cbn. replace (bT x + 1 - bF x) with (bT x - bF x + 1) by lia.
  rewrite seqZ_app, fmap_app by lia. replace (bF x + (bT x - bF x)) with (bT x) by lia. done.
Qed.

Lemma bg_items_nil x : bT x = bF x -> bg_items x = [].
Proof. intros Hx. unfold bg_items. by rewrite Hx, Z.sub_diag. Qed.

(** [free_ok] and the items see some blocks only. *)
Lemma free_ok_ext (gb gb' : nat -> BlockGhost) p (l : list nat) : (forall b, b ∈ l -> gb' b = gb b) -> free_ok gb p l -> free_ok gb' p l.
Proof.
  destruct l as [|b l]; [done|]. intros He [H1 H2]. split; [rewrite He by left; done|].
  rewrite Forall_forall in *. intros c Hc. rewrite He by (by right). by apply H2.
Qed.

Lemma items_ext (gb gb' : nat -> BlockGhost) (l : list nat) : (forall b, b ∈ l -> gb' b = gb b) ->
  concat (bg_items ∘ gb' <$> l) = concat (bg_items ∘ gb <$> l).
Proof.
  intros He. f_equal. apply list_fmap_ext. intros i b Hb%list_elem_of_lookup_2. cbn. by rewrite He.
Qed.

(** The element written behind the tail of the last block is put in the queue. *)
Definition push_here (b : nat) g : Ghost :=
  mkGhost (used g) (free g) (<[b := bg_T (gb g b)]> (gb g)) (glarge g) (pend g) (closed g) (spare g) (fixed g)
    (pushed g ++ [bval (gb g b) (bT (gb g b))]) (popped g).

Lemma ghost_push_here g u b :
  ghost_ok g -> used g = u ++ [b] -> bF (gb g b) <= bT (gb g b) -> ghost_ok (push_here b g).
Proof.
  intros [H1 H2 H3 H4 H5 H6 H7] Hu Hb. unfold ring in H1. rewrite Hu in H1.
  apply NoDup_app in H1 as (Hnu & Hdis & Hnf). apply NoDup_app in Hnu as (Hnu & Hbu & _).
  assert (forall c, c ∈ u -> c <> b) as Hub by (intros c Hc ->; apply (Hbu b Hc); by left).
  assert (forall c, c ∈ free g -> c <> b) as Hfb.
  { intros c Hc ->. apply (Hdis b); [|done]. apply elem_of_app. right. by left. }
  assert (forall c, bF (<[b:=bg_T (gb g b)]> (gb g) c) = bF (gb g c) /\ bM (<[b:=bg_T (gb g b)]> (gb g) c) = bM (gb g c) /\
    bLF (<[b:=bg_T (gb g b)]> (gb g) c) = bLF (gb g c) /\ bT (gb g c) <= bT (<[b:=bg_T (gb g b)]> (gb g) c)) as Hc.
  { intros c. destruct (decide (c = b)) as [->|Hne]; [rewrite fn_lookup_insert|by rewrite fn_lookup_insert_ne].
    cbn. split_and!; try done. lia. }
  split; cbn; try done.
  - unfold ring. cbn. rewrite Hu. apply NoDup_app. split; [|done]. apply NoDup_app. split_and!; [done|done|].
    apply NoDup_singleton.
  - intros c Hin. destruct (Hc c) as (-> & _ & -> & ?), (H2 c Hin). lia.
  - intros l1 c l2 Hl Hl1 Hl2. destruct (Hc c) as (-> & -> & _ & _). rewrite fn_lookup_insert_ne; [by eapply H3|].
    intros <-. rewrite Hu in Hl. destruct (exists_last Hl2) as (l3 & d & ->).
    rewrite app_comm_cons, app_assoc in Hl. apply app_inj_tail in Hl as [-> ->].
    apply (Hub d); [|done]. apply elem_of_app. right. by left.
  - eapply free_ok_ext; [|exact H4]. intros c Hin. rewrite fn_lookup_insert_ne; [done|]. intros ->. by apply (Hfb c).
  - rewrite H5, <- app_assoc. f_equal. unfold gitems. cbn. rewrite Hu, !fmap_app, !concat_app.
    rewrite (items_ext (gb g) (<[b:=bg_T (gb g b)]> (gb g)) u).
    + cbn. rewrite fn_lookup_insert, bg_items_T by done. by rewrite !app_nil_r, app_assoc.
    + intros c Hin. rewrite fn_lookup_insert_ne; [done|]. intros ->. by apply (Hub c).
  - unfold ring_cap. erewrite list_fmap_ext; [exact H6|]. intros i c _. by destruct (Hc c) as (_ & ? & _).
Qed.

Lemma used_last q g : Inv q g -> exists u, used g = u ++ [tailBlock q].
Proof. intros HI. apply last_Some, (iv_tail _ _ HI). Qed.

Lemma tail_in_ring q g : Inv q g -> tailBlock q ∈ ring g.
Proof.
  intros HI. destruct (used_last q g HI) as [u Hu]. unfold ring. rewrite Hu, !elem_of_app, list_elem_of_singleton. tauto.
Qed.

Lemma inv_push_here q g b blk :
  Inv q g -> b = tailBlock q -> heap q !! b = Some blk -> blk_ok (gb g b) blk -> bT (gb g b) + 1 <= bW (gb g b) ->
  Inv (set_heap (<[b := set_tail ((bT (gb g b) + 1) mod (bM (gb g b) + 1)) blk]> (heap q)) q) (push_here b g).
Proof.
  intros HI -> Hb Hok Hw. destruct (used_last q g HI) as [u Hu].
  eapply inv_store; [exact HI|exact Hb|by apply (tail_in_ring q)|done..| | |].
  - intros c Hc. cbn. by rewrite fn_lookup_insert_ne.
  - cbn. rewrite fn_lookup_insert. by apply blk_ok_tail.
  - eapply ghost_push_here; [apply HI|exact Hu|]. destruct (bk_order _ _ Hok). lia.
Qed.

Lemma Rc_push_here q g : Inv q g -> closed g = false -> Rc g (push_here (tailBlock q) g).
Proof.
  intros HI Hc. destruct (used_last q g HI) as [u Hu]. set (b := tailBlock q) in *.
  pose proof (go_nodup _ (iv_ghost _ _ HI)) as Hnd. unfold ring in Hnd. rewrite Hu in Hnd.
  apply NoDup_app in Hnd as (Hnd & _). apply NoDup_app in Hnd as (_ & Hnd & _).
  split; cbn; try done.
  - congruence.
  - intros c _. destruct (decide (c = b)) as [->|Hne]; [by rewrite fn_lookup_insert|by rewrite fn_lookup_insert_ne].
  - intros c _. destruct (decide (c = b)) as [->|Hne]; [rewrite fn_lookup_insert; cbn; lia|by rewrite fn_lookup_insert_ne].
  - intros c i _ _. destruct (decide (c = b)) as [->|Hne]; [by rewrite fn_lookup_insert|by rewrite fn_lookup_insert_ne].
  - exists []. by rewrite app_nil_r.
  - intros l1 c l2 Hl Hl2. rewrite fn_lookup_insert_ne; [done|]. intros <-. rewrite Hu in Hl.
    destruct (exists_last Hl2) as (l3 & d & ->). rewrite app_comm_cons, app_assoc in Hl.
    apply app_inj_tail in Hl as [-> <-]. apply (Hnd b); [|by left]. apply elem_of_app. right. by left.
  - by eexists.
Qed.

(** The first free block gets an element. *)
Definition fill_next (b : nat) g : Ghost :=
  mkGhost (used g) (free g) (<[b := bg_T (gb g b)]> (gb g)) (glarge g) true (closed g) (spare g) (fixed g) (pushed g) (popped g).

Lemma ring_disjoint g b : NoDup (ring g) -> b ∈ free g -> b ∉ used g.
Proof. intros Hnd Hb Hu. apply NoDup_app in Hnd as (_ & Hd & _). by apply (Hd b). Qed.

Lemma ghost_fill_next g b l :
  ghost_ok g -> free g = b :: l -> pend g = false -> bLF (gb g b) = bF (gb g b) -> ghost_ok (fill_next b g).
Proof.
  intros [H1 H2 H3 H4 H5 H6 H7] Hf Hp HLF.
  pose proof (ring_disjoint g b H1 ltac:(rewrite Hf; by left)) as Hbu.
  rewrite Hf, Hp in H4. destruct H4 as [H4 H4'].
  assert (b ∉ l) as Hbl.
  { unfold ring in H1. rewrite Hf in H1. apply NoDup_app in H1 as (_ & _ & H1). by apply NoDup_cons in H1 as [? _]. }
  assert (forall c, c ∈ used g -> (<[b:=bg_T (gb g b)]> (gb g)) c = gb g c) as He.
  { intros c Hc. rewrite fn_lookup_insert_ne; [done|]. by intros ->. }
  split; cbn; try done.
  - intros c Hc. rewrite He; [by apply H2|]. destruct (used g); [done|by right].
  - intros l1 c l2 Hl Hl1 Hl2. rewrite He; [by eapply H3|]. rewrite Hl. apply elem_of_app. right. by left.
  - rewrite Hf. split; [rewrite fn_lookup_insert; cbn; split; [lia|done]|].
    rewrite Forall_forall in *. intros c Hc. rewrite fn_lookup_insert_ne; [by apply H4'|]. by intros ->.
  - rewrite H5. f_equal. symmetry. apply items_ext. exact He.
  - unfold ring_cap. erewrite list_fmap_ext; [exact H6|]. intros i c _. cbn.
    destruct (decide (c = b)) as [->|Hne]; [by rewrite fn_lookup_insert|by rewrite fn_lookup_insert_ne].
Qed.

Lemma inv_fill_next q g b l blk :
  Inv q g -> free g = b :: l -> pend g = false -> bLF (gb g b) = bF (gb g b) ->
  heap q !! b = Some blk -> blk_ok (gb g b) blk -> bT (gb g b) + 1 <= bW (gb g b) ->
  Inv (set_heap (<[b := set_tail ((bT (gb g b) + 1) mod (bM (gb g b) + 1)) blk]> (heap q)) q) (fill_next b g).
Proof.
  intros HI Hf Hp HLF Hb Hok Hw. eapply inv_store; [exact HI|exact Hb| |done..| | |].
  - unfold ring. rewrite Hf. apply elem_of_app. right. by left.
  - intros c Hc. cbn. by rewrite fn_lookup_insert_ne.
  - cbn. rewrite fn_lookup_insert. by apply blk_ok_tail.
  - eapply ghost_fill_next; [apply HI|done..].
Qed.

Lemma Rc_fill_next g b : closed g = false -> NoDup (ring g) -> b ∈ free g -> Rc g (fill_next b g).
Proof.
  intros Hc Hnd Hb. pose proof (ring_disjoint g b Hnd Hb) as Hbu.
  assert (forall c, c ∈ used g -> (<[b:=bg_T (gb g b)]> (gb g)) c = gb g c) as He.
  { intros c Hcu. rewrite fn_lookup_insert_ne; [done|]. by intros ->. }
  split; cbn; try done.
  - congruence.
  - intros c _. destruct (decide (c = b)) as [->|Hne]; [by rewrite fn_lookup_insert|by rewrite fn_lookup_insert_ne].
  - intros c Hcu. by rewrite He.
  - intros c i Hcu _. by rewrite He.
  - exists []. by rewrite app_nil_r.
  - intros l1 c l2 Hl _. rewrite He; [done|]. rewrite Hl. apply elem_of_app. right. by left.
Qed.

(** [tailBlock] moves to that block. *)
Definition advance_tail (b : nat) (l : list nat) g : Ghost :=
  mkGhost (used g ++ [b]) l (gb g) (glarge g) false (closed g) (spare g) (fixed g)
    (pushed g ++ [bval (gb g b) (bF (gb g b))]) (popped g).

Lemma ring_advance g b l : free g = b :: l -> ring (advance_tail b l g) = ring g.
Proof. intros Hf. unfold ring. cbn. by rewrite Hf, <- app_assoc. Qed.

(** The last block, unless it is the first as well, is full. *)
Definition last_full g : Prop :=
  forall u b, used g = u ++ [b] -> u <> [] -> bT (gb g b) = bF (gb g b) + bM (gb g b).

Lemma ghost_advance_tail g b l :
  ghost_ok g -> free g = b :: l -> pend g = true -> last_full g -> ghost_ok (advance_tail b l g).
Proof.
  intros [H1 H2 H3 H4 H5 H6 H7] Hf Hp Hl. rewrite Hf, Hp in H4. destruct H4 as [[HT HLF] H4].
  split; try done.
  - by rewrite (ring_advance g b l Hf).
  - cbn. intros c Hc. destruct (used g) as [|u0 u] eqn:Hu; [by apply not_elem_of_nil in Hc|].
    cbn in Hc. rewrite drop_0 in *. apply elem_of_app in Hc as [Hc|Hc%list_elem_of_singleton]; [by apply H2|].
    subst c. lia.
  - cbn. intros l1 c l2 Hu Hl1 Hl2. destruct (exists_last Hl2) as (l3 & d & ->).
    rewrite app_comm_cons, app_assoc in Hu. apply app_inj_tail in Hu as [Hu _].
    destruct (decide (l3 = [])) as [->|Hl3]; [by eapply Hl|by eapply H3].
  - cbn. destruct l as [|c l]; [done|]. by inversion H4.
  - cbn. rewrite H5, <- app_assoc. f_equal. unfold gitems. cbn. rewrite fmap_app, concat_app. cbn.
    rewrite app_nil_r. f_equal. unfold bg_items. rewrite HT. replace (bF (gb g b) + 1 - bF (gb g b)) with 1 by lia. done.
  - unfold ring_cap. rewrite (ring_advance g b l Hf). exact H6.
Qed.

Lemma inv_advance_tail q g b l :
  Inv q g -> free g = b :: l -> pend g = true -> last_full g ->
  Inv (mkRwq (frontBlock q) b (largestBlockSize q) (heap q)) (advance_tail b l g).
Proof.
  intros [H1 H2 H3 H4 H5 H7 H6] Hf Hp Hl. split; rewrite ?(ring_advance g b l Hf); try done; cbn.
  - by destruct (used g).
  - apply last_snoc.
  - by apply ghost_advance_tail.
Qed.

Lemma Rc_advance_tail g b l : closed g = false -> free g = b :: l -> Rc g (advance_tail b l g).
Proof.
  intros Hc Hf. split; rewrite ?(ring_advance g b l Hf); try done; cbn; by eexists || congruence.
Qed.

(** A new block, not yet in the ring. *)
Definition bg_new (size : Z) (x : T) : BlockGhost := mkBG 0 1 1 1 0 (size - 1) (fun _ => x).

Lemma new_block_ok size x nxt : 2 <= size -> (exists k, 1 <= k <= 62 /\ size = 2 ^ k) ->
  exists blk, new_block size x nxt = Ok blk /\ blk_ok (bg_new size x) blk /\ next blk = Some nxt.
Proof.
  intros H2 (k & Hk & Hs). assert (exists k, 1 <= k <= 62 /\ size - 1 = 2 ^ k - 1) as HM by (exists k; lia).
  pose proof (mask_bound _ HM) as Hb.
  unfold new_block, put_elem. cbn [data make_block]. rewrite len_replicate, Z2Nat.id by lia.
  rewrite (proj2 (Z.leb_le 0 0)), (proj2 (Z.ltb_lt 0 size)) by lia. cbn [andb mbind result_bind].
  eexists. split; [reflexivity|]. split; [|done]. split; cbn; try done.
  - by rewrite w64_small by lia.
  - rewrite len_length, length_insert, length_replicate. lia.
  - by rewrite Z.mod_1_l by lia.
  - by rewrite Z.mod_1_l by lia.
  - intros i Hi. replace i with 0 by lia. rewrite list_lookup_insert_eq; [done|].
    rewrite length_replicate. cbn. lia.
  - unfold bg_order. cbn. lia.
Qed.

Definition alloc_new (b : nat) (bg : BlockGhost) (blk : @Block T) g : Ghost :=
  mkGhost (used g) (free g) (<[b := bg]> (gb g)) (glarge g) (pend g) (closed g) (Some (b, blk)) (fixed g) (pushed g) (popped g).

Lemma ring_heap q g b : Inv q g -> b ∈ ring g -> (b < length (heap q))%nat.
Proof. intros HI Hb. destruct (iv_blocks _ _ HI b Hb) as (blk' & Hl & _). by eapply lookup_lt_Some. Qed.

Lemma inv_alloc q g bg blk :
  Inv q g -> Inv (set_heap (heap q ++ [blk]) q) (alloc_new (length (heap q)) bg blk g) /\ length (heap q) ∉ ring g.
Proof.
  intros HI. pose proof HI as [H1 H2 H3 H4 H5 H7 H6]. pose proof (ring_heap q g) as Hlt.
  assert (length (heap q) ∉ ring g) as Hnew by (intros Hin; specialize (Hlt _ HI Hin); lia).
  assert (forall b, b ∈ ring g -> b <> length (heap q)) as Hne by (intros b Hb ->; done).
  split; [|done]. split; try done; cbn.
  - eapply chain_ext; [|exact H3]. intros b Hb. by rewrite lookup_app_l by auto.
  - intros b Hb. rewrite lookup_app_l by (by apply Hlt).
    rewrite fn_lookup_insert_ne by (by apply not_eq_sym, Hne). by apply H4.
  - intros b blk' [= <- <-]. split; [done|]. by apply list_lookup_middle.
  - apply (ghost_ok_minor g); try done. intros b Hb. cbn. rewrite fn_lookup_insert_ne by (by apply not_eq_sym, Hne).
    apply minor_refl. destruct (H4 b Hb) as (blk' & _ & [_ _ _ _ _ _ _ _ Ho]). unfold bg_order in Ho. lia.
Qed.

Lemma Rc_alloc g b bg blk : closed g = false -> b ∉ ring g -> Rc g (alloc_new b bg blk g).
Proof.
  intros Hc Hb.
  assert (forall c, c ∈ ring g -> gb (alloc_new b bg blk g) c = gb g c) as He
    by (intros c Hr; cbn; rewrite fn_lookup_insert_ne; [done|]; by intros ->).
  assert (forall c, c ∈ used g -> gb (alloc_new b bg blk g) c = gb g c) as Heu by (intros; apply He, elem_of_app; auto).
  split; try done.
  - congruence.
  - intros c Hr. by rewrite He.
  - intros c Hr. by rewrite Heu.
  - intros c i Hr _. by rewrite Heu.
  - exists []. by rewrite app_nil_r.
  - intros l1 c l2 Hl _. rewrite Heu; [done|]. rewrite Hl. apply elem_of_app. right. by left.
Qed.

(** The ring grows behind the last block in use. *)
Definition link_new (b : nat) (size : Z) g : Ghost :=
  mkGhost (used g) (b :: free g) (gb g) size true (closed g) None (fixed g) (pushed g) (popped g).

Lemma zsum_app l k : zsum (l ++ k) = zsum l + zsum k.
Proof. unfold zsum. induction l as [|x l IH]; [done|]. cbn. rewrite IH. lia. Qed.

Lemma inv_link q g b blk t x size tblk :
  Inv q g -> b ∉ ring g -> gb g b = bg_new size x -> pend g = false ->
  heap q !! b = Some blk -> blk_ok (bg_new size x) blk -> next blk = Some t ->
  heap q !! tailBlock q = Some tblk -> next tblk = Some t ->
  ring_cap g + (size - 1) < 2 ^ 64 -> glarge g = size ->
  Inv (set_heap (<[tailBlock q := set_next (Some b) tblk]> (heap q)) q) (link_new b size g).
Proof.
  intros HI Hb Hg Hp Hblk Hok Hn Ht Hnt Hcap Hlarge. pose proof HI as [H1 H2 H3 H4 H5 H7 H6].
  destruct (used_last q g HI) as [u Hu]. set (tb := tailBlock q) in *.
  assert (tb <> b) as Htb by (intros <-; apply Hb; by apply (tail_in_ring q g)).
  assert (NoDup (used g ++ free g)) as Hnd by apply H6.
  assert (tb ∉ u /\ tb ∉ free g) as [Htu Htf].
  { rewrite Hu in Hnd. apply NoDup_app in Hnd as (Hnd & Hd & _). apply NoDup_app in Hnd as (_ & Hnd & _). split.
    - intros Hin. apply (Hnd tb); [done|by left].
    - apply Hd, elem_of_app. right. by left. }
  assert (forall c, c <> tb -> <[tb:=set_next (Some b) tblk]> (heap q) !! c = heap q !! c) as Hne
    by (intros c Hc; by rewrite list_lookup_insert_ne).
  assert (<[tb:=set_next (Some b) tblk]> (heap q) !! tb = Some (set_next (Some b) tblk)) as Heq
    by (apply list_lookup_insert_eq; by eapply lookup_lt_Some).
  split; try done.
  - unfold ring in *. cbn [used free link_new]. cbn [heap set_heap]. rewrite Hu, <- app_assoc in *. cbn in *.
    rewrite chain_app in *. destruct H3 as [H3 H3']. split.
    + eapply chain_ext; [|exact H3]. intros c Hc. rewrite Hne; [done|]. by intros ->.
    + cbn in *. rewrite Heq, Hne, Hblk by done. cbn. destruct H3' as [H3' H3''].
      rewrite Ht in H3'. cbn in H3'. split; [done|]. split; [congruence|].
      eapply chain_ext; [|exact H3'']. intros c Hc. rewrite Hne; [done|]. by intros ->.
  - intros c Hc. assert (c = b \/ c ∈ ring g) as [->|Hr].
    { unfold ring in *. cbn in Hc. rewrite elem_of_app, elem_of_cons in Hc. rewrite elem_of_app. tauto. }
    + cbn. rewrite Hne by done. exists blk. by rewrite Hg.
    + destruct (H4 c Hr) as (cblk & Hcb & Hcok). cbn. destruct (decide (c = tb)) as [->|Hctb].
      * rewrite Heq. eexists. split; [done|]. rewrite Ht in Hcb. injection Hcb as <-. by destruct Hcok.
      * rewrite Hne by done. by exists cblk.
  - cbn. by rewrite H5.
  - destruct H6 as [G1 G2 G3 G4 G5 G6 G7]. split; try done.
    + unfold ring. cbn. apply NoDup_app in Hnd as (N1 & N2 & N3). apply NoDup_app. split; [done|]. split.
      * intros c Hc [->|Hcf]%elem_of_cons; [apply Hb, elem_of_app; auto|by apply (N2 c)].
      * constructor; [|done]. intros Hin. apply Hb, elem_of_app. auto.
    + cbn. rewrite Hg. cbn. split; [done|]. rewrite Hp in G4. unfold free_ok in G4.
      destruct (free g) as [|c l]; [constructor|]. destruct G4. by constructor.
    + unfold ring_cap, ring in Hcap |- *. cbn [used free gb link_new]. rewrite fmap_app, zsum_app in Hcap.
      rewrite fmap_app, zsum_app, fmap_cons. unfold zsum in *. cbn [foldr]. rewrite Hg. cbn [bM bg_new]. lia.
    + cbn. by rewrite <- Hlarge.
Qed.

Lemma Rc_link g b size : closed g = false -> fixed g = false -> Rc g (link_new b size g).
Proof.
  intros Hc Hf. split; try done; cbn.
  - congruence.
  - exists []. by rewrite app_nil_r.
  - intros c. unfold ring. cbn. rewrite !elem_of_app, elem_of_cons. tauto.
  - split; [done|congruence].
Qed.

(** ** The steps of the consumer *)

Definition bg_LT (v : Z) (x : BlockGhost) : BlockGhost :=
  mkBG (bF x) v (bT x) (bW x) (bLF x) (bM x) (bval x).
Definition bg_F (x : BlockGhost) : BlockGhost :=
  mkBG (bF x + 1) (bLT x) (bT x) (bW x) (bLF x) (bM x) (bval x).

Lemma inv_localTail q g b blk t0 :
  Inv q g -> heap q !! b = Some blk -> b ∈ ring g -> blk_ok (gb g b) blk -> bF (gb g b) <= t0 <= bT (gb g b) ->
  Inv (set_heap (<[b := set_localTail (t0 mod (bM (gb g b) + 1)) blk]> (heap q)) q) (upd_bg b (bg_LT t0 (gb g b)) g).
Proof.
  intros HI Hb Hr [B1 B2 B3 B4 B5 B6 B7 B8 B9] Hf. unfold bg_order in B9.
  eapply inv_minor; [exact HI|exact Hb|exact Hr| |done|].
  - split; try done. unfold bg_order. cbn. lia.
  - unfold minor. cbn. split_and!; done || lia.
Qed.

Lemma Rp_localTail g b t0 : b ∈ ring g -> Rp g (upd_bg b (bg_LT t0 (gb g b)) g).
Proof.
  intros Hb. split; try done; cbn.
  - intros c. destruct (decide (c = b)) as [->|Hne]; [by rewrite fn_lookup_insert|by rewrite fn_lookup_insert_ne].
  - intros c _. destruct (decide (c = b)) as [->|Hne]; [by rewrite fn_lookup_insert|by rewrite fn_lookup_insert_ne].
  - exists []. by rewrite app_nil_r.
  - intros c Hc. rewrite fn_lookup_insert_ne; [done|]. by intros ->.
Qed.

(** The first element of the first block is taken. *)
Definition take_one (b : nat) g : Ghost :=
  mkGhost (used g) (free g) (<[b := bg_F (gb g b)]> (gb g)) (glarge g) (pend g) (closed g) (spare g) (fixed g) (pushed g)
    (popped g ++ [bval (gb g b) (bF (gb g b))]).

Lemma blk_ok_front x blk : blk_ok x blk -> bF x < bLT x ->
  blk_ok (bg_F x) (set_front ((bF x + 1) mod (bM x + 1)) blk).
Proof.
  intros [B1 B2 B3 B4 B5 B6 B7 B8 B9] Hw. split; try done.
  - cbn. intros i Hi. apply B8. lia.
  - unfold bg_order in *. cbn. lia.
Qed.

Lemma bg_items_F x : bF x < bT x -> bg_items x = bval x (bF x) :: bg_items (bg_F x).
Proof. intros Hx. unfold bg_items. cbn. rewrite seqZ_cons by lia. cbn. do 3 f_equal; lia. Qed.

Lemma take_one_others g b l :
  NoDup (ring g) -> used g = b :: l -> forall c, c ∈ l ++ free g -> (<[b := bg_F (gb g b)]> (gb g)) c = gb g c.
Proof.
  unfold ring. intros Hnd Hu c Hc. rewrite Hu in Hnd. cbn in Hnd. apply NoDup_cons in Hnd as [Hnd _].
  rewrite fn_lookup_insert_ne; [done|]. by intros <-.
Qed.

Lemma ghost_take_one g b l :
  ghost_ok g -> used g = b :: l -> bF (gb g b) < bT (gb g b) -> ghost_ok (take_one b g).
Proof.
  intros [H1 H2 H3 H4 H5 H6 H7] Hu Hb. pose proof (take_one_others g b l H1 Hu) as He.
  split; cbn; try done.
  - rewrite Hu in *. cbn in *. rewrite drop_0 in *. intros c Hc. rewrite He; [by apply H2|]. apply elem_of_app. auto.
  - intros l1 c l2 Hl Hl1 Hl2. rewrite He; [by eapply H3|]. rewrite Hu in Hl. destruct l1; [done|].
    injection Hl as _ ->. rewrite !elem_of_app, elem_of_cons. auto.
  - eapply free_ok_ext; [|exact H4]. intros c Hc. apply He, elem_of_app. auto.
  - rewrite H5. unfold gitems. cbn. rewrite Hu. cbn. rewrite fn_lookup_insert, (items_ext (gb g) (<[b := bg_F (gb g b)]> (gb g)) l).
    + by rewrite (bg_items_F (gb g b)), <- app_assoc by done.
    + intros c Hc. apply He, elem_of_app. auto.
  - unfold ring_cap. erewrite list_fmap_ext; [exact H6|]. intros i c _. cbn.
    destruct (decide (c = b)) as [->|Hne]; [by rewrite fn_lookup_insert|by rewrite fn_lookup_insert_ne].
Qed.

Lemma inv_take_one q g b l blk :
  Inv q g -> used g = b :: l -> heap q !! b = Some blk -> blk_ok (gb g b) blk -> bF (gb g b) < bLT (gb g b) ->
  Inv (set_heap (<[b := set_front ((bF (gb g b) + 1) mod (bM (gb g b) + 1)) blk]> (heap q)) q) (take_one b g).
Proof.
  intros HI Hu Hb Hok Hlt. eapply inv_store; [exact HI|exact Hb| |done..| | |].
  - unfold ring. rewrite Hu. by left.
  - intros c Hc. cbn. by rewrite fn_lookup_insert_ne.
  - cbn. rewrite fn_lookup_insert. by apply blk_ok_front.
  - eapply ghost_take_one; [apply HI|exact Hu|]. destruct (bk_order _ _ Hok). lia.
Qed.

Lemma Rp_take_one g b l : NoDup (ring g) -> used g = b :: l -> Rp g (take_one b g).
Proof.
  intros Hnd Hu. pose proof (take_one_others g b l Hnd Hu) as He. split; try done; cbn.
  - intros c. destruct (decide (c = b)) as [->|Hne]; [rewrite fn_lookup_insert|by rewrite fn_lookup_insert_ne].
    cbn. split_and!; done || lia.
  - intros c Hc. rewrite He; [done|]. apply elem_of_app. auto.
  - exists []. by rewrite app_nil_r.
  - intros c Hc. rewrite fn_lookup_insert_ne; [done|]. intros <-. apply Hc. unfold ring. rewrite Hu. by left.
  - by eexists.
Qed.

(** The first block is empty and is left behind. *)
Definition advance_front (b : nat) (l : list nat) g : Ghost :=
  mkGhost l (free g ++ [b]) (gb g) (glarge g) (pend g) (closed g) (spare g) (fixed g) (pushed g) (popped g).

Lemma ring_advance_front b l g : used g = b :: l -> ring (advance_front b l g) ≡ₚ ring g.
Proof.
  intros Hu. unfold ring. cbn. rewrite Hu, app_assoc. cbn. by rewrite <- Permutation_cons_append.
Qed.

Lemma zsum_perm l k : l ≡ₚ k -> zsum l = zsum k.
Proof. unfold zsum. induction 1; cbn; lia. Qed.

Lemma ghost_advance_front g b y l :
  ghost_ok g -> used g = b :: y :: l -> bF (gb g b) = bT (gb g b) -> ghost_ok (advance_front b (y :: l) g).
Proof.
  intros [H1 H2 H3 H4 H5 H6 H7] Hu Hb. pose proof (ring_advance_front b (y :: l) g Hu) as Hp. split; try done.
  - by rewrite Hp.
  - cbn. rewrite drop_0. intros c Hc. apply H2. rewrite Hu. by right.
  - cbn. intros l1 c l2 Hl Hl1 Hl2. apply (H3 (b :: l1) c l2); [by rewrite Hu, Hl|done..].
  - cbn. destruct (free g) as [|c k]; cbn in *.
    + split; [|constructor]. rewrite H4. lia.
    + destruct H4 as [H4 H4']. split; [done|]. apply Forall_app. split; [done|]. constructor; [lia|constructor].
  - cbn. rewrite H5. unfold gitems. cbn. rewrite Hu. cbn. rewrite (bg_items_nil (gb g b)) by lia. done.
  - unfold ring_cap. erewrite zsum_perm; [exact H6|]. by rewrite Hp.
Qed.

Lemma inv_advance_front q g b y l :
  Inv q g -> used g = b :: y :: l -> bF (gb g b) = bT (gb g b) ->
  Inv (mkRwq y (tailBlock q) (largestBlockSize q) (heap q)) (advance_front b (y :: l) g).
Proof.
  intros [H1 H2 H3 H4 H5 H7 H6] Hu Hb. split; try done.
  - cbn. by rewrite Hu in H2.
  - unfold ring in *. cbn. rewrite Hu in *. cbn in H1. injection H1 as H1. rewrite <- H1 in H3.
    cbn [app] in H3. apply chain_rotate in H3. cbn [app] in H3. by rewrite <- app_assoc in H3.
  - intros c Hc. rewrite (ring_advance_front b (y :: l) g Hu) in Hc. by apply H4.
  - intros c blk Hc. cbn in Hc. rewrite (ring_advance_front b (y :: l) g Hu). by apply H7.
  - by apply ghost_advance_front.
Qed.

Lemma Rp_advance_front g b y l : used g = b :: y :: l -> Rp g (advance_front b (y :: l) g).
Proof. intros Hu. split; try done. cbn. exists [b]. by rewrite Hu. Qed.
End Spec.
