(* ===== verification/RwQueueProof.v ===== *)
(** * The operations of the queue, under interference

    The producer's and the consumer's operations against the invariant of
    [RwQueueSpec], with the other thread doing any of its steps between two
    accesses.  The rely [R] of a section is any preorder within the steps of
    the other thread: with equality as the rely, the same lemmas are about a
    queue used by one thread only. *)

From stdpp Require Import functions.
From S2P Require Import Prelude Interleave RwQueue RwQueueSpec.

Section Rules.
Context {T : Type}.
Abbreviation Gh := (@Ghost T).
Context (R G : Gh -> Gh -> Prop) `{!PreOrder R} `{!Reflexive G}.
Context (Hring : forall g g' b, R g g' -> b ∈ ring g -> b ∈ ring g').
Abbreviation rg := (rgwp Inv R G).

Lemma rg_load {X A} b (f : Block -> X) (k : X -> prog _ A) Q (g : Gh) :
  b ∈ ring g ->
  (forall q g' blk, R g g' -> Inv q g' -> b ∈ ring g' -> heap q !! b = Some blk -> blk_ok (gb g' b) blk ->
     rg (k (f blk)) Q g') ->
  rg (load b f ≫= k) Q g.
Proof using Type*.
  intros Hb H. apply rgwp_read; [done|]. intros q g' HR HI. pose proof (Hring _ _ _ HR Hb) as Hb'.
  destruct (iv_blocks _ _ HI b Hb') as (blk & Hl & Hok). rewrite Hl. eauto.
Qed.

Lemma rg_store {A} b (f : Block -> Block) (k : unit -> prog _ A) Q (g : Gh) :
  b ∈ ring g ->
  (forall q g' blk, R g g' -> Inv q g' -> b ∈ ring g' -> heap q !! b = Some blk -> blk_ok (gb g' b) blk ->
     exists g'', Inv (set_heap (<[b := f blk]> (heap q)) q) g'' /\ G g' g'' /\ rg (k tt) Q g'') ->
  rg (store b f ≫= k) Q g.
Proof using Type*.
  intros Hb H. apply rgwp_write. intros q g' HR HI. pose proof (Hring _ _ _ HR Hb) as Hb'.
  destruct (iv_blocks _ _ HI b Hb') as (blk & Hl & Hok).
  destruct (H q g' blk) as (g'' & HI' & HG & Hk); [done..|]. rewrite Hl. eauto 6.
Qed.

(** The block after the one at the end of [l1]. *)
Lemma next_of (q : ReaderWriterQueue) (g : Gh) l1 b l2 blk :
  Inv q g -> ring g = l1 ++ b :: l2 -> heap q !! b = Some blk ->
  next blk = Some (default (frontBlock q) (head l2)).
Proof using Type.
  intros HI Hr Hb. pose proof (iv_ring _ _ HI) as Hc. rewrite Hr in Hc.
  apply chain_app in Hc as [_ [Hc _]]. by rewrite Hb in Hc.
Qed.
End Rules.

(** The test for a full block. *)
Lemma full_test M lf t : 0 <= M -> lf <= t <= lf + M ->
  if (t + 1) mod (M + 1) =? lf mod (M + 1) then t = lf + M else t + 1 <= lf + M.
Proof.
  intros HM Ht. destruct (Z.eqb_spec ((t + 1) mod (M + 1)) (lf mod (M + 1))) as [He|Hne].
  - apply Z.eq_sym. enough (t - M = lf) by lia. apply (mod_inj_near (M + 1)); [lia..|].
    rewrite <- He. replace (t + 1) with (t - M + 1 * (M + 1)) by lia. by rewrite Z.mod_add by lia.
  - destruct (decide (t = lf + M)) as [->|]; [|lia]. destruct Hne.
    replace (lf + M + 1) with (lf + 1 * (M + 1)) by lia. by rewrite Z.mod_add by lia.
Qed.

(** ** The producer *)

Section Producer.
Context {T : Type}.
Abbreviation Gh := (@Ghost T).
Context (R : Gh -> Gh -> Prop) (Past : list T -> list T -> Prop) `{!PreOrder R} `{!PreOrder Past}.
Context (HR : forall g g', R g g' -> Rp g g' /\ Past (popped g) (popped g')).
Context (rc : Z) (fx : bool).
Abbreviation rg := (rgwp Inv R Rc).

Lemma Rp_ring (g g' : Gh) b : Rp g g' -> b ∈ ring g -> b ∈ ring g'.
Proof using Type.
  intros [_ _ (r & H1 & H2) _ _ _ _ _ _ _ _ _]. unfold ring. rewrite H1, H2, !elem_of_app. tauto.
Qed.

Lemma R_ring (g g' : Gh) b : R g g' -> b ∈ ring g -> b ∈ ring g'.
Proof using HR. intros H. by apply Rp_ring, HR. Qed.

Lemma ring_cap_stable g g' : R g g' -> ring_cap g' = ring_cap g.
Proof using HR.
  intros [Hp _]%HR. destruct (rp_used _ _ Hp) as (r & R1 & R2). unfold ring_cap.
  rewrite (list_fmap_ext (fun b => bM (gb g' b)) (fun b => bM (gb g b)) (ring g')).
  - apply zsum_perm. apply fmap_Permutation. unfold ring. rewrite R1, R2. solve_Permutation.
  - intros i b _. by destruct (rp_block _ _ Hp b) as (_ & _ & _ & ? & _).
Qed.

Lemma ring_cap_upd b bg (g : Gh) : bM bg = bM (gb g b) -> ring_cap (upd_bg b bg g) = ring_cap g.
Proof using Type.
  intros HM. unfold ring_cap. f_equal. apply list_fmap_ext. intros i c _.
  destruct (decide (c = b)) as [->|Hne]; [by rewrite gb_upd|by rewrite gb_upd_ne].
Qed.

(** What the producer knows while it works on the last block [b]: its own
    fields of it are those of the snapshot [x]. *)
Record view (b : nat) (x : BlockGhost) (pu po : list T) (g : Gh) : Prop := {
  vw_closed : closed g = false;
  vw_pend : pend g = false;
  vw_last : last (used g) = Some b;
  vw_T : bT (gb g b) = bT x;
  vw_W : bW (gb g b) = bW x;
  vw_LF : bLF (gb g b) = bLF x;
  vw_M : bM (gb g b) = bM x;
  vw_val : bval (gb g b) = bval x;
  vw_F : bF x <= bF (gb g b);
  vw_pushed : pushed g = pu;
  vw_popped : Past po (popped g);
  vw_cap : ring_cap g = rc;
  vw_fixed : fixed g = fx
}.

Lemma view_ring b x pu po g : view b x pu po g -> b ∈ ring g.
Proof using Type.
  intros [_ _ [u Hu]%last_Some _ _ _ _ _ _ _ _ _ _]. unfold ring. rewrite Hu, !elem_of_app, list_elem_of_singleton. tauto.
Qed.

Lemma last_suffix {A} (r l : list A) b : last (r ++ l) = Some b -> l <> [] -> last l = Some b.
Proof using Type. intros H Hl. destruct (exists_last Hl) as (l' & c & ->). rewrite app_assoc, last_snoc in H. by rewrite last_snoc. Qed.

Lemma view_stable b x pu po g g' : view b x pu po g -> R g g' -> view b x pu po g'.
Proof using HR PreOrder1.
  intros [V1 V2 V3 V4 V5 V6 V7 V8 V9 V10 V11 V12 V13] Hgg. pose proof (ring_cap_stable _ _ Hgg) as Hcap.
  apply HR in Hgg as [Hr HP]. destruct Hr as [P1 P2 (r & P3 & P4) P10 P5 P6 P7 P8 _ _ P13 P9].
  destruct (P1 b) as (E1 & E2 & E3 & E4 & E5 & E6). split; try congruence; try lia.
  - rewrite P3 in V3. eapply last_suffix; [exact V3|]. apply P10. intros Hn. rewrite P3 in Hn. by rewrite Hn in V3.
  - by etransitivity.
Qed.

Lemma view_order b x pu po g blk : view b x pu po g -> blk_ok (gb g b) blk ->
  0 <= bLF x <= bF (gb g b) /\ bF (gb g b) <= bT x <= bW x /\ bW x <= bLF x + bM x /\ 1 <= bM x < 2 ^ 62 /\
  exists k, 1 <= k <= 62 /\ bM x = 2 ^ k - 1.
Proof using Type.
  intros [] [B1 _ _ _ _ _ _ _ B9]. pose proof (mask_bound _ B1). destruct B9 as (?&?&?).
  rewrite vw_M0 in B1. split_and!; try lia. done.
Qed.

(** The same blocks, possibly in another order, of the same sizes. *)
Definition same_ring (g g' : Gh) : Prop :=
  ring g' ≡ₚ ring g /\ forall b, b ∈ ring g -> bM (gb g' b) = bM (gb g b).

Lemma same_ring_trans g1 g2 g3 : same_ring g1 g2 -> same_ring g2 g3 -> same_ring g1 g3.
Proof using Type.
  intros [A1 A2] [B1 B2]. split; [by rewrite B1|]. intros b Hb. rewrite B2, A2; [done|done|by rewrite A1].
Qed.

Lemma Rp_same_ring g g' : Rp g g' -> same_ring g g'.
Proof using Type.
  intros Hr. destruct (rp_used _ _ Hr) as (r & R1 & R2). split.
  - unfold ring. rewrite R1, R2. solve_Permutation.
  - intros b _. by destruct (rp_block _ _ Hr b) as (_ & _ & _ & ? & _).
Qed.

Lemma Rc_same_ring g g' : Rc g g' -> fixed g = true -> same_ring g g'.
Proof using Type.
  intros Hr Hf. split; [by apply (rc_fixed _ _ Hr)|]. intros b Hb. by destruct (rc_own _ _ Hr b Hb) as (_ & _ & ?).
Qed.

(** At some moment since, block [b] was full. *)
Definition was_full (b : nat) (g : Gh) : Prop := exists g0, pushed g0 = pushed g /\ Past (popped g0) (popped g) /\
  ghost_ok g0 /\ used g0 <> [] /\ same_ring g0 g /\ bT (gb g0 b) = bF (gb g0 b) + bM (gb g0 b).

Lemma was_full_stable b g g' : was_full b g -> R g g' -> was_full b g'.
Proof using HR PreOrder1.
  intros (g0 & F1 & F2 & F3 & F4 & F5 & F6) HRg. pose proof HRg as [Hr HP]%HR.
  exists g0. split_and!; try done; [by rewrite F1, (rp_pushed _ _ Hr)|by etransitivity|].
  eapply same_ring_trans; [exact F5|by apply Rp_same_ring].
Qed.

Lemma used_not_nil q (g : Gh) : Inv q g -> used g <> [] .
Proof using Type. intros HI Hn. pose proof (iv_front _ _ HI) as Hf. by rewrite Hn in Hf. Qed.

Lemma rg_has_room {A} b x pu po (k : bool -> prog _ A) Q g :
  view b x pu po g -> 0 <= bM x -> bLF x <= bT x <= bLF x + bM x ->
  (forall g' x', view b x' pu po g' -> bT x' = bT x -> bM x' = bM x -> bT x + 1 <= bLF x' + bM x -> rg (k true) Q g') ->
  (forall g' x', view b x' pu po g' -> bT x' = bT x -> bM x' = bM x -> bT x = bLF x' + bM x -> was_full b g' ->
     rg (k false) Q g') ->
  rg (has_room b ((bT x + 1) mod (bM x + 1)) (bLF x mod (bM x + 1)) ≫= k) Q g.
Proof using All.
  intros Hv HM HLF Ht Hf. pose proof (full_test (bM x) (bLF x) (bT x) HM HLF) as Htest. unfold has_room.
  destruct (_ =? _); cbn [negb]; [|by eapply Ht].
  apply (rgwp_bind Inv R Rc). apply (rg_load R Rc R_ring); [by eapply view_ring|].
  intros q g1 blk1 H1 HI1 Hr1 Hb1 Hok1. pose proof (view_stable _ _ _ _ _ _ Hv H1) as Hv1.
  pose proof (view_order _ _ _ _ _ _ Hv1 Hok1) as (O1 & O2 & O3 & O4 & _).
  rewrite (bk_front _ _ Hok1), (vw_M _ _ _ _ _ Hv1). set (f0 := bF (gb g1 b)) in *.
  apply (rg_store R Rc R_ring); [by eapply view_ring|].
  intros q' g2 blk2 H2 HI2 Hr2 Hb2 Hok2. pose proof (view_stable _ _ _ _ _ _ Hv1 H2) as Hv2.
  pose proof (view_order _ _ _ _ _ _ Hv2 Hok2) as (P1 & P2 & P3 & P4 & _).
  pose proof H2 as [Hp HP]%HR. assert (f0 <= bF (gb g2 b)) as Hf0 by (destruct (rp_block _ _ Hp b) as (_&_&_&_&_&?); done).
  set (g3 := upd_bg b (bg_LF f0 (gb g2 b)) g2). exists g3. split; [|split].
  - rewrite <- (vw_M _ _ _ _ _ Hv2). apply inv_localFront; try done. rewrite (vw_LF _ _ _ _ _ Hv2). lia.
  - apply Rc_upd; try done. apply Hv2.
  - assert (view b (bg_LF f0 x) pu po g3) as Hv3.
    { destruct Hv2. split; try done; unfold g3; rewrite ?gb_upd, ?ring_cap_upd; cbn; done || lia. }
    pose proof (full_test (bM x) f0 (bT x) HM ltac:(lia)) as Htest'. apply rgwp_ret. intros g4 H4.
    pose proof (view_stable _ _ _ _ _ _ Hv3 H4) as Hv4.
    destruct (_ =? _); cbn [negb]; [|by eapply Ht]. eapply Hf; [exact Hv4|done..|].
    apply (was_full_stable b g3); [|done]. exists g1. split_and!; try done.
    + unfold g3. cbn. by rewrite (rp_pushed _ _ Hp).
    + by destruct HI1.
    + by eapply used_not_nil.
    + eapply same_ring_trans; [by apply Rp_same_ring|]. split; [done|]. intros c _. unfold g3.
      destruct (decide (c = b)) as [->|Hne]; [by rewrite gb_upd|by rewrite gb_upd_ne].
    + by rewrite (vw_T _ _ _ _ _ Hv1), (vw_M _ _ _ _ _ Hv1).
Qed.

Lemma rg_store_elem {A} b i v (k : unit -> prog _ A) Q (g : Gh) :
  b ∈ ring g ->
  (forall q g' blk, R g g' -> Inv q g' -> b ∈ ring g' -> heap q !! b = Some blk -> blk_ok (gb g' b) blk ->
     exists blk' g'', put_elem i v blk = Ok blk' /\ Inv (set_heap (<[b := blk']> (heap q)) q) g'' /\ Rc g' g'' /\
       rg (k tt) Q g'') ->
  rg (store_elem b i v ≫= k) Q g.
Proof using All.
  intros Hb H. apply rgwp_write. intros q g' Hg HI. pose proof (R_ring _ _ _ Hg Hb) as Hb'.
  destruct (iv_blocks _ _ HI b Hb') as (blk & Hl & Hok).
  destruct (H q g' blk) as (blk' & g'' & Hp & HI' & HG & Hk); [done..|]. rewrite Hl, Hp. eauto 6.
Qed.

(** The room that was found is used. *)
Lemma rg_enqueue_here b x v pu po (Q : bool -> Gh -> Prop) g :
  view b x pu po g -> bT x + 1 <= bLF x + bM x ->
  (forall g', closed g' = false -> pend g' = false -> pushed g' = pu ++ [v] -> Past po (popped g') -> Q true g') ->
  rg (store_elem b (bT x mod (bM x + 1)) v ;; store b (set_tail ((bT x + 1) mod (bM x + 1))) ;; Ret true) Q g.
Proof using All.
  intros Hv Hroom HQ. apply rg_store_elem; [by eapply view_ring|].
  intros q g1 blk1 H1 HI1 Hr1 Hb1 Hok1. pose proof (view_stable _ _ _ _ _ _ Hv H1) as Hv1.
  destruct (inv_write q g1 b blk1 v HI1 Hb1 Hr1 Hok1) as (blk' & Hp & HI').
  { rewrite (vw_T _ _ _ _ _ Hv1), (vw_LF _ _ _ _ _ Hv1), (vw_M _ _ _ _ _ Hv1). done. }
  rewrite (vw_T _ _ _ _ _ Hv1), (vw_M _ _ _ _ _ Hv1) in Hp.
  exists blk', (upd_bg b (bg_write v (gb g1 b)) g1). split; [exact Hp|]. split; [exact HI'|].
  split; [apply Rc_write, Hv1|]. set (g2 := upd_bg b _ g1) in *.
  assert (view b (bg_write v x) pu po g2) as Hv2.
  { destruct Hv1. split; try done; unfold g2; rewrite ?gb_upd, ?ring_cap_upd; cbn; rewrite ?vw_T0, ?vw_val0; done. }
  apply (rg_store R Rc R_ring); [by eapply view_ring|].
  intros q' g3 blk3 H3 HI3 Hr3 Hb3 Hok3. pose proof (view_stable _ _ _ _ _ _ Hv2 H3) as Hv3.
  destruct (used_last q' g3 HI3) as [u Hu]. pose proof (vw_last _ _ _ _ _ Hv3) as Hlast.
  rewrite Hu, last_snoc in Hlast. injection Hlast as Hlast.
  exists (push_here b g3). split; [|split].
  - pose proof (vw_T _ _ _ _ _ Hv3) as E1. pose proof (vw_M _ _ _ _ _ Hv3) as E2. cbn in E1, E2. rewrite <- E1, <- E2.
    apply inv_push_here; try done. rewrite E1, (vw_W _ _ _ _ _ Hv3). cbn. lia.
  - rewrite <- Hlast. apply Rc_push_here; [done|apply Hv3].
  - apply rgwp_ret. intros g4 H4. pose proof H4 as [Hp4 HP4]%HR.
    apply HQ; rewrite ?(rp_closed _ _ Hp4), ?(rp_pend _ _ Hp4), ?(rp_pushed _ _ Hp4); try apply Hv3.
    + cbn. rewrite (vw_pushed _ _ _ _ _ Hv3), (vw_T _ _ _ _ _ Hv3), (vw_val _ _ _ _ _ Hv3). cbn.
      by rewrite fn_lookup_insert.
    + etransitivity; [apply (vw_popped _ _ _ _ _ Hv3)|exact HP4].
Qed.

(** ** The next block *)

(** The first free block is [c], with the fields of [y]. *)
Record free_view (c : nat) (y : BlockGhost) (g : Gh) : Prop := {
  fv_head : head (free g) = Some c;
  fv_F : bF (gb g c) = bF y;
  fv_T : bT (gb g c) = bT y;
  fv_W : bW (gb g c) = bW y;
  fv_LF : bLF (gb g c) = bLF y;
  fv_M : bM (gb g c) = bM y;
  fv_val : bval (gb g c) = bval y
}.

Lemma free_view_stable c y g g' : free_view c y g -> R g g' -> free_view c y g'.
Proof using HR.
  intros [V1 V2 V3 V4 V5 V6 V7] [[P1 P2 (r & P3 & P4) _ _ _ _ _ _ _ _ _] _]%HR.
  destruct (P1 c) as (E1 & E2 & E3 & E4 & E5 & _).
  assert (c ∈ free g) as Hc by (destruct (free g); [done|]; injection V1 as ->; by left).
  split; try congruence.
  - rewrite P4. by destruct (free g).
  - by rewrite P2.
Qed.

Lemma free_view_ring c y g : free_view c y g -> c ∈ ring g.
Proof using Type.
  intros [V1 _ _ _ _ _ _]. unfold ring. apply elem_of_app. right. destruct (free g); [done|]. injection V1 as ->. by left.
Qed.

Lemma last_next q (g : Gh) b blk u : Inv q g -> used g = u ++ [b] -> heap q !! b = Some blk ->
  next blk = Some (default (frontBlock q) (head (free g))).
Proof using Type.
  intros HI Hu Hb. apply (next_of q g u b (free g) blk HI); [|done]. unfold ring. by rewrite Hu, <- app_assoc.
Qed.

Lemma rg_load_next {A} b x pu po (k : nat -> prog _ A) Q g :
  view b x pu po g ->
  (forall q g', R g g' -> Inv q g' -> rg (k (default (frontBlock q) (head (free g')))) Q g') ->
  rg (load_next b ≫= k) Q g.
Proof using All.
  intros Hv H. apply (rgwp_read Inv R Rc); [typeclasses eauto|]. intros q g' Hg HI.
  pose proof (view_stable _ _ _ _ _ _ Hv Hg) as Hv'.
  pose proof (view_ring _ _ _ _ _ Hv') as Hr. destruct (iv_blocks _ _ HI b Hr) as (blk & Hl & Hok). rewrite Hl.
  destruct (last_Some (used g') b) as [Hlast _]. destruct (Hlast (vw_last _ _ _ _ _ Hv')) as [u Hu].
  rewrite (last_next q g' b blk u) by done. eauto.
Qed.

Lemma rg_find_next {A} b x pu po (k : bool -> prog _ A) Q g :
  view b x pu po g ->
  (forall g' c, view b x pu po g' -> free_view c (gb g' c) g' -> rg (k true) Q g') ->
  (forall q g', view b x pu po g' -> R g g' -> Inv q g' -> free g' = [] -> rg (k false) Q g') ->
  rg (nxt ← load_next b; fb ← load_frontBlock; k (negb (Nat.eqb nxt fb))) Q g.
Proof using All.
  intros Hv Ht Hf. eapply rg_load_next; [exact Hv|]. intros q1 g1 H1 HI1.
  pose proof (view_stable _ _ _ _ _ _ Hv H1) as Hv1.
  apply (rgwp_read Inv R Rc); [typeclasses eauto|]. intros q2 g2 H2 HI2. eexists. split; [reflexivity|].
  pose proof (view_stable _ _ _ _ _ _ Hv1 H2) as Hv2. pose proof H2 as [Hp _]%HR.
  destruct (rp_used _ _ Hp) as (r & P1 & P2). pose proof (iv_front _ _ HI1) as F1. pose proof (iv_front _ _ HI2) as F2.
  pose proof (go_nodup _ (iv_ghost _ _ HI2)) as Hnd.
  set (nxt := default _ _) in *.
  assert (nxt ∈ free g2 /\ head (free g2) = Some nxt \/ free g2 = [] /\ nxt = frontBlock q2) as [[Hin Hh]|[He Hn]].
  { unfold nxt. rewrite P2. destruct (free g1) as [|c l]; cbn.
    - destruct r as [|c r]; cbn.
      + right. split; [done|]. rewrite P1 in F1. cbn in F1. congruence.
      + rewrite P1 in F1. cbn in F1. injection F1 as ->. left. split; [by left|done].
    - left. split; [by left|done]. }
  - destruct (Nat.eqb_spec nxt (frontBlock q2)) as [Heq|Hne]; cbn [negb].
    + exfalso. apply (ring_disjoint g2 nxt Hnd Hin). rewrite Heq. destruct (used g2); [done|]. injection F2 as ->. by left.
    + eapply Ht; [exact Hv2|]. by split.
  - rewrite Hn, Nat.eqb_refl. cbn [negb]. eapply Hf; [exact Hv2| |exact HI2|exact He]. by etransitivity.
Qed.

(** A step on the free block leaves the view of the last block alone. *)
Lemma view_upd_other b x pu po c bg g : view b x pu po g -> c <> b -> bM bg = bM (gb g c) -> view b x pu po (upd_bg c bg g).
Proof using Type. intros [] Hc HM. split; rewrite ?gb_upd_ne, ?ring_cap_upd by done; done. Qed.

Lemma free_view_upd c y y' bg g : free_view c y g ->
  bF bg = bF y' -> bT bg = bT y' -> bW bg = bW y' -> bLF bg = bLF y' -> bM bg = bM y' -> bval bg = bval y' ->
  free_view c y' (upd_bg c bg g).
Proof using Type. intros [V1 _ _ _ _ _ _]. split; rewrite ?gb_upd; done. Qed.

Lemma free_view_other b x pu po c y g : view b x pu po g -> free_view c y g -> NoDup (ring g) -> c <> b.
Proof using Type.
  intros [_ _ Hl _ _ _ _ _ _ _ _ _ _] [Hh _ _ _ _ _ _] Hnd ->. apply (ring_disjoint g b Hnd).
  - destruct (free g); [done|]. injection Hh as ->. by left.
  - apply last_Some in Hl as [u ->]. apply elem_of_app. right. by left.
Qed.

Lemma free_view_cons c y g : free_view c y g -> exists l, free g = c :: l.
Proof using Type. intros [Hh _ _ _ _ _ _]. destruct (free g) as [|d l]; [done|]. injection Hh as ->. by exists l. Qed.

Lemma free_view_empty b x pu po c y q g : view b x pu po g -> free_view c y g -> Inv q g -> bT y = bF y.
Proof using Type.
  intros Hv Hf HI. pose proof (go_free _ (iv_ghost _ _ HI)) as H. destruct (free_view_cons _ _ _ Hf) as [l Hl].
  rewrite Hl, (vw_pend _ _ _ _ _ Hv) in H. destruct H as [H _]. rewrite (fv_T _ _ _ Hf), (fv_F _ _ _ Hf) in H. done.
Qed.

(** Two stores of [localFront] on the way. *)
Lemma rg_store_free_front {A} b x pu po c y (k : unit -> prog _ A) Q g :
  view b x pu po g -> free_view c y g ->
  (forall g', view b x pu po g' -> free_view c (bg_LF (bF y) y) g' -> rg (k tt) Q g') ->
  rg (store c (set_localFront (bF y mod (bM y + 1))) ≫= k) Q g.
Proof using All.
  intros Hv Hf Hk. apply (rg_store R Rc R_ring); [by eapply free_view_ring|].
  intros q g1 blk H1 HI1 Hr1 Hb1 Hok1. pose proof (view_stable _ _ _ _ _ _ Hv H1) as Hv1.
  pose proof (free_view_stable _ _ _ _ Hf H1) as Hf1. pose proof (bk_order _ _ Hok1) as (O1 & O2 & O3).
  exists (upd_bg c (bg_LF (bF y) (gb g1 c)) g1). split; [|split].
  - rewrite <- (fv_M _ _ _ Hf1). apply inv_localFront; try done. rewrite <- (fv_F _ _ _ Hf1). lia.
  - apply Rc_upd; try done. apply Hv1.
  - apply Hk.
    + apply view_upd_other; [done| |done]. eapply free_view_other; [exact Hv1|exact Hf1|apply HI1].
    + eapply free_view_upd; [exact Hf1|..]; apply Hf1 || done.
Qed.

Lemma last_full_view b x pu po q g : view b x pu po g -> Inv q g -> bT x = bLF x + bM x -> last_full g.
Proof using Type.
  intros Hv HI Hx u c Hu Hne. pose proof (vw_last _ _ _ _ _ Hv) as Hl. rewrite Hu, last_snoc in Hl. injection Hl as ->.
  destruct (go_rest _ (iv_ghost _ _ HI) b) as [_ HLF].
  { rewrite Hu. destruct u; [done|]. cbn. rewrite drop_0. apply elem_of_app. right. by left. }
  rewrite (vw_T _ _ _ _ _ Hv), (vw_M _ _ _ _ _ Hv), <- HLF, (vw_LF _ _ _ _ _ Hv). done.
Qed.

(** [tailBlock] moves to the block [c] that holds [v]. *)
Lemma rg_advance b pu po c v (Q : bool -> Gh -> Prop) g :
  closed g = false -> pend g = true -> head (free g) = Some c -> last (used g) = Some b ->
  bT (gb g b) = bLF (gb g b) + bM (gb g b) -> bval (gb g c) (bF (gb g c)) = v -> pushed g = pu -> Past po (popped g) ->
  (forall g', closed g' = false -> pend g' = false -> pushed g' = pu ++ [v] -> Past po (popped g') -> Q true g') ->
  rg (store_tailBlock c ;; Ret true) Q g.
Proof using All.
  intros Hc Hp Hh Hlast Hfull Hval Hpu Hpo HQ. apply rgwp_write. intros q1 g1 H1 HI1. pose proof H1 as [Hp1 HP1]%HR.
  destruct (rp_used _ _ Hp1) as (r & R1 & R2). destruct (free g) as [|d l] eqn:Hl; [done|]. injection Hh as ->.
  destruct (rp_block _ _ Hp1 c) as (_ & _ & _ & _ & C5 & _). pose proof (rp_free _ _ Hp1 c ltac:(rewrite Hl; by left)) as C7.
  eexists _, (advance_tail c (l ++ r) g1). split; [reflexivity|]. split; [|split].
  - apply inv_advance_tail; [done|done|by rewrite (rp_pend _ _ Hp1)|]. intros u d Hu Hne.
    rewrite R1, Hu, app_assoc, last_snoc in Hlast. injection Hlast as ->.
    destruct (rp_block _ _ Hp1 b) as (D1 & _ & D3 & D4 & _ & _).
    destruct (go_rest _ (iv_ghost _ _ HI1) b) as [_ HLF1].
    { rewrite Hu. destruct u; [done|]. cbn. rewrite drop_0. apply elem_of_app. right. by left. }
    rewrite D1, D4, <- HLF1, D3. done.
  - apply Rc_advance_tail; [by rewrite (rp_closed _ _ Hp1)|done].
  - apply rgwp_ret. intros g2 H2. pose proof H2 as [Hp2 HP2]%HR.
    apply HQ; rewrite ?(rp_closed _ _ Hp2), ?(rp_pend _ _ Hp2), ?(rp_pushed _ _ Hp2); cbn; try done.
    + by rewrite (rp_closed _ _ Hp1).
    + by rewrite (rp_pushed _ _ Hp1), C5, C7, Hpu, Hval.
    + etransitivity; [exact Hpo|]. etransitivity; [exact HP1|exact HP2].
Qed.

(** The element goes into the free block [c], which becomes the last one. *)
Lemma rg_publish b x pu po c y v (Q : bool -> Gh -> Prop) g :
  view b x pu po g -> bT x = bLF x + bM x -> free_view c y g -> bLF y = bF y -> bT y + 1 <= bLF y + bM y ->
  (forall g', closed g' = false -> pend g' = false -> pushed g' = pu ++ [v] -> Past po (popped g') -> Q true g') ->
  rg (store_elem c (bT y mod (bM y + 1)) v ;;
      mask ← load c sizeMask;
      store c (set_tail (Z.land (bT y mod (bM y + 1) + 1)%u64 mask)) ;;
      store_tailBlock c ;;
      Ret true) Q g.
Proof using All.
  intros Hv Hfull Hf HLF Hroom HQ. apply rg_store_elem; [by eapply free_view_ring|].
  intros q g1 blk1 H1 HI1 Hr1 Hb1 Hok1. pose proof (view_stable _ _ _ _ _ _ Hv H1) as Hv1.
  pose proof (free_view_stable _ _ _ _ Hf H1) as Hf1.
  pose proof (free_view_empty _ _ _ _ _ _ _ _ Hv1 Hf1 HI1) as Hempty.
  pose proof (free_view_other _ _ _ _ _ _ _ Hv1 Hf1 (go_nodup _ (iv_ghost _ _ HI1))) as Hcb.
  destruct (inv_write q g1 c blk1 v HI1 Hb1 Hr1 Hok1) as (blk' & Hp & HI').
  { by rewrite (fv_T _ _ _ Hf1), (fv_LF _ _ _ Hf1), (fv_M _ _ _ Hf1). }
  rewrite (fv_T _ _ _ Hf1), (fv_M _ _ _ Hf1) in Hp.
  exists blk', (upd_bg c (bg_write v (gb g1 c)) g1). split; [exact Hp|]. split; [exact HI'|].
  split; [apply Rc_write, Hv1|]. set (g2 := upd_bg c _ g1) in *.
  assert (view b x pu po g2) as Hv2 by by apply view_upd_other.
  assert (free_view c (bg_write v y) g2) as Hf2.
  { eapply free_view_upd; [exact Hf1|..]; cbn; rewrite ?(fv_T _ _ _ Hf1), ?(fv_val _ _ _ Hf1); apply Hf1 || done. }
  apply (rg_load R Rc R_ring); [by eapply free_view_ring|].
  intros q3 g3 blk3 H3 HI3 Hr3 Hb3 Hok3. pose proof (view_stable _ _ _ _ _ _ Hv2 H3) as Hv3.
  pose proof (free_view_stable _ _ _ _ Hf2 H3) as Hf3.
  rewrite (bk_mask _ _ Hok3), (fv_M _ _ _ Hf3). cbn [bM bg_write].
  assert (exists k, 1 <= k <= 62 /\ bM y = 2 ^ k - 1) as HM by (rewrite <- (fv_M _ _ _ Hf1); apply Hok1).
  rewrite (next_index _ _ HM).
  apply (rg_store R Rc R_ring); [by eapply free_view_ring|].
  intros q4 g4 blk4 H4 HI4 Hr4 Hb4 Hok4. pose proof (view_stable _ _ _ _ _ _ Hv3 H4) as Hv4.
  pose proof (free_view_stable _ _ _ _ Hf3 H4) as Hf4. destruct (free_view_cons _ _ _ Hf4) as [l Hl].
  exists (fill_next c g4). split; [|split].
  - pose proof (fv_T _ _ _ Hf4) as E1. pose proof (fv_M _ _ _ Hf4) as E2. cbn in E1, E2. rewrite <- E1, <- E2.
    apply (inv_fill_next q4 g4 c l); try done; [apply Hv4| |].
    + rewrite (fv_LF _ _ _ Hf4), (fv_F _ _ _ Hf4). done.
    + rewrite E1, (fv_W _ _ _ Hf4). cbn. lia.
  - apply Rc_fill_next; [apply Hv4|apply HI4|]. rewrite Hl. by left.
  - apply (rg_advance b pu po c v); cbn; try apply Hv4; try done.
    + by rewrite Hl.
    + rewrite fn_lookup_insert_ne by done.
      rewrite (vw_T _ _ _ _ _ Hv4), (vw_M _ _ _ _ _ Hv4), (vw_LF _ _ _ _ _ Hv4). done.
    + rewrite fn_lookup_insert. cbn. rewrite (fv_F _ _ _ Hf4), (fv_val _ _ _ Hf4). cbn.
      by rewrite <- Hempty, fn_lookup_insert.
Qed.

Lemma free_view_self c g : head (free g) = Some c -> free_view c (gb g c) g.
Proof using Type. by split. Qed.

Lemma rg_enqueue_next b x pu po c y v (Q : bool -> Gh -> Prop) g :
  view b x pu po g -> bT x = bLF x + bM x -> free_view c y g ->
  (forall g', closed g' = false -> pend g' = false -> pushed g' = pu ++ [v] -> Past po (popped g') -> Q true g') ->
  rg (tailBlockNext ← load_next b;
      nextBlockFront ← load tailBlockNext front;
      store tailBlockNext (set_localFront nextBlockFront) ;;
      nextBlockTail ← load tailBlockNext tail;
      assert_ (nextBlockFront =? nextBlockTail) ;;
      store tailBlockNext (set_localFront nextBlockFront) ;;
      store_elem tailBlockNext nextBlockTail v ;;
      mask ← load tailBlockNext sizeMask;
      store tailBlockNext (set_tail (Z.land (nextBlockTail + 1)%u64 mask)) ;;
      store_tailBlock tailBlockNext ;;
      Ret true) Q g.
Proof using All.
  intros Hv Hfull Hf HQ. eapply rg_load_next; [exact Hv|]. intros q1 g1 H1 HI1.
  pose proof (view_stable _ _ _ _ _ _ Hv H1) as Hv1. pose proof (free_view_stable _ _ _ _ Hf H1) as Hf1.
  rewrite (fv_head _ _ _ Hf1). cbn [default from_option id].
  apply (rg_load R Rc R_ring); [by eapply free_view_ring|].
  intros q2 g2 blk2 H2 HI2 Hr2 Hb2 Hok2. pose proof (view_stable _ _ _ _ _ _ Hv1 H2) as Hv2.
  pose proof (free_view_stable _ _ _ _ Hf1 H2) as Hf2.
  pose proof (free_view_empty _ _ _ _ _ _ _ _ Hv2 Hf2 HI2) as Hempty.
  assert (1 <= bM y < 2 ^ 62) as HM by (rewrite <- (fv_M _ _ _ Hf2); apply mask_bound, Hok2).
  rewrite (bk_front _ _ Hok2), (fv_F _ _ _ Hf2), (fv_M _ _ _ Hf2).
  eapply rg_store_free_front; [exact Hv2|exact Hf2|]. intros g3 Hv3 Hf3.
  apply (rg_load R Rc R_ring); [by eapply free_view_ring|].
  intros q4 g4 blk4 H4 HI4 Hr4 Hb4 Hok4. pose proof (view_stable _ _ _ _ _ _ Hv3 H4) as Hv4.
  pose proof (free_view_stable _ _ _ _ Hf3 H4) as Hf4.
  rewrite (bk_tail _ _ Hok4), (fv_T _ _ _ Hf4), (fv_M _ _ _ Hf4). cbn [bT bM bg_LF].
  apply rgwp_assert; [by rewrite Hempty, Z.eqb_refl|].
  apply (rg_store_free_front b x pu po c (bg_LF (bF y) y)); [exact Hv4|exact Hf4|]. intros g5 Hv5 Hf5.
  apply (rg_publish b x pu po c _ v Q g5 Hv5 Hfull Hf5); [done|cbn; lia|exact HQ].
Qed.

(** ** A new block *)

(** The block after the last one is [t]. *)
Definition next_is (t : nat) (g : Gh) : Prop := head (free g ++ used g) = Some t.

Lemma next_is_stable t g g' : next_is t g -> R g g' -> next_is t g'.
Proof using HR.
  intros Ht [Hp _]%HR. destruct (rp_used _ _ Hp) as (r & R1 & R2). unfold next_is in *.
  by rewrite R2, <- app_assoc, <- R1.
Qed.

Definition set_large (n : Z) (g : Gh) : Gh :=
  mkGhost (used g) (free g) (gb g) n (pend g) (closed g) (spare g) (fixed g) (pushed g) (popped g).

(** The size of the next block to allocate. *)
Lemma next_size (g : Gh) : ghost_ok g ->
  let nb := if MAX_BLOCK_SIZE <=? glarge g then glarge g else (glarge g * 2)%u64 in
  2 <= nb <= 1024 /\ exists k, 1 <= k <= 62 /\ nb = 2 ^ k.
Proof using Type.
  intros Hg. destruct (go_large _ Hg) as [Hl (k & Hk & Hlk)]. cbv zeta.
  assert (k <= 10) by (apply (Z.pow_le_mono_r_iff 2); lia).
  unfold MAX_BLOCK_SIZE. destruct (Z.leb_spec 512 (glarge g)).
  - split; [lia|]. exists k. split; [|lia]. destruct (decide (k = 0)) as [->|]; lia.
  - rewrite w64_small by lia. split; [lia|]. exists (k + 1). rewrite Z.pow_add_r by lia. lia.
Qed.

Lemma inv_set_large (q : ReaderWriterQueue) (g : Gh) nb : Inv q g -> 2 <= nb <= 1024 -> (exists k, 1 <= k <= 62 /\ nb = 2 ^ k) ->
  Inv (mkRwq (frontBlock q) (tailBlock q) nb (heap q)) (set_large nb g).
Proof using Type.
  intros [I1 I2 I3 I4 I5 I6 I7] Hnb (k & ? & ?). split; try done. destruct I7. split; try done. cbn. split; [lia|]. exists k. lia.
Qed.

(** A block that is not in the ring yet changes nothing for the producer. *)
Lemma view_alloc b x pu po g n bg blk : view b x pu po g -> n ∉ ring g -> b <> n -> view b x pu po (alloc_new n bg blk g).
Proof using Type.
  intros Hv Hn Hbn. destruct Hv. split; try done; cbn; rewrite ?fn_lookup_insert_ne by done; try done.
  rewrite <- vw_cap0. unfold ring_cap. f_equal. apply list_fmap_ext. intros i c Hc%list_elem_of_lookup_2. cbn.
  rewrite fn_lookup_insert_ne; [done|]. by intros <-.
Qed.

(** A fresh block with one element is put behind the full last one. *)
Lemma rg_link_new b x pu po v nb t n blk g4 (Q : bool -> Gh -> Prop) :
  let g4' := alloc_new n (bg_new nb v) blk g4 in
  view b x pu po g4' -> bT x = bLF x + bM x -> rc + 2 * MAX_BLOCK_SIZE < 2 ^ 64 -> fx = false ->
  n ∉ ring g4 -> next_is t g4 -> glarge g4 = nb ->
  2 <= nb <= 1024 -> blk_ok (bg_new nb v) blk -> next blk = Some t ->
  (forall g', closed g' = false -> pend g' = false -> pushed g' = pu ++ [v] -> Past po (popped g') -> Q true g') ->
  rg (store b (set_next (Some n)) ;; store_tailBlock n ;; Ret true) Q g4'.
Proof using All.
  intros g4' Hv4' Hfull Hcap Hfx Hn Ht4 Hg4 Hnb Hok Hnext HQ.
  apply (rg_store R Rc R_ring); [by eapply view_ring|].
  intros q5 g5 blk5 H5 HI5 Hr5 Hb5 Hok5. pose proof (view_stable _ _ _ _ _ _ Hv4' H5) as Hv5.
  pose proof (next_is_stable _ _ _ (Ht4 : next_is t g4') H5) as Ht5. pose proof H5 as [Hp5 HP5]%HR.
  pose proof (iv_spare _ _ HI5 n blk (rp_spare _ _ Hp5)) as [Hn5 Hb5n].
  assert (gb g5 n = bg_new nb v) as Hg5.
  { rewrite (rp_out _ _ Hp5) by exact Hn. cbn. by rewrite fn_lookup_insert. }
  pose proof (used_last _ _ HI5) as [u Hu]. pose proof (vw_last _ _ _ _ _ Hv5) as Hlast. rewrite Hu, last_snoc in Hlast.
  injection Hlast as Hlast.
  exists (link_new n nb g5). split; [|split].
  - rewrite <- Hlast. rewrite <- Hlast in Hb5. apply (inv_link q5 g5 n blk t v nb blk5); try done.
    + apply Hv5.
    + rewrite (last_next q5 g5 _ blk5 u HI5 Hu Hb5). f_equal. unfold next_is in Ht5.
      pose proof (iv_front _ _ HI5) as Hfr. destruct (free g5); cbn in *; congruence.
    + rewrite (vw_cap _ _ _ _ _ Hv5). unfold MAX_BLOCK_SIZE in Hcap. lia.
    + by rewrite (rp_large _ _ Hp5).
  - apply Rc_link; [apply Hv5|]. by rewrite (vw_fixed _ _ _ _ _ Hv5).
  - apply (rg_advance b pu po n v); cbn; try apply Hv5; try done.
    + rewrite (vw_T _ _ _ _ _ Hv5), (vw_M _ _ _ _ _ Hv5), (vw_LF _ _ _ _ _ Hv5). done.
    + by rewrite Hg5.
Qed.

Lemma rg_enqueue_new b x pu po v malloc_ok (Q : bool -> Gh -> Prop) g :
  view b x pu po g -> bT x = bLF x + bM x -> rc + 2 * MAX_BLOCK_SIZE < 2 ^ 64 -> fx = false ->
  (forall g', closed g' = false -> pend g' = false -> pushed g' = (if malloc_ok : bool then pu ++ [v] else pu) ->
     Past po (popped g') -> Q malloc_ok g') ->
  rg (largest ← read (fun q => Ok (largestBlockSize q));
      let newBlockSize := if MAX_BLOCK_SIZE <=? largest then largest else (largest * 2)%u64 in
      if negb malloc_ok then Ret false
      else
        write (fun q => Ok (mkRwq (frontBlock q) (tailBlock q) newBlockSize (heap q))) ;;
        nxt ← load_next b;
        newBlock ← Act (fun q => blk ← new_block newBlockSize v nxt;
                          Ok (length (heap q), set_heap (heap q ++ [blk]) q)) Ret;
        store b (set_next (Some newBlock)) ;;
        store_tailBlock newBlock ;;
        Ret true) Q g.
Proof using All.
  intros Hv Hfull Hcap Hfx HQ. apply (rgwp_read Inv R Rc); [typeclasses eauto|]. intros q1 g1 H1 HI1.
  eexists. split; [reflexivity|]. pose proof (view_stable _ _ _ _ _ _ Hv H1) as Hv1.
  destruct malloc_ok; cbn [negb].
  2: { apply rgwp_ret. intros g2 H2. pose proof (view_stable _ _ _ _ _ _ Hv1 H2) as []. by apply HQ. }
  rewrite (iv_large _ _ HI1). destruct (next_size g1 (iv_ghost _ _ HI1)) as [Hnb Hpow]. cbv zeta in Hnb, Hpow.
  set (nb := if _ <=? _ then _ else _) in *.
  clearbody nb.
  apply rgwp_write. intros q2 g2 H2 HI2. eexists _, (set_large nb g2). split; [reflexivity|].
  pose proof (view_stable _ _ _ _ _ _ Hv1 H2) as Hv2. split; [|split].
  { by apply inv_set_large. }
  { split; try done; [intros; destruct Hv2; congruence|]. exists []. by rewrite app_nil_r. }
  set (g2' := set_large nb g2). assert (view b x pu po g2') as Hv2' by (by destruct Hv2).
  eapply rg_load_next; [exact Hv2'|]. intros q3 g3 H3 HI3. pose proof (view_stable _ _ _ _ _ _ Hv2' H3) as Hv3.
  set (t := default _ _).
  assert (next_is t g3) as Ht.
  { unfold next_is, t. pose proof (iv_front _ _ HI3) as Hfr. destruct (free g3); [exact Hfr|done]. }
  assert (glarge g3 = nb) as Hg3. { pose proof H3 as [Hp _]%HR. by rewrite (rp_large _ _ Hp). }
  clearbody t. cbn [mbind prog_mbind prog_bind]. intros q4 g4 H4 HI4.
  destruct (new_block_ok nb v t ltac:(lia) Hpow) as (blk & Hblk & Hok & Hnext). rewrite Hblk.
  pose proof (view_stable _ _ _ _ _ _ Hv3 H4) as Hv4. pose proof (next_is_stable _ _ _ Ht H4) as Ht4.
  assert (glarge g4 = nb) as Hg4. { pose proof H4 as [Hp _]%HR. by rewrite (rp_large _ _ Hp). }
  destruct (inv_alloc q4 g4 (bg_new nb v) blk HI4) as [HI4' Hn]. set (n := length (heap q4)) in *.
  eexists n, _, (alloc_new n (bg_new nb v) blk g4). split; [reflexivity|]. split; [exact HI4'|].
  split; [apply Rc_alloc; [apply Hv4|done]|]. set (g4' := alloc_new _ _ _ g4) in *.
  assert (b <> n) as Hbn by (intros ->; apply Hn; by eapply view_ring).
  assert (view b x pu po g4') as Hv4' by by apply view_alloc.
  by apply (rg_link_new b x pu po v nb t n blk g4).
Qed.

(** ** [inner_enqueue] *)

(** The producer is between two calls. *)
Definition idle (g : Gh) : Prop := closed g = false /\ pend g = false.

(** No block can take an element: the only one is full, or none is free and
    all but the first are full. *)
Definition at_capacity (g : Gh) : Prop :=
  (exists b, used g = [b] /\ free g = [] /\ bT (gb g b) = bF (gb g b) + bM (gb g b)) \/
  (free g = [] /\ (2 <= length (used g))%nat /\
   forall b, b ∈ drop 1 (used g) -> bT (gb g b) = bF (gb g b) + bM (gb g b)).

(** At some moment since, the queue was so. *)
Definition refused (g : Gh) : Prop := exists g0,
  pushed g0 = pushed g /\ Past (popped g0) (popped g) /\ ghost_ok g0 /\ same_ring g0 g /\ at_capacity g0.

Lemma refused_stable g g' : refused g -> R g g' -> refused g'.
Proof using HR PreOrder1.
  intros (g0 & F1 & F2 & F3 & F5 & F4) [Hr HP]%HR. exists g0. split_and!; try done.
  - by rewrite F1, (rp_pushed _ _ Hr).
  - by etransitivity.
  - eapply same_ring_trans; [exact F5|by apply Rp_same_ring].
Qed.

Lemma refused_intro b x pu po q g :
  view b x pu po g -> bT x = bLF x + bM x -> was_full b g -> Inv q g -> free g = [] -> refused g.
Proof using PreOrder1.
  intros Hv Hfull (g0 & F1 & F2 & F3 & F4 & F5 & F6) HI Hfree.
  pose proof (last_full_view _ _ _ _ _ _ Hv HI Hfull) as Hlast. pose proof (used_last _ _ HI) as [u Hu].
  pose proof (vw_last _ _ _ _ _ Hv) as Hb. rewrite Hu, last_snoc in Hb. injection Hb as Hb. rewrite Hb in Hu.
  destruct (decide (u = [])) as [->|Hne].
  - exists g0. split_and!; try done. left. exists b. apply and_assoc. split; [|done].
    assert (forall c, c ∈ ring g0 -> c = b) as Hall.
    { intros c Hc. rewrite <- (proj1 F5) in Hc. unfold ring in Hc. rewrite Hu, Hfree in Hc. by apply list_elem_of_singleton in Hc. }
    pose proof (go_nodup _ F3) as Hnd. unfold ring in *. destruct (used g0) as [|c l]; [done|]. cbn in *.
    assert (c = b) as -> by (apply Hall; left). apply NoDup_cons in Hnd as [Hnb _].
    assert (l ++ free g0 = []) as [-> ->]%app_eq_nil; [|done].
    destruct (l ++ free g0) as [|d k]; [done|]. destruct Hnb. rewrite (Hall d) by (right; left). left.
  - exists g. split_and!; try done; [by destruct HI|]. right. split; [done|]. split.
    + rewrite Hu, length_app. destruct u; [done|]. cbn. lia.
    + intros c Hc. destruct u as [|d u]; [done|]. rewrite Hu in Hc. cbn in Hc. rewrite drop_0 in Hc.
      apply elem_of_app in Hc as [Hc|Hc%list_elem_of_singleton].
      * apply list_elem_of_split in Hc as (l1 & l2 & ->).
        apply (go_full _ (iv_ghost _ _ HI) (d :: l1) c (l2 ++ [b])); [|done|by destruct l2].
        rewrite Hu. cbn. by rewrite <- app_assoc.
      * subst c. by apply (Hlast (d :: u)).
Qed.

Lemma rg_inner_enqueue canAlloc malloc_ok v g :
  idle g -> ring_cap g = rc -> fixed g = fx -> (canAlloc = true -> rc + 2 * MAX_BLOCK_SIZE < 2 ^ 64 /\ fx = false) ->
  rg (inner_enqueue canAlloc malloc_ok v) (fun r g' =>
    idle g' /\ pushed g' = (if r : bool then pushed g ++ [v] else pushed g) /\ Past (popped g) (popped g') /\
    (r = false -> if canAlloc : bool then malloc_ok = false else refused g')) g.
Proof using All.
  intros [Hc Hp] Hrc Hfx Hcap. unfold inner_enqueue. apply (rgwp_read Inv R Rc); [typeclasses eauto|]. intros q1 g1 H1 HI1.
  eexists. split; [reflexivity|]. set (b := tailBlock q1). set (x := gb g1 b).
  pose proof H1 as [Hp1 HP1]%HR.
  assert (view b x (pushed g) (popped g) g1) as Hv1.
  { split; try done; [by rewrite (rp_closed _ _ Hp1)|by rewrite (rp_pend _ _ Hp1)|apply HI1|apply (rp_pushed _ _ Hp1)| |].
    - by rewrite (ring_cap_stable _ _ H1).
    - by rewrite (rp_fixed _ _ Hp1). }
  apply (rg_load R Rc R_ring); [by eapply view_ring|]. intros q2 g2 blk2 H2 HI2 Hr2 Hb2 Hok2.
  pose proof (view_stable _ _ _ _ _ _ Hv1 H2) as Hv2. rewrite (bk_localFront _ _ Hok2), (vw_LF _ _ _ _ _ Hv2), (vw_M _ _ _ _ _ Hv2).
  pose proof (view_order _ _ _ _ _ _ Hv2 Hok2) as (O1 & O2 & O3 & O4 & O5).
  apply (rg_load R Rc R_ring); [by eapply view_ring|]. intros q3 g3 blk3 H3 HI3 Hr3 Hb3 Hok3.
  pose proof (view_stable _ _ _ _ _ _ Hv2 H3) as Hv3. rewrite (bk_tail _ _ Hok3), (vw_T _ _ _ _ _ Hv3), (vw_M _ _ _ _ _ Hv3).
  apply (rg_load R Rc R_ring); [by eapply view_ring|]. intros q4 g4 blk4 H4 HI4 Hr4 Hb4 Hok4.
  pose proof (view_stable _ _ _ _ _ _ Hv3 H4) as Hv4. rewrite (bk_mask _ _ Hok4), (vw_M _ _ _ _ _ Hv4).
  cbv zeta. rewrite (next_index _ _ O5).
  apply (rg_has_room b x _ _ _ _ _ Hv4); [lia|lia| |].
  - intros g5 x' Hv5 E1 E2 Hroom. rewrite <- E1, <- E2. apply (rg_enqueue_here b x' v _ _ _ _ Hv5); [by rewrite E1, E2|].
    intros g6 C1 C2 C3 C4. by split_and!.
  - intros g5 x' Hv5 E1 E2 Hfull Hwas. rewrite <- E1, <- E2 in Hfull.
    apply (rg_find_next b x' (pushed g) (popped g) (fun r : bool => if r then _ else _)); [exact Hv5| |].
    + intros g6 c Hv6 Hf6. apply (rg_enqueue_next b x' _ _ c _ v _ _ Hv6 Hfull Hf6).
      intros g7 C1 C2 C3 C4. by split_and!.
    + intros q6 g6 Hv6 H6 HI6 Hfree. destruct canAlloc.
      * apply (rg_enqueue_new b x' _ _ v malloc_ok _ _ Hv6 Hfull).
        -- by apply Hcap.
        -- by apply Hcap.
        -- intros g7 C1 C2 C3 C4. split_and!; try done; by destruct malloc_ok.
      * apply rgwp_ret. intros g7 H7. pose proof (view_stable _ _ _ _ _ _ Hv6 H7) as Hv7. destruct Hv7.
        split_and!; try done. intros _. eapply refused_stable; [|exact H7].
        eapply refused_intro; [exact Hv6|exact Hfull| |exact HI6|exact Hfree]. by eapply was_full_stable.
Qed.
End Producer.

(** ** The consumer *)

Section Consumer.
Context {T : Type}.
Abbreviation Gh := (@Ghost T).
Context (R : Gh -> Gh -> Prop) (Past : list T -> list T -> Prop) `{!PreOrder R} `{!PreOrder Past}.
Context (HR : forall g g', R g g' -> Rc g g' /\ Past (pushed g) (pushed g')).
Abbreviation rg := (rgwp Inv R Rp).

Lemma Rc_ring (g g' : Gh) b : R g g' -> b ∈ ring g -> b ∈ ring g'.
Proof using HR. intros [Hr _]%HR. apply Hr. Qed.

(** What the consumer knows of a block in use: its own fields are those of
    [x], and there are at least as many elements. *)
Record bview (b : nat) (x : BlockGhost) (g : Gh) : Prop := {
  bw_used : b ∈ used g;
  bw_F : bF (gb g b) = bF x;
  bw_LT : bLT (gb g b) = bLT x;
  bw_M : bM (gb g b) = bM x;
  bw_T : bT x <= bT (gb g b);
  bw_val : forall i, i < bT x -> bval (gb g b) i = bval x i
}.

Lemma used_ring (g : Gh) b : b ∈ used g -> b ∈ ring g.
Proof using Type. intros Hb. apply elem_of_app. by left. Qed.

Lemma bview_stable b x g g' : bview b x g -> R g g' -> bview b x g'.
Proof using HR.
  intros [V1 V2 V3 V4 V5 V6] [[C1 C2 C3 C4 (r & C5) C6 C7 _ C8 C9] _]%HR.
  destruct (C2 b (used_ring _ _ V1)) as (E1 & E2 & E3). pose proof (C3 b V1). split; try congruence; try lia.
  - rewrite C5. apply elem_of_app. by left.
  - intros i Hi. rewrite C4 by (done || lia). by apply V6.
Qed.

Lemma bview_self b g : b ∈ used g -> bview b (gb g b) g.
Proof using Type. by split. Qed.

(** The blocks in use start with [l]. *)
Record cview (l : list nat) (po pu : list T) (g : Gh) : Prop := {
  cw_used : l `prefix_of` used g;
  cw_popped : popped g = po;
  cw_pushed : Past pu (pushed g)
}.

Lemma cview_stable l po pu g g' : cview l po pu g -> R g g' -> cview l po pu g'.
Proof using HR PreOrder1.
  intros [V1 V2 V3] [[C1 C2 C3 C4 (r & C5) C6 C7 _ C8 C9] HP]%HR. split; [| |by etransitivity].
  - rewrite C5. by apply prefix_app_r.
  - congruence.
Qed.

Lemma bview_order b x g blk : bview b x g -> blk_ok (gb g b) blk ->
  bF x <= bLT x <= bT (gb g b) /\ bT (gb g b) <= bF x + bM x /\ 1 <= bM x < 2 ^ 62 /\
  exists k, 1 <= k <= 62 /\ bM x = 2 ^ k - 1.
Proof using Type.
  intros [] [B1 _ _ _ _ _ _ _ B9]. pose proof (mask_bound _ B1). destruct B9 as (?&?&?).
  rewrite bw_M0 in B1. split_and!; try lia. done.
Qed.

Lemma same_index M f t : 0 <= M -> f <= t <= f + M ->
  if f mod (M + 1) =? t mod (M + 1) then f = t else f < t.
Proof using Type.
  intros HM Ht. destruct (Z.eqb_spec (f mod (M + 1)) (t mod (M + 1))) as [He|Hne].
  - apply (mod_inj_near (M + 1)); [lia..|done].
  - destruct (decide (f = t)) as [->|]; [done|lia].
Qed.

(** ** Taking an element of the first block *)

Definition taken (po pu : list T) (v : T) (g : Gh) : Prop := popped g = po ++ [v] /\ Past pu (pushed g).

Lemma taken_stable po pu v g g' : taken po pu v g -> R g g' -> taken po pu v g'.
Proof using HR PreOrder1.
  intros [H1 H2] [Hr HP]%HR. split; [by rewrite (rc_popped _ _ Hr)|by etransitivity].
Qed.

Lemma rg_drop_front b x po pu (Q : unit -> Gh -> Prop) g :
  cview [b] po pu g -> bview b x g -> bF x < bLT x <= bT x ->
  (forall g', taken po pu (bval x (bF x)) g' -> Q tt g') ->
  rg (drop_front b (bF x mod (bM x + 1))) Q g.
Proof using All.
  intros Hc Hb Hlt HQ. apply (rg_load R Rp Rc_ring); [by apply used_ring, Hb|].
  intros q1 g1 blk1 H1 HI1 Hr1 Hb1 Hok1. pose proof (bview_stable _ _ _ _ Hb H1) as Hv1.
  pose proof (cview_stable _ _ _ _ _ Hc H1) as Hc1. pose proof (bview_order _ _ _ _ Hv1 Hok1) as (_ & _ & _ & O4).
  rewrite (bk_mask _ _ Hok1), (bw_M _ _ _ Hv1), (next_index _ _ O4).
  change (rg (store b (set_front ((bF x + 1) mod (bM x + 1))) ≫= Ret) Q g1).
  apply (rg_store R Rp Rc_ring); [by apply used_ring, Hv1|].
  intros q2 g2 blk2 H2 HI2 Hr2 Hb2 Hok2. pose proof (bview_stable _ _ _ _ Hv1 H2) as Hv2.
  pose proof (cview_stable _ _ _ _ _ Hc1 H2) as Hc2. pose proof (cw_used _ _ _ _ Hc2) as [l Hl]. cbn in Hl.
  exists (take_one b g2). split; [|split].
  - rewrite <- (bw_F _ _ _ Hv2), <- (bw_M _ _ _ Hv2). apply (inv_take_one q2 g2 b l); try done.
    rewrite (bw_F _ _ _ Hv2), (bw_LT _ _ _ Hv2). lia.
  - apply (Rp_take_one g2 b l); [apply HI2|done].
  - apply rgwp_ret. intros g3 H3. apply HQ. apply (taken_stable _ _ _ (take_one b g2)); [|done].
    split; [|apply Hc2]. cbn. by rewrite (cw_popped _ _ _ _ Hc2), (bw_F _ _ _ Hv2), (bw_val _ _ _ Hv2) by lia.
Qed.

Lemma rg_take_front b x po pu (Q : T -> Gh -> Prop) g :
  cview [b] po pu g -> bview b x g -> bF x < bLT x <= bT x ->
  (forall g', taken po pu (bval x (bF x)) g' -> Q (bval x (bF x)) g') ->
  rg (take_front b (bF x mod (bM x + 1))) Q g.
Proof using All.
  intros Hc Hb Hlt HQ. apply (rgwp_read Inv R Rp); [typeclasses eauto|]. intros q1 g1 H1 HI1.
  pose proof (bview_stable _ _ _ _ Hb H1) as Hv1. pose proof (cview_stable _ _ _ _ _ Hc H1) as Hc1.
  destruct (iv_blocks _ _ HI1 b (used_ring _ _ (bw_used _ _ _ Hv1))) as (blk & Hl & Hok). rewrite Hl.
  pose proof (bview_order _ _ _ _ Hv1 Hok) as (O1 & O2 & O3 & _).
  exists (bval x (bF x)). split.
  - unfold get_elem. rewrite (proj2 (Z.ltb_ge _ _)) by (apply Z.mod_pos_bound; lia).
    rewrite <- (bw_M _ _ _ Hv1), (bk_data _ _ Hok).
    + by rewrite (bw_val _ _ _ Hv1) by lia.
    + rewrite (bw_F _ _ _ Hv1). destruct (bk_order _ _ Hok) as (?&?&?). pose proof (bw_T _ _ _ Hv1). lia.
  - apply (rgwp_bind Inv R Rp). eapply rg_drop_front; [exact Hc1|exact Hv1|done|].
    intros g2 Ht. apply rgwp_ret. intros g3 H3. apply HQ. by eapply taken_stable.
Qed.

(** ** Is there an element? *)

(** At some moment since, the blocks in use were among those of now, and
    block [b] was empty. *)
Definition was_empty (b : nat) (g : Gh) : Prop := exists g0, popped g0 = popped g /\ Past (pushed g0) (pushed g) /\
  ghost_ok g0 /\ used g0 <> [] /\ used g0 `prefix_of` used g /\ bT (gb g0 b) = bF (gb g0 b).

Lemma was_empty_stable b g g' : was_empty b g -> R g g' -> was_empty b g'.
Proof using HR PreOrder1.
  intros (g0 & F1 & F2 & F0 & F3 & F4 & F5) [Hr HP]%HR. exists g0. split_and!; try done.
  - by rewrite F1, (rc_popped _ _ Hr).
  - by etransitivity.
  - destruct (rc_used _ _ Hr) as [r ->]. by apply prefix_app_r.
Qed.

Definition same_lists (g g' : Gh) : Prop := used g' = used g /\ popped g' = popped g /\ pushed g' = pushed g.

Lemma was_empty_same b g g' : was_empty b g -> same_lists g g' -> was_empty b g'.
Proof using Type. intros (g0 & F) (E1 & E2 & E3). exists g0. by rewrite E1, E2, E3. Qed.

(** Re-reading [tail] into [localTail]. *)
Lemma rg_refresh {A} b x l po pu (k : unit -> prog _ A) t0 Q g :
  cview l po pu g -> bview b x g -> bF x <= t0 <= bT x ->
  (forall g1 g2, R g g1 -> same_lists g1 g2 -> gb g2 = <[b := bg_LT t0 (gb g1 b)]> (gb g1) ->
     cview l po pu g2 -> bview b (bg_LT t0 x) g2 -> rg (k tt) Q g2) ->
  rg (store b (set_localTail (t0 mod (bM x + 1))) ≫= k) Q g.
Proof using All.
  intros Hc Hb Ht Hk. apply (rg_store R Rp Rc_ring); [by apply used_ring, Hb|].
  intros q2 g2 blk2 H2 HI2 Hr2 Hb2 Hok2. pose proof (bview_stable _ _ _ _ Hb H2) as Hv2.
  pose proof (cview_stable _ _ _ _ _ Hc H2) as Hc2.
  exists (upd_bg b (bg_LT t0 (gb g2 b)) g2). split; [|split].
  - rewrite <- (bw_M _ _ _ Hv2). apply inv_localTail; try done. rewrite (bw_F _ _ _ Hv2). pose proof (bw_T _ _ _ Hv2). lia.
  - by apply Rp_localTail.
  - apply (Hk g2); [done|done|done|by destruct Hc2|]. destruct Hv2. split; rewrite ?gb_upd; done.
Qed.

Lemma rg_not_empty {A} b x po pu (k : bool -> prog _ A) Q g :
  cview [b] po pu g -> bview b x g -> bF x <= bLT x <= bF x + bM x -> bLT x <= bT x -> 0 <= bM x ->
  (forall g' x', cview [b] po pu g' -> bview b x' g' -> bF x' = bF x -> bM x' = bM x -> bF x < bLT x' <= bT x' ->
     rg (k true) Q g') ->
  (forall g', cview [b] po pu g' -> was_empty b g' -> rg (k false) Q g') ->
  rg (not_empty b (bF x mod (bM x + 1)) (bLT x mod (bM x + 1)) ≫= k) Q g.
Proof using All.
  intros Hc Hb HLT HT HM Ht Hf. pose proof (same_index (bM x) (bF x) (bLT x) HM HLT) as Htest. unfold not_empty.
  destruct (_ =? _); cbn [negb]; [|eapply Ht; [exact Hc|exact Hb|done|done|lia]].
  apply (rgwp_bind Inv R Rp). apply (rg_load R Rp Rc_ring); [by apply used_ring, Hb|].
  intros q1 g1 blk1 H1 HI1 Hr1 Hb1 Hok1. pose proof (bview_stable _ _ _ _ Hb H1) as Hv1.
  pose proof (cview_stable _ _ _ _ _ Hc H1) as Hc1. pose proof (bview_order _ _ _ _ Hv1 Hok1) as (O1 & O2 & O3 & _).
  pose proof (used_not_nil q1 g1 HI1) as Hne.
  rewrite (bk_tail _ _ Hok1). set (x1 := gb g1 b) in *. assert (bF x = bF x1) as EF by (symmetry; apply Hv1).
  assert (bM x = bM x1) as EM by (symmetry; apply Hv1). rewrite EF, EM in *.
  eapply (rg_refresh b x1); [exact Hc1|by apply bview_self, Hv1|lia|].
  intros g2 g3 H2 Hs3 _ Hc3 Hb3. pose proof (same_index (bM x1) (bF x1) (bT x1) HM ltac:(lia)) as Htest'.
  apply rgwp_ret. intros g4 H4. pose proof (cview_stable _ _ _ _ _ Hc3 H4) as Hc4.
  pose proof (bview_stable _ _ _ _ Hb3 H4) as Hb4.
  destruct (_ =? _); cbn [negb].
  - apply Hf; [done|]. apply (was_empty_stable b g3); [|done]. apply (was_empty_same b g2); [|done].
    apply (was_empty_stable b g1); [|done]. exists g1. split_and!; try done. by destruct HI1.
  - eapply Ht; [exact Hc4|exact Hb4|done..|]. cbn. lia.
Qed.

(** ** [try_dequeue] and [pop] *)

(** A block that is empty and not the last stays so. *)
Definition spent (b : nat) (g : Gh) : Prop := bT (gb g b) = bF (gb g b).

Lemma tail_stable b y l po pu g g' : cview (b :: y :: l) po pu g -> R g g' -> bT (gb g' b) = bT (gb g b).
Proof using HR.
  intros [[k Hk] _ _] [Hr _]%HR. apply (rc_last _ _ Hr [] b (y :: l ++ k)); [|done]. by rewrite Hk.
Qed.

Lemma spent_stable b y l po pu g g' : cview (b :: y :: l) po pu g -> spent b g -> R g g' -> spent b g'.
Proof using HR.
  intros Hc Hs Hgg. unfold spent in *. rewrite (tail_stable _ _ _ _ _ _ _ Hc Hgg), Hs.
  apply HR in Hgg as [Hr _]. destruct (rc_own _ _ Hr b) as (-> & _); [|done].
  destruct Hc as [[k Hk] _ _]. unfold ring. rewrite Hk. left.
Qed.

(** At some moment since, all that had been pushed had been popped. *)
Definition found_empty (g : Gh) : Prop := Past (popped g) (pushed g).

Lemma cview_weaken l l' po pu g : l' `prefix_of` l -> cview l po pu g -> cview l' po pu g.
Proof using Type. intros Hl []. split; try done. by etransitivity. Qed.

(** Whether the front block is the last one. *)
Lemma front_is_last q (g : Gh) b l : Inv q g -> used g = b :: l -> b = tailBlock q -> used g = [b].
Proof using All.
  intros HI Hl Hb. rewrite Hl. destruct l as [|c l]; [done|]. exfalso.
  destruct (used_last q g HI) as [u Hu]. pose proof (go_nodup _ (iv_ghost _ _ HI)) as Hnd.
  unfold ring in Hnd. apply NoDup_app in Hnd as [Hnd _]. rewrite Hl in Hnd, Hu. apply NoDup_cons in Hnd as [Hnd _].
  apply Hnd. destruct u as [|c' u]; cbn in Hu; [done|]. injection Hu as _ ->. rewrite Hb. apply elem_of_app. right. left.
Qed.

Lemma front_not_last q (g : Gh) b l : Inv q g -> used g = b :: l -> b <> tailBlock q -> exists y k, used g = b :: y :: k.
Proof using All.
  intros HI Hl Hb. rewrite Hl. destruct l as [|y l]; [|by exists y, l]. exfalso.
  destruct (used_last q g HI) as [u Hu]. rewrite Hl in Hu. destruct u as [|c u]; cbn in Hu; [by injection Hu|]. by destruct u.
Qed.

(** The front block was empty, and is the only one: so was the queue. *)
Lemma only_block_empty b (g : Gh) : was_empty b g -> used g = [b] -> Past (popped g) (pushed g).
Proof using All.
  intros (g0 & F1 & F2 & F0 & F3 & [r F4] & F5) Hone. rewrite <- F1.
  enough (gitems g0 = []) as He by (pose proof (go_items _ F0) as Hi; by rewrite He, app_nil_r in Hi; rewrite Hi in F2).
  rewrite Hone in F4. destruct (used g0) as [|c k] eqn:Hu0; [done|]. injection F4 as <- F4.
  symmetry in F4. apply app_eq_nil in F4 as [-> ->]. unfold gitems. rewrite Hu0. cbn. by rewrite (bg_items_nil _ F5).
Qed.

(** What the next block of a spent block holds. *)
Lemma rg_second {A} b y po pu (k : nat -> Z -> Z -> prog _ A) Q g :
  cview [b; y] po pu g -> spent b g ->
  (forall g' x, cview [b; y] po pu g' -> spent b g' -> y <> b -> bview y x g' -> x = gb g' y -> 0 <= bM x ->
     bF x < bT x <= bF x + bM x -> rg (k y (bF x mod (bM x + 1)) (bT x mod (bM x + 1))) Q g') ->
  rg (nextBlock ← load_next b;
      nextBlockFront ← load nextBlock front;
      nextBlockTail ← load nextBlock tail;
      k nextBlock nextBlockFront nextBlockTail) Q g.
Proof using HR PreOrder0 PreOrder1.
  intros Hc Hs Hk. apply (rgwp_read Inv R Rp); [typeclasses eauto|]. intros q1 g1 H1 HI1.
  pose proof (cview_stable _ _ _ _ _ Hc H1) as Hc1. pose proof (spent_stable _ _ _ _ _ _ _ Hc Hs H1) as Hs1.
  pose proof (cw_used _ _ _ _ Hc1) as [l1 Hl1]. cbn in Hl1.
  destruct (iv_blocks _ _ HI1 b) as (blk & Hb & Hok); [unfold ring; rewrite Hl1; left|]. rewrite Hb.
  rewrite (next_of q1 g1 [] b (y :: l1 ++ free g1) blk HI1) by (done || by unfold ring; rewrite Hl1).
  exists y. split; [done|].
  assert (y ∈ used g1) as Hyu1 by (rewrite Hl1; right; left).
  apply (rg_load R Rp Rc_ring); [by apply used_ring|]. intros q2 g2 blk2 H2 HI2 Hr2 Hb2 Hok2.
  pose proof (cview_stable _ _ _ _ _ Hc1 H2) as Hc2. pose proof (spent_stable _ _ _ _ _ _ _ Hc1 Hs1 H2) as Hs2.
  pose proof (bview_stable _ _ _ _ (bview_self y g1 Hyu1) H2) as Hy2.
  rewrite (bk_front _ _ Hok2), (bw_F _ _ _ Hy2), (bw_M _ _ _ Hy2).
  apply (rg_load R Rp Rc_ring); [by apply used_ring, Hy2|]. intros q3 g3 blk3 H3 HI3 Hr3 Hb3 Hok3.
  pose proof (cview_stable _ _ _ _ _ Hc2 H3) as Hc3. pose proof (bview_stable _ _ _ _ Hy2 H3) as Hy3.
  pose proof (bview_order _ _ _ _ Hy3 Hok3) as (O1 & O2 & O3 & _). pose proof (cw_used _ _ _ _ Hc3) as [l3 Hl3]. cbn in Hl3.
  rewrite (bk_tail _ _ Hok3). assert (bF (gb g1 y) = bF (gb g3 y)) as EF by (symmetry; apply Hy3).
  assert (bM (gb g1 y) = bM (gb g3 y)) as EM by (symmetry; apply Hy3). rewrite EF, EM in *.
  apply Hk; [done|exact (spent_stable _ _ _ _ _ _ _ Hc2 Hs2 H3)| |by apply bview_self, Hy3|done|lia|].
  - pose proof (go_nodup _ (iv_ghost _ _ HI3)) as Hnd. unfold ring in Hnd. rewrite Hl3 in Hnd.
    intros ->. apply NoDup_cons in Hnd as [Hnd _]. apply Hnd. left.
  - split; [|lia]. apply (go_rest _ (iv_ghost _ _ HI3) y); rewrite Hl3; left.
Qed.

(** The second look at the front block, when it is not the tail block. *)
Definition front_again {X} (take : nat -> Z -> prog (@ReaderWriterQueue T) X)
    (next_ : nat -> prog (@ReaderWriterQueue T) (option X)) : prog (@ReaderWriterQueue T) (option X) :=
  frontBlock_ ← load_frontBlock;
  blockTail ← load frontBlock_ tail;
  store frontBlock_ (set_localTail blockTail) ;;
  blockFront ← load frontBlock_ front;
  if negb (blockFront =? blockTail) then x ← take frontBlock_ blockFront; Ret (Some x)
  else next_ frontBlock_.

(** The three operations look for the first element in the same way; [take] is
    what they do with it, [next_] what they do when it is in the second block. *)
Definition front_with {X} (take : nat -> Z -> prog (@ReaderWriterQueue T) X)
    (next_ : nat -> prog (@ReaderWriterQueue T) (option X)) : prog (@ReaderWriterQueue T) (option X) :=
  frontBlock_ ← load_frontBlock;
  blockTail ← load frontBlock_ localTail;
  blockFront ← load frontBlock_ front;
  here ← not_empty frontBlock_ blockFront blockTail;
  if (here : bool) then x ← take frontBlock_ blockFront; Ret (Some x)
  else
    tb ← load_tailBlock;
    if negb (Nat.eqb frontBlock_ tb) then
      front_again take next_
    else Ret None.

Section Front.
Context {X : Type} (take : nat -> Z -> prog (@ReaderWriterQueue T) X) (po pu : list T) (Took : X -> Gh -> Prop).
Context (Took_stable : forall a g g', Took a g -> R g g' -> Took a g').
Context (Htake : forall b x (Q : X -> Gh -> Prop) g,
  cview [b] po pu g -> bview b x g -> bF x < bLT x <= bT x ->
  (forall a g', Took a g' -> Q a g') -> rg (take b (bF x mod (bM x + 1))) Q g).

Definition fetched (r : option X) (g : Gh) : Prop :=
  match r with
  | Some a => Took a g
  | None => popped g = po /\ Past pu (pushed g) /\ found_empty g
  end.

Lemma rg_took b x (Q : option X -> Gh -> Prop) g :
  cview [b] po pu g -> bview b x g -> bF x < bLT x <= bT x ->
  (forall r g', fetched r g' -> Q r g') ->
  rg (a ← take b (bF x mod (bM x + 1)); Ret (Some a)) Q g.
Proof using All.
  intros Hc Hb Hlt HQ. apply (rgwp_bind Inv R Rp). eapply Htake; [exact Hc|exact Hb|exact Hlt|].
  intros a g1 Ht. apply rgwp_ret. intros g2 H2. apply HQ. by eapply Took_stable.
Qed.

Context (next_ : nat -> prog (@ReaderWriterQueue T) (option X)).
Context (Hnext : forall b y (Q : option X -> Gh -> Prop) g,
  cview [b; y] po pu g -> spent b g -> (forall r g', fetched r g' -> Q r g') -> rg (next_ b) Q g).

Lemma rg_front_again b y g5 : cview [b; y] po pu g5 -> bview b (gb g5 b) g5 -> rg (front_again take next_) fetched g5.
Proof using All.
  intros Hcy5 Hb5. unfold front_again.
  apply (rgwp_read Inv R Rp); [typeclasses eauto|]. intros q6 g6 H6 HI6. eexists. split; [reflexivity|].
  pose proof (cview_stable _ _ _ _ _ Hcy5 H6) as Hcy6. pose proof (bview_stable _ _ _ _ Hb5 H6) as Hb6.
  pose proof (cw_used _ _ _ _ Hcy6) as [l6 Hl6]. cbn in Hl6.
  assert (frontBlock q6 = b) as -> by (pose proof (iv_front _ _ HI6) as Hf6; rewrite Hl6 in Hf6; by injection Hf6).
  apply (rg_load R Rp Rc_ring); [by apply used_ring, Hb6|]. intros q7 g7 blk7 H7 HI7 Hr7 Hbl7 Hok7.
  pose proof (cview_stable _ _ _ _ _ Hcy6 H7) as Hcy7. pose proof (bview_stable _ _ _ _ Hb6 H7) as Hb7.
  assert (bview b (gb g7 b) g7) as Hb7' by apply bview_self, Hb7. clear Hb5 Hb6 Hb7.
  rewrite (bk_tail _ _ Hok7). set (x7 := gb g7 b) in *. pose proof (bview_order _ _ _ _ Hb7' Hok7) as (P1 & P2 & P3 & _).
  fold x7 in P1, P2. eapply (rg_refresh b x7); [exact Hcy7|exact Hb7'|lia|]. intros g8 g9 H8 Hs9 Hg9 Hcy9 Hb9.
  apply (rg_load R Rp Rc_ring); [by apply used_ring, Hb9|]. intros q10 g10 blk10 H10 HI10 Hr10 Hbl10 Hok10.
  pose proof (cview_stable _ _ _ _ _ Hcy9 H10) as Hcy10. pose proof (bview_stable _ _ _ _ Hb9 H10) as Hb10.
  rewrite (bk_front _ _ Hok10), (bw_F _ _ _ Hb10), (bw_M _ _ _ Hb10). cbn [bF bM bg_LT].
  pose proof (same_index (bM x7) (bF x7) (bT x7) ltac:(lia) ltac:(lia)) as Ht.
  destruct (_ =? _); cbn [negb].
  - apply (Hnext b y); [exact Hcy10| |done]. unfold spent. rewrite (bw_F _ _ _ Hb10). cbn.
    rewrite (tail_stable _ _ _ _ _ _ _ Hcy9 H10), Hg9, fn_lookup_insert. cbn.
    by rewrite (tail_stable _ _ _ _ _ _ _ Hcy7 H8).
  - apply (rg_took b (bg_LT (bT x7) x7)); [|exact Hb10|cbn; lia|done].
    eapply cview_weaken; [|exact Hcy10]. by exists [y].
Qed.

Lemma rg_front_with g : popped g = po -> pushed g = pu -> rg (front_with take next_) fetched g.
Proof using All.
  intros Epo Epu. unfold front_with. apply (rgwp_read Inv R Rp); [typeclasses eauto|]. intros q1 g1 H1 HI1.
  eexists. split; [reflexivity|]. set (b := frontBlock q1).
  pose proof (iv_front _ _ HI1) as Hh. fold b in Hh. destruct (used g1) as [|b' l1] eqn:Hl1; [done|]. injection Hh as ->.
  assert (cview [b] po pu g1) as Hc1.
  { pose proof H1 as [Hr HP]%HR. split; [|by rewrite (rc_popped _ _ Hr)|by rewrite <- Epu]. exists l1. by rewrite Hl1. }
  assert (bview b (gb g1 b) g1) as Hb1 by (apply bview_self; rewrite Hl1; left).
  apply (rg_load R Rp Rc_ring); [by apply used_ring, Hb1|]. intros q2 g2 blk2 H2 HI2 Hr2 Hbl2 Hok2.
  pose proof (cview_stable _ _ _ _ _ Hc1 H2) as Hc2. pose proof (bview_stable _ _ _ _ Hb1 H2) as Hb2.
  assert (bview b (gb g2 b) g2) as Hb2' by apply bview_self, Hb2. clear Hb1 Hb2.
  rewrite (bk_localTail _ _ Hok2). pose proof (bview_order _ _ _ _ Hb2' Hok2) as (O1 & O2 & O3 & _).
  apply (rg_load R Rp Rc_ring); [by apply used_ring, Hb2'|]. intros q3 g3 blk3 H3 HI3 Hr3 Hbl3 Hok3.
  pose proof (cview_stable _ _ _ _ _ Hc2 H3) as Hc3. pose proof (bview_stable _ _ _ _ Hb2' H3) as Hb3.
  rewrite (bk_front _ _ Hok3), (bw_F _ _ _ Hb3), (bw_M _ _ _ Hb3).
  apply (rg_not_empty b (gb g2 b) po pu); [exact Hc3|exact Hb3|lia|lia|lia| |].
  { intros g4 x' Hc4 Hb4 E1 E2 Hlt. rewrite <- E1, <- E2. apply (rg_took b x'); [exact Hc4|exact Hb4|lia|done]. }
  intros g4 Hc4 Hw4. apply (rgwp_read Inv R Rp); [typeclasses eauto|]. intros q5 g5 H5 HI5.
  eexists. split; [reflexivity|]. pose proof (cview_stable _ _ _ _ _ Hc4 H5) as Hc5.
  pose proof (was_empty_stable _ _ _ Hw4 H5) as Hw5. pose proof (cw_used _ _ _ _ Hc5) as [l5 Hl5]. cbn in Hl5.
  destruct (Nat.eqb_spec b (tailBlock q5)) as [Hbt|Hbt]; cbn [negb].
  - apply rgwp_ret. intros g6 H6. pose proof (cview_stable _ _ _ _ _ Hc5 H6) as Hc6.
    split; [apply Hc6|]. split; [apply Hc6|].
    pose proof H6 as [Hr6 _]%HR. unfold found_empty. rewrite (rc_popped _ _ Hr6).
    transitivity (pushed g5); [|by apply HR in H6 as [_ HP6]]. by apply (only_block_empty b), (front_is_last q5 g5 b l5).
  - destruct (front_not_last q5 g5 b l5 HI5 Hl5 Hbt) as (y & l & Hy).
    assert (cview [b; y] po pu g5) as Hcy5 by (destruct Hc5; split; try done; by exists l; rewrite Hy).
    assert (bview b (gb g5 b) g5) as Hb5 by (apply bview_self; rewrite Hy; left).
    by apply (rg_front_again b y).
Qed.
End Front.

(** ** [try_dequeue] and [pop] *)

Section Take.
Context {X : Type} (take : nat -> Z -> prog (@ReaderWriterQueue T) X) (res : T -> X).
Context (Htake : forall b x po pu (Q : X -> Gh -> Prop) g,
  cview [b] po pu g -> bview b x g -> bF x < bLT x <= bT x ->
  (forall g', taken po pu (bval x (bF x)) g' -> Q (res (bval x (bF x))) g') ->
  rg (take b (bF x mod (bM x + 1))) Q g).

Definition took (po pu : list T) (a : X) (g : Gh) : Prop := exists v, a = res v /\ taken po pu v g.
Definition dequeued (po pu : list T) : option X -> Gh -> Prop := fetched po pu (took po pu).

Lemma took_stable po pu a g g' : took po pu a g -> R g g' -> took po pu a g'.
Proof using HR PreOrder1. intros (v & -> & Ht) H. exists v. split; [done|]. by eapply taken_stable. Qed.

Lemma take_took po pu b x (Q : X -> Gh -> Prop) g :
  cview [b] po pu g -> bview b x g -> bF x < bLT x <= bT x ->
  (forall a g', took po pu a g' -> Q a g') -> rg (take b (bF x mod (bM x + 1))) Q g.
Proof using Htake. intros Hc Hb Hlt HQ. eapply Htake; [done..|]. intros g' Ht. apply HQ. by eexists. Qed.

(** The first block is left behind. *)
Lemma rg_next_block b y po pu (Q : option X -> Gh -> Prop) g :
  cview [b; y] po pu g -> spent b g ->
  (forall r g', dequeued po pu r g' -> Q r g') ->
  rg (nextBlock ← load_next b;
      nextBlockFront ← load nextBlock front;
      nextBlockTail ← load nextBlock tail;
      store nextBlock (set_localTail nextBlockTail) ;;
      assert_ (negb (nextBlockFront =? nextBlockTail)) ;;
      store_frontBlock nextBlock ;;
      x ← take nextBlock nextBlockFront;
      Ret (Some x)) Q g.
Proof using All.
  intros Hc Hs HQ. apply (rg_second b y po pu); [done..|]. intros g3 x3 Hc3 Hs3 Hyb Hy3 -> HM3 Hlt. set (x3 := gb g3 y) in *.
  eapply (rg_refresh y x3); [exact Hc3|exact Hy3|lia|].
  intros g4 g5 H4 Hs5 Hg5 Hc5 Hy5.
  apply rgwp_assert.
  { pose proof (same_index (bM x3) (bF x3) (bT x3) ltac:(lia) ltac:(lia)) as Ht. destruct (_ =? _); [lia|done]. }
  assert (spent b g5) as Hsp5.
  { pose proof (spent_stable _ _ _ _ _ _ _ Hc3 Hs3 H4) as Hs4. unfold spent. rewrite Hg5.
    by rewrite fn_lookup_insert_ne by done. }
  apply rgwp_write. intros q6 g6 H6 HI6.
  pose proof (cview_stable _ _ _ _ _ Hc5 H6) as Hc6. pose proof (spent_stable _ _ _ _ _ _ _ Hc5 Hsp5 H6) as Hs6.
  pose proof (bview_stable _ _ _ _ Hy5 H6) as Hy6. pose proof (cw_used _ _ _ _ Hc6) as [l6 Hl6]. cbn in Hl6.
  eexists _, (advance_front b (y :: l6) g6). split; [reflexivity|]. split; [|split].
  - by apply inv_advance_front.
  - by apply Rp_advance_front.
  - apply (rg_took take po pu (took po pu) (took_stable po pu) (take_took po pu) y (bg_LT (bT x3) x3)); [| |cbn; lia|exact HQ].
    + destruct Hc6. split; try done. by exists l6.
    + destruct Hy6. split; try done. left.
Qed.

Lemma rg_dequeue_with g : rg (dequeue_with take) (dequeued (popped g) (pushed g)) g.
Proof using All.
  by apply (rg_front_with take (popped g) (pushed g) (took _ _) (took_stable _ _) (take_took _ _) _ (fun b y => rg_next_block b y _ _)).
Qed.
End Take.

(** ** [peek] *)

(** [v] was the next to come out. *)
Definition peeked (po pu : list T) (v : T) (g : Gh) : Prop :=
  popped g = po /\ Past pu (pushed g) /\ exists pu', (po ++ [v]) `prefix_of` pu' /\ Past pu' (pushed g).

Lemma peeked_stable po pu v g g' : peeked po pu v g -> R g g' -> peeked po pu v g'.
Proof using HR PreOrder1.
  intros (H1 & H2 & pu' & H3 & H4) [Hr HP]%HR. split; [by rewrite (rc_popped _ _ Hr)|]. split; [by etransitivity|].
  exists pu'. split; [done|by etransitivity].
Qed.

(** [v] is the first element of a queue whose second block is [y], if the
    first is spent. *)
Lemma first_item q (g : Gh) b l : Inv q g -> used g = b :: l -> bF (gb g b) < bT (gb g b) ->
  (popped g ++ [bval (gb g b) (bF (gb g b))]) `prefix_of` pushed g.
Proof using Type.
  intros HI Hu Hlt. rewrite (go_items _ (iv_ghost _ _ HI)). apply prefix_app. unfold gitems. rewrite Hu. cbn.
  unfold bg_items at 1. rewrite seqZ_cons by lia. by eexists.
Qed.

Lemma second_item q (g : Gh) b y l : Inv q g -> used g = b :: y :: l -> spent b g -> bF (gb g y) < bT (gb g y) ->
  (popped g ++ [bval (gb g y) (bF (gb g y))]) `prefix_of` pushed g.
Proof using Type.
  intros HI Hu Hs Hlt. rewrite (go_items _ (iv_ghost _ _ HI)). apply prefix_app. unfold gitems. rewrite Hu. cbn.
  rewrite (bg_items_nil _ Hs). unfold bg_items at 1. rewrite seqZ_cons by lia. by eexists.
Qed.

Lemma rg_peek_elem l po pu b x (Q : T -> Gh -> Prop) g :
  cview l po pu g -> bview b x g -> bF x < bT x ->
  (forall q g', R g g' -> Inv q g' -> bF (gb g' b) < bT (gb g' b) ->
     (popped g' ++ [bval (gb g' b) (bF (gb g' b))]) `prefix_of` pushed g') ->
  (forall v g', peeked po pu v g' -> Q v g') -> rg (load_elem b (bF x mod (bM x + 1))) Q g.
Proof using All.
  intros Hc Hb Hlt Hfirst HQ. change (rg (load_elem b (bF x mod (bM x + 1)) ≫= Ret) Q g).
  apply (rgwp_read Inv R Rp); [typeclasses eauto|]. intros q1 g1 H1 HI1.
  pose proof (bview_stable _ _ _ _ Hb H1) as Hv1. pose proof (cview_stable _ _ _ _ _ Hc H1) as Hc1.
  destruct (iv_blocks _ _ HI1 b (used_ring _ _ (bw_used _ _ _ Hv1))) as (blk & Hl & Hok). rewrite Hl.
  pose proof (bview_order _ _ _ _ Hv1 Hok) as (O1 & O2 & O3 & _). pose proof (bw_T _ _ _ Hv1).
  exists (bval x (bF x)). split.
  - unfold get_elem. rewrite (proj2 (Z.ltb_ge _ _)) by (apply Z.mod_pos_bound; lia).
    rewrite <- (bw_M _ _ _ Hv1), (bk_data _ _ Hok).
    + by rewrite (bw_val _ _ _ Hv1) by lia.
    + rewrite (bw_F _ _ _ Hv1). destruct (bk_order _ _ Hok) as (?&?&?). lia.
  - apply rgwp_ret. intros g2 H2. apply HQ. apply (peeked_stable _ _ _ g1); [|done].
    split; [apply Hc1|]. split; [apply Hc1|]. exists (pushed g1). split; [|done].
    rewrite <- (cw_popped _ _ _ _ Hc1), <- (bw_val _ _ _ Hv1), <- (bw_F _ _ _ Hv1) by lia.
    apply (Hfirst q1); [done|done|]. rewrite (bw_F _ _ _ Hv1). lia.
Qed.

Lemma rg_peek_front po pu b x (Q : T -> Gh -> Prop) g :
  cview [b] po pu g -> bview b x g -> bF x < bLT x <= bT x ->
  (forall v g', peeked po pu v g' -> Q v g') -> rg (load_elem b (bF x mod (bM x + 1))) Q g.
Proof using All.
  intros Hc Hb Hlt HQ. apply (rg_peek_elem [b] po pu b x); [done|done|lia| |done].
  intros q g' Hg HI. destruct (cw_used _ _ _ _ (cview_stable _ _ _ _ _ Hc Hg)) as [l Hu]. by apply (first_item q g' b l).
Qed.

(** The element is in the second block, which stays the second. *)
Lemma rg_peek_next po pu b y (Q : option T -> Gh -> Prop) g :
  cview [b; y] po pu g -> spent b g ->
  (forall r g', fetched po pu (peeked po pu) r g' -> Q r g') ->
  rg (nextBlock ← load_next b;
      nextBlockFront ← load nextBlock front;
      t ← load nextBlock tail;
      assert_ (negb (nextBlockFront =? t)) ;;
      x ← load_elem nextBlock nextBlockFront;
      Ret (Some x)) Q g.
Proof using All.
  intros Hc Hs HQ. apply (rg_second b y po pu); [done..|]. intros g3 x3 Hc3 Hs3 _ Hy3 _ HM3 Hlt.
  apply rgwp_assert.
  { pose proof (same_index (bM x3) (bF x3) (bT x3) ltac:(lia) ltac:(lia)) as Ht. destruct (_ =? _); [lia|done]. }
  apply (rgwp_bind Inv R Rp). apply (rg_peek_elem [b; y] po pu y x3); [done|exact Hy3|lia| |].
  - intros q g' Hg HI. destruct (cw_used _ _ _ _ (cview_stable _ _ _ _ _ Hc3 Hg)) as [l Hu].
    apply (second_item q g' b y l); [done|done|by eapply spent_stable].
  - intros v g4 Hp. apply rgwp_ret. intros g5 H5. apply HQ. by eapply (peeked_stable _ _ _ g4).
Qed.

Lemma rg_peek g : rg peek (fetched (popped g) (pushed g) (peeked (popped g) (pushed g))) g.
Proof using All.
  by apply (rg_front_with load_elem (popped g) (pushed g) _ (peeked_stable _ _) (rg_peek_front _ _) _ (rg_peek_next _ _)).
Qed.
End Consumer.

(** ** Counting *)

Section Counting.
Context {T : Type}.
Abbreviation Gh := (@Ghost T).
Context (R G : Gh -> Gh -> Prop) `{!PreOrder R} `{!Reflexive G}.
Abbreviation rg := (rgwp Inv R G).

Lemma ring_length (q : ReaderWriterQueue) (g : Gh) : Inv q g -> (length (ring g) <= length (heap q))%nat.
Proof.
  intros HI. replace (length (heap q)) with (length (seq 0 (length (heap q)))) by apply length_seq. apply submseteq_length, NoDup_submseteq; [apply HI|].
  intros b Hb. apply elem_of_seq. pose proof (ring_heap q g b HI Hb). lia.
Qed.

Definition count (g : Gh) (b : nat) : Z := bT (gb g b) - bF (gb g b).

Lemma len_concat {A} (l : list (list A)) : len (concat l) = zsum (len <$> l).
Proof. induction l as [|x l IH]; [done|]. cbn. by rewrite len_app, IH. Qed.

(** The counts of the blocks add up to the number of elements. *)
Lemma zsum_count (g : Gh) : ghost_ok g -> pend g = false -> (forall b, b ∈ ring g -> bF (gb g b) <= bT (gb g b)) ->
  zsum (count g <$> ring g) = len (gitems g).
Proof.
  intros Hg Hp Hb. unfold gitems. rewrite len_concat, <- list_fmap_compose. unfold ring. rewrite fmap_app, zsum_app.
  assert (zsum (count g <$> free g) = 0) as ->.
  { pose proof (go_free _ Hg) as Hf. destruct (free g) as [|b l]; [done|]. rewrite Hp in Hf. destruct Hf as [H1 H2].
    assert (forall l, Forall (fun b => bT (gb g b) = bF (gb g b)) l -> zsum (count g <$> l) = 0) as Hz.
    { clear. induction 1 as [|b l Hb _ IH]; [done|]. cbn. unfold count at 1. unfold zsum in IH. lia. }
    apply Hz. by constructor. }
  rewrite Z.add_0_r. f_equal. apply list_fmap_ext. intros i b Hi%list_elem_of_lookup_2. cbn. unfold bg_items.
  rewrite len_map, len_length, length_seqZ. unfold count. specialize (Hb b ltac:(apply elem_of_app; by left)). lia.
Qed.

Lemma diff_index M f t : (exists k, 1 <= k <= 62 /\ M = 2 ^ k - 1) -> f <= t <= f + M ->
  Z.land (t mod (M + 1) - f mod (M + 1))%u64 M = t - f.
Proof.
  intros HM Ht. pose proof (mask_bound M HM) as Hb. rewrite land_mask by done. destruct HM as (k & Hk & HM).
  replace (M + 1) with (2 ^ k) in * by lia. unfold w64. rewrite Z.mod_mod_divide.
  - rewrite <- Zminus_mod, Z.mod_small; lia.
  - exists (2 ^ (64 - k)). rewrite <- Z.pow_add_r by lia. f_equal. lia.
Qed.

(** With nothing happening in the queue. *)
Context (g : Gh) (Hfrozen : forall g', R g g' -> g' = g).

Lemma frozen_load {X A} b (f : Block -> X) (k : X -> prog _ A) Q :
  b ∈ ring g -> (forall q blk, Inv q g -> heap q !! b = Some blk -> blk_ok (gb g b) blk -> rg (k (f blk)) Q g) ->
  rg (load b f ≫= k) Q g.
Proof using Type*.
  intros Hb H. apply rgwp_read; [done|]. intros q g' HR HI. rewrite (Hfrozen _ HR) in *.
  destruct (iv_blocks _ _ HI b Hb) as (blk & Hl & Hok). rewrite Hl. eauto.
Qed.

Lemma zsum_nonneg (l : list Z) : Forall (fun x => 0 <= x) l -> 0 <= zsum l.
Proof using Type. unfold zsum. induction 1; cbn; lia. Qed.

(** The step from block to block around the ring. *)
Lemma frozen_next {A} fb l1 b l2 (k : nat -> prog _ A) Q :
  ring g = l1 ++ b :: l2 -> head (ring g) = Some fb -> NoDup (ring g) ->
  (l2 = [] -> rg (k fb) Q g) -> (forall c l3, l2 = c :: l3 -> c <> fb -> rg (k c) Q g) ->
  rg (load_next b ≫= k) Q g.
Proof using Type*.
  intros Hr Hh Hnd H1 H2. assert (b ∈ ring g) as Hb by (rewrite Hr; apply elem_of_app; right; left).
  apply rgwp_read; [done|]. intros q g' HR' HI. rewrite (Hfrozen _ HR') in *. clear g' HR'.
  destruct (iv_blocks _ _ HI b Hb) as (blk & Hl & Hok). rewrite Hl.
  rewrite (next_of q g l1 b l2 blk HI Hr Hl). eexists. split; [reflexivity|].
  assert (frontBlock q = fb) as Hfb.
  { pose proof (iv_front _ _ HI) as Hh'. unfold ring in Hh. destruct (used g); [done|]. cbn in *. congruence. }
  destruct l2 as [|c l2]; cbn [head default from_option id]; [rewrite Hfb; by apply H1|].
  apply (H2 c l2); [done|]. intros ->. rewrite Hr in Hnd, Hh. destruct l1 as [|d l1]; cbn in Hh; injection Hh as ->.
  - apply NoDup_cons in Hnd as [Hnd _]. apply Hnd. left.
  - cbn in Hnd. apply NoDup_cons in Hnd as [Hnd _]. apply Hnd. apply elem_of_app. right. right. left.
Qed.

(** One more term of a sum over the ring does not wrap. *)
Lemma partial_sum (f : nat -> Z) l1 b l2 :
  ring g = l1 ++ b :: l2 -> Forall (fun b => 0 <= f b) (ring g) -> zsum (f <$> ring g) < 2 ^ 64 ->
  (zsum (f <$> l1) + f b)%u64 = zsum (f <$> (l1 ++ [b])).
Proof using Type.
  intros Hr Hpos Hsum. rewrite Hr in Hpos, Hsum. rewrite fmap_app, zsum_app, fmap_cons in Hsum. cbn in Hsum.
  apply Forall_app in Hpos as [Hp1 Hp2]. inversion Hp2 as [|? ? Hpb Hp3]; subst.
  pose proof (zsum_nonneg (f <$> l1) ltac:(by apply Forall_fmap)) as Hs1.
  pose proof (zsum_nonneg (f <$> l2) ltac:(by apply Forall_fmap)) as Hs2.
  rewrite fmap_app, zsum_app. cbn. unfold zsum in Hs1, Hs2, Hsum |- *. rewrite w64_small; lia.
Qed.

Lemma rg_size_loop fb l2 : forall fuel l1 b acc (Q : Z -> Gh -> Prop),
  ring g = l1 ++ b :: l2 -> head (ring g) = Some fb -> (length l2 < fuel)%nat ->
  acc = zsum (count g <$> l1) -> NoDup (ring g) ->
  Forall (fun b => 0 <= count g b) (ring g) -> zsum (count g <$> ring g) < 2 ^ 64 ->
  (forall n, n = zsum (count g <$> ring g) -> Q n g) ->
  rg (size_loop fuel fb b acc) Q g.
Proof using Type*.
  induction l2 as [l2 IH] using (induction_ltof1 _ length). unfold ltof in IH.
  intros [|fuel] l1 b acc Q Hr Hh Hf -> Hnd Hpos Hsum HQ; [lia|].
  assert (b ∈ ring g) as Hb by (rewrite Hr; apply elem_of_app; right; left).
  cbn [size_loop]. apply frozen_load; [done|]. intros q1 blk1 HI1 Hb1 Hok1. rewrite (bk_front _ _ Hok1).
  apply frozen_load; [done|]. intros q2 blk2 HI2 Hb2 Hok2. rewrite (bk_tail _ _ Hok2).
  apply frozen_load; [done|]. intros q3 blk3 HI3 Hb3 Hok3. rewrite (bk_mask _ _ Hok3).
  rewrite diff_index by (apply Hok3 || (destruct (bk_order _ _ Hok3) as (?&?&?); lia)). fold (count g b). cbv zeta.
  rewrite (partial_sum (count g) l1 b l2) by done. apply (frozen_next fb l1 b l2); [done..| |].
  - intros ->. rewrite Nat.eqb_refl. apply rgwp_ret. intros g' HR'. rewrite (Hfrozen _ HR'). apply HQ. by rewrite Hr.
  - intros c l3 -> Hne. rewrite (proj2 (Nat.eqb_neq c fb) Hne).
    apply (IH l3) with (l1 := l1 ++ [b]); cbn in *; try done; try lia. by rewrite <- app_assoc.
Qed.

Lemma rg_capacity_loop fb l2 : forall fuel l1 b acc (Q : Z -> Gh -> Prop),
  ring g = l1 ++ b :: l2 -> head (ring g) = Some fb -> (length l2 < fuel)%nat ->
  acc = zsum ((fun b => bM (gb g b)) <$> l1) -> NoDup (ring g) ->
  Forall (fun b => 0 <= bM (gb g b)) (ring g) -> ring_cap g < 2 ^ 64 -> Q (ring_cap g) g ->
  rg (capacity_loop fuel fb b acc) Q g.
Proof using Type*.
  induction l2 as [l2 IH] using (induction_ltof1 _ length). unfold ltof in IH.
  intros [|fuel] l1 b acc Q Hr Hh Hf -> Hnd Hpos Hsum HQ; [lia|].
  assert (b ∈ ring g) as Hb by (rewrite Hr; apply elem_of_app; right; left).
  cbn [capacity_loop]. apply frozen_load; [done|]. intros q1 blk1 HI1 Hb1 Hok1. rewrite (bk_mask _ _ Hok1). cbv zeta.
  rewrite (partial_sum (fun b => bM (gb g b)) l1 b l2) by done. apply (frozen_next fb l1 b l2); [done..| |].
  - intros ->. rewrite Nat.eqb_refl. apply rgwp_ret. intros g' HR'. rewrite (Hfrozen _ HR'), <- Hr. exact HQ.
  - intros c l3 -> Hne. rewrite (proj2 (Nat.eqb_neq c fb) Hne).
    apply (IH l3) with (l1 := l1 ++ [b]); cbn in *; try done; try lia. by rewrite <- app_assoc.
Qed.

Lemma rg_max_capacity (Q : Z -> Gh -> Prop) : Q (ring_cap g) g -> rg max_capacity Q g.
Proof using Type*.
  intros HQ. apply rgwp_read; [done|]. intros q1 g1 HR1 HI1. rewrite (Hfrozen _ HR1) in *. clear g1 HR1.
  eexists. split; [reflexivity|]. pose proof (ring_length _ _ HI1) as Hlen.
  apply rgwp_read; [done|]. intros q2 g2 HR2 HI2. rewrite (Hfrozen _ HR2) in *. clear g2 HR2.
  eexists. split; [reflexivity|].
  assert (exists l, ring g = frontBlock q2 :: l) as [l Hl].
  { pose proof (iv_front _ _ HI2) as Hh. unfold ring. destruct (used g) as [|b l]; [done|]. injection Hh as ->. by eexists. }
  apply (rg_capacity_loop (frontBlock q2) l) with (l1 := []); try done.
  - by rewrite Hl.
  - rewrite Hl in Hlen. cbn in Hlen. lia.
  - apply HI2.
  - apply Forall_forall. intros b Hb. destruct (iv_blocks _ _ HI2 b Hb) as (blk & _ & Hok).
    pose proof (mask_bound _ (bk_pow _ _ Hok)). lia.
  - apply (go_cap _ (iv_ghost _ _ HI2)).
Qed.

Lemma rg_size_approx (Q : Z -> Gh -> Prop) :
  pend g = false -> Q (len (gitems g)) g -> rg size_approx Q g.
Proof using Type*.
  intros Hp HQ. apply rgwp_read; [done|]. intros q1 g1 HR1 HI1. rewrite (Hfrozen _ HR1) in *. clear g1 HR1.
  eexists. split; [reflexivity|]. pose proof (ring_length _ _ HI1) as Hlen.
  apply rgwp_read; [done|]. intros q2 g2 HR2 HI2. rewrite (Hfrozen _ HR2) in *. clear g2 HR2.
  eexists. split; [reflexivity|].
  assert (forall b, b ∈ ring g -> 0 <= count g b <= bM (gb g b)) as Hc.
  { intros b Hb. destruct (iv_blocks _ _ HI2 b Hb) as (blk & _ & Hok). unfold count.
    destruct (bk_order _ _ Hok) as (?&?&?). lia. }
  assert (exists l, ring g = frontBlock q2 :: l) as [l Hl].
  { pose proof (iv_front _ _ HI2) as Hh. unfold ring. destruct (used g) as [|b l]; [done|]. injection Hh as ->. by eexists. }
  apply (rg_size_loop (frontBlock q2) l) with (l1 := []); try done.
  - by rewrite Hl.
  - rewrite Hl in Hlen. cbn in Hlen. lia.
  - apply HI2.
  - apply Forall_forall. intros b Hb. by apply Hc.
  - eapply Z.le_lt_trans; [|exact (go_cap _ (iv_ghost _ _ HI2))]. unfold ring_cap. clear -Hc.
    induction (ring g) as [|b k IH]; [done|]. cbn. pose proof (Hc b ltac:(left)). unfold zsum in IH.
    specialize (IH (fun d Hd => Hc d ltac:(by right))). lia.
  - intros n ->. rewrite zsum_count; [exact HQ|apply HI2|done|]. intros b Hb. specialize (Hc b Hb). unfold count in Hc. lia.
Qed.
End Counting.
