(* ===== verification/RwQueueUse.v ===== *)
(** * The queue as a bounded first-in first-out queue

    The contract of [ReaderWriterQueue] in the hands of one thread at a time:
    the constructor, and what the operations of [RwQueueProof] amount to when
    nothing interferes. *)

From stdpp Require Import functions.
From S2P Require Import Prelude Interleave RwQueue RwQueueSpec RwQueueProof.

(** ** [ceilToPow2] *)

(** Bit [j] of [y] is set when one of the [k] bits of [x] from [j] on is. *)
Definition smeared (k x y : Z) : Prop :=
  forall j, 0 <= j -> Z.testbit y j = true <-> exists i, 0 <= i < k /\ Z.testbit x (j + i) = true.

Lemma smeared_1 x : smeared 1 x x.
Proof.
  intros j Hj. split; [intros H; exists 0; rewrite Z.add_0_r; split; [lia|done]|].
  intros (i & Hi & H). by replace (j + i) with j in H by lia.
Qed.

Lemma smear_double k x y : 0 < k -> smeared k x y -> smeared (2 * k) x (smear k y).
Proof.
  intros Hk H j Hj. unfold smear. rewrite Z.lor_spec, Z.shiftr_spec by lia. rewrite orb_true_iff, (H j), (H (j + k)) by lia. split.
  - intros [(i & Hi & Hx)|(i & Hi & Hx)]; [exists i; split; [lia|done]|].
    exists (k + i). split; [lia|]. by rewrite Z.add_assoc.
  - intros (i & Hi & Hx). destruct (Z.lt_ge_cases i k); [left; exists i; split; [lia|done]|right].
    exists (i - k). split; [lia|]. by replace (j + k + (i - k)) with (j + i) by lia.
Qed.

Lemma smeared_ones x y : 0 < x < 2 ^ 64 -> smeared 64 x y -> 0 <= y -> y = Z.ones (Z.log2 x + 1).
Proof.
  intros Hx H Hy. pose proof (Z.log2_nonneg x). assert (Z.log2 x < 64) by (apply Z.log2_lt_pow2; lia).
  apply Z.bits_inj'. intros j Hj. apply eq_true_iff_eq. rewrite (H j Hj).
  rewrite Z.ones_spec_iff by lia. split.
  - intros (i & Hi & Hb). split; [done|]. destruct (Z.lt_ge_cases (Z.log2 x) (j + i)); [|lia].
    by rewrite Z.bits_above_log2 in Hb by lia.
  - intros [_ Hj']. exists (Z.log2 x - j). split; [lia|].
    replace (j + (Z.log2 x - j)) with (Z.log2 x) by lia. apply Z.bit_log2. lia.
Qed.

Lemma smear_nonneg k x : 0 <= x -> 0 <= smear k x.
Proof. intros. apply Z.lor_nonneg. split; [done|by apply Z.shiftr_nonneg]. Qed.

Lemma ceilToPow2_log2_up x : 1 <= x <= 2 ^ 63 -> ceilToPow2 x = 2 ^ Z.log2_up x.
Proof.
  intros Hx. destruct (decide (x = 1)) as [->|Hne]; [by vm_compute|].
  unfold ceilToPow2. rewrite (w64_small (x - 1)) by lia.
  assert (forall y, smear_loop 8 1 y = smear 32 (smear 16 (smear 8 y))) as Hloop by done. rewrite Hloop. clear Hloop.
  assert (smeared 64 (x - 1) (smear 32 (smear 16 (smear 8 (smear 4 (smear 2 (smear 1 (x - 1)))))))) as H.
  { repeat match goal with |- smeared ?k _ (smear ?j _) => change k with (2 * j); apply smear_double; [lia|] end.
    apply smeared_1. }
  apply smeared_ones in H; [|lia|repeat apply smear_nonneg; lia]. rewrite H, Z.ones_equiv.
  unfold Z.log2_up. rewrite (proj2 (Z.compare_lt_iff 1 x)) by lia.
  replace (Z.log2 (x - 1) + 1) with (Z.succ (Z.log2 (Z.pred x))) by (f_equal; lia).
  assert (Z.log2 (Z.pred x) < 63) by (apply Z.log2_lt_pow2; lia).
  pose proof (Z.pow_lt_mono_r 2 (Z.succ (Z.log2 (Z.pred x))) 64).
  pose proof (Z.log2_nonneg (Z.pred x)). pose proof (Z.pow_pos_nonneg 2 (Z.succ (Z.log2 (Z.pred x)))).
  rewrite w64_small; lia.
Qed.

(** ** The constructor *)

Section Constructor.
Context {T : Type} `{!Inhabited T}.
Implicit Types q : @ReaderWriterQueue T.

(** The blocks in a circle. *)
Definition circle (n : nat) (size : Z) : list (@Block T) :=
  (fun i => set_next (Some (if decide (S i = n) then 0%nat else S i)) (make_block size)) <$> seq 0 n.

Lemma link_blocks_circle n size : (0 < n)%nat -> link_blocks n size = circle n size.
Proof using Type.
  induction n as [|n IH]; [lia|intros _]. destruct n as [|n]; [done|].
  change (link_blocks (S (S n)) size) with (@link_block T (S n) size (link_blocks (S n) size)).
  rewrite IH by lia. unfold link_block. rewrite decide_False by lia. replace (S n - 1)%nat with n by lia.
  apply list_eq. intros i.
  assert (forall k, circle k size !! i = if decide (i < k)%nat then
    Some (set_next (Some (if decide (S i = k) then 0%nat else S i)) (make_block size)) else None) as Hc.
  { intros k. unfold circle. rewrite list_lookup_fmap. case_decide.
    - by rewrite lookup_seq_lt.
    - by rewrite lookup_seq_ge by lia. }
  assert (length (circle (S n) size) = S n) as Hl by (unfold circle; by rewrite length_fmap, length_seq).
  rewrite (Hc (S (S n))). rewrite list_lookup_alter. case_decide as H1.
  - subst i. rewrite list_lookup_alter_ne by lia. rewrite list_lookup_middle by done.
    rewrite !decide_True by lia. done.
  - rewrite list_lookup_alter. case_decide as H2.
    + subst i. rewrite lookup_app_l by lia. rewrite Hc, !(decide_True (P := (_ < _)%nat)) by lia.
      rewrite (decide_False (P := S n = S (S n))) by lia. done.
    + destruct (decide (i < S (S n))%nat) as [H3|H3].
      * rewrite lookup_app_l by lia. rewrite Hc, (decide_True (P := (i < S n)%nat)) by lia.
        rewrite !(decide_False (P := S i = _)) by lia. done.
      * apply lookup_ge_None. rewrite length_app, Hl. cbn. lia.
Qed.

Lemma circle_lookup n size i : (i < n)%nat ->
  circle n size !! i = Some (set_next (Some (if decide (S i = n) then 0%nat else S i)) (make_block size)).
Proof using Type. intros Hi. unfold circle. by rewrite list_lookup_fmap, lookup_seq_lt. Qed.

(** A chain of consecutive blocks. *)
Lemma chain_circle n size k i : (i + k = n)%nat -> (0 < n)%nat -> chain (circle n size) (seq i k) 0.
Proof using Type.
  intros Hn H0. revert i Hn. induction k as [|k IH]; [done|]. intros i Hn. cbn [seq chain]. split; [|apply IH; lia].
  rewrite circle_lookup by lia. cbn. f_equal. case_decide; destruct k; cbn; done || lia.
Qed.

Definition new_bg (size : Z) : @BlockGhost T := mkBG 0 0 0 0 0 (size - 1) (fun _ => inhabitant).
Definition new_ghost (n : nat) (size : Z) : @Ghost T :=
  mkGhost [0%nat] (seq 1 (n - 1)) (fun _ => new_bg size) size false false None true [] [].

Lemma ring_new n size : (0 < n)%nat -> ring (new_ghost n size) = seq 0 n.
Proof using Type. unfold ring. cbn. by destruct n as [|n]; cbn; rewrite ?Nat.sub_0_r; [lia|]. Qed.

Lemma zsum_const (l : list nat) (m : Z) : zsum ((fun _ => m) <$> l) = len l * m.
Proof using Type. induction l as [|x l IH]; [done|]. rewrite len_cons. unfold zsum in *. cbn. lia. Qed.

Lemma make_block_ok size nxt : (exists k, 1 <= k <= 62 /\ size = 2 ^ k) ->
  blk_ok (new_bg size) (set_next nxt (make_block size)).
Proof using Type.
  intros (k & Hk & Hs). pose proof (mask_bound (size - 1) ltac:(exists k; lia)) as Hm. split; cbn; try (by rewrite Z.mod_0_l by lia).
  - exists k. lia.
  - by rewrite w64_small by lia.
  - rewrite len_replicate. lia.
  - intros i Hi. lia.
  - unfold bg_order. cbn. lia.
Qed.

Lemma inv_circle n size : (0 < n)%nat -> (exists k, 1 <= k <= 10 /\ size = 2 ^ k) -> Z.of_nat n * (size - 1) < 2 ^ 64 ->
  Inv (mkRwq 0 0 size (circle n size)) (new_ghost n size).
Proof using Type.
  intros Hn (k & Hk & Hs) Hcap. pose proof (ring_new n size Hn) as Hr. split; rewrite ?Hr; try done; cbn.
  - by apply chain_circle.
  - intros b Hb%elem_of_seq. rewrite circle_lookup by lia. eexists. split; [done|].
    apply make_block_ok. exists k. lia.
  - assert (forall l : list nat, Forall (fun b => bT (gb (new_ghost n size) b) = bF (gb (new_ghost n size) b)) l) as Hf
      by (intros l; by apply Forall_forall).
    split; rewrite ?Hr; try done.
    + apply NoDup_seq.
    + intros b Hb. by apply not_elem_of_nil in Hb.
    + intros [|c l1] b l2 He; [done|]. by destruct l1.
    + cbn. by destruct (seq 1 (n - 1)).
    + unfold ring_cap. rewrite Hr. cbn. rewrite zsum_const, len_length, length_seq. lia.
    + cbn. pose proof (Z.pow_le_mono_r 2 k 10). pose proof (Z.pow_pos_nonneg 2 k). split; [lia|]. exists k. lia.
Qed.

(** How many elements fit before [try_enqueue] can refuse one. *)
Definition usable (n : nat) (m : Z) : Z := if decide (n = 1%nat) then m else (Z.of_nat n - 1) * m.

(** The constructor lays out room for what it was asked. *)
Lemma new_layout size : 1 <= size < 2 ^ 63 -> exists n bs,
  new_ReaderWriterQueue size = mkRwq 0 0 bs (circle n bs) /\ (0 < n)%nat /\ (exists k, 1 <= k <= 10 /\ bs = 2 ^ k) /\
  Z.of_nat n * (bs - 1) < 2 ^ 64 /\ size <= usable n (bs - 1).
Proof using Type.
  intros Hs. unfold new_ReaderWriterQueue. rewrite (w64_small (size + 1)) by lia. rewrite ceilToPow2_log2_up by lia.
  pose proof (Z.log2_up_spec (size + 1) ltac:(lia)) as Hl. pose proof (Z.log2_up_pos (size + 1) ltac:(lia)) as Hp.
  change (MAX_BLOCK_SIZE * 2) with 1024. change (MAX_BLOCK_SIZE - 1) with 511. change MAX_BLOCK_SIZE with 512.
  destruct (Z.ltb_spec 1024 (2 ^ Z.log2_up (size + 1))) as [Hbig|Hsmall].
  - assert (1024 < size + 1) as Hlt.
    { destruct (Z.lt_ge_cases 1024 (size + 1)) as [|Hge]; [done|]. apply Z.log2_up_le_mono in Hge.
      change (Z.log2_up 1024) with 10 in Hge. apply (Z.pow_le_mono_r 2) in Hge; lia. }
    rewrite w64_small by lia. replace (size + 1024 - 3) with (size + 1021) by lia.
    set (c := (size + 1021) / 511). assert (511 * c <= size + 1021 < 511 * c + 511) as Hc.
    { unfold c. pose proof (Z.div_mod (size + 1021) 511). pose proof (Z.mod_pos_bound (size + 1021) 511). lia. }
    exists (Z.to_nat c), 512. rewrite link_blocks_circle by lia. split_and!; try done; try lia.
    + exists 9. lia.
    + unfold usable. rewrite decide_False by lia. lia.
  - exists 1%nat, (2 ^ Z.log2_up (size + 1)). split_and!; try done; try lia.
    + exists (Z.log2_up (size + 1)). split; [|done]. split; [lia|].
      destruct (Z.lt_ge_cases 10 (Z.log2_up (size + 1))) as [Hlt|]; [|done].
      apply (Z.pow_lt_mono_r 2) in Hlt; lia.
    + unfold usable. rewrite decide_True by done. lia.
Qed.
End Constructor.

(** ** The queue in the hands of one thread *)

Section Alone.
Context {T : Type}.
Implicit Types (q : @ReaderWriterQueue T) (g : @Ghost T).

(** All blocks are of one size, and [size] elements fit. *)
Definition roomy (size : Z) g : Prop :=
  exists m, (forall b, b ∈ ring g -> bM (gb g b) = m) /\ size <= usable (length (ring g)) m.

Lemma roomy_same_ring size g g' : same_ring g g' -> roomy size g -> roomy size g'.
Proof.
  intros [H1 H2] (m & Hm & Hs). exists m. rewrite H1. split; [|done]. intros b Hb. rewrite H1 in Hb.
  rewrite H2 by done. by apply Hm.
Qed.

Lemma len_bg_items (bg : @BlockGhost T) : bF bg <= bT bg -> len (bg_items bg) = bT bg - bF bg.
Proof. intros H. unfold bg_items. rewrite len_map, len_length, length_seqZ. lia. Qed.

(** A queue that can take no element holds at least [size]. *)
Lemma at_capacity_items size g : ghost_ok g -> at_capacity g -> roomy size g -> size <= len (gitems g).
Proof.
  intros Hg Hat (m & Hm & Hs). unfold gitems. rewrite len_concat, <- list_fmap_compose.
  destruct Hat as [(b & Hu & Hf & Hfull)|(Hfree & Hlen & Hfull)].
  - unfold ring in Hs, Hm. rewrite Hu, Hf in *. specialize (Hm b ltac:(left)). unfold usable in Hs.
    rewrite decide_True in Hs by done. cbn.
    destruct (decide (bF (gb g b) <= bT (gb g b))); [rewrite len_bg_items by done; lia|].
    pose proof (len_nonneg (bg_items (gb g b))). lia.
  - unfold ring in Hs, Hm. rewrite Hfree, app_nil_r in *. destruct (used g) as [|c l] eqn:Hu; [cbn in Hlen; lia|].
    cbn in Hlen, Hfull. rewrite drop_0 in Hfull. unfold usable in Hs. rewrite decide_False in Hs by (cbn; lia).
    cbn [length] in Hs. cbn [fmap list_fmap zsum foldr].
    assert (forall l, (forall b, b ∈ l -> bT (gb g b) = bF (gb g b) + m) -> len l * m <= zsum (len ∘ (bg_items ∘ gb g) <$> l)) as Hsum.
    { clear. intros l. induction l as [|b l IH]; intros H; [done|]. rewrite len_cons. cbn.
      specialize (IH (fun c Hc => H c ltac:(by right))). unfold zsum in IH. pose proof (H b ltac:(left)) as Hb.
      destruct (decide (bF (gb g b) <= bT (gb g b))); [rewrite len_bg_items by done; lia|].
      pose proof (len_nonneg (bg_items (gb g b))). lia. }
    assert (forall b, b ∈ l -> bT (gb g b) = bF (gb g b) + m) as Hl by (intros b Hb; rewrite Hfull, Hm; [done|by right|done]).
    pose proof (Hsum l Hl) as Hz. pose proof (len_nonneg (bg_items (gb g c))). unfold zsum in Hz. cbn. rewrite len_length in Hz. lia.
Qed.

(** [q], made for [size] elements, holds [xs]. *)
Definition holds (size : Z) q (xs : list T) : Prop :=
  exists g, Inv q g /\ idle g /\ fixed g = true /\ roomy size g /\ gitems g = xs.

Lemma new_holds `{!Inhabited T} size : 1 <= size < 2 ^ 63 -> holds size (new_ReaderWriterQueue size) [].
Proof.
  intros Hs. destruct (new_layout (T := T) size Hs) as (n & bs & -> & Hn & Hk & Hcap & Hu).
  exists (new_ghost n bs). split; [by apply inv_circle|]. do 2 (split; [done|]). split; [|done].
  exists (bs - 1). rewrite ring_new, length_seq by done. done.
Qed.

Lemma alone_p (g g' : @Ghost T) : g = g' -> Rp g g' /\ popped g = popped g'.
Proof. by intros <-. Qed.

Lemma alone_c (g g' : @Ghost T) : g = g' -> Rc g g' /\ pushed g = pushed g'.
Proof. by intros <-. Qed.

Lemma try_enqueue_holds size q xs v : holds size q xs -> exists q',
  exec (try_enqueue v) q = Ok (true, q') /\ holds size q' (xs ++ [v]) \/
  exec (try_enqueue v) q = Ok (false, q') /\ holds size q' xs /\ size <= len xs.
Proof.
  intros (g & HI & Hid & Hf & Hr & <-).
  destruct (rgwp_exec Inv eq Rc _ _ _ _ (rg_inner_enqueue eq eq alone_p (ring_cap g) true false true v g Hid eq_refl Hf ltac:(intros [=])) HI)
    as (r & q' & g' & He & HI' & HG & Hid' & Hpu & Hpo & Href). exists q'.
  pose proof (Rc_same_ring _ _ HG Hf) as Hsr. pose proof (roomy_same_ring _ _ _ Hsr Hr) as Hr'.
  pose proof (proj1 (rc_fixed _ _ HG)) as Hf'. rewrite Hf in Hf'.
  pose proof (go_items _ (iv_ghost _ _ HI)) as Hit. pose proof (go_items _ (iv_ghost _ _ HI')) as Hit'.
  rewrite <- Hpo in Hit'. destruct r; [left|right]; split; try exact He.
  - exists g'. split_and!; try done. rewrite Hpu, Hit, <- app_assoc in Hit'. by apply app_inv_head in Hit'.
  - rewrite Hpu, Hit in Hit'. apply app_inv_head in Hit'. split; [by exists g'|].
    destruct (Href eq_refl) as (g0 & R1 & R2 & R3 & R4 & R5).
    pose proof (go_items _ R3) as Hit0. rewrite R1, Hpu, R2, <- Hpo, Hit in Hit0. apply app_inv_head in Hit0. rewrite Hit0.
    apply at_capacity_items; [done|done|]. eapply roomy_same_ring; [|exact Hr']. destruct R4 as [E1 E2]. split; [by rewrite E1|].
    intros b Hb. symmetry. apply E2. by rewrite <- E1.
Qed.

Lemma holds_consumer size g g' :
  Rp g g' -> idle g -> fixed g = true -> roomy size g -> idle g' /\ fixed g' = true /\ roomy size g'.
Proof.
  intros Hr [Hc Hp] Hf Hs. split; [split|split].
  - by rewrite (rp_closed _ _ Hr).
  - by rewrite (rp_pend _ _ Hr).
  - by rewrite (rp_fixed _ _ Hr).
  - eapply roomy_same_ring; [by apply Rp_same_ring|done].
Qed.

Lemma dequeue_holds {X} (take : nat -> Z -> prog (@ReaderWriterQueue T) X) (res : T -> X) size q xs :
  (forall g, rgwp Inv eq Rp (dequeue_with take) (dequeued eq res (popped g) (pushed g)) g) ->
  holds size q xs -> exists q',
  exec (dequeue_with take) q = Ok (res <$> head xs, q') /\ holds size q' (tl xs).
Proof.
  intros Hwp (g & HI & Hid & Hf & Hr & <-).
  destruct (rgwp_exec Inv eq Rp _ _ _ _ (Hwp g) HI) as (r & q' & g' & He & HI' & HG & Hd). exists q'. rewrite He.
  destruct (holds_consumer size g g' HG Hid Hf Hr) as (Hid' & Hf' & Hr').
  pose proof (go_items _ (iv_ghost _ _ HI)) as Hit. pose proof (go_items _ (iv_ghost _ _ HI')) as Hit'.
  assert (gitems g' = tl (gitems g) /\ r = res <$> head (gitems g)) as [Hg ->].
  2: { split; [done|]. exists g'. by split_and!. }
  destruct r as [a|]; cbn in Hd.
  - destruct Hd as (v & -> & Hpo & Hpu). rewrite Hpo, <- Hpu, Hit, <- app_assoc in Hit'. apply app_inv_head in Hit'.
    by rewrite Hit'.
  - destruct Hd as (Hpo & Hpu & Hem). unfold found_empty in Hem. rewrite Hpo in *. rewrite <- Hpu in *.
    rewrite Hit in Hem at 1. rewrite <- (app_nil_r (popped g)) in Hem at 1. apply app_inv_head in Hem.
    rewrite Hit in Hit' at 1. apply app_inv_head in Hit'. rewrite <- Hit', <- Hem. done.
Qed.

Lemma try_dequeue_holds size q xs : holds size q xs -> exists q',
  exec try_dequeue q = Ok (head xs, q') /\ holds size q' (tl xs).
Proof.
  intros Hq. destruct (dequeue_holds take_front id size q xs) as (q' & He & Hh); [|done|].
  - intros g. apply (rg_dequeue_with eq eq alone_c). intros b x po pu Q g0 Hc Hb Hlt HQ.
    by apply (rg_take_front eq eq alone_c b x po pu).
  - exists q'. rewrite option_fmap_id in He. done.
Qed.

Lemma pop_holds size q xs : holds size q xs -> exists q',
  exec pop q = Ok (match xs with [] => false | _ => true end, q') /\ holds size q' (tl xs).
Proof.
  intros Hq. destruct (dequeue_holds drop_front (fun _ => tt) size q xs) as (q' & He & Hh); [|done|].
  - intros g. apply (rg_dequeue_with eq eq alone_c). intros b x po pu Q g0 Hc Hb Hlt HQ.
    by apply (rg_drop_front eq eq alone_c b x po pu).
  - exists q'. split; [|done]. unfold pop. rewrite exec_bind, He. by destruct xs.
Qed.

Lemma size_approx_holds size q xs : holds size q xs -> exists q',
  exec size_approx q = Ok (len xs, q') /\ holds size q' xs.
Proof.
  intros (g & HI & Hid & Hf & Hr & <-).
  destruct (rgwp_exec Inv eq eq size_approx (fun n g' => n = len (gitems g) /\ g' = g) q g) as (n & q' & g' & He & HI' & <- & -> & _); [|done|].
  - apply (rg_size_approx eq eq g); [by intros ? <-|by apply Hid|done].
  - exists q'. split; [done|]. by exists g.
Qed.
Lemma peek_holds size q xs : holds size q xs -> exists q',
  exec peek q = Ok (head xs, q') /\ holds size q' xs.
Proof.
  intros (g & HI & Hid & Hf & Hr & <-).
  destruct (rgwp_exec Inv eq Rp _ _ _ _ (rg_peek eq eq alone_c g) HI) as (r & q' & g' & He & HI' & HG & Hd).
  exists q'. rewrite He. destruct (holds_consumer size g g' HG Hid Hf Hr) as (Hid' & Hf' & Hr').
  pose proof (go_items _ (iv_ghost _ _ HI)) as Hit. pose proof (go_items _ (iv_ghost _ _ HI')) as Hit'.
  assert (gitems g' = gitems g /\ r = head (gitems g)) as [Hg ->].
  2: { split; [done|]. exists g'. by split_and!. }
  destruct r as [v|]; cbn in Hd.
  - destruct Hd as (Hpo & Hpu & pu' & [l Hl] & He'). rewrite Hpo, <- Hpu, Hit in Hit'. apply app_inv_head in Hit'.
    split; [done|]. rewrite <- He', Hl in Hpu. rewrite Hpu, <- app_assoc in Hit. apply app_inv_head in Hit. by rewrite <- Hit.
  - destruct Hd as (Hpo & Hpu & Hem). unfold found_empty in Hem. rewrite Hpo, <- Hpu in *. rewrite Hit in Hit'. apply app_inv_head in Hit'.
    split; [done|]. rewrite Hit in Hem. rewrite <- (app_nil_r (popped g)) in Hem at 1. apply app_inv_head in Hem. by rewrite <- Hem.
Qed.

(** There is room for what the queue was made for. *)
Lemma roomy_cap size q g : Inv q g -> roomy size g -> size <= ring_cap g.
Proof.
  intros HI (m & Hm & Hs). unfold ring_cap.
  assert (zsum ((fun b => bM (gb g b)) <$> ring g) = len (ring g) * m) as ->.
  { clear Hs HI. induction (ring g) as [|b l IH]; [done|]. rewrite len_cons. cbn. unfold zsum in IH.
    rewrite IH by (intros c Hc; apply Hm; by right). rewrite Hm by left. lia. }
  assert (frontBlock q ∈ ring g) as Hb.
  { pose proof (iv_front _ _ HI) as Hf. unfold ring. destruct (used g); [done|]. injection Hf as ->. left. }
  destruct (iv_blocks _ _ HI _ Hb) as (blk & _ & Hok). pose proof (mask_bound _ (bk_pow _ _ Hok)). rewrite Hm in * by done.
  unfold usable in Hs. rewrite len_length. destruct (decide (length (ring g) = 1%nat)) as [->|Hne]; [lia|nia].
Qed.

Lemma max_capacity_holds size q xs : holds size q xs -> exists n q',
  exec max_capacity q = Ok (n, q') /\ size <= n /\ holds size q' xs.
Proof.
  intros (g & HI & Hid & Hf & Hr & <-).
  destruct (rgwp_exec Inv eq eq max_capacity (fun n g' => n = ring_cap g /\ g' = g) q g) as (n & q' & g' & He & HI' & <- & -> & _); [|done|].
  - apply (rg_max_capacity eq eq g); [by intros ? <-|done].
  - exists (ring_cap g), q'. split; [done|]. split; [by apply (roomy_cap size q)|]. by exists g.
Qed.

(** ** Destruction *)

Lemma destroy_elems_ok (bg : @BlockGhost T) blk n : blk_ok bg blk -> forall fuel i, bF bg <= i -> i + Z.of_nat n = bT bg -> (n <= fuel)%nat ->
  destroy_elems fuel (i mod (bM bg + 1)) (tail blk) blk = Ok (bval bg <$> seqZ i (bT bg - i)).
Proof.
  intros Hok. pose proof (mask_bound _ (bk_pow _ _ Hok)) as HM. destruct (bk_order _ _ Hok) as (O1 & O2 & O3).
  induction n as [|n IH]; intros fuel i Hi Hn Hf.
  - replace i with (bT bg) by lia. rewrite Z.sub_diag. destruct fuel; cbn; by rewrite (bk_tail _ _ Hok), Z.eqb_refl.
  - destruct fuel as [|fuel]; [lia|]. cbn [destroy_elems]. rewrite (bk_tail _ _ Hok).
    pose proof (same_index (bM bg) i (bT bg) ltac:(lia) ltac:(lia)) as Hne. destruct (_ =? _); [lia|].
    unfold get_elem. rewrite (proj2 (Z.ltb_ge _ _)) by (apply Z.mod_pos_bound; lia). rewrite (bk_data _ _ Hok) by lia.
    cbn [mbind result_bind]. rewrite (bk_mask _ _ Hok), next_index by apply Hok. rewrite <- (bk_tail _ _ Hok), IH by lia.
    cbn [mbind result_bind]. rewrite (seqZ_cons i) by lia. cbn. do 4 f_equal. lia.
Qed.

(** Going around the ring destroys every element once and frees every block. *)
Lemma delete_loop_ok q g l2 : Inv q g -> forall fuel l1 b live,
  ring g = l1 ++ b :: l2 -> (length l2 < fuel)%nat ->
  (forall c, c ∈ b :: l2 -> live !! c = Some <$> heap q !! c) ->
  delete_loop fuel (frontBlock q) b live =
    Ok (concat (bg_items ∘ gb g <$> b :: l2), foldl (fun h c => <[c := None]> h) live (b :: l2)).
Proof.
  intros HI. pose proof (go_nodup _ (iv_ghost _ _ HI)) as Hnd. induction l2 as [|c l2 IH]; intros [|fuel] l1 b live Hr Hf Hl; try (cbn in Hf; lia).
  all: assert (b ∈ ring g) as Hb by (rewrite Hr; apply elem_of_app; right; left).
  all: destruct (iv_blocks _ _ HI b Hb) as (blk & Hbk & Hok).
  all: assert (destroy_elems (length (data blk)) (front blk) (tail blk) blk = Ok (bg_items (gb g b))) as Hd.
  all: try (destruct (bk_order _ _ Hok) as (O1 & O2 & O3); pose proof (bk_len _ _ Hok) as Hlen; rewrite len_length in Hlen;
    rewrite (bk_front _ _ Hok); apply (destroy_elems_ok _ _ (Z.to_nat (bT (gb g b) - bF (gb g b))) Hok); lia).
  all: cbn [delete_loop]; rewrite Hl, Hbk by left; cbn [fmap option_fmap option_map option_join mjoin from_option_or mbind result_bind].
  all: rewrite (next_of q g l1 b _ blk HI Hr Hbk); cbn [from_option_or mbind result_bind default head from_option id]; rewrite Hd; cbn [mbind result_bind].
  - rewrite Nat.eqb_refl. cbn. by rewrite app_nil_r.
  - assert (c <> frontBlock q /\ b <> c /\ b ∉ l2) as (Hc & Hbc & Hbl).
    { pose proof (iv_front _ _ HI) as Hh. assert (head (ring g) = Some (frontBlock q)) as Hhr by (unfold ring; by destruct (used g)).
      rewrite Hr in Hnd, Hhr. apply NoDup_app in Hnd as (_ & Hx & Hy). apply NoDup_cons in Hy as [Hy1 Hy2].
      split; [|by apply not_elem_of_cons in Hy1 as [? ?]]. intros ->. destruct l1 as [|d l1]; cbn in Hhr; injection Hhr as ->.
      - apply Hy1. left.
      - apply (Hx (frontBlock q)); [left|right; left]. }
    rewrite (proj2 (Nat.eqb_neq _ _) Hc). rewrite (IH fuel (l1 ++ [b]) c (<[b:=None]> live)); [done|by rewrite <- app_assoc|cbn in Hf; lia|].
    intros d Hdd. rewrite list_lookup_insert_ne; [apply Hl; by right|]. intros ->. apply elem_of_cons in Hdd as [->|?]; done.
Qed.

(** The destructor, on a queue that nobody uses: no fault, so no block is
    touched once freed, and the elements held are destroyed, in order. *)
Lemma delete_holds size q xs : holds size q xs -> exists live, delete_ReaderWriterQueue q = Ok (xs, live).
Proof.
  intros (g & HI & [_ Hp] & _ & _ & <-). pose proof (ring_length _ _ HI) as Hlen.
  assert (exists l, ring g = frontBlock q :: l) as [l Hl].
  { pose proof (iv_front _ _ HI) as Hh. unfold ring. destruct (used g) as [|b l]; [done|]. injection Hh as ->. by eexists. }
  rewrite Hl in Hlen. cbn in Hlen. eexists. unfold delete_ReaderWriterQueue.
  rewrite (delete_loop_ok q g l HI (length (heap q)) [] (frontBlock q) (Some <$> heap q)); [|done|lia|intros c _; apply list_lookup_fmap].
  do 2 f_equal. rewrite <- Hl. unfold ring, gitems. rewrite fmap_app, concat_app.
  assert (concat (bg_items ∘ gb g <$> free g) = []) as ->; [|by rewrite app_nil_r].
  pose proof (go_free _ (iv_ghost _ _ HI)) as Hfr. unfold free_ok in Hfr. rewrite Hp in Hfr.
  assert (Forall (fun b => bT (gb g b) = bF (gb g b)) (free g)) as HF by (destruct (free g); [constructor|by constructor; apply Hfr]).
  clear Hfr. induction HF as [|b l' Hb _ IH]; [done|]. cbn. unfold bg_items at 1. rewrite Hb, Z.sub_diag, seqZ_nil by lia. exact IH.
Qed.
End Alone.

(** ** Any sequence of operations *)

Inductive qop (T : Type) := Enqueue (v : T) | Dequeue | Peek | PopFront | Size | Capacity.
Arguments Enqueue {T} _.
Arguments Dequeue {T}.
Arguments Peek {T}.
Arguments PopFront {T}.
Arguments Size {T}.
Arguments Capacity {T}.

Inductive outcome (T : Type) := Taken (ok : bool) | Got (r : option T) | Popped (ok : bool) | Count (n : Z).
Arguments Taken {T} _.
Arguments Got {T} _.
Arguments Popped {T} _.
Arguments Count {T} _.

Definition run_op {T} (o : qop T) : M (@ReaderWriterQueue T) (outcome T) :=
  match o with
  | Enqueue v => r ← exec (try_enqueue v); mret (Taken r)
  | Dequeue => r ← exec try_dequeue; mret (Got r)
  | Peek => r ← exec peek; mret (Got r)
  | PopFront => r ← exec pop; mret (Popped r)
  | Size => n ← exec size_approx; mret (Count n)
  | Capacity => n ← exec max_capacity; mret (Count n)
  end.

Fixpoint run_ops {T} (os : list (qop T)) : M (@ReaderWriterQueue T) (list (outcome T)) :=
  match os with
  | [] => mret []
  | o :: os' => r ← run_op o; rs ← run_ops os'; mret (r :: rs)
  end.

(** The specification: a list, which refuses an element only when it holds
    [size] of them. *)
Inductive spec_op {T} (size : Z) : list T -> qop T -> outcome T -> list T -> Prop :=
  | spec_taken xs v : spec_op size xs (Enqueue v) (Taken true) (xs ++ [v])
  | spec_refused xs v : size <= len xs -> spec_op size xs (Enqueue v) (Taken false) xs
  | spec_got xs : spec_op size xs Dequeue (Got (head xs)) (tl xs)
  | spec_seen xs : spec_op size xs Peek (Got (head xs)) xs
  | spec_popped xs : spec_op size xs PopFront (Popped (match xs with [] => false | _ => true end)) (tl xs)
  | spec_count xs : spec_op size xs Size (Count (len xs)) xs
  | spec_capacity xs n : size <= n -> spec_op size xs Capacity (Count n) xs.

Inductive spec_ops {T} (size : Z) : list T -> list (qop T) -> list (outcome T) -> list T -> Prop :=
  | spec_nil xs : spec_ops size xs [] [] xs
  | spec_cons xs o r ys os rs zs :
      spec_op size xs o r ys -> spec_ops size ys os rs zs -> spec_ops size xs (o :: os) (r :: rs) zs.

Ltac ran He := unfold run_op, mbind, M_bind; rewrite He; do 3 eexists; split; [reflexivity|]; split; [by constructor|].

Lemma run_op_spec {T} size (q : @ReaderWriterQueue T) xs o : holds size q xs ->
  exists r q' ys, run_op o q = Ok (r, q') /\ spec_op size xs o r ys /\ holds size q' ys.
Proof.
  intros Hq. destruct o as [v| | | | |].
  - destruct (try_enqueue_holds size q xs v Hq) as (q' & [[He Hh]|(He & Hh & Hs)]); by ran He.
  - destruct (try_dequeue_holds size q xs Hq) as (q' & He & Hh). by ran He.
  - destruct (peek_holds size q xs Hq) as (q' & He & Hh). by ran He.
  - destruct (pop_holds size q xs Hq) as (q' & He & Hh). by ran He.
  - destruct (size_approx_holds size q xs Hq) as (q' & He & Hh). by ran He.
  - destruct (max_capacity_holds size q xs Hq) as (n & q' & He & Hn & Hh). by ran He.
Qed.

Lemma run_ops_spec {T} size os : forall (q : @ReaderWriterQueue T) xs, holds size q xs ->
  exists rs q' ys, run_ops os q = Ok (rs, q') /\ spec_ops size xs os rs ys /\ holds size q' ys.
Proof.
  induction os as [|o os IH]; intros q xs Hq.
  - exists [], q, xs. split; [done|]. split; [constructor|done].
  - destruct (run_op_spec size q xs o Hq) as (r & q1 & ys & Hr & Hs & Hh).
    destruct (IH q1 ys Hh) as (rs & q2 & zs & Hrs & Hss & Hh2).
    exists (r :: rs), q2, zs. split; [|split; [by econstructor|done]]. cbn. unfold mbind, M_bind. rewrite Hr, Hrs. done.
Qed.

(** C40: a queue made for [size] elements, used by one thread, never faults and
    behaves as a list: elements come out in the order in which they went in,
    the size is exact, and an element is refused only when [size] of them are
    held; looking at the first element changes nothing, and the capacity
    reported is at least [size]; the destructor then destroys what is left, in
    order, and touches no block it has freed.  This covers the bit tricks of the
    constructor, the wrap-around of the indices and the ring of blocks, for every
    [size] below 2^63. *)
Theorem rwqueue_refines_list {T} `{!Inhabited T} (size : Z) (os : list (qop T)) (Hs : 1 <= size < 2 ^ 63) :
  exists rs q' ys live, run_ops os (new_ReaderWriterQueue size) = Ok (rs, q') /\ spec_ops size [] os rs ys /\
    delete_ReaderWriterQueue q' = Ok (ys, live).
Proof.
  destruct (run_ops_spec size os _ [] (new_holds size Hs)) as (rs & q' & ys & H1 & H2 & H3).
  destruct (delete_holds size q' ys H3) as [live H4]. by exists rs, q', ys, live.
Qed.

Lemma rwqueue_refines_list_witness :
  (exists rs q' ys live, run_ops [Enqueue 7; Enqueue 8; Size; Peek; Dequeue; PopFront; Dequeue; Capacity] (new_ReaderWriterQueue 1) = Ok (rs, q') /\
     spec_ops 1 [] [Enqueue 7; Enqueue 8; Size; Peek; Dequeue; PopFront; Dequeue; Capacity] rs ys /\
     delete_ReaderWriterQueue q' = Ok (ys, live)) /\
  fst <$> (match run_ops [Enqueue 7; Enqueue 8; Size; Peek; Dequeue; PopFront; Dequeue; Capacity] (new_ReaderWriterQueue 1) with
           | Ok x => Some x | Err _ => None end)
    = Some [Taken true; Taken false; Count 1; Got (Some 7); Got (Some 7); Popped false; Got None; Count 1].
Proof. split; [apply rwqueue_refines_list; lia|reflexivity]. Defined.
