(* ===== verification/Queue.v ===== *)
(** * The message queue between the chunker and the compression method

    [include/messageQueue.h]: a wrapper around a [ReaderWriterQueue] and the
    flag [done_].  The producer is [Chunker::Chunking], which pushes its
    chunks, spinning while the queue is full, and then sets the flag; the
    consumer is the loop of every [ProcessTrace].  The two threads interleave
    between any two accesses to the memory they share. *)

From S2P Require Import Prelude Define Interleave RwQueue RwQueueSpec RwQueueProof RwQueueUse.

Record MessageQueue (T : Type) := mkMQ { lockFreeQueue_ : @ReaderWriterQueue T; done_ : bool }.
Arguments mkMQ {_}.
Arguments lockFreeQueue_ {_}.
Arguments done_ {_}.

Section MessageQueue.
Context {T : Type}.
Implicit Types (mq : MessageQueue T) (q : @ReaderWriterQueue T).

Definition new_MessageQueue (maxQueueSize : Z) : MessageQueue T :=
  mkMQ (new_ReaderWriterQueue maxQueueSize) false.

(** ** The code of the two threads *)

(** The loop of [Push] repeats this until it is true. *)
Definition Push_attempt (x : T) : prog (@ReaderWriterQueue T) bool := try_enqueue x.

Definition Pop : prog (@ReaderWriterQueue T) (option T) := try_dequeue.

Definition IsEmpty : prog (@ReaderWriterQueue T) bool :=
  count ← size_approx;
  Ret (count =? 0).

(** [~MessageQueue]: the program exits when the queue is not empty. *)
Definition delete_MessageQueue : prog (@ReaderWriterQueue T) unit :=
  flag ← IsEmpty;
  if (flag : bool) then Ret tt else fail ExitFailure.

(** What the producer is doing: in an attempt to push [x], with [xs] to
    follow; about to call [SetJobDoneFlag]; gone. *)
Inductive producer :=
  | Pushing (x : T) (xs : list T) (p : prog (@ReaderWriterQueue T) bool)
  | Finishing
  | Stopped.

(** What the consumer is doing: about to read [done_]; in [IsEmpty]; in [Pop];
    about to reset [done_], within the loop and after it; gone. *)
Inductive consumer :=
  | AtDone
  | Sizing (p : prog (@ReaderWriterQueue T) bool)
  | Popping (p : prog (@ReaderWriterQueue T) (option T))
  | AtReset
  | AtReturn
  | Left.

(** [handled]: what the consumer has popped, in order. *)
Record threads := mkThreads { prod : producer; queue : MessageQueue T; cons_ : consumer; handled : list T }.

Definition produce (xs : list T) : producer :=
  match xs with [] => Finishing | x :: xs => Pushing x xs (Push_attempt x) end.

(** One access of [p], or [done] with its result. *)
Definition advance {A B} (p : prog (@ReaderWriterQueue T) A) (q : @ReaderWriterQueue T)
    (going : prog (@ReaderWriterQueue T) A -> @ReaderWriterQueue T -> B) (over : A -> B) : result B :=
  match p with
  | Ret a => Ok (over a)
  | Act f k => match f q with Ok (b, q') => Ok (going (k b) q') | Err e => Err e end
  end.

(** A step of the producer, none once it has stopped. *)
Definition producer_step (s : threads) : option (result threads) :=
  let '(mkThreads pr (mkMQ q d) c h) := s in
  match pr with
  | Pushing x xs p => Some (advance p q
      (fun p' q' => mkThreads (Pushing x xs p') (mkMQ q' d) c h)
      (fun ok => mkThreads (if (ok : bool) then produce xs else Pushing x xs (Push_attempt x)) (mkMQ q d) c h))
  | Finishing => Some (Ok (mkThreads Stopped (mkMQ q true) c h))
  | Stopped => None
  end.

(** A step of the consumer, none once it has left. *)
Definition consumer_step (s : threads) : option (result threads) :=
  let '(mkThreads pr (mkMQ q d) c h) := s in
  match c with
  | AtDone => Some (Ok (mkThreads pr (mkMQ q d) (if d then Sizing IsEmpty else Popping Pop) h))
  | Sizing p => Some (advance p q
      (fun p' q' => mkThreads pr (mkMQ q' d) (Sizing p') h)
      (fun empty => mkThreads pr (mkMQ q d) (if (empty : bool) then AtReset else Popping Pop) h))
  | Popping p => Some (advance p q
      (fun p' q' => mkThreads pr (mkMQ q' d) (Popping p') h)
      (fun r => mkThreads pr (mkMQ q d) AtDone (h ++ option_list r)))
  | AtReset => Some (Ok (mkThreads pr (mkMQ q false) AtReturn h))
  | AtReturn => Some (Ok (mkThreads pr (mkMQ q false) Left h))
  | Left => None
  end.

Definition step (s s' : threads) : Prop := producer_step s = Some (Ok s') \/ consumer_step s = Some (Ok s').
Definition steps : threads -> threads -> Prop := rtc step.

Definition faulty (s : threads) : Prop := exists e, producer_step s = Some (Err e) \/ consumer_step s = Some (Err e).

(** Both threads start on a queue that is left from before, with [msgs] to send. *)
Definition start (mq : MessageQueue T) (msgs : list T) : threads := mkThreads (produce msgs) mq AtDone [].

(** The steps of a schedule: [true] is the producer's turn. *)
Fixpoint run_schedule (turns : list bool) (s : threads) : option threads :=
  match turns with
  | [] => Some s
  | t :: turns' =>
      match (if (t : bool) then producer_step s else consumer_step s) with
      | Some (Ok s') => run_schedule turns' s'
      | _ => None
      end
  end.

Lemma run_schedule_steps turns s s' : run_schedule turns s = Some s' -> steps s s'.
Proof.
  revert s. induction turns as [|t turns IH]; intros s; cbn; [by intros [= ->]|].
  destruct (if t then _ else _) as [[s1|]|] eqn:Hs; [|done..]. intros H. eapply rtc_l; [|by apply IH].
  destruct t; [by left|by right].
Qed.
End MessageQueue.

#[local] Arguments Push_attempt : simpl never.
#[local] Arguments Pop : simpl never.
#[local] Arguments IsEmpty : simpl never.

Section Correct.
Context {T : Type}.
Implicit Types (q : @ReaderWriterQueue T) (g : @Ghost T) (s : @threads T).

(** ** The invariant *)

Definition remaining (pr : @producer T) : list T :=
  match pr with Pushing x xs _ => x :: xs | _ => [] end.

(** In the middle of an attempt, an element can already be in the queue and
    be popped before the attempt has returned: [pu] is what the queue had taken
    before it. *)
Definition producer_ok (msgs : list T) (pr : producer) g : Prop :=
  match pr with
  | Pushing x xs p => closed g = false /\ exists pu, msgs = pu ++ x :: xs /\
      rgwp Inv Rp Rc p (fun r g' => idle g' /\ pushed g' = if r : bool then pu ++ [x] else pu) g
  | Finishing => idle g /\ pushed g = msgs
  | Stopped => closed g = true /\ pend g = false /\ pushed g = msgs
  end.

Definition consumer_ok (c : consumer) (h : list T) g : Prop :=
  match c with
  | AtDone => popped g = h
  | Sizing p => h `prefix_of` popped g /\ closed g = true /\
      rgwp Inv Rc Rp p (fun empty g' => popped g' = h /\ closed g' = true /\ (empty = true <-> gitems g' = [])) g
  | Popping p => h `prefix_of` popped g /\
      rgwp Inv Rc Rp p (fun r g' => popped g' = h ++ option_list r) g
  | AtReset | AtReturn | Left => popped g = h /\ closed g = true /\ gitems g = []
  end.

(** [done_] is set from the end of the producer to the reset by the consumer. *)
Definition flag_ok (pr : @producer T) (c : @consumer T) (d : bool) : Prop :=
  match c with
  | AtReturn | Left => d = false
  | _ => d = true <-> pr = Stopped
  end.

Definition threads_inv (size : Z) (msgs : list T) s : Prop :=
  let '(mkThreads pr (mkMQ q d) c h) := s in
  exists g, Inv q g /\ fixed g = true /\ roomy size g /\ producer_ok msgs pr g /\ consumer_ok c h g /\ flag_ok pr c d.

Lemma advance_ok {A B} (R G : @Ghost T -> @Ghost T -> Prop) `{!PreOrder R} (p : prog _ A) Q q g
    (going : prog _ A -> @ReaderWriterQueue T -> B) (over : A -> B) :
  rgwp Inv R G p Q g -> Inv q g ->
  (exists a, p = Ret a /\ advance p q going over = Ok (over a) /\ Q a g) \/
  (exists p' q' g', advance p q going over = Ok (going p' q') /\ Inv q' g' /\ G g g' /\ rgwp Inv R G p' Q g').
Proof.
  destruct p as [a|C f k]; cbn; intros H HI; [left; exists a; by split_and!; [..|apply H]|right].
  destruct (H q g) as (b & q' & g' & Hf & HI' & HG & Hk); [done..|]. exists (k b), q', g'. by rewrite Hf.
Qed.

Lemma producer_HR g g' : Rp g g' -> Rp g g' /\ popped g `prefix_of` popped g'.
Proof. intros H. split; [done|apply H]. Qed.

Lemma consumer_HR g g' : Rc g g' -> Rc g g' /\ pushed g `prefix_of` pushed g'.
Proof. intros H. split; [done|apply H]. Qed.

Lemma push_ok g x : idle g -> fixed g = true ->
  rgwp Inv Rp Rc (Push_attempt x) (fun r g' => idle g' /\ pushed g' = if r : bool then pushed g ++ [x] else pushed g) g.
Proof.
  intros Hid Hf. eapply rgwp_mono.
  - exact (rg_inner_enqueue Rp prefix producer_HR (ring_cap g) true false true x g Hid eq_refl Hf ltac:(intros [=])).
  - intros r g' (H1 & H2 & _). done.
Qed.

Lemma produce_ok msgs pu xs g : idle g -> fixed g = true -> pushed g = pu -> msgs = pu ++ xs ->
  producer_ok msgs (produce xs) g.
Proof.
  intros Hid Hf <- ->. destruct xs as [|x xs]; cbn.
  - by rewrite app_nil_r.
  - split; [apply Hid|]. exists (pushed g). split; [done|]. by apply push_ok.
Qed.

Lemma pop_ok g : rgwp Inv Rc Rp Pop (fun r g' => popped g' = popped g ++ option_list r) g.
Proof.
  eapply rgwp_mono.
  - apply (rg_dequeue_with Rc prefix consumer_HR take_front id). intros b x po pu Q g0 Hc Hb Hlt HQ.
    by apply (rg_take_front Rc prefix consumer_HR b x po pu).
  - intros [a|] g'; cbn.
    + by intros (v & -> & Hv & _).
    + intros (Hv & _). by rewrite app_nil_r.
Qed.

Lemma is_empty_ok g : closed g = true -> pend g = false ->
  rgwp Inv Rc Rp IsEmpty (fun empty g' => g' = g /\ (empty = true <-> gitems g = [])) g.
Proof.
  intros Hc Hp. unfold IsEmpty. apply (rgwp_bind Inv Rc Rp). apply (rg_size_approx Rc Rp g); [|done|].
  - intros g' Hr. by apply (rc_closed _ _ Hr).
  - apply rgwp_ret. intros g' Hr. split; [by apply (rc_closed _ _ Hr)|]. rewrite Z.eqb_eq. split; [apply len_0_nil|by intros ->].
Qed.

(** ** It is kept by every step *)

Lemma consumer_ok_stable c h g g' : Rc g g' -> closed g = false -> consumer_ok c h g -> consumer_ok c h g'.
Proof.
  intros Hr Hcl. pose proof (rc_popped _ _ Hr) as Hpo. destruct c as [|p|p| | |]; cbn; rewrite ?Hpo; try done.
  - intros (_ & ? & _). congruence.
  - intros [H1 H2]. split; [done|]. by apply (rgwp_stable Inv Rc Rp _ _ g).
  - intros (_ & ? & _). congruence.
  - intros (_ & ? & _). congruence.
  - intros (_ & ? & _). congruence.
Qed.

Lemma producer_ok_stable msgs pr g g' : Rp g g' -> producer_ok msgs pr g -> producer_ok msgs pr g'.
Proof.
  intros Hr. destruct pr as [x xs p| |]; cbn; unfold idle; rewrite ?(rp_closed _ _ Hr), ?(rp_pushed _ _ Hr), ?(rp_pend _ _ Hr); try done.
  intros (H1 & pu & H2 & H3). split; [done|]. exists pu. split; [done|]. by apply (rgwp_stable Inv Rp Rc _ _ g).
Qed.

Definition close g : @Ghost T :=
  mkGhost (used g) (free g) (gb g) (glarge g) (pend g) true (spare g) (fixed g) (pushed g) (popped g).

Lemma close_inv q g : Inv q g -> Inv q (close g).
Proof. intros [H1 H2 H3 H4 H5 H6 H7]. split; try done. destruct H7. by split. Qed.

Lemma close_Rc g : closed g = false -> Rc g (close g).
Proof. intros Hc. split; try done; [congruence|]. exists []. by rewrite app_nil_r. Qed.

(** The consumer that is on its way out has seen the producer stop. *)
Lemma not_closed_flag msgs pr c h d g : producer_ok msgs pr g -> pr <> Stopped -> consumer_ok c h g -> flag_ok pr c d ->
  d = false /\ match c with AtReset | AtReturn | Left | Sizing _ => False | _ => True end.
Proof.
  intros Hp Hne Hc Hf. assert (closed g = false) as Hcl by (destruct pr; [apply Hp|apply Hp|done]).
  assert (d = true <-> pr = Stopped -> d = false) as Hd by (destruct d; tauto).
  destruct c; cbn in *; [by auto|destruct Hc as (_ & Hx & _); congruence|by auto|destruct Hc as (_ & Hx & _); congruence..].
Qed.

Lemma pushing_open {A} (p : prog _ A) (Q : A -> Ghost -> Prop) q g :
  rgwp Inv Rp Rc p (fun r g' => idle g' /\ Q r g') g -> Inv q g -> closed g = false.
Proof.
  intros Hwp HI. destruct (rgwp_exec Inv Rp Rc p _ q g Hwp HI) as (r & q' & g' & _ & _ & HG & [Hc _] & _).
  destruct (closed g) eqn:Hg; [|done]. rewrite (rc_closed _ _ HG Hg) in Hc. congruence.
Qed.

Lemma producer_keeps size msgs s r : threads_inv size msgs s -> producer_step s = Some r ->
  exists s', r = Ok s' /\ threads_inv size msgs s'.
Proof.
  destruct s as [pr [q d] c h]. intros (g & HI & Hfx & Hro & Hp & Hc & Hf). cbn.
  assert (pr <> Stopped -> d = false /\ match c with AtReset | AtReturn | Left | Sizing _ => False | _ => True end) as Hd
    by (intros; by eapply not_closed_flag).
  destruct pr as [x xs p| |]; [| |done]; intros [= <-]; destruct (Hd ltac:(done)) as [-> Hc']; clear Hd.
  - destruct Hp as (Hcl & pu & Hm & Hwp).
    assert (forall pr', pr' <> Stopped -> flag_ok pr' c false) as Hf' by (intros pr' Hn; destruct c; done).
    match goal with |- context [advance p q ?go ?ov] => destruct (advance_ok Rp Rc p _ q g go ov Hwp HI)
      as [(a & -> & Ha & Hid & Hpu)|(p' & q' & g' & Ha & HI' & HG & Hwp')] end; rewrite Ha; eexists; (split; [done|]).
    + exists g. split_and!; try done.
      * destruct a.
        -- eapply produce_ok; [done|done|done|]. by rewrite Hm, <- app_assoc.
        -- split; [done|]. exists pu. split; [done|]. rewrite <- Hpu. by apply push_ok.
      * apply Hf'. destruct a; [by destruct xs|done].
    + exists g'. pose proof (proj1 (rc_fixed _ _ HG)) as Hfx'. rewrite Hfx in Hfx'. split_and!; try done.
      * eapply roomy_same_ring; [by apply Rc_same_ring|done].
      * split; [|by exists pu]. exact (pushing_open p' (fun r g0 => pushed g0 = if r : bool then pu ++ [x] else pu) q' g' Hwp' HI').
      * by eapply consumer_ok_stable.
      * by apply Hf'.
  - destruct Hp as [[Hcl Hpe] Hpu]. eexists. split; [done|]. exists (close g). split_and!; try done.
    + by apply close_inv.
    + eapply consumer_ok_stable; [by apply close_Rc|done|done].
    + by destruct c.
Qed.

Lemma popping_ok h g : popped g = h -> consumer_ok (Popping Pop) h g.
Proof. intros <-. split; [done|]. apply pop_ok. Qed.

Lemma sizing_ok h g : popped g = h -> closed g = true -> pend g = false -> consumer_ok (Sizing IsEmpty) h g.
Proof.
  intros <- Hc Hp. split; [done|]. split; [done|]. eapply rgwp_mono; [by apply is_empty_ok|]. by intros e g' [-> He].
Qed.

(** What a step of the consumer leaves as it was. *)
Lemma consumer_frame size msgs pr g g' : Rp g g' -> fixed g = true -> roomy size g -> producer_ok msgs pr g ->
  fixed g' = true /\ roomy size g' /\ producer_ok msgs pr g'.
Proof.
  intros Hr Hf Hro Hp. split; [by rewrite (rp_fixed _ _ Hr)|]. split; [|by eapply producer_ok_stable].
  eapply roomy_same_ring; [by apply Rp_same_ring|done].
Qed.

Lemma consumer_keeps size msgs s r : threads_inv size msgs s -> consumer_step s = Some r ->
  exists s', r = Ok s' /\ threads_inv size msgs s'.
Proof.
  destruct s as [pr [q d] c h]. intros (g & HI & Hfx & Hro & Hp & Hc & Hf). cbn.
  destruct c as [|p|p| | |]; [| | | | |done]; intros [= <-].
  - eexists. split; [done|]. exists g. split_and!; try done; destruct d; try done; [|by apply popping_ok].
    destruct Hf as [Hf _]. rewrite (Hf eq_refl) in Hp. destruct Hp as (Hcl & Hpe & _). by apply sizing_ok.
  - destruct Hc as (Hpre & Hcl & Hwp).
    match goal with |- context [advance p q ?go ?ov] => destruct (advance_ok Rc Rp p _ q g go ov Hwp HI)
      as [(a & -> & Ha & Hpo & Hcl' & He)|(p' & q' & g' & Ha & HI' & HG & Hwp')] end; rewrite Ha; eexists; (split; [done|]).
    + exists g. split_and!; try done; destruct a; try done; [|by apply popping_ok]. split_and!; [done..|by apply He].
    + destruct (consumer_frame size msgs pr g g' HG Hfx Hro Hp) as (? & ? & ?). exists g'. split_and!; try done.
      split; [by etransitivity; [|apply HG]|]. split; [by rewrite (rp_closed _ _ HG)|done].
  - destruct Hc as (Hpre & Hwp).
    match goal with |- context [advance p q ?go ?ov] => destruct (advance_ok Rc Rp p _ q g go ov Hwp HI)
      as [(a & -> & Ha & Hpo)|(p' & q' & g' & Ha & HI' & HG & Hwp')] end; rewrite Ha; eexists; (split; [done|]).
    + exists g. by split_and!.
    + destruct (consumer_frame size msgs pr g g' HG Hfx Hro Hp) as (? & ? & ?). exists g'. split_and!; try done.
      split; [by etransitivity; [|apply HG]|done].
  - eexists. split; [done|]. by exists g.
  - eexists. split; [done|]. by exists g.
Qed.

Lemma steps_keep size msgs s s' : threads_inv size msgs s -> steps s s' -> threads_inv size msgs s'.
Proof.
  intros Hi Hs. induction Hs as [|s s1 s2 Hs _ IH]; [done|]. apply IH.
  destruct Hs as [Hs|Hs]; [destruct (producer_keeps _ _ _ _ Hi Hs) as (s' & [= ->] & Hi')
    |destruct (consumer_keeps _ _ _ _ Hi Hs) as (s' & [= ->] & Hi')]; done.
Qed.

Lemma inv_not_faulty size msgs s : threads_inv size msgs s -> ~ faulty s.
Proof.
  intros Hi [e [Hs|Hs]].
  - destruct (producer_keeps _ _ _ _ Hi Hs) as (s' & [=] & _).
  - destruct (consumer_keeps _ _ _ _ Hi Hs) as (s' & [=] & _).
Qed.

(** A queue that is empty can be used again: its history is forgotten. *)
Lemma start_inv size q msgs : holds size q [] -> threads_inv size msgs (start (mkMQ q false) msgs).
Proof.
  intros (g & HI & [Hc Hp] & Hf & Hr & Hi).
  set (g1 := mkGhost (used g) (free g) (gb g) (glarge g) (pend g) (closed g) (spare g) (fixed g) [] []).
  assert (idle g1) as Hid by done. exists g1. split_and!; try done.
  - destruct HI as [H1 H2 H3 H4 H5 H6 [G1 G2 G3 G4 G5 G6 G7]]. by split.
  - by eapply (produce_ok msgs []).
  - cbn. by destruct msgs.
Qed.

(** ** Nothing is lost, whatever the interleaving *)

Lemma pushed_prefix msgs pr q g : Inv q g -> producer_ok msgs pr g -> pushed g `prefix_of` msgs.
Proof.
  intros HI Hp. destruct pr as [x xs p| |]; [|by destruct Hp as [_ ->]|by destruct Hp as (_ & _ & ->)].
  destruct Hp as (_ & pu & -> & Hwp).
  destruct (rgwp_exec Inv Rp Rc p _ q g Hwp HI) as (r & q' & g' & _ & _ & HG & _ & Hpu).
  etransitivity; [apply (rc_pushed _ _ HG)|]. rewrite Hpu. destruct r; [|by eexists].
  exists xs. by rewrite <- app_assoc.
Qed.

Lemma handled_prefix size msgs s : threads_inv size msgs s -> handled s `prefix_of` msgs.
Proof.
  destruct s as [pr [q d] c h]. intros (g & HI & _ & _ & Hp & Hc & _). cbn. transitivity (popped g).
  - destruct c; [by rewrite <- Hc|apply Hc|apply Hc|destruct Hc as [<- _]; done..].
  - transitivity (pushed g); [|by eapply pushed_prefix]. rewrite (go_items _ (iv_ghost _ _ HI)). by eexists.
Qed.

(** The consumer has left. *)
Lemma left_all size msgs s : threads_inv size msgs s -> cons_ s = Left ->
  handled s = msgs /\ prod s = Stopped /\ done_ (queue s) = false /\ holds size (lockFreeQueue_ (queue s)) [].
Proof.
  destruct s as [pr [q d] c h]. intros (g & HI & Hfx & Hro & Hp & Hc & Hf) Hl. cbn in *. subst c.
  destruct Hc as (Hpo & Hcl & Hit).
  assert (pr = Stopped) as -> by (destruct pr; [destruct Hp; congruence|destruct Hp as [[] _]; congruence|done]).
  destruct Hp as (_ & Hpe & Hpu). split_and!; try done.
  - pose proof (go_items _ (iv_ghost _ _ HI)) as Hi. rewrite Hit, app_nil_r in Hi. congruence.
  - set (g1 := mkGhost (used g) (free g) (gb g) (glarge g) (pend g) false (spare g) (fixed g) (pushed g) (popped g)).
    exists g1. split_and!; try done. destruct HI as [H1 H2 H3 H4 H5 H6 H7]. split; try done. by destruct H7.
Qed.

(** ** The threads can always come to an end *)

Lemma exec_advance {A} (p : prog _ A) q a q' (going : prog _ A -> @ReaderWriterQueue T -> @threads T) over :
  (forall p q r, advance p q going (over q) = Ok r -> step (going p q) r) ->
  exec p q = Ok (a, q') -> steps (going p q) (over q' a).
Proof.
  intros Hstep. revert q. induction p as [b|C f k IH]; cbn; intros q He.
  - injection He as -> ->. by apply rtc_once, Hstep.
  - destruct (f q) as [[b q1]|] eqn:Hf; [|done]. eapply rtc_l; [|by apply IH]. apply Hstep. cbn. by rewrite Hf.
Qed.

Lemma exec_pushing x xs p q d c h ok q' : exec p q = Ok (ok, q') ->
  steps (mkThreads (Pushing x xs p) (mkMQ q d) c h)
        (mkThreads (if ok : bool then produce xs else produce (x :: xs)) (mkMQ q' d) c h).
Proof.
  apply (exec_advance p q ok q' (fun p q => mkThreads (Pushing x xs p) (mkMQ q d) c h)
    (fun q (ok : bool) => mkThreads (if ok then produce xs else produce (x :: xs)) (mkMQ q d) c h)).
  intros p0 q0 r Hr. left. cbn. by rewrite <- Hr.
Qed.

Lemma exec_sizing p q pr d h e q' : exec p q = Ok (e, q') ->
  steps (mkThreads pr (mkMQ q d) (Sizing p) h) (mkThreads pr (mkMQ q' d) (if e : bool then AtReset else Popping Pop) h).
Proof.
  apply (exec_advance p q e q' (fun p q => mkThreads pr (mkMQ q d) (Sizing p) h)
    (fun q (e : bool) => mkThreads pr (mkMQ q d) (if e then AtReset else Popping Pop) h)).
  intros p0 q0 r Hr. right. cbn. by rewrite <- Hr.
Qed.

Lemma exec_popping p q pr d h r q' : exec p q = Ok (r, q') ->
  steps (mkThreads pr (mkMQ q d) (Popping p) h) (mkThreads pr (mkMQ q' d) AtDone (h ++ option_list r)).
Proof.
  apply (exec_advance p q r q' (fun p q => mkThreads pr (mkMQ q d) (Popping p) h)
    (fun q r => mkThreads pr (mkMQ q d) AtDone (h ++ option_list r))).
  intros p0 q0 r0 Hr. right. cbn. by rewrite <- Hr.
Qed.

Lemma consumer_resets pr q d h : steps (mkThreads pr (mkMQ q d) AtReset h) (mkThreads pr (mkMQ q false) Left h).
Proof. eapply rtc_l; [by right|]. eapply rtc_l; [by right|]. apply rtc_refl. Qed.

Lemma is_empty_holds size q xs : holds size q xs -> exists q',
  exec IsEmpty q = Ok (len xs =? 0, q') /\ holds size q' xs.
Proof.
  intros Hq. destruct (size_approx_holds size q xs Hq) as (q' & He & Hh). exists q'. split; [|done].
  unfold IsEmpty. by rewrite exec_bind, He.
Qed.

(** The consumer takes the first element. *)
Lemma pop_one size q x xs pr d h : holds size q (x :: xs) -> exists q',
  steps (mkThreads pr (mkMQ q d) AtDone h) (mkThreads pr (mkMQ q' d) AtDone (h ++ [x])) /\ holds size q' xs.
Proof.
  intros Hq. assert (exists q1, steps (mkThreads pr (mkMQ q d) AtDone h) (mkThreads pr (mkMQ q1 d) (Popping Pop) h) /\
    holds size q1 (x :: xs)) as (q1 & Hs & Hq1).
  { destruct d.
    - destruct (is_empty_holds size q _ Hq) as (q1 & He & Hh). exists q1. split; [|done].
      eapply rtc_l; [by right|]. rewrite len_cons in He. pose proof (len_nonneg xs).
      rewrite (proj2 (Z.eqb_neq _ _)) in He by lia. exact (exec_sizing _ _ pr true h _ _ He).
    - exists q. split; [|done]. apply rtc_once. by right. }
  destruct (try_dequeue_holds size q1 _ Hq1) as (q' & He & Hh). exists q'. split; [|done].
  etransitivity; [exact Hs|]. exact (exec_popping _ _ pr d h _ _ He).
Qed.

Lemma drain size xs : forall q pr d h, holds size q xs -> exists q' h',
  steps (mkThreads pr (mkMQ q d) AtDone h) (mkThreads pr (mkMQ q' d) AtDone h') /\ holds size q' [].
Proof.
  induction xs as [|x xs IH]; intros q pr d h Hq; [exists q, h; split; [apply rtc_refl|done]|].
  destruct (pop_one size q x xs pr d h Hq) as (q1 & Hs & Hq1).
  destruct (IH q1 pr d (h ++ [x]) Hq1) as (q2 & h' & Hs' & Hq2). exists q2, h'. split; [by etransitivity|done].
Qed.

Lemma leave size q pr h : holds size q [] -> exists s',
  steps (mkThreads pr (mkMQ q true) AtDone h) s' /\ cons_ s' = Left.
Proof.
  intros Hq. destruct (is_empty_holds size q [] Hq) as (q' & He & _).
  exists (mkThreads pr (mkMQ q' false) Left h). split; [|done].
  eapply rtc_l; [by right|]. etransitivity; [exact (exec_sizing _ _ pr true h _ _ He)|]. apply consumer_resets.
Qed.

(** The producer is between two attempts. *)
Definition resting (pr : @producer T) (d : bool) : Prop :=
  pr = Stopped /\ d = true \/ exists ys, pr = produce ys /\ d = false.

Lemma finish_from size ys : 1 <= size -> forall q h xs, holds size q xs -> exists s',
  steps (mkThreads (produce ys) (mkMQ q false) AtDone h) s' /\ cons_ s' = Left.
Proof.
  intros Hsize. induction ys as [|y ys IH]; intros q h xs Hq.
  - destruct (drain size xs q (produce []) false h Hq) as (q1 & h1 & Hs1 & Hq1).
    destruct (leave size q1 Stopped h1 Hq1) as (s' & Hs' & Hl). exists s'. split; [|done].
    etransitivity; [exact Hs1|]. eapply rtc_l; [by left|exact Hs'].
  - destruct (drain size xs q (produce (y :: ys)) false h Hq) as (q1 & h1 & Hs1 & Hq1).
    destruct (try_enqueue_holds size q1 [] y Hq1) as (q2 & [[He Hh]|(_ & _ & Hc)]); [|rewrite len_nil in Hc; lia].
    destruct (IH q2 h1 _ Hh) as (s' & Hs' & Hl). exists s'. split; [|done]. etransitivity; [exact Hs1|].
    etransitivity; [exact (exec_pushing y ys _ _ false AtDone h1 _ _ He)|exact Hs'].
Qed.

Lemma finish_resting size pr d q h xs : 1 <= size -> resting pr d -> holds size q xs -> exists s',
  steps (mkThreads pr (mkMQ q d) AtDone h) s' /\ cons_ s' = Left.
Proof.
  intros Hsize [[-> ->]|(ys & -> & ->)] Hq; [|by eapply finish_from].
  destruct (drain size xs q Stopped true h Hq) as (q1 & h1 & Hs1 & Hq1).
  destruct (leave size q1 Stopped h1 Hq1) as (s' & Hs' & Hl). exists s'. split; [by etransitivity|done].
Qed.

(** Both threads run on to the end of what they are in, the producer first. *)
Lemma producer_settles size msgs s : threads_inv size msgs s -> cons_ s <> Left ->
  exists pr q d g, steps s (mkThreads pr (mkMQ q d) (cons_ s) (handled s)) /\ Inv q g /\ fixed g = true /\ roomy size g /\
    pend g = false /\ consumer_ok (cons_ s) (handled s) g /\ (cons_ s = AtReturn \/ resting pr d /\ (d = true -> closed g = true)).
Proof.
  destruct s as [pr [q d] c h]. intros (g & HI & Hfx & Hro & Hp & Hc & Hf) Hne. cbn [cons_ handled] in *.
  destruct pr as [x xs p| |].
  - destruct (not_closed_flag msgs _ c h d g Hp ltac:(done) Hc Hf) as [-> Hc'].
    destruct Hp as (Hcl & pu & Hm & Hwp).
    destruct (rgwp_exec Inv Rp Rc p _ q g Hwp HI) as (r & q' & g' & He & HI' & HG & [Hcl' Hpe'] & Hpu).
    pose proof (proj1 (rc_fixed _ _ HG)) as Hfx'. rewrite Hfx in Hfx'.
    exists (if r then produce xs else produce (x :: xs)), q', false, g'. split_and!; try done.
    + by apply exec_pushing.
    + eapply roomy_same_ring; [by apply Rc_same_ring|done].
    + by eapply consumer_ok_stable.
    + right. split; [|done]. right. destruct r; by eexists.
  - destruct (not_closed_flag msgs _ c h d g Hp ltac:(done) Hc Hf) as [-> Hc'].
    destruct Hp as [[Hcl Hpe] Hpu]. exists Finishing, q, false, g. split_and!; try done.
    right. split; [|done]. right. by exists [].
  - destruct Hp as (Hcl & Hpe & Hpu). exists Stopped, q, d, g. split_and!; try done.
    destruct c; try (by left); try done; right; (split; [left; by split; [|apply Hf]|done]).
Qed.

Lemma holds_open size q g : Inv q g -> fixed g = true -> roomy size g -> pend g = false -> holds size q (gitems g).
Proof.
  intros HI Hf Hr Hp.
  exists (mkGhost (used g) (free g) (gb g) (glarge g) (pend g) false (spare g) (fixed g) (pushed g) (popped g)).
  split_and!; try done. destruct HI as [H1 H2 H3 H4 H5 H6 H7]. split; try done. by destruct H7.
Qed.

Lemma popping_finishes size pr q d g h p : 1 <= size -> resting pr d -> Inv q g -> fixed g = true -> roomy size g ->
  pend g = false -> consumer_ok (Popping p) h g -> exists s',
  steps (mkThreads pr (mkMQ q d) (Popping p) h) s' /\ cons_ s' = Left.
Proof.
  intros Hsize Hrest HI Hfx Hro Hpe [_ Hwp].
  destruct (rgwp_exec Inv Rc Rp p _ q g Hwp HI) as (r & q' & g' & He & HI' & HG & _).
  destruct (finish_resting size pr d q' (h ++ option_list r) (gitems g') Hsize Hrest) as (s' & Hs' & Hl).
  - apply holds_open; [done|by rewrite (rp_fixed _ _ HG)| |by rewrite (rp_pend _ _ HG)].
    eapply roomy_same_ring; [by apply Rp_same_ring|done].
  - exists s'. split; [|done]. etransitivity; [exact (exec_popping _ _ pr d h _ _ He)|exact Hs'].
Qed.

Lemma can_finish size msgs s : 1 <= size -> threads_inv size msgs s -> exists s', steps s s' /\ cons_ s' = Left.
Proof.
  intros Hsize Hi. assert ({cons_ s = Left} + {cons_ s <> Left}) as [Hl|Hne] by (destruct (cons_ s); auto).
  { exists s. split; [apply rtc_refl|done]. }
  destruct (producer_settles size msgs s Hi Hne) as (pr & q & d & g & Hs & HI & Hfx & Hro & Hpe & Hc & Hrest).
  cut (exists s', steps (mkThreads pr (mkMQ q d) (cons_ s) (handled s)) s' /\ cons_ s' = Left).
  { intros (s' & Hs' & Hl). exists s'. split; [by etransitivity|done]. }
  clear Hs Hi. set (h := handled s) in *. destruct (cons_ s) as [|p|p| | |].
  - destruct Hrest as [|[Hrest _]]; [done|]. eapply finish_resting; [done|done|by apply holds_open].
  - destruct Hrest as [|[Hrest _]]; [done|]. destruct Hc as (_ & Hcl & Hwp).
    destruct (rgwp_exec Inv Rc Rp p _ q g Hwp HI) as (e & q' & g' & He & HI' & HG & Hpo & Hcl' & Hem).
    pose proof (exec_sizing p q pr d h e q' He) as Hs.
    destruct e.
    + exists (mkThreads pr (mkMQ q' false) Left h). split; [|done]. etransitivity; [exact Hs|apply consumer_resets].
    + destruct (popping_finishes size pr q' d g' h Pop Hsize Hrest HI') as (s' & Hs' & Hl).
      * by rewrite (rp_fixed _ _ HG).
      * eapply roomy_same_ring; [by apply Rp_same_ring|done].
      * by rewrite (rp_pend _ _ HG).
      * by apply popping_ok.
      * exists s'. split; [by etransitivity|done].
  - destruct Hrest as [|[Hrest _]]; [done|]. by eapply popping_finishes.
  - eexists. split; [apply consumer_resets|done].
  - eexists. split; [eapply rtc_once; by right|done].
  - done.
Qed.
End Correct.

(** ** The queue across the files of a run *)

(** [main] makes the queue once; for each file the two threads are started on
    it and joined. *)
Inductive served {T} (size : Z) : MessageQueue T -> Prop :=
  | served_new : served size (new_MessageQueue size)
  | served_file mq msgs s : served size mq -> steps (start mq msgs) s -> cons_ s = Left -> served size (queue s).

Lemma served_holds {T} `{!Inhabited T} size (mq : MessageQueue T) : 1 <= size < 2 ^ 63 -> served size mq ->
  done_ mq = false /\ holds size (lockFreeQueue_ mq) [].
Proof.
  intros Hs. induction 1 as [|[q d] msgs s _ [Hd Hh] Hrun Hl]; [split; [done|by apply new_holds]|].
  cbn in *. subst d. pose proof (steps_keep size msgs _ _ (start_inv size q msgs Hh) Hrun) as Hi.
  destruct (left_all _ _ _ Hi Hl) as (_ & _ & Hd & Hh'). done.
Qed.

Lemma served_inv {T} `{!Inhabited T} size (mq : MessageQueue T) msgs s :
  1 <= size < 2 ^ 63 -> served size mq -> steps (start mq msgs) s -> threads_inv size msgs s.
Proof.
  intros Hs Hmq Hrun. destruct (served_holds size mq Hs Hmq) as [Hd Hh]. destruct mq as [q d]. cbn in *. subst d.
  eapply steps_keep; [by apply start_inv|exact Hrun].
Qed.

(** ** Properties *)

(** C38: the chunker and the compression method run on the real queue, and
    interleave at every access to the memory they share.  In every
    interleaving, for every file of a run, no access is out of bounds, to an
    uninitialised element or through a null pointer, and no [assert] fails;
    the consumer handles the messages in the order in which they were pushed,
    each once; and when it leaves its loop it has handled all of them, the
    producer has stopped, and the queue is as good as new: [done_] is false and
    its destructor does not find it in use. *)
Theorem queue_delivers_in_order {T} `{!Inhabited T} (size : Z) (mq : MessageQueue T) (msgs : list T) (s : threads)
    (Hsize : 1 <= size < 2 ^ 63) (Hmq : served size mq) (Hrun : steps (start mq msgs) s) :
  ~ faulty s /\ handled s `prefix_of` msgs /\
  (cons_ s = Left -> handled s = msgs /\ prod s = Stopped /\ done_ (queue s) = false /\
     exists q', exec delete_MessageQueue (lockFreeQueue_ (queue s)) = Ok (tt, q')).
Proof.
  pose proof (served_inv size mq msgs s Hsize Hmq Hrun) as Hi.
  split; [by eapply inv_not_faulty|]. split; [by eapply handled_prefix|]. intros Hl.
  destruct (left_all _ _ _ Hi Hl) as (H1 & H2 & H3 & H4). split_and!; try done.
  destruct (is_empty_holds size _ [] H4) as (q' & He & _). exists q'.
  unfold delete_MessageQueue. by rewrite exec_bind, He.
Qed.

(** The consumer is inside [IsEmpty] or [try_dequeue] while the producer works
    on a queue that is too small for its messages. *)
Definition example_turns : list bool :=
  replicate 9 true ++ replicate 6 false ++ replicate 14 true ++ replicate 9 false ++ replicate 9 true ++ replicate 7 false.

Lemma queue_delivers_in_order_witness :
  exists s, run_schedule example_turns (start (new_MessageQueue 1) [4; 5]) = Some s /\ handled s = [4] /\
    (~ faulty s /\ handled s `prefix_of` [4; 5] /\
     (cons_ s = Left -> handled s = [4; 5] /\ prod s = Stopped /\ done_ (queue s) = false /\
        exists q', exec delete_MessageQueue (lockFreeQueue_ (queue s)) = Ok (tt, q'))).
Proof.
  assert (handled <$> run_schedule example_turns (start (new_MessageQueue 1) [4; 5]) = Some [4]) as Hh by (vm_compute; reflexivity).
  destruct (run_schedule example_turns (start (new_MessageQueue 1) [4; 5])) as [s|] eqn:Hs; [|done].
  exists s. split; [done|]. split; [by injection Hh|].
  apply (queue_delivers_in_order 1 (new_MessageQueue 1)); [lia|apply served_new|]. by eapply run_schedule_steps.
Defined.

(** C39: the two threads cannot get stuck: from every reachable state, however
    small the queue and wherever in their operations they are, some continuation
    brings the consumer out of its loop. *)
Theorem queue_can_always_finish {T} `{!Inhabited T} (size : Z) (mq : MessageQueue T) (msgs : list T) (s : threads)
    (Hsize : 1 <= size < 2 ^ 63) (Hmq : served size mq) (Hrun : steps (start mq msgs) s) :
  exists s', steps s s' /\ cons_ s' = Left.
Proof. eapply (can_finish size msgs); [lia|]. by eapply served_inv. Qed.

Lemma queue_can_always_finish_witness :
  exists s', steps (start (new_MessageQueue CHUNK_QUEUE_SIZE) [4; 5]) s' /\ cons_ s' = Left.
Proof.
  apply (queue_can_always_finish CHUNK_QUEUE_SIZE (new_MessageQueue CHUNK_QUEUE_SIZE) [4; 5]);
    [unfold CHUNK_QUEUE_SIZE; lia|apply served_new|apply rtc_refl].
Defined.
