(* ===== verification/Logs.v ===== *)
(** * What the program reports

    [Version_log] and [PrintChunkInfo] of [src/method/absMethod.cc], the
    [Version_log] of [src/method/palantir.cc], and the end of [main] in
    [src/app/main.cc]: the items handed to [<<], in order, with the arithmetic
    done on them.  Doubles
    are IEEE 754 binary64 numbers (the Standard Library's [SpecFloat]),
    infinities and NaN included; their decimal rendering is left to the C++
    library.  What the clocks measured is given. *)

From Stdlib Require Import SpecFloat.
From S2P Require Import Prelude Define AbsMethod.

(** ** Doubles *)

Definition double : Type := spec_float.
Definition double_of (n : Z) : double := binary_normalize 53 1024 n 0 false.
Definition fdiv : double -> double -> double := SFdiv 53 1024.
Definition fsub : double -> double -> double := SFsub 53 1024.
Definition fmul : double -> double -> double := SFmul 53 1024.

(** [x / 1024 / 1024]. *)
Definition mebi (x : double) : double := fdiv (fdiv x (double_of 1024)) (double_of 1024).

(** ** Output *)

(** Literals, and the values of strings, integers and doubles. *)
Inductive item :=
  | Text (s : string)
  | Name (s : string)
  | Number (n : Z)
  | Double (x : double)
  | Endl.

Definition title (s : string) : list item := [Text s; Endl].
Definition entry (label : string) (x : item) : list item := [Text label; x; Endl].
Definition entry_in (label : string) (x : item) (unit_ : string) : list item := [Text label; x; Text unit_; Endl].

(** The item printed behind a label, as the reader of a log finds it. *)
Fixpoint figure (label : string) (out : list item) : option item :=
  match out with
  | [] => None
  | i :: out' =>
      match i, out' with
      | Text s, x :: _ => if String.eqb s label then Some x else figure label out'
      | _, _ => figure label out'
      end
  end.

(** ** What is measured *)

(** The durations, in seconds, and [DCESum]. *)
Record Meters := mkMeters {
  DCESum : double;
  SFTime : double;
  DedupTime : double;
  LocalityMatchTime : double;
  LocalityDeltaTime : double;
  FeatureMatchTime : double;
  FeatureDeltaTime : double;
  lz4CompressionTime : double;
  deltaCompressionTime : double
}.

(** What [Version_log] keeps from one version to the next.  [preSFTime] has no
    initial value. *)
Record Pre := mkPre {
  preLogicalchunkiSize : Z;
  preuniquechunkSize : Z;
  preSFTime : double
}.

Definition new_Pre (preSFTime : double) : Pre := mkPre 0 0 preSFTime.

(** No code changes [finessehit]. *)
Definition finessehit : Z := 0.

(** ** The parts of the reports *)

Section Report.
Context (g : stat -> Z) (m : Meters).

Definition chunk_num_lines : list item :=
  title "-----------------CHUNK NUM-----------------------" ++
  entry "logical chunk num: " (Number (g logicalchunkNum)) ++
  entry "unique chunk num: " (Number (g uniquechunkNum)) ++
  entry "base chunk num: " (Number (g basechunkNum)) ++
  entry "delta chunk num: " (Number (g deltachunkNum)).

Definition chunk_size_lines (logical unique : string) : list item :=
  title "-----------------CHUNK SIZE-----------------------" ++
  entry logical (Number (g logicalchunkSize)) ++
  entry unique (Number (g uniquechunkSize)) ++
  entry "base chunk size: " (Number (g basechunkSize)) ++
  entry "delta chunk size: " (Number (g deltachunkSize)).

Definition metrics_lines : list item :=
  title "-----------------METRICS-------------------------" ++
  entry "Overall Compression Ratio: " (Double (fdiv (double_of (g logicalchunkSize)) (double_of (g uniquechunkSize)))) ++
  entry "DCC: " (Double (fdiv (double_of (g deltachunkNum)) (double_of (g uniquechunkNum)))) ++
  entry "DCR: " (Double (fdiv (double_of (g deltachunkOriSize)) (double_of (g deltachunkSize)))) ++
  entry "DCE: " (Double (fdiv (DCESum m) (double_of (g deltachunkNum)))).

(** [time] seconds for [logical] bytes, of which [saved] were not stored. *)
Definition time_lines (label : string) (time : item) (seconds : double) (logical saved : Z) (sf : double) : list item :=
  title "-----------------Time------------------------------" ++
  entry_in label time "s" ++
  entry_in "Throughput: " (Double (mebi (fdiv (double_of logical) seconds))) "MiB/s" ++
  entry_in "Reduce data speed: " (Double (mebi (fdiv (double_of saved) seconds))) "MiB/s" ++
  entry_in "SF generation time: " (Double sf) "s" ++
  entry_in "SF generation throughput: " (Double (mebi (fdiv (double_of logical) sf))) "MiB/s".

Definition breakdown_lines (chunktime : double) : list item :=
  entry_in "Chunk Time: " (Double chunktime) "s" ++
  entry_in "Dedup Time: " (Double (DedupTime m)) "s" ++
  entry_in "Locality Match Time: " (Double (LocalityMatchTime m)) "s" ++
  entry_in "Locality Delta Time: " (Double (LocalityDeltaTime m)) "s" ++
  entry_in "Feature Match Time: " (Double (FeatureMatchTime m)) "s" ++
  entry_in "Feature Delta Time: " (Double (FeatureDeltaTime m)) "s" ++
  entry_in "Lz4 Compression Time: " (Double (lz4CompressionTime m)) "s" ++
  entry_in "Delta Compression Time: " (Double (deltaCompressionTime m)) "s".

(** [uniquechunkNum * 96 + basechunkNum * 48], a [uint64_t]. *)
Definition index_bytes : Z := w64 (w64 (g uniquechunkNum * 96) + w64 (g basechunkNum * 48)).

Definition overhead_lines (head : string) (index : Z) : list item :=
  title head ++
  entry_in "Index Overhead: " (Double (mebi (double_of index))) "MiB" ++
  entry_in "Recipe Overhead: " (Double (mebi (fmul (double_of (g logicalchunkNum)) (double_of 8)))) "MiB" ++
  entry "SF number: " (Number (g SFnum)).

Definition reduct_lines : list item :=
  title "-----------------Reduct----------------------------" ++
  entry "dedup reduct size : " (Number (g DedupReduct)) ++
  entry "delta reduct size : " (Number (g DeltaReduct)) ++
  entry "local reduct size : " (Number (g LocalReduct)).

(** [n / 1024 / 1024] of an integer. *)
Definition whole_mebi (n : Z) : Z := n / 1024 / 1024.

Definition reduct_mebi_lines (head : string) : list item :=
  title head ++
  entry_in "dedup reduct size : " (Number (whole_mebi (g DedupReduct))) "MiB" ++
  entry_in "delta reduct size : " (Number (whole_mebi (g DeltaReduct))) "MiB" ++
  entry_in "local reduct size : " (Number (whole_mebi (g LocalReduct))) "MiB" ++
  entry_in "Feature reduct size: " (Number (whole_mebi (g FeatureReduct))) "MiB" ++
  entry_in "Locality reduct size: " (Number (whole_mebi (g LocalityReduct))) "MiB".

Definition end_line : list item := title "-----------------END-------------------------------".

(** ** [Version_log] *)

(** The bytes of this version, and those of them that were saved. *)
Definition version_bytes (p : Pre) : Z := w64 (g logicalchunkSize - preLogicalchunkiSize p).
Definition version_saved (p : Pre) : Z :=
  w64 (g logicalchunkSize - preLogicalchunkiSize p - g uniquechunkSize + preuniquechunkSize p).

Definition version_lines (ads_Version : Z) (p : Pre) (time : double) : list item :=
  entry "Version: " (Number ads_Version) ++
  chunk_num_lines ++
  chunk_size_lines "logicalchunkSize is " "uniquechunkSize is " ++
  metrics_lines ++
  time_lines "Version time: " (Double time) time (version_bytes p) (version_saved p) (fsub (SFTime m) (preSFTime p)).

Definition Version_log (ads_Version : Z) (time : double) (p : Pre) : list item * Pre :=
  (version_lines ads_Version p time ++
   overhead_lines "-----------------OverHead--------------------------" index_bytes ++
   end_line,
   mkPre (g logicalchunkSize) (preuniquechunkSize p) (SFTime m)).

(** The overload with [chunktime]. *)
Definition Version_log_chunktime (ads_Version : Z) (time chunktime : double) (p : Pre) : list item * Pre :=
  (version_lines ads_Version p time ++
   breakdown_lines chunktime ++
   overhead_lines "-----------------OVERHEAD--------------------------" index_bytes ++
   reduct_mebi_lines "-----------------REDUCT----------------------------" ++
   end_line,
   mkPre (g logicalchunkSize) (g uniquechunkSize) (SFTime m)).

(** [Palantir::Version_log]: the index holds super-features. *)
Definition Palantir_Version_log (ads_Version : Z) (time : double) (p : Pre) : list item * Pre :=
  (version_lines ads_Version p time ++
   overhead_lines "-----------------OverHead--------------------------"
     (w64 (w64 (g uniquechunkNum * 96) + w64 (g SFnum * 16))) ++
   end_line,
   mkPre (g logicalchunkSize) (preuniquechunkSize p) (SFTime m)).

(** ** [PrintChunkInfo] *)

Definition instruction_lines (inputDirpath : string) (chunkingMethod method fileNum : Z) (ratio : double) : list item :=
  title "-----------------INSTRUCTION----------------------" ++
  [Text "./BiSearch -i "; Name inputDirpath; Text " -c "; Number chunkingMethod; Text " -m "; Number method;
   Text " -n "; Number fileNum; Text " -r "; Double ratio; Endl].

(** [time] is an [int64_t]. *)
Definition run_lines (inputDirpath : string) (chunkingMethod method fileNum time : Z) (ratio : double) : list item :=
  instruction_lines inputDirpath chunkingMethod method fileNum ratio ++
  chunk_num_lines ++
  entry "finesse hit:" (Number finessehit) ++
  chunk_size_lines "logical chunk size: " "unique chunk size: " ++
  metrics_lines ++
  time_lines "total time: " (Number time) (double_of time) (g logicalchunkSize)
    (w64 (g logicalchunkSize - g uniquechunkSize)) (SFTime m).

(** What is written: both branches of the test on the file write the same. *)
Definition chunk_info (inputDirpath : string) (chunkingMethod method fileNum time : Z) (ratio : double) : list item :=
  run_lines inputDirpath chunkingMethod method fileNum time ratio ++
  overhead_lines "-----------------OverHead--------------------------" index_bytes ++
  reduct_lines ++
  end_line.

Definition chunk_info_chunktime (inputDirpath : string) (chunkingMethod method fileNum time : Z) (ratio chunktime : double)
    : list item :=
  run_lines inputDirpath chunkingMethod method fileNum time ratio ++
  breakdown_lines chunktime ++
  overhead_lines "-----------------OverHead--------------------------" index_bytes ++
  reduct_mebi_lines "-----------------Reduct----------------------------" ++
  end_line.
End Report.

(** "./chunkInfoLog.txt": a file that is there ([FileExist]) is opened with
    [ios::app], another with [ios::out]; [can_open] says whether this succeeds. *)
Definition Log : Type := option (list item).

Definition print_to (can_open : bool) (report : list item) (log : Log) : Log :=
  if can_open then
    match log with
    | None => Some report
    | Some old => Some (old ++ report)
    end
  else log.

Definition PrintChunkInfo (can_open : bool) (g : stat -> Z) (m : Meters) (inputDirpath : string)
    (chunkingMethod method fileNum time : Z) (ratio : double) (log : Log) : Log :=
  print_to can_open (chunk_info g m inputDirpath chunkingMethod method fileNum time ratio) log.

Definition PrintChunkInfo_chunktime (can_open : bool) (g : stat -> Z) (m : Meters) (inputDirpath : string)
    (chunkingMethod method fileNum time : Z) (ratio chunktime : double) (log : Log) : Log :=
  print_to can_open (chunk_info_chunktime g m inputDirpath chunkingMethod method fileNum time ratio chunktime) log.

(** ** What [main] prints *)

Definition usage_lines (argc : Z) (argv0 : string) : list item :=
  entry "argc is " (Number argc) ++
  [Text "Usage: "; Name argv0;
   Text " -i <input file> -m <chunking method> -c <compression method> -n <process number> -r <Bisearch fault ratio>"; Endl].

(** [tool::Logging]: a time stamp, the program, the message. *)
Definition Logging (stamp logger : string) (message : list item) : list item :=
  [Name stamp; Text "<"; Name logger; Text ">: "] ++ message.

(** The messages of [delta.cc]; [%d] takes an [int] of the [uint64_t] given. *)
Definition totals_lines (g : stat -> Z) (stamp : string) : list item :=
  let log := Logging stamp "BiSearchSystem" in
  log (entry "logical Chunk Num is " (Number (s32 (g logicalchunkNum)))) ++
  log (entry "unique Chunk Num is " (Number (s32 (g uniquechunkNum)))) ++
  log (entry "Total logical size is " (Number (g logicalchunkSize))) ++
  log (entry "Total compressed size is " (Number (g uniquechunkSize))) ++
  log (entry "Compression ratio is " (Double (fdiv (double_of (g logicalchunkSize)) (double_of (g uniquechunkSize))))).

(** The end of [main.cc]. *)

Definition migration_lines (g : stat -> Z) (dirName : string) (chunkingType compressionMethod backupNum : Z) : list item :=
  [Text " -i "; Name dirName; Text " -c "; Number chunkingType; Text " -m "; Number compressionMethod;
   Text " -n "; Number backupNum; Endl] ++
  entry "logical size : " (Number (g logicalchunkSize)) ++
  entry "Ori lossless compression size : " (Number (g oriLCSize)) ++
  entry "Migratory lossless compression size : " (Number (g MLCSize)) ++
  entry "Ori lossless compression ratio: " (Double (fdiv (double_of (g logicalchunkSize)) (double_of (g oriLCSize)))) ++
  entry "Migration lossless compression ratio: " (Double (fdiv (double_of (g logicalchunkSize)) (double_of (g MLCSize)))) ++
  entry_in "improve ratio: "
    (Double (fmul (fsub (fdiv (double_of (g oriLCSize)) (double_of (g MLCSize))) (double_of 1)) (double_of 100))) "%".
