(* ===== verification/System.v ===== *)
(** * The whole system: backing up a list of files

    The loop that [src/app/main.cc] and [src/app/delta.cc] share: one chunker
    and one compression method work through the files in turn; for each, the
    chunker queues the chunks of the file while
    [ProcessTrace] handles them, and the two threads are joined.  The queue
    hands over every message in order (file [Queue]), and the threads share
    nothing else but the allocator, so that an iteration is: chunk the file,
    give every chunk its block, process the chunks.  Input files do not change
    during the run, and are given with their contents. *)

From stdpp Require Import gmap.
From S2P Require Import Prelude Define Chunker Chunking Codec DataWrite Store Restore AbsMethod MethodSpec DeltaSpec Dedup.

(** ** Handing a chunk over *)

(** [malloc(cp)] and [memcpy] in [Chunking]; the members that the struct leaves
    unset are set before they are read, and are 0 here. *)
Definition deliver_one (m : Msg) : DW Chunk_t :=
  l ← malloc (len (msg_data m));
  store l (msg_data m) ;;
  mret (mkChunk 0 (len (msg_data m)) 0 (PHeap l) 0 NO_DELTA false (msg_header m) 0 0).

Fixpoint deliver (msgs : list Msg) : DW (list Chunk_t) :=
  match msgs with
  | [] => mret []
  | m :: msgs' => c ← deliver_one m; cs ← deliver msgs'; mret (c :: cs)
  end.

(** ** Compression methods *)

(** [AbsMethod]'s virtual interface: the state a subclass adds, its
    constructor, one iteration of its [ProcessTrace], and what it does when the
    queue is done. *)
Class Method := {
  MExt : Type;
  new_ext : MExt;
  method_one : Chunk_t -> M (Abs MExt) bool;
  method_end : M (Abs MExt) unit
}.

Definition method_trace `{Method} (queue : list Chunk_t) : M (Abs MExt) unit :=
  go ← process_queue method_one queue;
  if (go : bool) then method_end else mret tt.

(** ** The main loop *)

Section System.
Context `{HM : Method}.

Record System := mkSystem { chunkerObj : Chunker; absMethodObj : Abs MExt }.

Definition on_method {A} (m : M (Abs MExt) A) : M System A := fun s =>
  match m (absMethodObj s) with
  | Ok (a, x) => Ok (a, mkSystem (chunkerObj s) x)
  | Err e => Err e
  end.

(** The consumer leaves the queue empty and [done_] false. *)
Definition drain (c : Chunker) : Chunker :=
  mkChunker (chunkType c) (cdc c) (tar c) (localType c) (HeaderCp c) (headerBuffer c) [] false.

Definition backup_file (fuel : nat) (input : string * bytes) : M System unit :=
  on_method (on_dw (SetFilename input.1)) ;;
  c ← gets chunkerObj;
  c ← lift (Chunking fuel input.2 c);
  modify (fun s => mkSystem (drain c) (absMethodObj s)) ;;
  queue ← on_method (on_dw (deliver (outputMQ c)));
  on_method (method_trace queue).

(** [for (i = 0; i < backupNum; i++)] over [readfileList]. *)
Definition main_loop (fuel : nat) (inputs : list (string * bytes)) (backupNum : nat) : M System unit :=
  for_each (seq 0 backupNum) (fun i =>
    input ← lift (from_option_or OobRead (inputs !! i));
    backup_file fuel input).

Lemma main_loop_from fuel inputs n : forall k s, (k + n <= length inputs)%nat ->
  for_each (seq k n) (fun i => input ← lift (from_option_or OobRead (inputs !! i)); backup_file fuel input) s =
  for_each (take n (drop k inputs)) (backup_file fuel) s.
Proof using Type.
  induction n as [|n IH]; intros k s Hk; [done|].
  destruct (lookup_lt_is_Some_2 inputs k) as [input Hin]; [lia|].
  rewrite (drop_S _ _ _ Hin).
  change (for_each (take (S n) (input :: drop (S k) inputs)) (backup_file fuel) s) with
    (match backup_file fuel input s with
     | Ok (_, s1) => for_each (take n (drop (S k) inputs)) (backup_file fuel) s1
     | Err e => Err e
     end).
  cbn [seq for_each]. unfold mbind at 1, M_bind at 1. unfold mbind at 1, M_bind at 1. rewrite Hin. cbn.
  destruct (backup_file fuel input s) as [[[] s1]|]; [|done]. apply IH. lia.
Qed.

Lemma main_loop_take fuel inputs n s : (n <= length inputs)%nat ->
  main_loop fuel inputs n s = for_each (take n inputs) (backup_file fuel) s.
Proof using Type. intros Hn. apply (main_loop_from fuel inputs n 0). lia. Qed.

(** The start of [main], with [chunkingType]. *)
Definition init_system (chunkingType : Z) (m : Mem) (f : Fs) : result System :=
  c ← new_Chunker chunkingType;
  Ok (mkSystem c (new_Abs (new_dataWrite m f) new_ext)).
End System.

(** ** What a method promises *)

(** The laws of a method: its iteration meets [MethodStep], and stops with one of
    [faults] at worst; [inv n], which says
    that it is fit for [n] more files, looks at the records of the chunks only,
    holds at the start for the numbers of files [allowed], and survives the end
    of a file, which touches neither the store nor the fingerprints. *)
Class MethodLaws `{HM : Method} `{HL : Lz4} `{HX : Xdelta} `{HD : Digest} `{HK : Kinds} (admissible : bytes -> Prop)
    (faults : fault -> Prop) (allowed : nat -> Prop) (inv : nat -> Abs MExt -> Prop) (exact_ : Prop) : Prop := {
  ml_step n :: MethodStep method_one admissible faults (inv (S n)) exact_;
  ml_records n s d : inv n s -> chunklist d = chunklist (dataWrite_ s) -> inv n (set_dw d s);
  ml_new n m f : allowed n -> inv n (new_Abs (new_dataWrite m f) new_ext);
  ml_end n s : inv (S n) s -> wp method_end (fun _ s' => dataWrite_ s' = dataWrite_ s /\ FPindex s' = FPindex s /\
    same_totals s s' /\ inv n s') s
}.

Section Laws.
Context `{HM : Method} `{HL : Lz4} `{HX : Xdelta} `{HD : Digest} `{HK : Kinds} `{!Lz4Laws} `{!XdeltaLaws}.

Lemma wp_on_method {A} E (m : M (Abs MExt) A) (Q : A -> System -> Prop) s :
  wpe E m (fun a x => Q a (mkSystem (chunkerObj s) x)) (absMethodObj s) -> wpe E (on_method m) Q s.
Proof using Type. unfold wpe, on_method. by destruct (m (absMethodObj s)) as [[a x]|]. Qed.

(** ** Delivery *)

Definition deliverable (m : Msg) : Prop :=
  is_bytes (msg_data m) /\ len (msg_data m) <= CONTAINER_MAX_SIZE /\ msg_header m = is_header (msg_data m).

(** What [deliver] leaves: the trace of the messages, on fresh blocks. *)
Record delivery (d : dataWrite) (msgs : list Msg) (d' : dataWrite) (tr : trace) : Prop := {
  dv_datas : datas tr = msg_data <$> msgs;
  dv_mem : exists m, d' = set_mem m d;
  dv_fresh : forall l, (next_loc (mem d') <= l)%nat -> heap (mem d') !! l = None;
  dv_grow : forall l b, heap (mem d) !! l = Some b -> heap (mem d') !! l = Some b;
  dv_locs : Forall (fun x => next_loc (mem d) <= x.2)%nat tr;
  dv_all : delivered_all d' tr
}.

Lemma deliver_one_ok d m (Q : Chunk_t -> dataWrite -> Prop) :
  Q (queue_chunk (next_loc (mem d)) (msg_data m)) (set_mem (mkMem
      (<[next_loc (mem d) := mkBlock (len (msg_data m)) (msg_data m)]> (heap (mem d))) (S (next_loc (mem d)))) d) ->
  msg_header m = is_header (msg_data m) ->
  wp (deliver_one m) Q d.
Proof using Type.
  intros HQ Hm. unfold deliver_one. apply wp_bind. unfold wpe at 1, malloc. apply wp_bind.
  unfold wpe at 1, store. cbn [mem set_mem heap next_loc]. rewrite lookup_insert_eq.
  cbn [blk_size blk_data]. rewrite Z.ltb_irrefl. apply wp_ret. rewrite blit_nil, insert_insert_eq, Hm. done.
Qed.

Lemma deliver_ok msgs : forall d (Q : list Chunk_t -> dataWrite -> Prop),
  Forall deliverable msgs ->
  (forall l, (next_loc (mem d) <= l)%nat -> heap (mem d) !! l = None) ->
  (forall tr d', delivery d msgs d' tr -> Q ((fun x => x.1.1) <$> tr) d') ->
  wp (deliver msgs) Q d.
Proof using Type.
  induction msgs as [|m msgs IH]; intros d Q HF Hfr HQ.
  { apply wp_ret. apply (HQ [] d). split; try done; [by exists (mem d); destruct d|split; constructor]. }
  inversion HF as [|? ? (Hm1 & Hm2 & Hm3) HF']; subst. cbn [deliver].
  apply wp_bind, deliver_one_ok; [|done]. set (l := next_loc (mem d)).
  set (d1 := set_mem _ d). apply wp_bind. apply IH; [done| |].
  { intros l' Hl'. cbn in Hl' |- *. rewrite lookup_insert_ne by (unfold l; lia). apply Hfr. lia. }
  intros tr d' [V1 [m' V2] V3 V4 V5 [V6 V7]]. apply wp_ret.
  apply (HQ ((queue_chunk l (msg_data m), msg_data m, l) :: tr) d').
  assert (heap (mem d') !! l = Some (mkBlock (len (msg_data m)) (msg_data m))) as Hl.
  { apply V4. cbn. apply lookup_insert_eq. }
  split.
  - unfold datas in *. cbn. by rewrite V1.
  - exists m'. rewrite V2. by destruct d.
  - exact V3.
  - intros l' b Hb. apply V4. cbn. rewrite lookup_insert_ne; [done|]. intros <-.
    unfold l in Hb. rewrite Hfr in Hb; [done|lia].
  - constructor; [cbn; unfold l; lia|]. eapply Forall_impl; [exact V5|]. intros x Hx. cbn in Hx. unfold l. lia.
  - split.
    + cbn. apply NoDup_cons. split; [|done]. intros (x & Hx1 & Hx2)%list_elem_of_fmap.
      rewrite Forall_forall in V5. specialize (V5 x Hx2). cbn in V5. rewrite <- Hx1 in V5. unfold l in V5. lia.
    + constructor; [|done]. by split.
Qed.
End Laws.

(** ** What the chunker queues

    The chunker is one object for all the files; what it queues for each does
    not depend on the method at the other end. *)

(** The messages of each of the [files], in turn, and the chunker afterwards. *)
Fixpoint chunk_all (fuel : nat) (files : list bytes) (c : Chunker) : result (list (list Msg) * Chunker) :=
  match files with
  | [] => Ok ([], c)
  | file :: files' =>
      c ← Chunking fuel file c;
      r ← chunk_all fuel files' (drain c);
      Ok (outputMQ c :: r.1, r.2)
  end.

Lemma chunk_all_app fuel a b c :
  chunk_all fuel (a ++ b) c =
    (x ← chunk_all fuel a c; y ← chunk_all fuel b x.2; Ok (x.1 ++ y.1, y.2)).
Proof.
  revert c. induction a as [|f a IH]; intros c; cbn [app chunk_all].
  { cbn. by destruct (chunk_all fuel b c) as [[x y]|]. }
  destruct (Chunking fuel f c) as [c1|]; cbn; [|done]. rewrite IH.
  destruct (chunk_all fuel a (drain c1)) as [[x c2]|]; cbn; [|done].
  by destruct (chunk_all fuel b c2) as [[y c3]|].
Qed.

(** The same for files shorter than the read buffer. *)
Fixpoint chunk_small (fuel : nat) (files : list bytes) (c : Chunker) : result (list (list Msg) * Chunker) :=
  match files with
  | [] => Ok ([], c)
  | file :: files' =>
      c ← one_window fuel file c;
      r ← chunk_small fuel files' (drain c);
      Ok (outputMQ c :: r.1, r.2)
  end.

Lemma chunk_all_small fuel files c : (0 < fuel)%nat -> Forall (fun file => len file < READ_FILE_SIZE) files ->
  chunk_all fuel files c = chunk_small fuel files c.
Proof.
  intros Hf HF. revert c. induction HF as [|file files Hl _ IH]; intros c; [done|]. cbn.
  rewrite Chunking_small by done. destruct (one_window fuel file c); cbn; [by rewrite IH|done].
Qed.

(** The data of all messages. *)
Definition all_data (mss : list (list Msg)) : list bytes := msg_data <$> concat mss.

Lemma all_data_app a b : all_data (a ++ b) = all_data a ++ all_data b.
Proof. unfold all_data. by rewrite concat_app, fmap_app. Qed.

Lemma all_data_one ms : all_data [ms] = msg_data <$> ms.
Proof. unfold all_data. cbn. by rewrite app_nil_r. Qed.

(** What a way of chunking promises: from any state between two files, the
    messages of an admissible file are as [R] says. *)
Definition chunks (fuel : nat) (ready : Chunker -> Prop) (ok : bytes -> Prop) (R : bytes -> list Msg -> Prop) : Prop :=
  forall c file, ready c -> outputMQ c = [] -> ok file ->
    exists c', Chunking fuel file c = Ok c' /\ ready (drain c') /\ R file (outputMQ c').

Lemma chunk_all_ok fuel ready ok R files c :
  chunks fuel ready ok R -> ready c -> outputMQ c = [] -> Forall ok files ->
  exists mss c', chunk_all fuel files c = Ok (mss, c') /\ Forall2 R files mss.
Proof.
  intros Hch Hc Ho HF. revert c Hc Ho. induction HF as [|file files Hf _ IH]; intros c Hc Ho.
  { exists [], c. by split; [|constructor]. }
  destruct (Hch c file Hc Ho Hf) as (c1 & H1 & H2 & H3). destruct (IH (drain c1) H2 eq_refl) as (mss & c' & H4 & H5).
  exists (outputMQ c1 :: mss), c'. cbn [chunk_all]. rewrite H1. cbn. rewrite H4. split; [done|]. by constructor.
Qed.

(** ** Backing up file after file *)

Section Backup.
Context `{HM : Method} `{HL : Lz4} `{HX : Xdelta} `{HD : Digest} `{HK : Kinds} `{!Lz4Laws} `{!XdeltaLaws}.
Context (admissible : bytes -> Prop) (faults : fault -> Prop) (allowed : nat -> Prop) (inv : nat -> Abs MExt -> Prop) (exact_ : Prop).
Context `{!MethodLaws admissible faults allowed inv exact_}.
Context (fuel : nat) (c0 : Chunker) (wr : string -> bool) (h0 : HeaderState).
(** The number of files of the run. *)
Context (total : nat).

(** The recipes of [name] stand for the data and for the headers of [ms]. *)
Definition recorded (d : dataWrite) (origs : list bytes) (name : string) (ms : list Msg) : Prop :=
  Forall2 (stands_for origs) (default [] (RecipeMap (recipes d) !! name)) (of_kind false (msg_data <$> ms)) /\
  Forall2 (stands_for origs) (default [] (RecipeMap_header (recipes d) !! name)) (of_kind true (msg_data <$> ms)).

(** After the files [done] were backed up: every one of them has recipes that
    stand for its chunks, and nothing else was stored. *)
Record backed_up (done : list (string * bytes)) (mss : list (list Msg)) (s : System) : Prop := {
  bu_chunker : chunk_all fuel done.*2 c0 = Ok (mss, chunkerObj s);
  bu_method : exists contents origs, meth_ok (absMethodObj s) contents origs /\
    (forall u, u ∈ origs <-> u ∈ all_data mss) /\ (length origs <= length (all_data mss))%nat /\
    Forall2 (fun x ms => recorded (dataWrite_ (absMethodObj s)) origs x.1 ms) done mss;
  bu_inv : inv (total - length done) (absMethodObj s);
  bu_names : forall name, name ∉ done.*1 ->
    RecipeMap (recipes (dataWrite_ (absMethodObj s))) !! name = None /\
    RecipeMap_header (recipes (dataWrite_ (absMethodObj s))) !! name = None;
  bu_wr : writable (fs (dataWrite_ (absMethodObj s))) = wr;
  bu_hdr : hdr (dataWrite_ (absMethodObj s)) = h0;
  bu_bytes : eqm64 (stats (absMethodObj s) logicalchunkSize) (len (concat (all_data mss)))
}.

(** The part of an iteration the method does. *)
Lemma trace_file_ok n s contents origs tr (Q : unit -> Abs MExt -> Prop) :
  meth_ok s contents origs -> inv (S n) s -> len contents + len tr < 2 ^ 31 - 2 ->
  delivered_all (dataWrite_ s) tr -> Forall admissible (datas tr) -> Forall admissible origs -> collision_free (origs ++ datas tr) ->
  (forall s' ids contents' k, meth_ok s' contents' (origs ++ k) -> inv n s' ->
     traced (dataWrite_ s) (dataWrite_ s') ids -> Forall2 (marked_for (origs ++ k)) ids (datas tr) ->
     (forall u, u ∈ origs ++ k <-> u ∈ origs ++ datas tr) -> (length k <= length tr)%nat ->
     eqm64 (stats s' logicalchunkSize) (stats s logicalchunkSize + len (concat (datas tr))) -> Q tt s') ->
  wpe faults (method_trace ((fun x => x.1.1) <$> tr)) Q s.
Proof using Type*.
  intros Hok Hinv Hcnt Hdel Hadm Hado Hcf HQ. unfold method_trace. apply wp_bind.
  apply (trace_ok method_one admissible faults (inv (S n)) exact_ tr s contents origs); try done.
  intros s' ids contents' k Hok' Hinv' Htr HF Hset Hlen _ Hby. cbv beta iota.
  eapply (wpe_mono (fun _ => False) faults); [by apply ml_end|done|]. intros [] s'' (E1 & E2 & [E3 E4] & Hinv'').
  apply (HQ s'' ids contents' k); try done; [by eapply meth_ok_ext|by rewrite E1|by rewrite E4].
Qed.

(** Recipes of other files, and what they stand for, stay. *)
Lemma recorded_other d d' ids origs k name ms :
  traced d d' ids -> name <> filename (recipes d) -> recorded d origs name ms -> recorded d' (origs ++ k) name ms.
Proof using Type.
  intros Ht Hne [H1 H2]. destruct (tr_others _ _ _ Ht name Hne) as [E1 E2]. unfold recorded. rewrite E1, E2.
  split; (eapply Forall2_impl; [eassumption|]; intros; by apply stands_for_prefix).
Qed.

(** The recipes of the file just traced. *)
Lemma recorded_new d d' ids origs ms :
  traced d d' ids -> recipe d = [] -> header_recipe d = [] -> Forall2 (marked_for origs) ids (msg_data <$> ms) ->
  recorded d' origs (filename (recipes d)) ms.
Proof using Type.
  intros [T1 T2 T3 _ _ _] E1 E2 HF. rewrite E1 in T2. rewrite E2 in T3. unfold recipe, header_recipe in *. rewrite T1 in *.
  unfold recorded. rewrite T2, T3. split; by apply of_kind_marked.
Qed.

Lemma backup_file_ok done mss s input c1 :
  backed_up done mss s -> Chunking fuel input.2 (chunkerObj s) = Ok c1 -> Forall deliverable (outputMQ c1) ->
  input.1 ∉ done.*1 -> (length done < total)%nat -> Forall admissible (all_data (mss ++ [outputMQ c1])) ->
  collision_free (all_data (mss ++ [outputMQ c1])) -> len (all_data (mss ++ [outputMQ c1])) < 2 ^ 31 - 2 ->
  wpe faults (backup_file fuel input) (fun _ s' => backed_up (done ++ [input]) (mss ++ [outputMQ c1]) s') s.
Proof using Type*.
  intros [B1 (contents & origs & Hok & Hset & Hlen & Hold) B3 B4 B5 B6 B7] Hch Hdv Hnew Htot Hadm Hcf Hcnt.
  rewrite all_data_app, all_data_one in Hadm, Hcf, Hcnt. apply Forall_app in Hadm as [Hado Hadm]. rewrite len_app in Hcnt. pose proof Hok as [_ _ M3 _ _ _ _ _ _ _].
  assert (len contents <= len (all_data mss)) as Hle by (rewrite !len_length; lia).
  destruct s as [c x]. cbn [chunkerObj absMethodObj] in *.
  unfold backup_file. apply wp_bind, wp_on_method, wp_on_dw. unfold SetFilename. apply wp_modify.
  cbn [chunkerObj absMethodObj]. set (x1 := set_dw _ x).
  assert (meth_ok x1 contents origs) as Hok1 by (by eapply (meth_ok_same x)).
  apply wp_bind, wp_gets. cbn [chunkerObj]. apply wp_bind. eapply wp_lift_ok; [exact Hch|].
  apply wp_bind, wp_modify. cbn [absMethodObj]. apply wp_bind, wp_on_method, wp_on_dw.
  apply deliver_ok; [exact Hdv|intros l; apply (heap_fresh _ _ _ (mo_store _ _ _ Hok1))|].
  intros tr d' [V1 [m V2] V3 _ _ V6]. cbn [absMethodObj chunkerObj]. apply wp_on_method. cbn [absMethodObj chunkerObj].
  assert (len tr = len (msg_data <$> outputMQ c1)) as Htl by (rewrite <- V1; unfold datas; by rewrite len_map).
  assert (meth_ok (set_dw d' x1) contents origs) as Hok2 by (rewrite V2 in *; by apply meth_ok_mem).
  replace (total - length done)%nat with (S (total - length (done ++ [input])))%nat in B3 by (rewrite length_app; cbn; lia).
  eapply (trace_file_ok _ (set_dw d' x1) contents origs tr); try done.
  - apply ml_records; [|by rewrite V2]. by apply ml_records.
  - lia.
  - by rewrite V1.
  - rewrite Forall_forall in Hado |- *. intros u Hu. by apply Hado, Hset.
  - rewrite V1. intros a b Ha Hb. apply Hcf; rewrite elem_of_app, <- Hset, <- elem_of_app; done.
  - intros s' ids contents' k Hok' Hinv' Htr HF Hset' Hlen' Hby. cbn [dataWrite_ set_dw] in Htr. rewrite V2 in Htr. rewrite V1 in HF.
    destruct (B4 _ Hnew) as [N1 N2]. pose proof (tr_others _ _ _ Htr) as Hoth. cbn in Hoth.
    split; cbn [chunkerObj absMethodObj].
    + rewrite fmap_app, chunk_all_app, B1. cbn. by rewrite Hch.
    + exists contents', (origs ++ k). split; [done|]. rewrite all_data_app, all_data_one. split; [|split].
      * intros u. by rewrite Hset', V1, !elem_of_app, Hset.
      * rewrite !length_app. rewrite !len_length in Htl. lia.
      * apply Forall2_app; [|constructor; [|constructor]].
        -- apply (Forall2_impl_in _ _ _ _ Hold). intros y ms Hy Hrec.
           eapply (recorded_other (set_mem m (dataWrite_ x1))); [exact Htr| |exact Hrec]. cbn. intros He.
           apply Hnew. rewrite <- He. apply list_elem_of_fmap. by exists y.
        -- apply (recorded_new (set_mem m (dataWrite_ x1)) _ ids); [exact Htr|unfold recipe; cbn; by rewrite N1|unfold header_recipe; cbn; by rewrite N2|exact HF].
    + done.
    + intros name Hn. rewrite fmap_app, not_elem_of_app in Hn. destruct Hn as [Hn1 Hn2].
      cbn in Hn2. rewrite list_elem_of_singleton in Hn2. destruct (Hoth name Hn2) as [-> ->]. by apply B4.
    + by rewrite (tr_wr _ _ _ Htr).
    + by rewrite (tr_hdr _ _ _ Htr).
    + rewrite Hby, V1, all_data_app, all_data_one, concat_app, len_app. unfold x1. cbn [stats set_dw]. by rewrite B7.
Qed.

Lemma main_loop_ok s inputs mss ce (Q : unit -> System -> Prop) :
  backed_up [] [] s -> chunk_all fuel inputs.*2 c0 = Ok (mss, ce) -> Forall (Forall deliverable) mss ->
  NoDup inputs.*1 -> (length inputs <= total)%nat -> Forall admissible (all_data mss) -> collision_free (all_data mss) -> len (all_data mss) < 2 ^ 31 - 2 ->
  (forall s', backed_up inputs mss s' -> Q tt s') ->
  wpe faults (for_each inputs (backup_file fuel)) Q s.
Proof using Type*.
  intros Hs Hall Hdv Hnd Htot Hadm Hcf Hcnt HQ.
  apply (wp_for_each _ _ _ (fun done s' => exists mss1, backed_up done mss1 s')); [by exists []| |].
  - intros done input todo s' -> [mss1 Hi]. rewrite fmap_app, chunk_all_app in Hall. rewrite (bu_chunker _ _ _ Hi) in Hall.
    cbn [mbind result_bind fmap list_fmap chunk_all fst snd] in Hall.
    destruct (Chunking fuel input.2 (chunkerObj s')) as [c1|] eqn:Hch; [|done]. cbn [mbind result_bind] in Hall.
    destruct (chunk_all fuel todo.*2 (drain c1)) as [[mss2 c2]|]; [|done]. injection Hall as <- _.
    change (outputMQ c1 :: mss2) with ([outputMQ c1] ++ mss2) in *. rewrite app_assoc in *.
    rewrite all_data_app in Hadm, Hcf, Hcnt. rewrite len_app in Hcnt. pose proof (len_nonneg (all_data mss2)).
    rewrite fmap_app in Hnd. apply NoDup_app in Hnd as (_ & Hnd & _).
    apply Forall_app in Hdv as [Hdv _]. apply Forall_app in Hdv as [_ Hdv]. apply Forall_app in Hadm as [Hadm _].
    eapply wp_mono; [eapply backup_file_ok; [exact Hi|exact Hch|by inversion Hdv| | |exact Hadm| |lia]|].
    + intros Hold. apply (Hnd _ Hold). cbn. by left.
    + rewrite length_app in Htot. cbn in Htot. lia.
    + intros a b Ha Hb. apply Hcf; apply elem_of_app; by left.
    + intros [] s1 Hs1. by eexists.
  - intros s' [mss1 Hi]. apply HQ. pose proof (bu_chunker _ _ _ Hi) as E. rewrite Hall in E. by injection E as -> _.
Qed.

(** Restoring one of the files that were backed up, from its messages. *)
Lemma restore_backed_up inputs mss s name file ms :
  backed_up inputs mss s -> (name, file, ms) ∈ zip inputs mss -> concat (of_kind false (msg_data <$> ms)) = file ->
  wr (restore_path name) = true ->
  wp (on_method (on_dw (SetFilename name ;; restoreFile name)))
     (fun _ s' => files (fs (dataWrite_ (absMethodObj s'))) !! restore_path name = Some file) s.
Proof.
  intros [_ (contents & origs & Hok & _ & _ & Hold) _ _ B5 _ _] Hin Hcat Hw.
  destruct (Forall2_zip_in _ _ _ _ _ Hold Hin) as [Hrec _].
  apply wp_on_method, wp_on_dw, wp_bind. unfold SetFilename. apply wp_modify. eapply wp_mono.
  - eapply restoreFile_ok; [by apply store_ok_recipes, (mo_store _ _ _ Hok)|cbn; by rewrite B5|reflexivity|].
    eapply Forall2_impl; [exact Hrec|]. intros id u [Hid Hu].
    apply (mo_plain _ _ _ Hok) in Hu. by rewrite Z2Nat.id in Hu.
  - intros [] d' (Hf & _ & _). cbn. by rewrite Hf, Hcat.
Qed.
End Backup.
