(* ===== verification/Modes.v ===== *)
(** * What the ways of chunking queue

    For every [chunkingType] whose files can be backed up and restored: which
    files it takes, the state of the chunker between two files, and what the
    messages of a file have to do with it, as instances of [chunks]. *)

From S2P Require Import Prelude Define Chunker Chunking Tar MultiHeader HeaderRestore MethodSpec System.

(** ** Bytes *)

Lemma is_bytes_pieces (cs : list bytes) : is_bytes (concat cs) -> Forall (fun b => is_bytes b) cs.
Proof.
  induction cs as [|b cs IH]; [constructor|]. cbn. intros [H1 H2]%is_bytes_app. constructor; [done|]. by apply IH.
Qed.

Lemma archive_bytes ms : is_bytes (archive ms) -> is_bytes (concat (m_header <$> ms)) /\ is_bytes (concat (m_content <$> ms)).
Proof.
  induction ms as [|m ms IH]; [done|]. rewrite archive_cons. intros [H1 [H2 H3]%is_bytes_app]%is_bytes_app.
  destruct (IH H3). cbn. by rewrite !is_bytes_app.
Qed.

(** ** Messages the store can take *)

Definition storable (b : bytes) : Prop := is_bytes b /\ len b <= CONTAINER_MAX_SIZE /\ b <> [].

Lemma msgs_forall (P : bytes -> Prop) ms :
  Forall P (data_msgs ms) -> Forall P (header_msgs ms) -> Forall (fun m => P (msg_data m)) ms.
Proof.
  unfold data_msgs, header_msgs. rewrite !Forall_forall. intros H1 H2 m Hm.
  destruct (msg_header m) eqn:E; [apply H2|apply H1]; apply list_elem_of_fmap; exists m; (split; [done|]); by apply list_elem_of_filter.
Qed.

(** Every message is data, and together they are the file. *)
Record plain_file (file : bytes) (ms : list Msg) : Prop := {
  pf_plain : Forall (fun m => msg_header m = false) ms;
  pf_concat : concat (msg_data <$> ms) = file;
  pf_storable : Forall (fun m => storable (msg_data m)) ms
}.

Lemma plain_file_pieces file cs : is_bytes file -> concat cs = file -> Forall (fun b => len b <= CONTAINER_MAX_SIZE /\ b <> []) cs ->
  plain_file file ((fun b => mkMsg b false) <$> cs).
Proof.
  intros Hb <- Hl. split.
  - by apply Forall_fmap, Forall_true.
  - f_equal. rewrite <- list_fmap_compose. apply list_fmap_id.
  - apply Forall_fmap, Forall_and. split; [by apply is_bytes_pieces|exact Hl].
Qed.

Lemma plain_deliverable file ms : plain_file file ms -> Forall (deliverable (HK := no_headers)) ms.
Proof.
  intros [P1 _ P3]. apply Forall_forall. intros y Hy. rewrite Forall_forall in P1, P3.
  destruct (P3 y Hy) as (? & ? & _). split; [done|]. split; [done|]. by apply P1.
Qed.

Lemma all_data_files files mss : Forall2 plain_file files mss -> concat (all_data mss) = concat files.
Proof.
  induction 1 as [|file ms files mss [_ Hc _] _ IH]; [done|].
  change (ms :: mss) with ([ms] ++ mss). by rewrite all_data_app, concat_app, all_data_one, IH, Hc.
Qed.

(** ** Fixed-size and FastCDC chunking *)

Definition plain_ready (t : ChunkTypeNum) (cfg : CdcCfg) (c : Chunker) : Prop := chunkType c = Some t /\ cdc c = cfg.

Definition plain_ok (fuel : nat) (file : bytes) : Prop := is_bytes file /\ (length file < fuel)%nat.

Lemma chunks_plain fuel t cfg mx : good_cutter t cfg mx -> mx <= CONTAINER_MAX_SIZE ->
  chunks fuel (plain_ready t cfg) (plain_ok fuel) plain_file.
Proof.
  intros Hg Hmx c file [Ht Hc] Ho [Hb Hf].
  destruct (chunking_plain t cfg mx Hg fuel file c) as (cs & _ & H2 & H3 & H4); [done..|].
  rewrite push_chunks_out in H4. eexists. split; [exact H4|]. split; [done|]. cbn. rewrite Ho. cbn [app].
  apply plain_file_pieces; [done|done|]. eapply Forall_impl; [exact H3|]. cbn. intros b Hb2.
  split; [lia|]. intros ->. rewrite (@len_nil Z) in Hb2. lia.
Qed.

(** ** Tar archives *)

Definition tar_ok (fuel : nat) (file : bytes) : Prop :=
  is_bytes file /\ exists ms, file = archive ms /\ Forall member_wf ms /\ (length file + 2 * length ms + 1 < fuel)%nat.

Lemma chunks_tar fuel : chunks fuel tar_ready (tar_ok fuel) plain_file.
Proof.
  intros c file Hc Ho (Hb & ms & -> & Hwf & Hf). destruct (tar_chunking ms c fuel Hwf Hc Hf) as (c' & cs & H1 & [T1 T2 T3] & H2 & H3 & H4).
  exists c'. split; [done|]. split; [by split|]. rewrite H2, Ho. apply plain_file_pieces; [done|by apply archive_pieces_concat|done].
Qed.

(** ** Tar archives, headers apart *)

Definition apart_ok (fuel : nat) (file : bytes) : Prop :=
  is_bytes file /\ exists ms, file = archive ms /\ Forall windowed ms /\ Forall restorable ms /\
    (length file + 2 * length ms < fuel)%nat.

Record apart_file (file : bytes) (msgs : list Msg) : Prop := {
  af_split : exists ms, file = archive ms /\ Forall restorable ms /\ (length ms <= length file)%nat /\ split_archive ms msgs;
  af_storable : Forall (fun m => storable (msg_data m)) msgs
}.

Lemma data_of_concat ms dss : Forall member_wf ms -> Forall2 data_of ms dss -> concat (concat dss) = concat (m_content <$> ms).
Proof.
  intros Hwf H. induction H as [|m ds ms dss Hm _ IH]; [done|]. apply Forall_cons in Hwf as [Hm' Hwf].
  cbn. rewrite concat_app, (IH Hwf). f_equal. unfold data_of in Hm. destruct (carries m && (0 <? m_size m)) eqn:E.
  - destruct (_ <=? _); [subst ds; apply app_nil_r|by destruct Hm].
  - subst ds. symmetry. by apply no_content.
Qed.

Lemma archive_length ms : Forall member_wf ms -> (length ms <= length (archive ms))%nat.
Proof.
  induction 1 as [|m ms Hm _ IH]; [done|]. rewrite archive_cons, !length_app. cbn.
  pose proof (mw_header _ Hm) as Hh. rewrite len_length in Hh. lia.
Qed.

Lemma data_nonempty ms dss : Forall member_wf ms -> Forall2 data_of ms dss -> Forall (fun b => b <> []) (concat dss).
Proof.
  intros Hwf H. induction H as [|m ds ms dss Hm _ IH]; [constructor|]. apply Forall_cons in Hwf as [Hm' Hwf].
  cbn. apply Forall_app. split; [|by apply IH]. unfold data_of in Hm. destruct (carries m && (0 <? m_size m)) eqn:Hc; [|by subst ds].
  destruct (_ <=? _); [subst ds; repeat constructor|by destruct Hm].
  apply andb_true_iff in Hc as [Hc Hs%Z.ltb_lt]. intros He. pose proof (mw_content _ Hm' Hc) as Hl. pose proof (mw_size _ Hm').
  rewrite He, (@len_nil Z) in Hl. destruct (round512_spec (m_size m)); lia.
Qed.

Lemma split_storable ms msgs : Forall member_wf ms -> is_bytes (archive ms) -> split_archive ms msgs ->
  Forall (fun m => storable (msg_data m)) msgs.
Proof.
  intros Hwf [Hb1 Hb2]%archive_bytes [S1 S2 (dss & S3 & S4) S5]. apply msgs_forall; apply Forall_and; split.
  - apply is_bytes_pieces. by rewrite S3, (data_of_concat ms dss).
  - apply Forall_and. split; [done|]. rewrite S3. by eapply data_nonempty.
  - apply is_bytes_pieces. by rewrite S2.
  - eapply Forall_impl; [exact S1|]. intros t [Ht _]. unfold CONTAINER_MAX_SIZE. split; [lia|].
    intros ->. rewrite (@len_nil Z) in Ht. lia.
Qed.

Lemma chunks_apart fuel : chunks fuel mh_ready (apart_ok fuel) apart_file.
Proof.
  intros c file Hc Ho (Hb & ms & -> & Hw & Hr & Hf). destruct (mh_chunking ms c fuel Hw Hc Hf) as (c' & msgs & H1 & [R1 R2 R3 R4] & H2 & H3).
  assert (Forall member_wf ms) as Hwf by (eapply Forall_impl; [exact Hw|by intros m []]).
  exists c'. split; [done|]. split; [by split|]. rewrite H2, Ho. split; [|by apply (split_storable ms)].
  exists ms. split; [done|]. split; [done|]. split; [by apply archive_length|done].
Qed.

(** ** Marks *)

(** No header message of the run is also a data message. *)
Definition headers_apart (mss : list (list Msg)) : Prop :=
  forall t, t ∈ header_msgs (concat mss) -> t ∉ data_msgs (concat mss).

(** The contents that are marked as headers. *)
Definition marks (mss : list (list Msg)) : Kinds := fun t => bool_decide (t ∈ header_msgs (concat mss)).

Lemma marks_consistent mss m : headers_apart mss -> m ∈ concat mss -> msg_header m = marks mss (msg_data m).
Proof.
  intros Ha Hm. unfold marks. assert (m ∈ filter (fun x => msg_header x = msg_header m) (concat mss)) as Hin by by apply list_elem_of_filter.
  destruct (msg_header m) eqn:E; symmetry; apply bool_decide_eq_true || apply bool_decide_eq_false.
  - apply list_elem_of_fmap. by exists m.
  - intros H. apply (Ha _ H). apply list_elem_of_fmap. by exists m.
Qed.

Lemma of_kind_msgs `{HK : Kinds} ms : Forall (fun m => msg_header m = is_header (msg_data m)) ms ->
  of_kind false (msg_data <$> ms) = data_msgs ms /\ of_kind true (msg_data <$> ms) = header_msgs ms.
Proof.
  unfold of_kind, data_msgs, header_msgs. induction 1 as [|m ms Hm _ [I1 I2]]; [done|]. cbn [fmap list_fmap].
  rewrite !filter_cons, <- Hm. destruct (msg_header m); cbn; by rewrite I1, I2.
Qed.
