(* ===== verification/Main.v ===== *)
(** * The methods behind the interface, and what the program guarantees

    [switch (compressionMethod)] in [src/app/main.cc]: deduplication, Finesse,
    the N-transform, Palantir and the locality method as instances of [Method]
    and [MethodLaws], and the theorems about whole runs.  (Palantir for up to
    four files: later ones meet an index that the end of a file has broken.
    The locality method for one: it loses data from the second on.  Odess
    stores nothing.)  A
    run here is that of [src/app/delta.cc] with the restoration its last comment
    holds. *)

From stdpp Require Import gmap.
From S2P Require Import Prelude Lz4Use Define Chunker Chunking Tar MultiHeader Codec DataWrite Store Restore HeaderRestore AbsMethod MethodSpec DeltaSpec Dedup Finesse NTrans Locality Palantir Features System Modes.

Section Instances.
Context `{HL : Lz4} `{HX : Xdelta} `{HD : Digest} `{HK : Kinds}.

Definition dedup_method : Method := {|
  MExt := Z;
  new_ext := 0;
  method_one := Dedup.process_one;
  method_end := modify (fun s => set_version (s32 (ads_Version s + 1)) s)
|}.

Definition finesse_method : Method := {|
  MExt := unit;
  new_ext := tt;
  method_one := Finesse.process_one;
  method_end := modify (fun s => set_stat SFnum (stats s basechunkNum * 3)%u64
                                   (set_version (s32 (ads_Version s + 1)) s))
|}.

(** [m] and [a]: the coefficients the constructor of [FeatureGen] draws. *)
Definition ntrans_method (m a : list Z) : Method := {|
  MExt := NExt;
  new_ext := mkNExt (new_FeatureGen m a) [] (-1);
  method_one := NTrans.process_one;
  method_end := modify (fun s => set_stat SFnum (stats s basechunkNum * 3)%u64
                                   (set_version (s32 (ads_Version s + 1)) s))
|}.

(** [g]: the feature generator with the coefficients its constructor draws. *)
Definition palantir_method (g : FeatureGenerator) : Method := {|
  MExt := PExt;
  new_ext := new_PExt g;
  method_one := Palantir.process_one;
  method_end :=
    on_ext CleanIndex ;;
    on_ext next_version ;;
    modify (fun s => set_stat SFnum (w64 (s32 (SFNew (ext s) - SFDelete (ext s))))
                       (set_version (s32 (ads_Version s + 1)) s))
|}.

Definition locality_method : Method := {|
  MExt := LExt;
  new_ext := new_LExt;
  method_one := Locality.process_one;
  method_end := Locality.on_ext Locality.next_version ;; modify (fun s => set_version (s32 (ads_Version s + 1)) s)
|}.

(** They are the [ProcessTrace] of each class. *)
Lemma method_traces queue m a g :
  @method_trace dedup_method queue = Dedup.ProcessTrace queue /\
  @method_trace finesse_method queue = Finesse.ProcessTrace queue /\
  @method_trace (ntrans_method m a) queue = NTrans.ProcessTrace queue /\
  @method_trace (palantir_method g) queue = Palantir.ProcessTrace queue /\
  @method_trace locality_method queue = Locality.ProcessTrace queue.
Proof. done. Qed.

Context `{!Lz4Laws} `{!XdeltaLaws}.

Definition any_number (n : nat) : Prop := True.

#[export] Instance dedup_laws : @MethodLaws dedup_method _ _ _ _ (fun _ => True) (fun _ => False) any_number (fun _ _ => True) True.
Proof. split; [intros; exact dedup_step|done..]. Qed.

#[export] Instance finesse_laws U : @MethodLaws finesse_method _ _ _ _ (encodes_in U) (oversized_in U) any_number (fun _ => finesse_inv) True.
Proof.
  split; [intros; apply finesse_step| | |].
  - intros _ s d Hi Hd. eapply index_ok_mono; [|exact Hi]. intros id [H1 H2]. split; [done|]. cbn. by rewrite Hd.
  - intros _ m f _. apply index_new.
  - intros _ s Hi. by apply wp_modify.
Qed.

#[export] Instance ntrans_laws m a U : @MethodLaws (ntrans_method m a) _ _ _ _ (encodes_in U) (oversized_in U) any_number (fun _ => ntrans_inv) True.
Proof.
  split; [intros; apply ntrans_step| | |].
  - intros _ s d Hi Hd. eapply index_ok_mono; [|exact Hi]. intros id [H1 H2]. split; [done|]. cbn. by rewrite Hd.
  - intros _ m0 f _. apply index_new.
  - intros _ s Hi. by apply wp_modify.
Qed.

(** Palantir with [n] more files to come: the versions, which start from 0, must
    not reach 3 before the last file is over, or [CleanIndex] breaks the index
    ([palantir_aged_entry_faults]). *)
Definition up_to_four (n : nat) : Prop := (n <= 4)%nat.

Definition palantir_fit (n : nat) (s : Palantir) : Prop :=
  match n with O => True | _ => (n <= 4)%nat /\ palantir_inv (4 - Z.of_nat n) s end.

#[export] Instance palantir_laws g U : @MethodLaws (palantir_method g) _ _ _ _ (encodes_in U) (fun _ => False) up_to_four palantir_fit False.
Proof.
  split.
  - intros n s contents origs c t l Hok [Hn Hinv] Hcnt Hd Ha Hao Hnc.
    eapply wp_mono; [by eapply palantir_step|]. intros go s' (H1 & H2 & H3). split; [exact H1|]. split; [by split|exact H3].
  - intros [|n] s d; [done|]. intros [Hn Hi] Hd. split; [done|]. eapply palantir_inv_same; [exact Hi|exact Hd|done..].
  - intros [|n] m f Hn; [done|]. split; [done|]. apply palantir_new. unfold up_to_four in Hn. lia.
  - intros n s. change (@MExt (palantir_method g)) with PExt in *. intros [Hn [I1 I2 I3 I4]]. apply wp_bind, wp_modify, wp_bind, wp_modify, wp_modify.
    split; [done|]. split; [done|]. split; [done|]. destruct n as [|n]; [done|]. split; [lia|].
    pose proof (ii_version _ _ _ I1) as Hv.
    split; cbn [ext set_stat set_version set_ext dataWrite_]; [|done|done|done].
    replace (4 - Z.of_nat (S n)) with (Z.max (4 - Z.of_nat (S (S n))) (4 - Z.of_nat (S n))) by lia.
    destruct (end_keeps_index (dataWrite_ s) (ext s) (4 - Z.of_nat (S (S n)))) as [J1 J2 J3 J4]; [lia|done|].
    split; try done. lia.
Qed.

(** The locality method for one file: the deltas of the next are lost
    ([locality_restores_other_bytes]). *)
Definition up_to_one (n : nat) : Prop := (n <= 1)%nat.

Definition locality_fit (n : nat) (s : LocalDedup) : Prop :=
  match n with O => True | _ => (n <= 1)%nat /\ first_file s end.

#[export] Instance locality_laws : @MethodLaws locality_method _ _ _ _ (fun _ => True) (fun _ => False) up_to_one locality_fit True.
Proof.
  split.
  - intros n s contents origs c t l Hok [Hn Hinv] Hcnt Hd Ha Hao Hnc.
    eapply wp_mono; [by eapply locality_step|]. intros go s' (H1 & H2 & H3). split; [exact H1|]. by split.
  - intros [|n] s d; [done|]. intros [Hn Hi] _. by split.
  - intros [|n] m f Hn; [done|]. by split.
  - intros n s. change (@MExt locality_method) with LExt in *. intros [Hn _]. apply wp_bind, wp_modify, wp_modify.
    split; [done|]. split; [done|]. split; [done|]. destruct n; [done|lia].
Qed.
End Instances.

(** [compressionMethod]: the methods that store files, with the coefficients
    that their constructors draw. *)
Inductive compressionMethod := Use_Dedup | Use_Finesse | Use_NTransForm (m a : list Z) | Use_Palantir (g : FeatureGenerator) | Use_Locality.

Definition method_of `{HL : Lz4} `{HX : Xdelta} `{HD : Digest} (k : compressionMethod) : Method :=
  match k with
  | Use_Dedup => dedup_method
  | Use_Finesse => finesse_method
  | Use_NTransForm m a => ntrans_method m a
  | Use_Palantir g => palantir_method g
  | Use_Locality => locality_method
  end.

(** ** What may go wrong with xdelta

    [ts] are the chunks of a run.  No method looks at what xdelta returns: when
    it reports an error the program prints a message and stores what the size,
    which may never have been set, says.  And Finesse and the N-transform copy a
    delta over its chunk without looking at its size ([oversized_in]); Palantir
    rejects the deltas that do not fit, and the locality method makes none of
    its first file. *)
Definition xdelta_fails `{Xdelta} (k : compressionMethod) (ts : list bytes) : Prop :=
  match k with
  | Use_Dedup | Use_Locality => False
  | _ => exists t y, t ∈ ts /\ y ∈ ts /\ (xd3_encode_memory t y (CONTAINER_MAX_SIZE * 2)).1 <> 0
  end.

Definition overflows `{Xdelta} (k : compressionMethod) (ts : list bytes) (e : fault) : Prop :=
  match k with Use_Finesse | Use_NTransForm _ _ => oversized_in (fun t => t ∈ ts) e | _ => False end.

(** What a run over the chunks [ts] comes to: unless xdelta reports an error for
    two of them, it returns and [P] holds of what it returns, or it stops at the
    write past a block that an oversized delta of two of them causes. *)
Definition outcome {A} `{Xdelta} (k : compressionMethod) (ts : list bytes) (r : result A) (P : A -> Prop) : Prop :=
  xdelta_fails k ts \/ match r with Ok a => P a | Err e => overflows k ts e end.

Lemma outcome_mono {A B} `{Xdelta} k ts (r : result A) (r' : result B) P P' :
  outcome k ts r P -> (forall a, r = Ok a -> P a -> exists b, r' = Ok b /\ P' b) -> (forall e, r = Err e -> r' = Err e) ->
  outcome k ts r' P'.
Proof.
  intros [Hx|Hr] HP He; [by left|]. right. destruct r as [a|e]; [|by rewrite (He e)].
  by destruct (HP a) as (b & -> & Hb).
Qed.

Lemma xdelta_fails_mono `{Xdelta} k ts ts' : (forall t, t ∈ ts -> t ∈ ts') -> xdelta_fails k ts -> xdelta_fails k ts'.
Proof. intros Hs. destruct k; cbn; try done; intros (t & y & Ht & Hy & Hb); exists t, y; auto. Qed.

Lemma xdelta_fails_dec `{Xdelta} k ts : xdelta_fails k ts \/ ~ xdelta_fails k ts.
Proof.
  set (bad := fun t y : bytes => (xd3_encode_memory t y (CONTAINER_MAX_SIZE * 2)).1 <> 0).
  assert ((exists t y, t ∈ ts /\ y ∈ ts /\ bad t y) \/ ~ (exists t y, t ∈ ts /\ y ∈ ts /\ bad t y)) as Hor; [|destruct k; unfold xdelta_fails; first [exact Hor | tauto]].
  destruct (decide (Exists (fun t => Exists (bad t) ts) ts)) as [Hx|Hx].
  - left. apply Exists_exists in Hx as (t & Ht & (y & Hy & Hb)%Exists_exists). by exists t, y.
  - right. intros (t & y & Ht & Hy & Hb). apply Hx, Exists_exists. exists t. split; [done|]. apply Exists_exists. by exists y.
Qed.

(** The chunks as the method's contract wants them. *)
Definition admissible_for `{Xdelta} (k : compressionMethod) (ts : list bytes) (t : bytes) : Prop :=
  match k with Use_Dedup | Use_Locality => True | _ => encodes_in (fun u => u ∈ ts) t end.

Lemma fails_or_admissible `{Xdelta} k ts : Forall (fun t => t <> []) ts ->
  xdelta_fails k ts \/ Forall (admissible_for k ts) ts.
Proof.
  intros Hne. destruct (xdelta_fails_dec k ts) as [Hx|Hx]; [by left|right].
  rewrite Forall_forall in Hne |- *. intros t Ht. destruct k; cbn in *; try done; split; (try by apply Hne); split; try done;
    intros y Hy; apply dec_stable; intros Hb; apply Hx; by exists t, y.
Qed.

(** How many files a run may have. *)
Definition allowed_for (k : compressionMethod) : nat -> Prop :=
  match k with Use_Palantir _ => up_to_four | Use_Locality => up_to_one | _ => any_number end.

Lemma method_of_laws `{HL : Lz4} `{HX : Xdelta} `{HD : Digest} `{HK : Kinds} `{!Lz4Laws} `{!XdeltaLaws} k ts :
  exists inv exact_, MethodLaws (HM := method_of k) (admissible_for k ts) (overflows k ts) (allowed_for k) inv exact_.
Proof. destruct k; eexists _, _; [apply dedup_laws|apply finesse_laws|apply ntrans_laws|apply palantir_laws|apply locality_laws]. Qed.

(** ** Runs *)

(** The restoration the last comment of [main] describes: the archives whose
    headers were stored apart have a restorer of their own. *)
Definition restore_one `{HL : Lz4} `{HX : Xdelta} (chunkingType : Z) (fuel : nat) (name : string) : DW unit :=
  SetFilename name ;;
  if chunkingType =? 4 then restoreHeaderFile fuel name else restoreFile name.

(** A whole run and the restoration of one file. *)
Definition run `{HL : Lz4} `{HX : Xdelta} `{HM : Method} (chunkingType : Z) (fuel : nat) (m : Mem) (f : Fs)
    (inputs : list (string * bytes)) (backupNum : nat) (name : string) : result (unit * System) :=
  s ← init_system chunkingType m f;
  (main_loop fuel inputs backupNum ;; on_method (on_dw (restore_one chunkingType fuel name))) s.

(** The messages a new chunker queues for the files, in turn. *)
Definition queued (chunkingType : Z) (fuel : nat) (files : list bytes) : list (list Msg) :=
  match new_Chunker chunkingType with
  | Ok c => match chunk_all fuel files c with Ok (mss, _) => mss | Err _ => [] end
  | Err _ => []
  end.

(** The data queued for the first files of a run. *)
Definition queued_data (chunkingType : Z) (fuel : nat) (inputs : list (string * bytes)) : list bytes :=
  all_data (queued chunkingType fuel inputs.*2).

(** The types whose chunks are pieces of the file in order, and the files they
    take: any for [FIXED_SIZE] and [FASTCDC], archives for [TAR]. *)
Definition in_order (z : Z) : Prop := z = 0 \/ z = 1 \/ z = 3.

Definition input_ok (z : Z) (fuel : nat) (file : bytes) : Prop :=
  if z =? 3 then tar_ok fuel file else plain_ok fuel file.

Lemma input_bytes z fuel file : input_ok z fuel file -> is_bytes file.
Proof. unfold input_ok. destruct (z =? 3); by intros [H _]. Qed.

Lemma queued_in_order z fuel files : in_order z -> Forall (input_ok z fuel) files ->
  exists c0 ce, new_Chunker z = Ok c0 /\ outputMQ c0 = [] /\ chunk_all fuel files c0 = Ok (queued z fuel files, ce) /\
    Forall2 plain_file files (queued z fuel files).
Proof.
  intros Hz HF. unfold queued.
  assert (exists c0 ready, new_Chunker z = Ok c0 /\ outputMQ c0 = [] /\ ready c0 /\ chunks fuel ready (input_ok z fuel) plain_file)
    as (c0 & ready & Hnew & Ho & Hc & Hch).
  { destruct Hz as [-> | [-> | ->]].
    - destruct (plain_type_good 0 FIXED_SIZE cdc_default 8192 eq_refl) as [Hg Hn]. eexists _, (plain_ready _ _). split; [exact Hn|].
      split_and!; [done|done|by eapply (chunks_plain fuel)].
    - destruct (plain_type_good 1 FASTCDC (cdc_sizes 8192) 16384 eq_refl) as [Hg Hn]. eexists _, (plain_ready _ _). split; [exact Hn|].
      split_and!; [done|done|by eapply (chunks_plain fuel)].
    - exists (mkChunker (Some TAR) (cdc_sizes 8192) tar_init FILE_HEADER 0 None [] false), tar_ready.
      split_and!; [done|done|split; [done|done|by left]|apply chunks_tar]. }
  destruct (chunk_all_ok fuel ready _ _ files c0 Hch Hc Ho HF) as (mss & ce & Hall & HR).
  exists c0, ce. rewrite Hnew, Hall. by split_and!.
Qed.

Lemma queued_apart fuel files : Forall (apart_ok fuel) files ->
  exists c0 ce, new_Chunker 4 = Ok c0 /\ outputMQ c0 = [] /\ chunk_all fuel files c0 = Ok (queued 4 fuel files, ce) /\
    Forall2 apart_file files (queued 4 fuel files).
Proof.
  intros HF. unfold queued. set (c0 := mkChunker (Some TAR_MultiHeader) (cdc_sizes 8192) tar_init FILE_HEADER 0 (Some []) [] false).
  destruct (chunk_all_ok fuel mh_ready _ _ files c0 (chunks_apart fuel)) as (mss & ce & Hall & HR); [by split|done|done|].
  exists c0, ce. change (new_Chunker 4) with (Ok c0 : result Chunker). cbv iota beta. rewrite Hall. by split_and!.
Qed.

(** The files each [chunkingType] takes. *)
Definition chunkable (z : Z) (fuel : nat) (files : list bytes) : Prop :=
  in_order z /\ Forall (input_ok z fuel) files \/
  z = 4 /\ Forall (apart_ok fuel) files /\ headers_apart (queued 4 fuel files).

Lemma queued_nonempty z fuel (inputs : list (string * bytes)) :
  Forall (Forall (fun m => storable (msg_data m))) (queued z fuel inputs.*2) -> Forall (fun t => t <> []) (queued_data z fuel inputs).
Proof.
  intros HF. unfold queued_data, all_data. apply Forall_fmap, Forall_concat.
  eapply Forall_impl; [exact HF|]. intros ms Hms. eapply Forall_impl; [exact Hms|]. by intros m (_ & _ & ?).
Qed.

Lemma apart_marked files mss : Forall2 apart_file files mss -> headers_apart mss ->
  Forall (Forall (deliverable (HK := marks mss))) mss.
Proof.
  intros HR Hap. apply Forall_forall. intros ms Hms. apply Forall_forall. intros x Hx.
  destruct (list_elem_of_lookup_1 _ _ Hms) as [i Hi]. destruct (Forall2_lookup_r _ _ _ _ _ HR Hi) as (f0 & _ & [_ Hs]).
  rewrite Forall_forall in Hs. destruct (Hs x Hx) as (? & ? & _). split; [done|]. split; [done|].
  apply marks_consistent; [done|]. apply elem_of_concat. by exists ms.
Qed.

Section Run.
Context `{HL : Lz4} `{HX : Xdelta} `{HD : Digest} `{HK : Kinds} `{!Lz4Laws} `{!XdeltaLaws}.

Lemma init_backed_up `{HM : Method} (adm : bytes -> Prop) flt allowed inv exact_ `{!MethodLaws adm flt allowed inv exact_} fuel c0 m f n :
  allowed n -> (forall l, (next_loc m <= l)%nat -> heap m !! l = None) ->
  (forall k, writable f (container_path k) = true) ->
  backed_up inv fuel c0 (writable f) (mkHeaderState tar_init [] 0 0) n [] []
    (mkSystem c0 (new_Abs (new_dataWrite m f) new_ext)).
Proof using Type*.
  intros Hn Hm Hf. split; try done; [|cbn; rewrite Nat.sub_0_r; by apply ml_new].
  exists [], []. split; [by apply new_meth_ok|]. split; [done|]. split; [cbn; lia|constructor].
Qed.

(** Restoring an archive whose headers are apart. *)
Lemma restore_apart `{HM : Method} inv fuel c0 wr total inputs mss s name file ms :
  backed_up inv fuel c0 wr (mkHeaderState tar_init [] 0 0) total inputs mss s -> (name, file, ms) ∈ zip inputs mss ->
  Forall (fun m => msg_header m = is_header (msg_data m)) ms -> apart_file file ms -> (length file <= fuel)%nat ->
  wr (restore_path name) = true ->
  wp (on_method (on_dw (restore_one 4 fuel name)))
     (fun _ s' => files (fs (dataWrite_ (absMethodObj s'))) !! restore_path name = Some file) s.
Proof using Type*.
  intros [_ (contents & origs & Hok & _ & _ & Hold) _ _ B5 B6 _] Hin Hk [(ar & -> & Hr & Hlen & [S1 S2 (dss & S3 & S4) _]) _] Hf Hw.
  destruct (Forall2_zip_in _ _ _ _ _ Hold Hin) as [H1 H2]. destruct (of_kind_msgs ms Hk) as [E1 E2]. rewrite E1, S3 in H1. rewrite E2 in H2.
  apply wp_on_method, wp_on_dw. unfold restore_one. apply wp_bind. unfold SetFilename. apply wp_modify. cbn [Z.eqb Pos.eqb fst snd] in *.
  assert (forall ids ts, Forall2 (stands_for origs) ids ts -> Forall2 (plain (chunklist (dataWrite_ (absMethodObj s))) contents) ids ts) as Hplain.
  { intros ids ts HF. eapply Forall2_impl; [exact HF|]. intros id u [Hid Hu]. apply (mo_plain _ _ _ Hok) in Hu. by rewrite Z2Nat.id in Hu. }
  eapply wp_mono; [eapply (restore_header_file_ok _ contents name _ _ (header_msgs ms) dss ar fuel)|].
  - by apply store_ok_recipes, (mo_store _ _ _ Hok).
  - cbn. by rewrite B5.
  - reflexivity.
  - reflexivity.
  - done.
  - lia.
  - by apply Hplain.
  - done.
  - done.
  - by apply Hplain.
  - done.
  - cbn. rewrite B6. cbn. lia.
  - cbn. by rewrite B6.
  - intros [] d' (Hfile & _). exact Hfile.
Qed.
End Run.

(** With its marks, every kind of input is queued, and restored from recipes that
    stand for what was queued. *)
Lemma queued_chunkable z fuel (inputs : list (string * bytes)) : chunkable z fuel inputs.*2 ->
  exists (HK : Kinds) c0 ce, new_Chunker z = Ok c0 /\
    chunk_all fuel inputs.*2 c0 = Ok (queued z fuel inputs.*2, ce) /\
    Forall (Forall deliverable) (queued z fuel inputs.*2) /\
    Forall (fun t => t <> []) (queued_data z fuel inputs) /\
    forall `{HL : Lz4} `{HX : Xdelta} `{HD : Digest} `{!Lz4Laws} `{!XdeltaLaws} `{HM : Method} inv wr total s name file,
      backed_up inv fuel c0 wr (mkHeaderState tar_init [] 0 0) total inputs (queued z fuel inputs.*2) s ->
      (name, file) ∈ inputs -> wr (restore_path name) = true ->
      wp (on_method (on_dw (restore_one z fuel name)))
        (fun _ s' => files (fs (dataWrite_ (absMethodObj s'))) !! restore_path name = Some file) s.
Proof.
  intros [[Hz HF] | (-> & HF & Hap)].
  - destruct (queued_in_order z fuel _ Hz HF) as (c0 & ce & Hnew & _ & Hall & HR). exists no_headers, c0, ce.
    split_and!; [done|done| | |].
    + eapply Forall2_Forall_r; [exact HR|]. apply Forall_true. intros x ms. apply plain_deliverable.
    + eapply queued_nonempty, Forall2_Forall_r; [exact HR|]. apply Forall_true. by intros x ms [_ _ ?].
    + intros HL HX HD ? ? HM inv wr total s name file Hs Hfile Hw.
      destruct (Forall2_zip_ex _ _ _ (name, file) (proj1 (Forall2_fmap_l _ _ _ _) HR) Hfile) as (ms & Hzip & [P1 P2 _]).
      unfold restore_one. rewrite (proj2 (Z.eqb_neq z 4)) by (destruct Hz as [-> | [-> | ->]]; done).
      eapply restore_backed_up; [exact Hs|exact Hzip|by rewrite of_kind_plain|exact Hw].
  - destruct (queued_apart fuel _ HF) as (c0 & ce & Hnew & _ & Hall & HR). exists (marks (queued 4 fuel inputs.*2)), c0, ce.
    split_and!; [done|done|by eapply apart_marked| |].
    + eapply queued_nonempty, Forall2_Forall_r; [exact HR|]. apply Forall_true. by intros x ms [_ ?].
    + intros HL HX HD ? ? HM inv wr total s name file Hs Hfile Hw.
      destruct (Forall2_zip_ex _ _ _ (name, file) (proj1 (Forall2_fmap_l _ _ _ _) HR) Hfile) as (ms & Hzip & Haf).
      eapply (restore_apart (HK := marks _)); [exact Hs|exact Hzip| |exact Haf| |exact Hw].
      * apply Forall_forall. intros x Hx. apply marks_consistent; [done|]. apply elem_of_concat. exists ms. split; [by eapply elem_of_zip_r|done].
      * rewrite Forall_fmap, Forall_forall in HF. destruct (HF _ Hfile) as (_ & ms' & _ & _ & _ & Hl). cbn in Hl. lia.
Qed.

(** The loop of [main], for any method and any kind of input, and the
    restoration of any file from what it leaves. *)
Lemma main_backs_up `{HL : Lz4} `{HX : Xdelta} `{HD : Digest} `{!Lz4Laws} `{!XdeltaLaws} (k : compressionMethod) z fuel m f inputs n :
  chunkable z fuel (take n inputs).*2 -> (forall l, (next_loc m <= l)%nat -> heap m !! l = None) ->
  (forall i, writable f (container_path i) = true) ->
  allowed_for k n -> (n <= length inputs)%nat -> NoDup (take n inputs).*1 ->
  collision_free (queued_data z fuel (take n inputs)) -> len (queued_data z fuel (take n inputs)) < 2 ^ 31 - 2 ->
  exists (HK : Kinds) inv c0 s0, init_system (HM := method_of k) z m f = Ok s0 /\ stats (absMethodObj s0) = (fun _ => 0) /\
    outcome k (queued_data z fuel (take n inputs)) (main_loop fuel inputs n s0) (fun r =>
      backed_up inv fuel c0 (writable f) (mkHeaderState tar_init [] 0 0) n (take n inputs) (queued z fuel (take n inputs).*2) r.2 /\
      forall name file, (name, file) ∈ take n inputs -> writable f (restore_path name) = true ->
        wp (on_method (on_dw (restore_one z fuel name)))
          (fun _ s' => files (fs (dataWrite_ (absMethodObj s'))) !! restore_path name = Some file) r.2).
Proof.
  intros Hin Hm Hf Ha Hn Hnd Hcf Hcnt. set (ts := queued_data z fuel (take n inputs)) in *.
  destruct (queued_chunkable _ _ _ Hin) as (HK & c0 & ce & Hnew & Hall & Hdv & Hne & Hres).
  destruct (method_of_laws k ts) as (inv & ex & Hlaws).
  set (s0 := mkSystem c0 (new_Abs (new_dataWrite m f) new_ext) : System (HM := method_of k)).
  exists HK, inv, c0, s0. unfold init_system. rewrite Hnew. split; [done|]. split; [done|].
  destruct (fails_or_admissible k ts Hne) as [Hx|Hadm]; [by left|]. right.
  assert (wpe (overflows k ts) (main_loop (HM := method_of k) fuel inputs n)
    (fun _ s => backed_up inv fuel c0 (writable f) (mkHeaderState tar_init [] 0 0) n (take n inputs) (queued z fuel (take n inputs).*2) s)
    s0) as Hw.
  { unfold wpe. rewrite main_loop_take by done.
    eapply (main_loop_ok (HM := method_of k) (admissible_for k ts) (overflows k ts) (allowed_for k) inv ex fuel c0 (writable f) (mkHeaderState tar_init [] 0 0) n);
      [by eapply (init_backed_up (HM := method_of k))|exact Hall|exact Hdv|exact Hnd|rewrite length_take; lia|done..]. }
  unfold wpe in Hw. destruct (main_loop fuel inputs n s0) as [[[] s]|e]; [|done]. split; [done|].
  intros name file Hfile Hwr. by eapply Hres.
Qed.

(** A whole run and the restoration of any of its files. *)
Lemma run_restores `{HL : Lz4} `{HX : Xdelta} `{HD : Digest} `{!Lz4Laws} `{!XdeltaLaws} (k : compressionMethod) z fuel m f inputs n name file :
  chunkable z fuel (take n inputs).*2 -> (forall l, (next_loc m <= l)%nat -> heap m !! l = None) ->
  (forall i, writable f (container_path i) = true) -> writable f (restore_path name) = true ->
  allowed_for k n -> (n <= length inputs)%nat -> NoDup (take n inputs).*1 ->
  collision_free (queued_data z fuel (take n inputs)) ->
  len (queued_data z fuel (take n inputs)) < 2 ^ 31 - 2 -> (name, file) ∈ take n inputs ->
  outcome k (queued_data z fuel (take n inputs)) (run (HM := method_of k) z fuel m f inputs n name) (fun r =>
    files (fs (dataWrite_ (absMethodObj r.2))) !! restore_path name = Some file).
Proof.
  intros Hin Hm Hf Hw Hmax Hn Hnd Hcf Hcnt Hfile.
  destruct (main_backs_up k z fuel m f inputs n) as (HK & inv & c0 & s0 & Hi & _ & Ho); [done..|].
  unfold run. rewrite Hi. cbn [mbind result_bind]. unfold mbind, M_bind. eapply outcome_mono; [exact Ho| |].
  - intros [[] s] -> [_ Hres]. destruct (wp_result _ _ _ (Hres name file Hfile Hw)) as ([] & s' & Hs' & Hf').
    exists (tt, s'). by split.
  - by intros e ->.
Qed.

(** ** Properties *)

(** C2: a whole run: the files (any bytes, of any sizes and with any common
    chunks; well-formed archives with tar-aware chunking) are chunked by
    fixed-size, FastCDC or tar-aware chunking, and stored by deduplication,
    Finesse, the N-transform, Palantir (up to four files) or the locality method
    (one file); their names are distinct, the containers and the restored file can
    be written, the chunks number less than 2^31 - 2 and SHA-256 tells them apart.  Then [main]
    backs them up and afterwards [restoreFile] writes any of them exactly as it
    was.  Nothing is assumed of the deltas; the two ways this can fail are part
    of the conclusion ([outcome]): xdelta reports an error for two chunks of the
    run, which the program ignores; or, with Finesse and the N-transform only,
    the program stops at the write past a chunk's block that a delta of two
    chunks of the run, larger than its chunk, causes. *)
Theorem main_restores_every_file `{HL : Lz4} `{HX : Xdelta} `{HD : Digest} `{!Lz4Laws} `{!XdeltaLaws}
    (k : compressionMethod) (z : Z) (fuel : nat) (m : Mem) (f : Fs)
    (inputs : list (string * bytes)) (backupNum : nat) (name : string) (file : bytes)
    (Hz : in_order z)
    (Hm : forall l, (next_loc m <= l)%nat -> heap m !! l = None)
    (Hf : forall i, writable f (container_path i) = true) (Hw : writable f (restore_path name) = true)
    (Hmax : allowed_for k backupNum) (Hn : (backupNum <= length inputs)%nat) (Hnd : NoDup (take backupNum inputs).*1)
    (Hin : Forall (input_ok z fuel) (take backupNum inputs).*2)
    (Hcf : collision_free (queued_data z fuel (take backupNum inputs)))
    (Hcnt : len (queued_data z fuel (take backupNum inputs)) < 2 ^ 31 - 2)
    (Hfile : (name, file) ∈ take backupNum inputs) :
  outcome k (queued_data z fuel (take backupNum inputs)) (run (HM := method_of k) z fuel m f inputs backupNum name)
    (fun r => files (fs (dataWrite_ (absMethodObj r.2))) !! restore_path name = Some file).
Proof. apply run_restores; try done. by left. Qed.

Lemma queued_files_small z fuel files : (0 < fuel)%nat -> Forall (fun file => len file < READ_FILE_SIZE) files ->
  queued z fuel files = match new_Chunker z with
                        | Ok c => match chunk_small fuel files c with Ok (mss, _) => mss | Err _ => [] end
                        | Err _ => []
                        end.
Proof. intros Hf HF. unfold queued. destruct (new_Chunker z); [|done]. by rewrite chunk_all_small. Qed.

Lemma demo_queued : queued_data 1 8 [("a"%string, [1; 2; 3]); ("b"%string, [1; 2; 3])] = [[1; 2; 3]; [1; 2; 3]].
Proof. unfold queued_data. rewrite queued_files_small; [by vm_compute|lia|by repeat constructor]. Qed.

(** With the codec that stores its input nothing goes wrong. *)
Lemma outcome_stored {A} k ts (r : result A) P :
  Forall (fun t => 0 < len t <= CONTAINER_MAX_SIZE * 2) ts -> outcome (H := StoreCodec.xdelta) k ts r P -> exists a, r = Ok a /\ P a.
Proof.
  rewrite Forall_forall. intros Hts.
  assert (forall t y, t ∈ ts -> @xd3_encode_memory StoreCodec.xdelta t y (CONTAINER_MAX_SIZE * 2) = (0, Some t)) as He.
  { intros t y Ht. specialize (Hts t Ht). cbn. by rewrite (proj2 (Z.ltb_lt 0 _)), (proj2 (Z.leb_le _ _)) by lia. }
  intros [Hx|Hr].
  - destruct k; try done; destruct Hx as (t & y & Ht & _ & Hb); by rewrite He in Hb.
  - destruct r as [a|e]; [by exists a|].
    destruct k; try done; destruct Hr as (_ & t & y & x & Ht & _ & Hb & Hlt); rewrite He in Hb by done; injection Hb as <-; lia.
Qed.

Lemma outcome_unit {S} k ts (r : result (unit * S)) P :
  Forall (fun t => 0 < len t <= CONTAINER_MAX_SIZE * 2) ts -> outcome (H := StoreCodec.xdelta) k ts r (fun x => P x.2) ->
  exists s, r = Ok (tt, s) /\ P s.
Proof. intros Hts Ho. destruct (outcome_stored _ _ _ _ Hts Ho) as ([[] s] & Hr & Hp). by exists s. Qed.

Lemma main_restores_every_file_witness :
  let inputs := [("a"%string, [1; 2; 3]); ("b"%string, [1; 2; 3])] in
  exists s', @run (lz4_c 0 0) StoreCodec.xdelta
      (@method_of (lz4_c 0 0) StoreCodec.xdelta StoreCodec.digest Use_Finesse)
      1 8 (mkMem ∅ 0) open_fs inputs 2 "b" = Ok (tt, s') /\
    files (fs (dataWrite_ (absMethodObj s'))) !! restore_path "b" = Some [1; 2; 3].
Proof.
  intros inputs. apply (outcome_unit Use_Finesse [[1; 2; 3]; [1; 2; 3]]); [by repeat constructor|]. rewrite <- demo_queued.
  refine (@main_restores_every_file (lz4_c 0 0) StoreCodec.xdelta StoreCodec.digest
    (lz4_c_laws 0 0 ltac:(lia) ltac:(lia)) StoreCodec.xdelta_laws Use_Finesse 1 8 (mkMem ∅ 0) open_fs
    inputs 2 "b" [1; 2; 3] _ _ _ _ _ _ _ _ _ _ _).
  - right. by left.
  - reflexivity.
  - reflexivity.
  - reflexivity.
  - exact I.
  - cbn. lia.
  - apply (bool_decide_unpack _). by vm_compute.
  - repeat constructor.
  - unfold inputs; cbn [take]; rewrite demo_queued. intros a b Ha Hb _. set_solver.
  - unfold inputs; cbn [take]; by rewrite demo_queued.
  - cbn. set_solver.
Defined.

(** C3: the same for archives chunked with their headers apart: the inputs are
    well-formed archives in which no member has a size between 4 MiB - 1023 and
    4 MiB (sixteen of them pass the end of the chunker's window), and the size field of the
    old-style members (flag 0) is all zero bytes, as in the blocks that end an
    archive; no header chunk equals a data chunk of the run (a chunk stored before keeps the mark of its first occurrence); the
    number of files, the names, the disk and the digests are as before.  Then
    [main] backs them up, gathering the headers of each in chunks of their own
    that have a recipe of their own, and afterwards [restoreHeaderFile] writes
    any of them exactly as it was, with the two exceptions of [outcome]: xdelta
    reports an error for two chunks of the run, or a delta of two chunks of the
    run, larger than its chunk, overflows a block (Finesse and the N-transform
    only). *)
Theorem main_restores_every_archive `{HL : Lz4} `{HX : Xdelta} `{HD : Digest} `{!Lz4Laws} `{!XdeltaLaws}
    (k : compressionMethod) (fuel : nat) (m : Mem) (f : Fs)
    (inputs : list (string * bytes)) (backupNum : nat) (name : string) (file : bytes)
    (Hm : forall l, (next_loc m <= l)%nat -> heap m !! l = None)
    (Hf : forall i, writable f (container_path i) = true) (Hw : writable f (restore_path name) = true)
    (Hmax : allowed_for k backupNum) (Hn : (backupNum <= length inputs)%nat) (Hnd : NoDup (take backupNum inputs).*1)
    (Hin : Forall (apart_ok fuel) (take backupNum inputs).*2)
    (Hapart : headers_apart (queued 4 fuel (take backupNum inputs).*2))
    (Hcf : collision_free (queued_data 4 fuel (take backupNum inputs)))
    (Hcnt : len (queued_data 4 fuel (take backupNum inputs)) < 2 ^ 31 - 2)
    (Hfile : (name, file) ∈ take backupNum inputs) :
  outcome k (queued_data 4 fuel (take backupNum inputs)) (run (HM := method_of k) 4 fuel m f inputs backupNum name)
    (fun r => files (fs (dataWrite_ (absMethodObj r.2))) !! restore_path name = Some file).
Proof. apply run_restores; try done. by right. Qed.

Definition demo_inputs : list (string * bytes) := [("f"%string, archive demo_archive); ("g"%string, archive demo_archive)].

Lemma demo_queued_archive : let mss := queued 4 2100 demo_inputs.*2 in
  data_msgs (concat mss) = [m_content demo_member; m_content demo_member] /\
  header_msgs (concat mss) = [demo_headers; demo_headers] /\
  all_data mss = [m_content demo_member; demo_headers; m_content demo_member; demo_headers].
Proof.
  rewrite queued_files_small; [by vm_compute|lia|]. assert (len (archive demo_archive) < READ_FILE_SIZE) by by vm_compute.
  by repeat constructor.
Qed.

Lemma demo_apart : Forall (apart_ok 2100) (take 2 demo_inputs).*2.
Proof.
  assert (member_wf demo_member /\ member_wf end_block) as [W1 W2] by (split; by split; vm_compute).
  assert (apart_ok 2100 (archive demo_archive)) as Ha; [|cbn [take demo_inputs fmap list_fmap snd]; by apply Forall_cons_2, Forall_cons_2, Forall_nil_2].
  split; [by vm_compute|]. exists demo_archive. split; [reflexivity|].
  split_and!; [|repeat constructor; try done; by vm_compute|vm_compute; lia].
  repeat (constructor; [split; [done|left; by vm_compute]|]). constructor.
Qed.

Lemma collision_free_twice `{Digest} a b : EVP_sha256 a <> EVP_sha256 b -> collision_free [a; b; a; b].
Proof. intros Hab x y Hx Hy He. set_solver. Qed.

Lemma twice_apart (a b t : bytes) : a <> b -> t ∈ [b; b] -> t ∉ [a; a].
Proof. set_solver. Qed.

Lemma demo_digests : @EVP_sha256 StoreCodec.digest (m_content demo_member) <> @EVP_sha256 StoreCodec.digest demo_headers.
Proof. by vm_compute. Qed.

Lemma main_restores_every_archive_witness :
  exists s', @run (lz4_c 0 0) StoreCodec.xdelta
      (@method_of (lz4_c 0 0) StoreCodec.xdelta StoreCodec.digest Use_Dedup)
      4 2100 (mkMem ∅ 0) open_fs demo_inputs 2 "g" = Ok (tt, s') /\
    files (fs (dataWrite_ (absMethodObj s'))) !! restore_path "g" = Some (archive demo_archive).
Proof.
  destruct demo_queued_archive as (Hd & Hh & Hq).
  assert (m_content demo_member <> demo_headers) as Hne by (intros E%(f_equal len); by vm_compute in E).
  apply (outcome_unit Use_Dedup (queued_data 4 2100 demo_inputs)); [unfold queued_data; rewrite Hq; repeat constructor; by vm_compute|].
  refine (@main_restores_every_archive (lz4_c 0 0) StoreCodec.xdelta StoreCodec.digest
    (lz4_c_laws 0 0 ltac:(lia) ltac:(lia)) StoreCodec.xdelta_laws Use_Dedup 2100 (mkMem ∅ 0) open_fs
    demo_inputs 2 "g" (archive demo_archive) _ _ _ _ _ _ _ _ _ _ _).
  - reflexivity.
  - reflexivity.
  - reflexivity.
  - exact I.
  - cbn. lia.
  - apply (bool_decide_unpack _). by vm_compute.
  - exact demo_apart.
  - change (take 2 demo_inputs) with demo_inputs. intros t. rewrite Hd, Hh. by apply twice_apart.
  - change (take 2 demo_inputs) with demo_inputs. unfold queued_data. rewrite Hq.
    apply collision_free_twice, demo_digests.
  - change (take 2 demo_inputs) with demo_inputs. unfold queued_data. by rewrite Hq.
  - right. by left.
Defined.
