(* ===== verification/Accounts.v ===== *)
(** * The statistics balance

    The counters of [AbsMethod] that the program prints.  Whatever chunks come
    through the queue, as long as the run does not fault, the bytes that came in
    are the bytes stored plus the bytes each of the three techniques saved, and
    every unique chunk is counted once, as a base or as a delta.  The counters
    wrap at 64 bits, so that the balance is one modulo [2 ^ 64]. *)

From S2P Require Import Prelude Lz4 Lz4Use Define Chunker Chunking Tar Codec DataWrite Store Restore AbsMethod MethodSpec Dedup Finesse NTrans Locality Palantir System Modes Main.

(** ** Partial correctness over the counters *)

(** [wlp m Q g]: if [m] returns from a state with the counters [g], then [Q]
    holds of the result and the counters it leaves. *)
Definition wlp {X A} (m : M (Abs X) A) (Q : A -> (stat -> Z) -> Prop) (g : stat -> Z) : Prop :=
  forall s a s', stats s = g -> m s = Ok (a, s') -> Q a (stats s').

(** Operations that count nothing. *)
Class Quiet {X A} (m : M (Abs X) A) : Prop :=
  quiet : forall s a s', m s = Ok (a, s') -> stats s' = stats s.

(** Functions on the state that leave the counters alone. *)
Class Aside {X} (f : Abs X -> Abs X) : Prop := aside : forall s, stats (f s) = stats s.

Section Quiet.
Context {X : Type}.
Implicit Types s : Abs X.

#[export] Instance quiet_ret {A} (a : A) : Quiet (X := X) (mret a).
Proof. by intros s a' s' [= _ ->]. Qed.

#[export] Instance quiet_bind {A B} (m : M (Abs X) A) (f : A -> M (Abs X) B) :
  Quiet m -> (forall a, Quiet (f a)) -> Quiet (m ≫= f).
Proof.
  intros Hm Hf s b s'. unfold mbind, M_bind. destruct (m s) as [[a s1]|] eqn:E; [|done].
  intros H%Hf. by rewrite H, (Hm _ _ _ E).
Qed.

#[export] Instance quiet_gets {A} (f : Abs X -> A) : Quiet (gets f).
Proof. by intros s a s' [= _ ->]. Qed.

#[export] Instance quiet_throw {A} e : Quiet (A := A) (X := X) (throw e).
Proof. by intros s a s'. Qed.

#[export] Instance quiet_lift {A} (r : result A) : Quiet (X := X) (lift r).
Proof. intros s a s'. unfold lift. destruct r; [|done]. by intros [= _ ->]. Qed.

#[export] Instance quiet_on_dw {A} (m : DW A) : Quiet (X := X) (on_dw m).
Proof. intros s a s'. unfold on_dw. destruct (m _) as [[x d]|]; [|done]. by intros [= _ <-]. Qed.

#[export] Instance quiet_modify (f : Abs X -> Abs X) : Aside f -> Quiet (modify f).
Proof. intros Hf s a s' [= _ <-]. apply Hf. Qed.

#[export] Instance quiet_if {A} (b : bool) (m1 m2 : M (Abs X) A) : Quiet m1 -> Quiet m2 -> Quiet (if b then m1 else m2).
Proof. by destruct b. Qed.

#[export] Instance quiet_option {A B} (o : option B) (m1 : B -> M (Abs X) A) m2 :
  (forall x, Quiet (m1 x)) -> Quiet m2 -> Quiet (match o with Some x => m1 x | None => m2 end).
Proof. by destruct o. Qed.

#[export] Instance quiet_pair {A B C} (p : B * C) (m : B -> C -> M (Abs X) A) :
  (forall x y, Quiet (m x y)) -> Quiet (let '(x, y) := p in m x y).
Proof. by destruct p. Qed.

#[export] Instance quiet_ptr {A} (p : ptr) (m : nat -> M (Abs X) A) m0 :
  (forall l, Quiet (m l)) -> Quiet m0 -> Quiet (match p with PHeap l => m l | _ => m0 end).
Proof. by destruct p. Qed.
End Quiet.

#[export] Hint Extern 1 (Aside _) => (intros ?; reflexivity) : typeclass_instances.

(** The helpers of [AbsMethod] that count nothing. *)
Section Helpers.
Context {X : Type} `{HL : Lz4} `{HX : Xdelta} `{HD : Digest}.

#[export] Instance quiet_GenerateHash p n : Quiet (X := X) (GenerateHash p n).
Proof. unfold GenerateHash. apply _. Qed.
#[export] Instance quiet_FP_Find h : Quiet (X := X) (FP_Find h).
Proof. unfold FP_Find. apply _. Qed.
#[export] Instance quiet_FP_Insert h n : Quiet (X := X) (FP_Insert h n).
Proof. unfold FP_Insert. apply _. Qed.
#[export] Instance quiet_SF_Find k : Quiet (X := X) (AbsMethod.SF_Find k).
Proof. unfold AbsMethod.SF_Find. intros s. apply quiet_lift. Qed.
#[export] Instance quiet_SF_Insert k n : Quiet (X := X) (AbsMethod.SF_Insert k n).
Proof. unfold AbsMethod.SF_Insert. apply _. Qed.
#[export] Instance quiet_compress_base c : Quiet (X := X) (compress_base c).
Proof. unfold compress_base, lz4_chunk. apply _. Qed.
#[export] Instance quiet_insert_base c : Quiet (X := X) (insert_base c).
Proof. unfold insert_base. case_decide; apply _. Qed.
#[export] Instance quiet_encode_against c b : Quiet (X := X) (encode_against c b).
Proof. unfold encode_against, xd3_encode. apply _. Qed.
#[export] Instance quiet_store_ptr p b : Quiet (X := X) (store_ptr p b).
Proof. unfold store_ptr. apply _. Qed.
#[export] Instance quiet_dup_chunk c n : Quiet (X := X) (dup_chunk c n).
Proof. unfold dup_chunk. apply _. Qed.
End Helpers.

(** The counters after [st = v], and after [st += n]. *)
Definition put (st : stat) (v : Z) (g : stat -> Z) : stat -> Z := fun st' => if decide (st' = st) then v else g st'.
Definition bump (st : stat) (n : Z) (g : stat -> Z) : stat -> Z := put st (g st + n)%u64 g.

Section Rules.
Context {X : Type}.
Implicit Types s : Abs X.

Lemma wlp_bind {A B} (m : M (Abs X) A) (f : A -> M (Abs X) B) Q g :
  wlp m (fun a g' => wlp (f a) Q g') g -> wlp (m ≫= f) Q g.
Proof.
  unfold mbind, M_bind. intros H s b s' Hg. destruct (m s) as [[a s1]|] eqn:E; [|done].
  by apply (H s a s1).
Qed.

Lemma wlp_ret {A} (a : A) (Q : A -> (stat -> Z) -> Prop) g : Q a g -> wlp (X := X) (mret a) Q g.
Proof. by intros H s a' s' <- [= <- <-]. Qed.

Lemma wlp_quiet {A} (m : M (Abs X) A) `{!Quiet m} (Q : A -> (stat -> Z) -> Prop) g :
  (forall a, Q a g) -> wlp m Q g.
Proof. intros H s a s' <- E. by rewrite (quiet _ _ _ E). Qed.

Lemma wlp_add st n (Q : unit -> (stat -> Z) -> Prop) g : Q tt (bump st n g) -> wlp (X := X) (add_stat st n) Q g.
Proof. by intros H s [] s' <- [= <-]. Qed.

Lemma wlp_mono {A} (m : M (Abs X) A) (P Q : A -> (stat -> Z) -> Prop) g :
  wlp m P g -> (forall a g', P a g' -> Q a g') -> wlp m Q g.
Proof. intros H HPQ s a s' Hg E. eauto. Qed.
End Rules.

(** Run a program for its counters. *)
Ltac count :=
  repeat lazymatch goal with
  | |- wlp (add_stat _ _) _ _ => apply wlp_add
  | |- wlp (mret _) _ _ => apply wlp_ret
  | |- wlp (_ ≫= _) _ _ => apply wlp_bind
  | |- wlp _ _ _ => first
      [ apply wlp_quiet; [apply _|intro; cbn beta]
      | lazymatch goal with
        | |- wlp (if ?b then _ else _) _ _ => destruct b
        | |- wlp (match ?o with Some _ => _ | None => _ end) _ _ => destruct o
        | |- wlp (let '(_, _) := ?p in _) _ _ => destruct p
        end ]
  end.

(** ** The balance *)

(** Where the bytes went, what the unique chunks are, and where they are. *)
Record balanced (g : stat -> Z) : Prop := {
  bl_bytes : eqm64 (g logicalchunkSize) (g uniquechunkSize + g DedupReduct + g LocalReduct + g DeltaReduct);
  bl_chunks : eqm64 (g uniquechunkNum) (g basechunkNum + g deltachunkNum);
  bl_stored : eqm64 (g uniquechunkSize) (g basechunkSize + g deltachunkSize)
}.

Lemma put_eq st v g : put st v g st = v.
Proof. unfold put. by rewrite decide_True. Qed.

Lemma put_ne st v g st' : st' <> st -> put st v g st' = g st'.
Proof. intros H. unfold put. by rewrite decide_False. Qed.

(** The three equations as accounts: what each counter weighs in one, and what
    is still owed. *)
Inductive account := Bytes | Chunks | Stored.

Definition weight (a : account) (st : stat) : Z :=
  match a, st with
  | Bytes, logicalchunkSize | Chunks, uniquechunkNum | Stored, uniquechunkSize => 1
  | Bytes, (uniquechunkSize | DedupReduct | LocalReduct | DeltaReduct)
  | Chunks, (basechunkNum | deltachunkNum) | Stored, (basechunkSize | deltachunkSize) => -1
  | _, _ => 0
  end.

Definition owed (a : account) (g : stat -> Z) : Z :=
  match a with
  | Bytes => w64 (g logicalchunkSize - (g uniquechunkSize + g DedupReduct + g LocalReduct + g DeltaReduct))
  | Chunks => w64 (g uniquechunkNum - (g basechunkNum + g deltachunkNum))
  | Stored => w64 (g uniquechunkSize - (g basechunkSize + g deltachunkSize))
  end.

Lemma owed_bump a st n g : owed a (bump st n g) = w64 (owed a g + weight a st * n).
Proof.
  destruct a; cbn [owed]; (lazymatch goal with |- w64 ?x = w64 ?y => change (eqm64 x y) end); rewrite w64_eqm;
    destruct st; unfold bump; repeat first [rewrite put_eq | rewrite put_ne by discriminate];
    rewrite ?w64_eqm; unfold eqm; f_equal; cbn [weight]; lia.
Qed.

Lemma owed_place a v g : owed a (put ContainerSize v g) = owed a g.
Proof. by destruct a. Qed.

Lemma eqm64_owed x y : eqm64 x y <-> w64 (x - y) = 0.
Proof.
  split; intros H.
  - change (eqm64 (x - y) 0). rewrite H, Z.sub_diag. done.
  - replace x with (x - y + y) by lia. unfold eqm in H. rewrite (H : eqm64 (x - y) 0). done.
Qed.

Lemma balanced_owed g : balanced g <-> forall a, owed a g = 0.
Proof.
  split.
  - intros [H1 H2 H3] []; by apply eqm64_owed.
  - intros H. split; apply eqm64_owed; [apply (H Bytes)|apply (H Chunks)|apply (H Stored)].
Qed.

(** Nothing more is owed after a run of additions that cancel. *)
Ltac settle :=
  lazymatch goal with H : balanced _ |- _ => rewrite balanced_owed in H |- *; intros []; rewrite ?owed_bump, ?owed_place, ?owed_bump, H end;
  repeat (rewrite <- ?Z.add_assoc; rewrite w64_add_l); change 0 with (w64 0) at 2; f_equal; cbn [weight]; lia.

Section Methods.
Context `{HL : Lz4} `{HX : Xdelta} `{HD : Digest}.

Lemma wlp_place c (Q : Chunk_t -> (stat -> Z) -> Prop) g :
  (forall cid off v, Q (set_place cid off c) (put ContainerSize v g)) -> wlp (place_chunk c) Q g.
Proof. intros H s a s' <- [= <- <-]. apply H. Qed.

Lemma dedup_balances c g : balanced g -> wlp (Dedup.process_one c) (fun _ => balanced) g.
Proof.
  intros Hg. unfold Dedup.process_one, Dedup.unique_chunk, record_chunk. count;
    [apply wlp_place; intros cid off v; count|..]; settle.
Qed.

Lemma finesse_balances c g : balanced g -> wlp (Finesse.process_one c) (fun _ => balanced) g.
Proof.
  intros Hg. unfold Finesse.process_one, Finesse.unique_chunk, Finesse.find_base, Finesse.base_chunk, Finesse.delta_chunk,
    keep_delta, StatsDelta, dce, record_chunk. count; settle.
Qed.

Lemma ntrans_balances c g : balanced g -> wlp (NTrans.process_one c) (fun _ => balanced) g.
Proof.
  intros Hg. unfold NTrans.process_one, NTrans.unique_chunk, NTrans.known_chunk, NTrans.base_chunk, NTrans.delta_chunk,
    keep_delta, StatsDelta, dce, record_chunk. count; settle.
Qed.

Lemma palantir_balances c g : balanced g -> wlp (Palantir.process_one c) (fun _ => balanced) g.
Proof.
  intros Hg. unfold Palantir.process_one, Palantir.unique_chunk, Palantir.known_chunk, Palantir.delta_chunk, Palantir.base_chunk, Palantir.super_features, Palantir.on_ext,
    keep_delta, StatsDelta, dce, record_chunk. count; settle.
Qed.

Lemma locality_balances c g : balanced g -> wlp (Locality.process_one c) (fun _ => balanced) g.
Proof.
  intros Hg. unfold Locality.process_one, Locality.unique_chunk, Locality.known_chunk, Locality.delta_chunk, Locality.fetch_base,
    Locality.encode_local, Locality.accept_delta, Locality.base_chunk, Locality.on_ext, StatsDelta, dce, record_chunk. count; settle.
Qed.
End Methods.

(** ** Whole runs *)

(** Methods whose iterations, and what follows them, keep the balance. *)
Class Balances (HM : Method) : Prop := {
  bm_one c g : balanced g -> wlp (method_one c) (fun _ => balanced) g;
  bm_end g : balanced g -> wlp method_end (fun _ => balanced) g
}.

Section Runs.
Context `{HM : Method, !Balances HM}.

Lemma trace_balances queue g : balanced g -> wlp (method_trace queue) (fun _ => balanced) g.
Proof.
  intros Hg. unfold method_trace. apply wlp_bind.
  eapply wlp_mono with (P := fun _ => balanced); [|intros [] g' Hg'; [by apply bm_end|by apply wlp_ret]].
  revert g Hg. induction queue as [|c queue IH]; intros g Hg; cbn [process_queue]; [by apply wlp_ret|].
  apply wlp_bind. eapply wlp_mono; [by apply bm_one|]. intros [] g' Hg'; [by apply IH|by apply wlp_ret].
Qed.

Lemma on_method_inv {A} (m : M (Abs MExt) A) s a s' : on_method m s = Ok (a, s') ->
  m (absMethodObj s) = Ok (a, absMethodObj s').
Proof. unfold on_method. destruct (m _) as [[x y]|]; [|done]. by intros [= -> <-]. Qed.

Lemma backup_balances fuel input s s' : balanced (stats (absMethodObj s)) ->
  backup_file fuel input s = Ok (tt, s') -> balanced (stats (absMethodObj s')).
Proof.
  intros Hb. unfold backup_file, mbind, M_bind.
  destruct (on_method _ s) as [[[] s1]|] eqn:E1; [|done]. apply on_method_inv, quiet in E1. cbn.
  unfold lift. destruct (Chunking fuel input.2 (chunkerObj s1)) as [c|]; [|done].
  destruct (on_method (on_dw (deliver _)) _) as [[q s2]|] eqn:E2; [|done]. apply on_method_inv, quiet in E2. cbn in E2.
  intros E3%on_method_inv. eapply (trace_balances q); [|reflexivity|exact E3]. by rewrite E2, E1.
Qed.

Lemma loop_balances fuel inputs : forall s s', balanced (stats (absMethodObj s)) ->
  for_each inputs (backup_file fuel) s = Ok (tt, s') -> balanced (stats (absMethodObj s')).
Proof.
  induction inputs as [|input inputs IH]; intros s s' Hb; cbn [for_each]; [by intros [= <-]|].
  unfold mbind, M_bind. destruct (backup_file fuel input s) as [[[] s1]|] eqn:E; [|done].
  apply IH. by eapply backup_balances.
Qed.
End Runs.

#[export] Instance method_of_balances `{HL : Lz4} `{HX : Xdelta} `{HD : Digest} k : Balances (method_of k).
Proof.
  split; destruct k; cbn; intros; first [by apply dedup_balances | by apply finesse_balances | by apply ntrans_balances | by apply palantir_balances | by apply locality_balances
    | by intros s1 [] s2 <- [= <-]; destruct H as [H1 H2 H3]; split].
Qed.

Lemma balanced_new : balanced (fun _ => 0).
Proof. by split. Qed.

(** ** Properties *)

(** C10: the statistics the program prints are true.  Whenever the loop of [main]
    over the first of the files returns, with deduplication, Finesse, the
    N-transform, Palantir or the locality method, whatever the chunking, the
    files, the disk and xdelta do, the bytes seen ([logicalchunkSize]) are what
    was stored ([uniquechunkSize]) plus what deduplication, LZ4 and delta
    compression saved, and [uniquechunkNum] and [uniquechunkSize] are the base
    chunks' and the delta chunks' together.  With fixed-size, FastCDC or tar-aware
    chunking (of well-formed archives), at most four files for Palantir and one
    for the locality method, distinct names, containers that can be written, less
    than 2^31 - 2 chunks and distinct digests, it does return, and
    [logicalchunkSize] is the size of the files together; with the exceptions of
    [outcome]: xdelta reports an error for two chunks of the run, or (Finesse, the
    N-transform) an oversized delta of two of them overflows a block.  All modulo
    2^64. *)
Theorem statistics_balance `{HL : Lz4} `{HX : Xdelta} `{HD : Digest} `{!Lz4Laws} `{!XdeltaLaws}
    (k : compressionMethod) (z : Z) (fuel : nat) (m : Mem) (f : Fs) (inputs : list (string * bytes)) (backupNum : nat)
    (Hn : (backupNum <= length inputs)%nat) :
  (forall s0 s, init_system (HM := method_of k) z m f = Ok s0 -> main_loop fuel inputs backupNum s0 = Ok (tt, s) ->
     let g := stats (absMethodObj s) in
     eqm64 (g logicalchunkSize) (g uniquechunkSize + g DedupReduct + g LocalReduct + g DeltaReduct) /\
     eqm64 (g uniquechunkNum) (g basechunkNum + g deltachunkNum) /\
     eqm64 (g uniquechunkSize) (g basechunkSize + g deltachunkSize)) /\
  (in_order z -> (forall l, (next_loc m <= l)%nat -> heap m !! l = None) ->
   (forall i, writable f (container_path i) = true) ->
   allowed_for k backupNum -> NoDup (take backupNum inputs).*1 -> Forall (input_ok z fuel) (take backupNum inputs).*2 ->
   collision_free (queued_data z fuel (take backupNum inputs)) ->
   len (queued_data z fuel (take backupNum inputs)) < 2 ^ 31 - 2 ->
   exists s0, init_system (HM := method_of k) z m f = Ok s0 /\
     outcome k (queued_data z fuel (take backupNum inputs)) (main_loop fuel inputs backupNum s0) (fun r =>
       eqm64 (stats (absMethodObj r.2) logicalchunkSize) (len (concat (take backupNum inputs).*2)))).
Proof.
  split.
  - intros s0 s Hi He. unfold init_system in Hi. destruct (new_Chunker z) as [c|]; [|done]. injection Hi as <-.
    rewrite main_loop_take in He by done. apply loop_balances in He as [H1 H2 H3]; [|apply balanced_new]. by split_and!.
  - intros Hz Hm Hf Hmax Hnd Hin Hcf Hcnt.
    destruct (main_backs_up k z fuel m f inputs backupNum) as (HK & inv & c0 & s0 & Hini & Hz0 & Ho); [by left|done..|].
    destruct (queued_in_order z fuel _ Hz Hin) as (_ & _ & _ & _ & _ & HR).
    exists s0. split; [done|]. eapply outcome_mono; [exact Ho| |by intros e ->]. intros [u s] -> [Hs _]. eexists. split; [done|]. cbn.
    rewrite (bu_bytes _ _ _ _ _ _ _ _ _ Hs). by rewrite (all_data_files _ _ HR).
Qed.

Lemma statistics_balance_witness :
  let inputs := [("a"%string, [1; 2; 3]); ("b"%string, [1; 2; 3])] in
  let M := @method_of (lz4_c 0 0) StoreCodec.xdelta StoreCodec.digest Use_Finesse in
  exists s0 s, @init_system M 1 (mkMem ∅ 0) open_fs = Ok s0 /\ @main_loop M 8 inputs 2 s0 = Ok (tt, s) /\
    let g := stats (absMethodObj s) in
    eqm64 (g logicalchunkSize) 6 /\
    eqm64 (g logicalchunkSize) (g uniquechunkSize + g DedupReduct + g LocalReduct + g DeltaReduct) /\
    eqm64 (g uniquechunkNum) (g basechunkNum + g deltachunkNum) /\
    eqm64 (g uniquechunkSize) (g basechunkSize + g deltachunkSize).
Proof.
  intros inputs M.
  destruct (@statistics_balance (lz4_c 0 0) StoreCodec.xdelta StoreCodec.digest
    (lz4_c_laws 0 0 ltac:(lia) ltac:(lia)) StoreCodec.xdelta_laws Use_Finesse 1 8 (mkMem ∅ 0) open_fs
    inputs 2 ltac:(cbn; lia)) as [Hbal Hrun].
  destruct Hrun as (s0 & Hi & Ho).
  - right. by left.
  - reflexivity.
  - reflexivity.
  - exact I.
  - apply (bool_decide_unpack _). by vm_compute.
  - repeat constructor.
  - unfold inputs; cbn [take]; rewrite demo_queued. intros a b Ha Hb _. set_solver.
  - unfold inputs; cbn [take]; by rewrite demo_queued.
  - change (take 2 inputs) with inputs in Ho. unfold inputs in Ho at 1. rewrite demo_queued in Ho.
    apply (outcome_unit _ _ _ (fun s => eqm64 (stats (absMethodObj s) logicalchunkSize) 6)) in Ho as (s & Hs & H1); [|by repeat constructor]. exists s0, s. split; [exact Hi|]. split; [exact Hs|].
    split; [exact H1|]. exact (Hbal s0 s Hi Hs).
Defined.
