(* ===== verification/WellFormed.v ===== *)
(** * The state is well formed after a run

    What the members of [dataWrite] and [AbsMethod] may look like, as a check
    that can be run: every record of [chunklist] carries its own index as its
    number, points into a container that exists at bytes that exist, fits a
    chunk, and, if it is a delta, names an existing base; every number in a
    recipe or in the fingerprint index is that of a record, whose [HeaderFlag]
    tells which of the two recipes it belongs to. *)

From stdpp Require Import gmap.
From S2P Require Import Prelude Lz4Use Define Chunker Chunking Tar MultiHeader Codec DataWrite Store Restore HeaderRestore AbsMethod MethodSpec DeltaSpec System Modes Main.

(** The size of container [k]: the current one's, or that of its file less the
    eight bytes of the size it begins with; -1 for a file that is missing. *)
Definition container_len (d : dataWrite) (k : Z) : Z :=
  if k =? containerNum (cur d) then csize (curContainer (cur d))
  else match files (fs d) !! container_path k with Some b => len b - 8 | None => -1 end.

Definition in_list (d : dataWrite) (id : Z) : bool := (0 <=? id) && (id <? len (chunklist d)).

(** The record with index [i]. *)
Definition record_ok (d : dataWrite) (i : nat) (c : Chunk_t) : bool :=
  (chunkID c =? Z.of_nat i) &&
  (0 <=? containerID c) && (containerID c <=? containerNum (cur d)) &&
  (0 <=? offset c) && (0 <=? saveSize c) && (offset c + saveSize c <=? container_len d (containerID c)) &&
  (container_len d (containerID c) <=? CONTAINER_MAX_SIZE) &&
  (0 <=? chunkSize c) && (chunkSize c <=? CONTAINER_MAX_SIZE) &&
  match deltaFlag c with
  | NO_DELTA => true
  | NO_LZ4 => saveSize c =? chunkSize c
  | _ => in_list d (basechunkID c)
  end.

(** A recipe of data chunks ([header] false) or of header chunks. *)
Definition recipe_ok (d : dataWrite) (header : bool) (ids : list Z) : bool :=
  forallb (fun id => in_list d id &&
    match chunklist d !! Z.to_nat id with Some c => eqb (HeaderFlag c) header | None => false end) ids.

Definition well_formed {X} (s : Abs X) : bool :=
  let d := dataWrite_ s in
  forallb id (imap (record_ok d) (chunklist d)) &&
  bool_decide (map_Forall (fun _ ids => recipe_ok d false ids) (RecipeMap (recipes d))) &&
  bool_decide (map_Forall (fun _ ids => recipe_ok d true ids) (RecipeMap_header (recipes d))) &&
  bool_decide (map_Forall (fun _ id => in_list d id) (FPindex s)).

Section WellFormed.
Context `{HL : Lz4} `{HX : Xdelta} `{HD : Digest} `{HK : Kinds}.
Context {X : Type} (s : Abs X) (contents origs : list bytes).
Context (Hok : meth_ok s contents origs).

Lemma len_chunklist : length (chunklist (dataWrite_ s)) = length contents.
Proof using Hok. eapply Forall2_length, so_chunks, (mo_store _ _ _ Hok). Qed.

Lemma in_list_lt i : (i < length contents)%nat -> in_list (dataWrite_ s) (Z.of_nat i).
Proof using Hok.
  intros Hi. unfold in_list. rewrite len_length, len_chunklist.
  by rewrite (proj2 (Z.leb_le _ _)), (proj2 (Z.ltb_lt _ _)) by lia.
Qed.

Lemma in_list_stands id t : stands_for origs id t -> in_list (dataWrite_ s) id.
Proof using Hok.
  intros [Hid Ht]. rewrite <- (Z2Nat.id id) by done. apply in_list_lt. rewrite <- (mo_origs _ _ _ Hok). by eapply lookup_lt_Some.
Qed.

Lemma container_len_is k b :
  container_is (fs (dataWrite_ s)) (cur (dataWrite_ s)) k b -> container_len (dataWrite_ s) k = len b.
Proof using Hok.
  destruct (mo_store _ _ _ Hok) as [_ _ _ _ _ S5 S6 _ _ _ _]. unfold container_is, container_len. destruct (k =? _).
  - intros ->. rewrite len_ztake. lia.
  - unfold file_is. intros ->. rewrite len_app, len_le_put. lia.
Qed.

Lemma container_len_max k : 0 <= k <= containerNum (cur (dataWrite_ s)) ->
  container_len (dataWrite_ s) k <= CONTAINER_MAX_SIZE.
Proof using Hok.
  destruct (mo_store _ _ _ Hok) as [_ _ _ _ _ S5 _ S7 _ _ _]. intros Hk. unfold container_len.
  destruct (Z.eqb_spec k (containerNum (cur (dataWrite_ s)))); [lia|]. destruct (S7 k) as (b & -> & Hb); [lia|].
  rewrite len_app, len_le_put. lia.
Qed.

Lemma record_well_formed i c : chunklist (dataWrite_ s) !! i = Some c -> record_ok (dataWrite_ s) i c.
Proof using Hok.
  intros Hc. destruct (mo_ids _ _ _ Hok i c Hc) as (Hid & t & Ht & _).
  destruct (Forall2_lookup_l _ _ _ _ _ (so_chunks _ _ (mo_store _ _ _ Hok)) Hc) as (x & Hx & [P1 P2 P3 (cont & p & Hcont & Hp & Hfit & _ & Hdec)]).
  pose proof (len_nonneg p). pose proof (container_len_is _ _ Hcont) as Hl. pose proof (container_len_max _ P1).
  destruct (mo_plain _ _ _ Hok i t Ht) as (c' & x' & _ & Hc' & Hx' & Hcase). rewrite Nat2Z.id in Hc', Hx'. simplify_eq.
  assert (match deltaFlag c with NO_DELTA => true | NO_LZ4 => saveSize c =? chunkSize c | _ => in_list (dataWrite_ s) (basechunkID c) end) as Hflag.
  { unfold decodes in Hdec. destruct (deltaFlag c); try done.
    2-5: destruct Hcase as (_ & _ & cb & y & Hb & _ & Hy & _);
      rewrite <- (Z2Nat.id (basechunkID c)) by done; apply in_list_lt; by eapply lookup_lt_Some.
    rewrite decide_False in Hdec by done. destruct Hcase as [_ Hcs]. apply Is_true_true, Z.eqb_eq. congruence. }
  unfold record_ok. rewrite Hid. repeat apply andb_prop_intro, conj; try exact Hflag;
    apply Is_true_true; first [apply Z.eqb_eq|apply Z.leb_le]; lia.
Qed.

Lemma recipe_well_formed h ids ts :
  Forall2 (stands_for origs) ids (of_kind h ts) -> recipe_ok (dataWrite_ s) h ids.
Proof using Hok.
  intros HF. unfold recipe_ok. apply Is_true_true, forallb_forall. intros id Hid%list_elem_of_In.
  apply list_elem_of_lookup in Hid as [j Hj]. destruct (Forall2_lookup_l _ _ _ _ _ HF Hj) as (t & Ht & Hst).
  assert (is_header t = h) as Hh by (apply list_elem_of_lookup_2, list_elem_of_filter in Ht; by destruct Ht).
  rewrite (Is_true_true_1 _ (in_list_stands _ _ Hst)). destruct Hst as [H0 Ho].
  destruct (lookup_lt_is_Some_2 (chunklist (dataWrite_ s)) (Z.to_nat id)) as [c Hc].
  { rewrite len_chunklist, <- (mo_origs _ _ _ Hok). by eapply lookup_lt_Some. }
  rewrite Hc. destruct (mo_ids _ _ _ Hok _ _ Hc) as (_ & t' & Ht' & ->). simplify_eq. apply eqb_reflx.
Qed.

Lemma meth_ok_well_formed :
  (forall name, exists ts, Forall2 (stands_for origs) (default [] (RecipeMap (recipes (dataWrite_ s)) !! name)) (of_kind false ts)) ->
  (forall name, exists ts, Forall2 (stands_for origs) (default [] (RecipeMap_header (recipes (dataWrite_ s)) !! name)) (of_kind true ts)) ->
  well_formed s.
Proof using Hok.
  intros Hr Hh. unfold well_formed. repeat apply andb_prop_intro, conj.
  - apply Is_true_true, forallb_forall. intros b Hb%list_elem_of_In. apply list_elem_of_lookup in Hb as [i Hi].
    rewrite list_lookup_imap in Hi. destruct (chunklist (dataWrite_ s) !! i) as [c|] eqn:Hc; [|done].
    injection Hi as <-. by apply Is_true_true, record_well_formed.
  - apply bool_decide_pack. intros name ids Hids. destruct (Hr name) as [ts Hts]. rewrite Hids in Hts. by eapply recipe_well_formed.
  - apply bool_decide_pack. intros name ids Hids. destruct (Hh name) as [ts Hts]. rewrite Hids in Hts. by eapply recipe_well_formed.
  - apply bool_decide_pack. intros h id Hid. destruct (mo_fp _ _ _ Hok h id Hid) as (t & H0 & Ht & _). by eapply in_list_stands.
Qed.
End WellFormed.

(** ** Properties *)

(** C5: the state stays well formed.  Files that suit the way of chunking (any
    bytes for fixed-size and FastCDC, well-formed archives for tar-aware
    chunking; with the headers apart, such archives with no member of a size
    between 4 MiB - 1023 and 4 MiB, a size field of zero bytes in old-style
    members (flag 0), and no header chunk equal to a data chunk) are backed up with one of the five methods that
    store, at most four of them with Palantir and one with the locality method;
    the containers can be written, the chunks number less than 2^31 - 2 and the
    digests differ.  Then after the loop of [main] every record points
    to bytes of a container that exists, deltas name existing bases, the recipes
    and the fingerprint index name existing records, and header chunks are in the
    header recipes only; the exceptions are those of [outcome]: xdelta reports an
    error for two chunks of the run, or (Finesse and the N-transform) the loop
    stops at the block that an oversized delta of two of them overflows. *)
Theorem run_is_well_formed `{HL : Lz4} `{HX : Xdelta} `{HD : Digest} `{!Lz4Laws} `{!XdeltaLaws}
    (k : compressionMethod) (z : Z) (fuel : nat) (m : Mem) (f : Fs) (inputs : list (string * bytes)) (backupNum : nat)
    (Hin : chunkable z fuel (take backupNum inputs).*2)
    (Hm : forall l, (next_loc m <= l)%nat -> heap m !! l = None)
    (Hf : forall i, writable f (container_path i) = true)
    (Hmax : allowed_for k backupNum) (Hn : (backupNum <= length inputs)%nat) (Hnd : NoDup (take backupNum inputs).*1)
    (Hcf : collision_free (queued_data z fuel (take backupNum inputs)))
    (Hcnt : len (queued_data z fuel (take backupNum inputs)) < 2 ^ 31 - 2) :
  exists s0, init_system (HM := method_of k) z m f = Ok s0 /\
    outcome k (queued_data z fuel (take backupNum inputs)) (main_loop fuel inputs backupNum s0)
      (fun r => well_formed (absMethodObj r.2) = true).
Proof.
  destruct (main_backs_up k z fuel m f inputs backupNum) as (HK & inv & c0 & s0 & Hini & _ & Ho); [done..|].
  exists s0. split; [done|]. eapply outcome_mono; [exact Ho| |by intros e ->].
  intros [u s] -> [Hs _]. eexists. split; [done|]. cbn in *. apply Is_true_true.
  destruct Hs as [_ (contents & origs & Hok & _ & _ & Hold) _ Hnames _ _ _].
  assert (forall name, name ∈ (take backupNum inputs).*1 -> exists ms, recorded (dataWrite_ (absMethodObj s)) origs name ms) as Hrec.
  { intros name (x & -> & Hx)%list_elem_of_fmap. destruct (Forall2_zip_ex _ _ _ _ Hold Hx) as (ms & _ & Hms). by exists ms. }
  eapply meth_ok_well_formed; [exact Hok|..]; intros name;
    (destruct (decide (name ∈ (take backupNum inputs).*1)) as [Hn1|Hn1];
      [destruct (Hrec _ Hn1) as (ms & R1 & R2); by eexists|destruct (Hnames _ Hn1) as [E1 E2]; exists []; rewrite ?E1, ?E2; constructor]).
Qed.

Lemma run_is_well_formed_witness :
  exists s0 s, @init_system (@method_of (lz4_c 0 0) StoreCodec.xdelta StoreCodec.digest Use_Dedup) 4 (mkMem ∅ 0) open_fs = Ok s0 /\
    @main_loop (@method_of (lz4_c 0 0) StoreCodec.xdelta StoreCodec.digest Use_Dedup) 2100 demo_inputs 2 s0 = Ok (tt, s) /\
    well_formed (absMethodObj s) = true.
Proof.
  destruct demo_queued_archive as (Hd & Hh & Hq).
  assert (m_content demo_member <> demo_headers) as Hne by (intros E%(f_equal len); by vm_compute in E).
  destruct (@run_is_well_formed (lz4_c 0 0) StoreCodec.xdelta StoreCodec.digest
    (lz4_c_laws 0 0 ltac:(lia) ltac:(lia)) StoreCodec.xdelta_laws Use_Dedup 4 2100 (mkMem ∅ 0) open_fs
    demo_inputs 2) as (s0 & Hi & Ho).
  - right. split; [done|]. split; [exact demo_apart|].
    change (take 2 demo_inputs) with demo_inputs. intros t. rewrite Hd, Hh. by apply twice_apart.
  - reflexivity.
  - reflexivity.
  - exact I.
  - cbn. lia.
  - apply (bool_decide_unpack _). by vm_compute.
  - change (take 2 demo_inputs) with demo_inputs. unfold queued_data. rewrite Hq.
    apply collision_free_twice, demo_digests.
  - change (take 2 demo_inputs) with demo_inputs. unfold queued_data. by rewrite Hq.
  - change (take 2 demo_inputs) with demo_inputs in Ho. unfold queued_data in Ho. rewrite Hq in Ho.
    apply (outcome_unit _ _ _ (fun s => well_formed (absMethodObj s) = true)) in Ho as (s & Hs & Hwf); [exists s0, s; exact (conj Hi (conj Hs Hwf))|repeat constructor; by vm_compute].
Defined.
