(* ===== verification/Migration.v ===== *)
(** * Migratory compression from end to end

    [src/app/main.cc] with the Odess method: the loop over the files feeds the
    index of [Odess], and the calls after the loop write the regrouped chunks
    to [output.me], the files in their own order to [ori], and both compressed
    as a whole.  The theorem says what is on the disk at the end. *)

From stdpp Require Import gmap.
From S2P Require Import Prelude Lz4 Lz4Use Define Chunker Chunking Tar Features Codec DataWrite Store Restore AbsMethod MethodSpec Odess System Modes Main.

Section Migration.
Context `{HL : Lz4}.

(** [draws]: the random coefficients the constructor of the feature generator
    draws. *)
Definition odess_method (draws : list Z) : Method := {|
  MExt := OExt;
  new_ext := new_OExt (new_FeatureGenerator draws);
  method_one := Odess.process_one;
  method_end := modify (fun s => set_version (s32 (ads_Version s + 1)) s)
|}.

(** [main] with this method: the loop, then the calls that follow it. *)
Definition migrate (draws : list Z) (chunkingType : Z) (fuel : nat) (m : Mem) (f : Fs)
    (inputs : list (string * bytes)) (backupNum : nat) : result (unit * System (HM := odess_method draws)) :=
  s ← init_system (HM := odess_method draws) chunkingType m f;
  (main_loop fuel inputs backupNum ;; on_method (HM := odess_method draws) (finish inputs.*1 (Z.of_nat backupNum))) s.

Context (draws : list Z).
#[local] Existing Instance odess_method.

(** ** The loop *)

(** Between two files: the chunker, the index of the chunks so far, and a disk
    that was not touched. *)
Record migrating (c : Chunker) (f : Fs) (ts : list bytes) (s : System (HM := odess_method draws)) : Prop := {
  mg_chunker : chunkerObj s = c;
  mg_indexed : indexed draws ts (absMethodObj s);
  mg_fresh : forall l, (next_loc (mem (dataWrite_ (absMethodObj s))) <= l)%nat ->
    heap (mem (dataWrite_ (absMethodObj s))) !! l = None;
  mg_fs : fs (dataWrite_ (absMethodObj s)) = f
}.

Lemma migrate_file_ok fuel input c c1 f ts s :
  migrating c f ts s -> Chunking fuel input.2 c = Ok c1 -> Forall deliverable (outputMQ c1) ->
  wp (backup_file (HM := odess_method draws) fuel input) (fun _ s' => migrating (drain c1) f (ts ++ (msg_data <$> outputMQ c1)) s') s.
Proof using Type.
  destruct s as [c0 x]. intros [M1 M2 M3 M4] Hch Hdv. cbn [chunkerObj absMethodObj] in *. subst c0.
  unfold backup_file. apply wp_bind, wp_on_method, wp_on_dw. unfold SetFilename. apply wp_modify.
  cbn [chunkerObj absMethodObj]. set (x1 := set_dw _ x).
  apply wp_bind, wp_gets. cbn [chunkerObj]. apply wp_bind. eapply wp_lift_ok; [exact Hch|].
  apply wp_bind, wp_modify. cbn [absMethodObj]. apply wp_bind, wp_on_method, wp_on_dw.
  apply deliver_ok; [exact Hdv|exact M3|]. intros tr d' [V1 [m V2] V3 V4 _ V6]. cbn [absMethodObj chunkerObj].
  apply wp_on_method. cbn [absMethodObj chunkerObj]. rewrite <- V1.
  eapply wp_mono; [eapply odess_trace_ok; [|apply V6]|].
  - change (set_dw d' x1) with (set_dw d' x). eapply (indexed_readable draws ts x d'); [exact M2|]. intros p n y Hy. subst d'. cbn [absMethodObj] in V4 |- *.
    by apply (read_mem_grow (dataWrite_ x1)).
  - intros [] s' [Hi Hdw]. change OExt with (@MExt (odess_method draws)) in Hdw. split; cbn [chunkerObj absMethodObj]; rewrite ?Hdw; [done|done|exact V3|]. cbn. by rewrite V2.
Qed.

Lemma migrate_loop_ok fuel inputs f : forall c mss ce ts s,
  migrating c f ts s -> chunk_all fuel inputs.*2 c = Ok (mss, ce) -> Forall (Forall deliverable) mss ->
  wp (for_each inputs (backup_file (HM := odess_method draws) fuel)) (fun _ s' => migrating ce f (ts ++ all_data mss) s') s.
Proof using Type.
  induction inputs as [|input inputs IH]; intros c mss ce ts s Hm Hall Hdv; cbn [fmap list_fmap chunk_all] in Hall.
  { injection Hall as <- <-. apply wp_ret. unfold all_data. cbn. by rewrite app_nil_r. }
  destruct (Chunking fuel input.2 c) as [c1|] eqn:Hch; [|done]. cbn [mbind result_bind] in Hall.
  destruct (chunk_all fuel inputs.*2 (drain c1)) as [[mss' c2]|] eqn:Hall'; [|done]. injection Hall as <- <-.
  apply Forall_cons_1 in Hdv as [Hd1 Hd2]. cbn [for_each]. apply wp_bind.
  eapply wp_mono; [by eapply migrate_file_ok|]. intros [] s1 Hs1.
  eapply wp_mono; [by eapply IH|]. intros [] s2 Hs2.
  cbn [fst] in *. change (outputMQ c1 :: mss') with ([outputMQ c1] ++ mss'). by rewrite all_data_app, all_data_one, app_assoc.
Qed.

(** ** After the loop *)

Definition outputs : list string := ["output.me"; "output.me.lz4"; "ori"; "ori.lz4"]%string.

(** What the run leaves: the chunks regrouped, the files one after the other,
    each with its compressed file, whose size is in the statistics. *)
Record migrated (ts datas : list bytes) (s : Odess) : Prop := {
  mg_me : files (fs (dataWrite_ s)) !! "output.me"%string = Some (concat (grouped (key0 draws) ts));
  mg_ori : files (fs (dataWrite_ s)) !! "ori"%string = Some (concat datas);
  mg_me_lz4 : exists out, files (fs (dataWrite_ s)) !! "output.me.lz4"%string = Some out /\
    lc_file (concat (grouped (key0 draws) ts)) (stats s MLCSize) out;
  mg_ori_lz4 : exists out, files (fs (dataWrite_ s)) !! "ori.lz4"%string = Some out /\
    lc_file (concat datas) (stats s oriLCSize) out;
  mg_size : stats s logicalchunkSize = w64 (len (concat ts))
}.

Context `{!Lz4Laws}.

Lemma bytes_of_pieces (ts : list bytes) : Forall (fun t => is_bytes t) ts -> is_bytes (concat ts).
Proof using Type. induction 1 as [|t ts Ht _ IH]; [done|]. cbn [concat]. by apply is_bytes_app. Qed.

Lemma is_bytes_perm ts us : ts ≡ₚ us -> is_bytes (concat us) -> is_bytes (concat ts).
Proof using Type.
  intros Hp HF%is_bytes_pieces. rewrite <- Hp in HF. by apply bytes_of_pieces.
Qed.

Lemma finish_ok ts inputs rest s :
  indexed draws ts s -> is_bytes (concat ts) -> is_bytes (concat inputs.*2) ->
  Forall (fun p => writable (fs (dataWrite_ s)) p = true) outputs ->
  Forall (fun input : string * bytes => files (fs (dataWrite_ s)) !! input.1 = Some input.2 /\ input.1 ∉ outputs) inputs ->
  wp (finish (inputs.*1 ++ rest) (len inputs)) (fun _ s' => migrated ts inputs.*2 s') s.
Proof using Type*.
  intros Hi Hts Hin Hw Hf. unfold outputs in Hw. rewrite !Forall_cons in Hw. destruct Hw as (W1 & W2 & W3 & W4 & _).
  set (me := concat (grouped (key0 draws) ts)).
  assert (is_bytes me) as Hme by (eapply is_bytes_perm; [apply grouped_perm|done]).
  unfold finish. apply wp_bind. eapply migratory_ok; [exact Hi|exact W1|]. fold me.
  apply wp_bind. unfold MLC. apply wp_bind. eapply (compress_file_ok _ _ me); [cbn; by rewrite lookup_insert_eq|exact W2|done|].
  intros n1 lz1 Hlz1. apply wp_modify. apply wp_bind. unfold generate_ori. apply wp_bind, wp_on_dw, write_file_ok; [exact W3|].
  apply wp_bind, wp_gets, wp_bind, wp_on_dw, write_file_ok; [exact W3|]. apply wp_ret.
  unfold OriLC. apply wp_bind. unfold OriGenerate. cbn.
  rewrite (ori_generate_ok _ inputs); [|..|done].
  eapply (compress_file_ok _ _ (concat inputs.*2)); [cbn; by rewrite lookup_insert_eq|exact W4|done|].
  intros n2 lz2 Hlz2. split; cbn.
  - by simplify_map_eq.
  - by simplify_map_eq.
  - exists lz1. by simplify_map_eq.
  - exists lz2. by simplify_map_eq.
  - apply (ix_size _ _ _ Hi).
  - eapply Forall_impl; [exact Hf|]. intros [p bs] [Hp Ho]. unfold outputs in Ho. cbn in Hp |- *.
    rewrite !not_elem_of_cons in Ho. by rewrite !lookup_insert_ne by naive_solver.
Qed.
End Migration.

(** A whole run: the loop over the files, then the calls that follow it, which
    are given all the names. *)
Lemma migrate_ok `{HL : Lz4} `{!Lz4Laws} draws z fuel m f (inputs : list (string * bytes)) rest :
  in_order z -> (forall l, (next_loc m <= l)%nat -> heap m !! l = None) -> Forall (fun p => writable f p = true) outputs ->
  Forall (fun input : string * bytes => files f !! input.1 = Some input.2 /\ input.1 ∉ outputs) inputs ->
  Forall (input_ok z fuel) inputs.*2 ->
  exists s0 s', init_system (HM := odess_method draws) z m f = Ok s0 /\
    (for_each inputs (backup_file (HM := odess_method draws) fuel) ;;
     on_method (HM := odess_method draws) (finish (inputs.*1 ++ rest) (len inputs))) s0 = Ok (tt, s') /\
    migrated draws (queued_data z fuel inputs) inputs.*2 (absMethodObj s') /\
    concat (queued_data z fuel inputs) = concat inputs.*2.
Proof.
  intros Hz Hm Hw Hdisk Hin. destruct (queued_in_order z fuel _ Hz Hin) as (c0 & ce & Hnew & Ho & Hall & HR).
  set (s0 := mkSystem c0 (new_Abs (new_dataWrite m f) new_ext) : System (HM := odess_method draws)).
  assert (concat (queued_data z fuel inputs) = concat inputs.*2) as Hcat by apply (all_data_files _ _ HR).
  assert (is_bytes (concat inputs.*2)) as Hb.
  { apply bytes_of_pieces. eapply Forall_impl; [exact Hin|]. apply input_bytes. }
  destruct (wp_result (for_each inputs (backup_file (HM := odess_method draws) fuel) ;;
      on_method (HM := odess_method draws) (finish (inputs.*1 ++ rest) (len inputs)))
    (fun _ s => migrated draws (queued_data z fuel inputs) inputs.*2 (absMethodObj s)) s0) as ([] & s & He & Hs).
  - apply wp_bind. eapply wp_mono; [eapply migrate_loop_ok; [|exact Hall|]|].
    + split; [done|apply new_indexed|exact Hm|done].
    + eapply Forall2_Forall_r; [exact HR|]. apply Forall_true. intros x ms. apply plain_deliverable.
    + intros [] s [_ M2 _ M4]. apply wp_on_method. change (fs (@dataWrite_ OExt (absMethodObj s)) = f) in M4.
      apply (finish_ok (HL := HL) draws); rewrite ?M4; [exact M2|by rewrite <- Hcat in Hb|exact Hb|exact Hw|exact Hdisk].
  - exists s0, s. unfold init_system. rewrite Hnew. by split_and!.
Qed.

(** ** Properties *)

(** Migratory compression from end to end: with fixed-size, FastCDC or
    tar-aware chunking, [main] with the Odess method never faults, and leaves
    [output.me], the chunks of all the files with those of equal first
    super-feature next to each other (groups in the order of their first chunk,
    chunks in their original order within a group), which is a permutation of
    the chunks of the files; [ori], the files one after the other; a
    compressed file for each that decompresses to it; and the sizes of these in
    the statistics. *)
Theorem migration_keeps_every_byte `{HL : Lz4} `{!Lz4Laws}
    (draws : list Z) (z : Z) (fuel : nat) (m : Mem) (f : Fs) (inputs : list (string * bytes)) (backupNum : nat)
    (Hz : in_order z)
    (Hm : forall l, (next_loc m <= l)%nat -> heap m !! l = None)
    (Hw : Forall (fun p => writable f p = true) outputs)
    (Hn : (backupNum <= length inputs)%nat)
    (Hdisk : Forall (fun input : string * bytes => files f !! input.1 = Some input.2 /\ input.1 ∉ outputs) (take backupNum inputs))
    (Hin : Forall (input_ok z fuel) (take backupNum inputs).*2) :
  let datas := (take backupNum inputs).*2 in
  let chunks := queued_data z fuel (take backupNum inputs) in
  exists s', migrate draws z fuel m f inputs backupNum = Ok (tt, s') /\
    migrated draws chunks datas (absMethodObj s') /\
    grouped (key0 draws) chunks ≡ₚ chunks /\ concat chunks = concat datas.
Proof.
  intros ds chunks. destruct (migrate_ok draws z fuel m f (take backupNum inputs) (drop backupNum inputs).*1)
    as (s0 & s' & H1 & H2 & H3 & H4); [done..|].
  exists s'. split; [|split; [exact H3|split; [apply grouped_perm|exact H4]]].
  unfold migrate. rewrite H1. cbn [mbind result_bind].
  rewrite <- H2, <- fmap_app, take_drop. unfold mbind, M_bind. rewrite main_loop_take by done.
  by rewrite len_length, length_take, Nat.min_l.
Qed.

Definition demo_disk : Fs := mkFs (list_to_map [("a", [1; 2; 3]); ("b", [1; 2; 3])]%string) (fun _ => true).

Lemma migration_keeps_every_byte_witness :
  let inputs := [("a"%string, [1; 2; 3]); ("b"%string, [1; 2; 3])] in
  let chunks := queued_data 1 8 (take 2 inputs) in
  let draws := replicate 24 5 in
  exists s', @migrate (lz4_c 0 0) draws 1 8 (mkMem ∅ 0) demo_disk inputs 2 = Ok (tt, s') /\
    @migrated (lz4_c 0 0) draws chunks [[1; 2; 3]; [1; 2; 3]] (absMethodObj s') /\
    grouped (key0 draws) chunks ≡ₚ chunks /\ concat chunks = [1; 2; 3; 1; 2; 3].
Proof.
  intros inputs chunks draws.
  refine (@migration_keeps_every_byte (lz4_c 0 0) (lz4_c_laws 0 0 ltac:(lia) ltac:(lia))
    draws 1 8 (mkMem ∅ 0) demo_disk inputs 2 _ _ _ _ _ _).
  - right. by left.
  - reflexivity.
  - repeat constructor.
  - cbn. lia.
  - repeat (constructor; [split; [by vm_compute|apply (bool_decide_unpack _); by vm_compute]|]). constructor.
  - repeat constructor.
Defined.
