(* ===== verification/Program.v ===== *)
(** * The programs

    [main] of [src/app/delta.cc] and of [src/app/main.cc], from the command
    line to the reports: the options, the choice of the method, the walk over
    the directory and the order of its files, the loop, what follows it.  The
    first backs files up and logs every version; the second regroups and
    compresses.  [getopt], [std::sort], the clocks and the random coefficients
    are given; so are the files, which do not change while they are read. *)

From stdpp Require Import gmap.
From Stdlib Require Import Ascii.
From S2P Require Import Prelude Lz4 Lz4Use Define Walk Chunker Chunking Tar MultiHeader Codec DataWrite Store Restore MethodSpec DeltaSpec.
From S2P Require Import HeaderRestore AbsMethod Features Finesse Palantir Locality Odess Logs System Modes Main Accounts Migration.

(** ** The command line *)

Definition isspace (c : ascii) : bool :=
  let n := Z.of_N (N_of_ascii c) in (n =? 32) || ((9 <=? n) && (n <=? 13)).

Fixpoint skip_space (s : list ascii) : list ascii :=
  match s with
  | c :: s' => if isspace c then skip_space s' else s
  | [] => []
  end.

(** [atoi]: [strtol], which stops at the ends of [long], cast to [int]. *)
Definition atoi (s : string) : Z :=
  let cs := skip_space (String.list_ascii_of_string s) in
  let n := match cs with
           | "-"%char :: cs' => - (read_int 0 cs').1
           | "+"%char :: cs' => (read_int 0 cs').1
           | _ => (read_int 0 cs).1
           end in
  s32 (Z.max (- 2 ^ 63) (Z.min (2 ^ 63 - 1) n)).

(** The variables the options set; three have no initial value. *)
Record Options := mkOptions {
  dirName : string;
  chunkingType : option Z;
  compressionMethod_ : option Z;
  backupNum : option Z;
  ratio : Z
}.

Definition no_options : Options := mkOptions "" None None None 8.

(** One [getopt] result: the option and [optarg]. *)
Definition set_option (o : Options) (opt : ascii * string) : Options :=
  match opt.1 with
  | "i"%char => mkOptions opt.2 (chunkingType o) (compressionMethod_ o) (backupNum o) (ratio o)
  | "c"%char => mkOptions (dirName o) (Some (w32 (atoi opt.2))) (compressionMethod_ o) (backupNum o) (ratio o)
  | "m"%char => mkOptions (dirName o) (chunkingType o) (Some (w32 (atoi opt.2))) (backupNum o) (ratio o)
  | "n"%char => mkOptions (dirName o) (chunkingType o) (compressionMethod_ o) (Some (w32 (atoi opt.2))) (ratio o)
  | "r"%char => mkOptions (dirName o) (chunkingType o) (compressionMethod_ o) (backupNum o) (atoi opt.2)
  | _ => o
  end.

Definition parse_options (opts : list (ascii * string)) : Options := fold_left set_option opts no_options.

(** [sizeof(optString)]. *)
Definition sizeof_optString : Z := 11.

(** The test on [argc]: four options, or five. *)
Definition argc_ok (argc : Z) : bool := (argc =? sizeof_optString) || (argc =? sizeof_optString - 2).

(** ** The methods *)

Section Methods.
Context `{HL : Lz4} `{HX : Xdelta} `{HD : Digest}.

(** The coefficients the constructors of the methods draw. *)
Record Draws := mkDraws {
  ntrans_m : list Z;
  ntrans_a : list Z;
  palantir_gen : FeatureGenerator;
  odess_draws : list Z
}.

(** The values of [METHOD_TYPE]. *)
Definition method_type (n : Z) : option METHOD_TYPE :=
  if n <? 0 then None else [DEDUP; NTRANSFORM; FINESSE; ODESS; PALANTIR; BiSEARCH; LOCALITY] !! Z.to_nat n.

(** [switch (compressionMethod)]: no other value, and not [BiSEARCH], sets
    [absMethodObj]. *)
Definition select (dr : Draws) (compressionMethod : Z) : option Method :=
  t ← method_type compressionMethod;
  match t with
  | DEDUP => Some dedup_method
  | NTRANSFORM => Some (ntrans_method (ntrans_m dr) (ntrans_a dr))
  | FINESSE => Some finesse_method
  | ODESS => Some (odess_method (odess_draws dr))
  | PALANTIR => Some (palantir_method (palantir_gen dr))
  | LOCALITY => Some locality_method
  | BiSEARCH => None
  end.

(** ** The loop of [delta.cc] *)

(** What the clocks measured when version [i] was over. *)
Record Timing := mkTiming {
  meters : Meters;
  TimeTmp : double;
  ChunkTime : double
}.

(** [Version_log] is virtual, and [Palantir] overrides one overload of it. *)
Definition log_version (compressionMethod : Z) (g : stat -> Z) (ads_Version : Z) (t : Timing) (p : Pre) : list item * Pre :=
  if negb (compressionMethod =? 5) then
    (if bool_decide (method_type compressionMethod = Some PALANTIR) then Palantir_Version_log else Version_log)
      g (meters t) ads_Version (TimeTmp t) p
  else Version_log_chunktime g (meters t) ads_Version (TimeTmp t) (ChunkTime t) p.

(** [Chunker::LoadChunkFile] leaves the program when the file does not open. *)
Definition LoadChunkFile (disk : gmap string bytes) (path : string) : result bytes :=
  from_option_or ExitFailure (disk !! path).

Section Delta.
Context `{HM : Method}.

Record Delta := mkDelta { system : System; pre : Pre; cout : list item }.

Definition on_system {A} (m : M System A) : M Delta A := fun d =>
  match m (system d) with
  | Ok (a, s) => Ok (a, mkDelta s (pre d) (cout d))
  | Err e => Err e
  end.

Definition log_step (compressionMethod : Z) (t : Timing) (d : Delta) : Delta :=
  let a := absMethodObj (system d) in
  let r := log_version compressionMethod (stats a) (ads_Version a) t (pre d) in
  mkDelta (system d) r.2 (cout d ++ r.1).

(** An iteration: [readfileList[i]], its file, the two threads, the report. *)
Definition delta_file (fuel : nat) (compressionMethod : Z) (clock : nat -> Timing) (disk : gmap string bytes)
    (readfileList : list string) (i : nat) : M Delta unit :=
  name ← lift (from_option_or OobRead (readfileList !! i));
  file ← lift (LoadChunkFile disk name);
  on_system (backup_file fuel (name, file)) ;;
  modify (log_step compressionMethod (clock i)).

Definition delta_loop (fuel : nat) (compressionMethod : Z) (clock : nat -> Timing) (disk : gmap string bytes)
    (readfileList : list string) (n : nat) : M Delta unit :=
  for_each (seq 0 n) (delta_file fuel compressionMethod clock disk readfileList).

(** The loop of [main.cc] is the same without the report. *)
Definition main_file (fuel : nat) (disk : gmap string bytes) (readfileList : list string) (i : nat) : M System unit :=
  name ← lift (from_option_or OobRead (readfileList !! i));
  file ← lift (LoadChunkFile disk name);
  backup_file fuel (name, file).
End Delta.

(** ** [main] *)

(** What the surroundings give the programs: the options [getopt] finds, the
    directories, [std::sort] with [compareNat], the state the process starts
    from, the coefficients, the clocks, and fuel for the chunker. *)
Record World := mkWorld {
  argc : Z;
  argv0 : string;
  getopt : list (ascii * string);
  opendir : string -> directory;
  sort : list string -> list string;
  memory : Mem;
  disk_ : Fs;
  draws : Draws;
  clock : nat -> Timing;
  total_seconds : Z;
  last_meters : Meters;
  stamp : string;
  chunk_time : double;
  start_preSFTime : double;
  can_open_log : bool;
  chunk_info_log : Log;
  fuel_ : nat
}.

Inductive Exit :=
  | Usage (cout : list item)
  | Done (d : dataWrite) (cout : list item) (log : Log).

(** Up to the loop: the chunker, the method, the files (rewritten, when the
    type is [MTAR]) and their number. *)
Record Setup := mkSetup {
  su_chunkingType : Z;
  su_compressionMethod : Z;
  su_backupNum : Z;
  su_names : list string;
  su_disk : gmap string bytes;
  su_chunker : Chunker
}.

Definition set_up (w : World) (o : Options) : result Setup :=
  ct ← from_option_or Uninit (chunkingType o);
  c ← new_Chunker (s32 ct);
  cm ← from_option_or Uninit (compressionMethod_ o);
  let readfileList := sort w (traverse_dir nofilter (dirName o) (opendir w (dirName o)) []) in
  n ← from_option_or Uninit (backupNum o);
  r ← (if bool_decide (chunk_type_of_int (s32 ct) = Some MTAR)
       then MTar (fuel_ w) readfileList (Z.to_nat n) (files (disk_ w)) c
       else Ok (readfileList, files (disk_ w), c));
  Ok (mkSetup ct cm n r.1.1 r.1.2 r.2).

Definition start_system (HM : Method) (w : World) (u : Setup) : System :=
  mkSystem (su_chunker u)
    (new_Abs (new_dataWrite (memory w) (mkFs (su_disk u) (writable (disk_ w)))) new_ext).

(** [main] of [delta.cc]. *)
Definition delta_main (w : World) : result Exit :=
  if argc_ok (argc w) then
    let o := parse_options (getopt w) in
    u ← set_up w o;
    HM ← from_option_or Uninit (select (draws w) (su_compressionMethod u));
    let cm := su_compressionMethod u in
    r ← delta_loop (fuel_ w) cm (clock w) (su_disk u) (su_names u) (Z.to_nat (su_backupNum u))
          (mkDelta (start_system HM w u) (new_Pre (start_preSFTime w)) []);
    let d := r.2 in
    let g := stats (absMethodObj (system d)) in
    let ratio_ := double_of (ratio o) in
    let out := cout d ++ entry_in "Time taken by for loop: " (Number (total_seconds w)) " s " ++ totals_lines g (stamp w) in
    Ok (Done (dataWrite_ (absMethodObj (system d))) out
      (if negb (cm =? 5)
       then PrintChunkInfo (can_open_log w) g (last_meters w) (dirName o) (s32 (su_chunkingType u)) (s32 cm)
              (s32 (su_backupNum u)) (total_seconds w) ratio_ (chunk_info_log w)
       else PrintChunkInfo_chunktime (can_open_log w) g (last_meters w) (dirName o) (s32 (su_chunkingType u)) (s32 cm)
              (s32 (su_backupNum u)) (total_seconds w) ratio_ (chunk_time w) (chunk_info_log w)))
  else Ok (Usage (usage_lines (argc w) (argv0 w))).

(** [Migratory] and [MLC] are virtual, and do nothing but in [Odess]. *)
Definition finish_main (HM : Method) (own : M (Abs MExt) unit) (u : Setup) : M System unit :=
  on_method own ;;
  on_method (generate_ori (su_names u) (s32 (su_backupNum u))) ;;
  on_method (OriLC "ori").

Definition main_loop_of (HM : Method) (w : World) (u : Setup) : M System unit :=
  for_each (seq 0 (Z.to_nat (su_backupNum u))) (main_file (fuel_ w) (su_disk u) (su_names u)).

(** [main] of [main.cc]. *)
Definition main_run (HM : Method) (own : M (Abs MExt) unit) (w : World) (o : Options) (u : Setup) : result Exit :=
  r ← (main_loop_of HM w u ;; finish_main HM own u) (start_system HM w u);
  let a := absMethodObj r.2 in
  Ok (Done (dataWrite_ a)
    (migration_lines (stats a) (dirName o) (su_chunkingType u) (su_compressionMethod u) (su_backupNum u))
    (chunk_info_log w)).

Definition main_main (w : World) : result Exit :=
  if argc_ok (argc w) then
    let o := parse_options (getopt w) in
    u ← set_up w o;
    if bool_decide (method_type (su_compressionMethod u) = Some ODESS)
    then main_run (odess_method (odess_draws (draws w))) (Migratory ;; MLC) w o u
    else
      HM ← from_option_or Uninit (select (draws w) (su_compressionMethod u));
      main_run HM (mret tt) w o u
  else Ok (Usage (usage_lines (argc w) (argv0 w))).
End Methods.

(** ** The loops are the loop of the system *)

Section Loops.
Context `{HM : Method}.
Context (fuel : nat) (disk : gmap string bytes) (inputs : list (string * bytes)) (rest : list string).
Context (Hdisk : Forall (fun input => disk !! input.1 = Some input.2) inputs).

Let readfileList : list string := inputs.*1 ++ rest.

Lemma input_name i name file : inputs !! i = Some (name, file) -> readfileList !! i = Some name /\ disk !! name = Some file.
Proof using Hdisk.
  intros Hi. split.
  - unfold readfileList. apply lookup_app_l_Some. by rewrite list_lookup_fmap, Hi.
  - rewrite Forall_forall in Hdisk. apply (Hdisk (name, file)). by eapply list_elem_of_lookup_2.
Qed.

Lemma take_S_input i name file : inputs !! i = Some (name, file) -> take (S i) inputs = take i inputs ++ [(name, file)].
Proof using Type. apply take_S_r. Qed.

Lemma for_each_app {S A} (a b : list A) (f : A -> M S unit) s :
  for_each (a ++ b) f s = match for_each a f s with Ok (_, s') => for_each b f s' | Err e => Err e end.
Proof using Type.
  revert s. induction a as [|x a IH]; intros s; [done|]. cbn [app for_each]. unfold mbind, M_bind.
  destruct (f x s) as [[u s']|]; [apply IH|done].
Qed.

Lemma for_each_one {S A} (x : A) (f : A -> M S unit) s : for_each [x] f s = f x s.
Proof using Type. cbn. unfold mbind, M_bind. by destruct (f x s) as [[[] s']|]. Qed.

(** The loop of [main.cc]. *)
Lemma main_file_loop n : (n <= length inputs)%nat -> forall s,
  for_each (seq 0 n) (main_file fuel disk readfileList) s = for_each (take n inputs) (backup_file fuel) s.
Proof using Hdisk.
  induction n as [|n IH]; intros Hn s; [done|].
  destruct (lookup_lt_is_Some_2 inputs n) as [[name file] Hin]; [lia|]. destruct (input_name _ _ _ Hin) as [H1 H2].
  rewrite seq_S, (take_S_input _ _ _ Hin), !for_each_app, IH by lia. destruct (for_each (take n inputs) _ s) as [[[] s1]|]; [|done].
  rewrite !for_each_one. unfold main_file, LoadChunkFile, mbind, M_bind, lift. cbn [plus]. rewrite H1. cbn [from_option_or]. by rewrite H2.
Qed.

(** What the report of version [i] is made from. *)
Definition logged (cm : Z) (t : Timing) (before after : System) (r : list item) : Prop :=
  exists p, preLogicalchunkiSize p = stats (absMethodObj before) logicalchunkSize /\ preuniquechunkSize p = 0 /\
    r = (log_version cm (stats (absMethodObj after)) (ads_Version (absMethodObj after)) t p).1.

Lemma log_version_pre cm g v t p : cm <> 5 -> let p' := (log_version cm g v t p).2 in
  preLogicalchunkiSize p' = g logicalchunkSize /\ preuniquechunkSize p' = preuniquechunkSize p.
Proof using Type. intros Hcm. unfold log_version. rewrite (proj2 (Z.eqb_neq _ _) Hcm). cbn. by destruct (bool_decide _). Qed.

(** The loop of [delta.cc] runs as that of the system, and logs every file. *)
Lemma delta_loop_ok cm clock (R : nat -> System -> Prop) d0 n : cm <> 5 -> (n <= length inputs)%nat ->
  preLogicalchunkiSize (pre d0) = stats (absMethodObj (system d0)) logicalchunkSize -> preuniquechunkSize (pre d0) = 0 ->
  (forall i, (i <= n)%nat -> exists s, for_each (take i inputs) (backup_file fuel) (system d0) = Ok (tt, s) /\ R i s) ->
  exists d reports, delta_loop fuel cm clock disk readfileList n d0 = Ok (tt, d) /\
    for_each (take n inputs) (backup_file fuel) (system d0) = Ok (tt, system d) /\
    cout d = cout d0 ++ concat reports /\ length reports = n /\
    preLogicalchunkiSize (pre d) = stats (absMethodObj (system d)) logicalchunkSize /\ preuniquechunkSize (pre d) = 0 /\
    forall i, (i < n)%nat -> exists s s' r, R i s /\ R (S i) s' /\ reports !! i = Some r /\ logged cm (clock i) s s' r.
Proof using Hdisk.
  intros Hcm. induction n as [|n IH]; intros Hn Hp Hu HR.
  { exists d0, []. split_and!; try done; [by rewrite app_nil_r|lia]. }
  destruct IH as (d & reports & E1 & E2 & E3 & E4 & E5 & E6 & E7); [lia|done|done|intros i Hi; apply HR; lia|].
  destruct (lookup_lt_is_Some_2 inputs n) as [[name file] Hin]; [lia|]. destruct (input_name _ _ _ Hin) as [H1 H2].
  destruct (HR n) as (s & Es & Rs); [lia|]. destruct (HR (S n)) as (s' & Es' & Rs'); [lia|].
  assert (s = system d) as -> by congruence.
  pose proof Es' as Eb. rewrite (take_S_input _ _ _ Hin), for_each_app, E2, for_each_one in Eb.
  set (d1 := log_step cm (clock n) (mkDelta s' (pre d) (cout d))).
  exists d1, (reports ++ [(log_version cm (stats (absMethodObj s')) (ads_Version (absMethodObj s')) (clock n) (pre d)).1]).
  destruct (log_version_pre cm (stats (absMethodObj s')) (ads_Version (absMethodObj s')) (clock n) (pre d) Hcm) as [L1 L2].
  split_and!.
  - unfold delta_loop in *. rewrite seq_S, for_each_app, E1, for_each_one. unfold delta_file, LoadChunkFile, mbind, M_bind, lift, on_system. cbn [plus].
    rewrite H1. cbn [from_option_or]. rewrite H2. cbn [from_option_or]. by rewrite Eb.
  - done.
  - unfold d1. cbn [log_step cout system pre absMethodObj]. rewrite E3, concat_app, <- app_assoc. cbn [concat]. by rewrite app_nil_r.
  - rewrite length_app, E4. cbn. lia.
  - exact L1.
  - unfold d1. cbn [log_step pre system]. by rewrite L2, E6.
  - intros i Hi. destruct (decide (i = n)) as [->|Hne].
    + eexists (system d), s', _. split; [done|]. split; [done|]. split; [by rewrite lookup_app_r, E4, Nat.sub_diag by lia|].
      exists (pre d). by rewrite E5.
    + destruct (E7 i) as (si & si' & r & T1 & T2 & T3 & T4); [lia|]. exists si, si', r.
      split; [done|]. split; [done|]. split; [|done]. by apply lookup_app_l_Some.
Qed.

(** A fault stops it where it stops that of the system. *)
Lemma delta_loop_system cm clock n : (n <= length inputs)%nat -> forall d0,
  match for_each (take n inputs) (backup_file fuel) (system d0) with
  | Ok (_, s) => exists d, delta_loop fuel cm clock disk readfileList n d0 = Ok (tt, d) /\ system d = s
  | Err e => delta_loop fuel cm clock disk readfileList n d0 = Err e
  end.
Proof using Hdisk.
  induction n as [|n IH]; intros Hn d0; [by exists d0|].
  destruct (lookup_lt_is_Some_2 inputs n) as [[name file] Hin]; [lia|]. destruct (input_name _ _ _ Hin) as [H1 H2].
  specialize (IH ltac:(lia) d0). unfold delta_loop in *. rewrite (take_S_input _ _ _ Hin), seq_S, !for_each_app.
  destruct (for_each (take n inputs) _ (system d0)) as [[u s]|e]; [|by rewrite IH].
  destruct IH as (d & E & <-). rewrite E, !for_each_one. cbn [plus].
  unfold delta_file, LoadChunkFile, mbind, M_bind, lift, on_system. rewrite H1. cbn [from_option_or]. rewrite H2. cbn [from_option_or].
  destruct (backup_file fuel (name, file) (system d)) as [[[] s]|e]; [|done]. by eexists.
Qed.
End Loops.

(** ** What a run needs *)

(** The methods that store files, by number. *)
Definition kind_of (dr : Draws) (cm : Z) : option compressionMethod :=
  t ← method_type cm;
  match t with
  | DEDUP => Some Use_Dedup
  | NTRANSFORM => Some (Use_NTransForm (ntrans_m dr) (ntrans_a dr))
  | FINESSE => Some Use_Finesse
  | PALANTIR => Some (Use_Palantir (palantir_gen dr))
  | LOCALITY => Some Use_Locality
  | ODESS | BiSEARCH => None
  end.

Lemma select_kind `{HL : Lz4} `{HX : Xdelta} `{HD : Digest} dr cm k : kind_of dr cm = Some k ->
  select dr cm = Some (method_of k) /\ cm <> 5.
Proof.
  unfold kind_of, select. intros Hk. split; [|by intros ->].
  destruct (method_type cm) as [[]|]; cbn in *; try done; by injection Hk as <-.
Qed.

(** The files behind names. *)
Definition inputs_of (disk : gmap string bytes) (names : list string) : list (string * bytes) :=
  omap (fun name => pair name <$> disk !! name) names.

Definition readable (disk : gmap string bytes) (names : list string) : Prop := Forall (fun name => is_Some (disk !! name)) names.

Lemma inputs_of_names disk names : readable disk names -> (inputs_of disk names).*1 = names.
Proof.
  induction 1 as [|name names [file Hf] _ IH]; [done|]. unfold inputs_of in *. cbn. rewrite Hf. cbn. by rewrite IH.
Qed.

Lemma inputs_of_disk disk names : Forall (fun input : string * bytes => disk !! input.1 = Some input.2) (inputs_of disk names).
Proof.
  induction names as [|name names IH]; [constructor|]. unfold inputs_of. cbn.
  destruct (disk !! name) eqn:Hf; cbn; [by constructor|done].
Qed.

Lemma inputs_of_elem disk names name file : name ∈ names -> disk !! name = Some file -> (name, file) ∈ inputs_of disk names.
Proof. intros Hn Hf. apply list_elem_of_omap. exists name. by rewrite Hf. Qed.

Definition readfiles (w : World) (dir : string) : list string := sort w (traverse_dir nofilter dir (opendir w dir) []).

(** The command line names a directory, a way of chunking [z], a method and the
    number [n] of files to back up.  Nothing is said of [std::sort], which is
    promised to permute for strict weak orders only, and [compareNat] puts a name
    before itself: the list it leaves has at least [n] names, the first [n] are
    different, and their files can be read. *)
Record asked (w : World) (dir : string) (z cm : Z) (n : nat) : Prop := {
  as_argc : argc_ok (argc w) = true;
  as_options : exists r, parse_options (getopt w) = mkOptions dir (Some z) (Some cm) (Some (Z.of_nat n)) r;
  as_number : (n <= length (readfiles w dir))%nat;
  as_distinct : NoDup (take n (readfiles w dir));
  as_readable : readable (files (disk_ w)) (take n (readfiles w dir))
}.

Section Asked.
Context (w : World) (dir : string) (z cm : Z) (n : nat) (Hw : asked w dir z cm n).

(** The files that are backed up. *)
Definition backed : list (string * bytes) := inputs_of (files (disk_ w)) (take n (readfiles w dir)).

Lemma backed_names : backed.*1 = take n (readfiles w dir).
Proof using Hw. apply inputs_of_names, (as_readable _ _ _ _ _ Hw). Qed.

Lemma backed_length : length backed = n.
Proof using Hw.
  rewrite <- (length_fmap fst), backed_names, length_take. pose proof (as_number _ _ _ _ _ Hw). lia.
Qed.

Lemma backed_take : take n backed = backed.
Proof using Hw. apply take_ge. by rewrite backed_length. Qed.

Lemma backed_distinct : NoDup backed.*1.
Proof using Hw. rewrite backed_names. apply (as_distinct _ _ _ _ _ Hw). Qed.

Lemma set_up_ok o c0 : chunkingType o = Some z -> compressionMethod_ o = Some cm -> backupNum o = Some (Z.of_nat n) ->
  dirName o = dir -> z ∈ [0; 1; 3; 4] -> new_Chunker z = Ok c0 ->
  set_up w o = Ok (mkSetup z cm (Z.of_nat n) (backed.*1 ++ drop n (readfiles w dir)) (files (disk_ w)) c0).
Proof using Hw.
  intros Ho1 Ho2 Ho3 Ho4 Hz Hc. unfold set_up. rewrite Ho1. cbn [from_option_or mbind result_bind].
  assert (s32 z = z /\ chunk_type_of_int z <> Some MTAR) as [-> Hm] by (set_unfold in Hz; by repeat destruct Hz as [->|Hz]).
  rewrite Hc, Ho2, Ho3, Ho4, bool_decide_eq_false_2 by done. cbn [mbind result_bind fst snd from_option_or].
  by rewrite backed_names, take_drop.
Qed.
End Asked.

(** The files suit the way of chunking and the method, their chunks have digests
    of their own and fit the chunk numbers, and there is room. *)
Record able `{HL : Lz4} `{HX : Xdelta} `{HD : Digest} (k : compressionMethod) (z : Z) (fuel : nat) (m : Mem) (f : Fs)
    (inputs : list (string * bytes)) : Prop := {
  ab_heap : forall l, (next_loc m <= l)%nat -> heap m !! l = None;
  ab_room : forall i, writable f (container_path i) = true;
  ab_allowed : allowed_for k (length inputs);
  ab_chunkable : chunkable z fuel inputs.*2;
  ab_collisions : collision_free (queued_data z fuel inputs);
  ab_count : len (queued_data z fuel inputs) < 2 ^ 31 - 2
}.

Section Runs.
Context `{HL : Lz4} `{HX : Xdelta} `{HD : Digest} {LL : Lz4Laws} {XL : XdeltaLaws}.
Context (w : World) (k : compressionMethod) (dir : string) (z cm : Z) (n : nat).
Context (Hw : asked w dir z cm n) (Hk : kind_of (draws w) cm = Some k).
Context (Hab : able k z (fuel_ w) (memory w) (disk_ w) (backed w dir n)).

#[local] Notation inputs := (backed w dir n).

#[local] Notation chunks_ := (queued_data z (fuel_ w) inputs).

(** Every file can be restored from what the loop leaves. *)
Definition restorable_from (s : System (HM := method_of k)) : Prop := forall name file, (name, file) ∈ inputs ->
  writable (disk_ w) (restore_path name) = true ->
  exists d', restore_one z (fuel_ w) name (dataWrite_ (absMethodObj s)) = Ok (tt, d') /\ files (fs d') !! restore_path name = Some file.

(** The loop of the system. *)
Lemma loop_backs_up : exists s0, init_system (HM := method_of k) z (memory w) (disk_ w) = Ok s0 /\ stats (absMethodObj s0) = (fun _ => 0) /\
  outcome k chunks_ (main_loop (HM := method_of k) (fuel_ w) inputs n s0) (fun r => restorable_from r.2).
Proof using Hw Hab LL XL.
  destruct Hab as [A1 A2 A3 A4 A6 A7]. pose proof (backed_length _ _ _ _ _ Hw) as Hl. pose proof (backed_take _ _ _ _ _ Hw) as Ht.
  rewrite Hl in A3.
  destruct (main_backs_up k z (fuel_ w) (memory w) (disk_ w) inputs n) as (HK & inv & c0 & s0 & H1 & H2 & Ho);
    rewrite ?Ht; try done; [by rewrite Hl|apply (backed_distinct _ _ _ _ _ Hw)|].
  rewrite Ht in Ho. exists s0. split; [done|]. split; [done|]. eapply outcome_mono; [exact Ho| |by intros e ->].
  intros [u s] -> [_ Hres]. eexists. split; [done|]. intros name file Hf Hwr. specialize (Hres name file Hf Hwr).
  apply wp_result in Hres as (u' & s' & Hr & Hfile). cbn [snd] in *. apply on_method_inv in Hr. unfold on_dw in Hr.
  destruct (restore_one z (fuel_ w) name _) as [[[] d']|]; [|done]. injection Hr as _ Hr. exists d'. split; [done|].
  by rewrite <- Hr in Hfile.
Qed.

(** A loop that goes well goes well up to any file. *)
Lemma loop_prefix {S A} (f : A -> M S unit) l s s' i : for_each l f s = Ok (tt, s') -> exists si, for_each (take i l) f s = Ok (tt, si).
Proof using Type.
  rewrite <- (take_drop i l) at 1. rewrite for_each_app. destruct (for_each (take i l) f s) as [[[] si]|]; [|done]. intros _. by exists si.
Qed.

Lemma asked_type : z ∈ [0; 1; 3; 4].
Proof using Hab. clear - Hab. destruct (ab_chunkable _ _ _ _ _ _ Hab) as [[Hz _]|[-> _]]; [|set_solver]. destruct Hz as [->|[->| ->]]; set_solver. Qed.

(** [delta_main] as the loop of the system with a report after every file. *)
Definition delta_done (s0 : System (HM := method_of k)) (ex : Exit) : Prop := exists (s : System (HM := method_of k)) reports out log,
  ex = Done (dataWrite_ (absMethodObj s)) (concat reports ++ out) log /\ restorable_from s /\ length reports = n /\
  forall i, (i < n)%nat -> exists si si' r, for_each (take i inputs) (backup_file (fuel_ w)) s0 = Ok (tt, si) /\
    for_each (take (S i) inputs) (backup_file (fuel_ w)) s0 = Ok (tt, si') /\ reports !! i = Some r /\
    logged (HM := method_of k) cm (clock w i) si si' r.

Lemma delta_main_run : exists s0, init_system (HM := method_of k) z (memory w) (disk_ w) = Ok s0 /\
  stats (absMethodObj s0) = (fun _ => 0) /\ outcome k chunks_ (delta_main w) (delta_done s0).
Proof using Type*.
  destruct loop_backs_up as (s0 & Hi & H0 & Ho). destruct (select_kind _ _ _ Hk) as [Hsel Hcm]. exists s0. split; [done|]. split; [done|].
  pose proof Hi as Hn. unfold init_system in Hn. destruct (new_Chunker z) as [c0|] eqn:Hc; [|done]. injection Hn as Hn.
  destruct (as_options _ _ _ _ _ Hw) as [r Hr]. pose proof (backed_length _ _ _ _ _ Hw) as Hl.
  rewrite main_loop_take in Ho by (by rewrite Hl).
  unfold delta_main. rewrite (as_argc _ _ _ _ _ Hw), Hr.
  rewrite (set_up_ok w dir z cm n Hw (mkOptions dir (Some z) (Some cm) (Some (Z.of_nat n)) r) c0 eq_refl eq_refl eq_refl eq_refl asked_type Hc). cbn [mbind result_bind su_compressionMethod].
  rewrite Hsel. cbn [from_option_or mbind result_bind su_disk su_names su_backupNum]. rewrite Nat2Z.id.
  assert (start_system (method_of k) w (mkSetup z cm (Z.of_nat n) (backed w dir n).*1 (files (disk_ w)) c0) = s0) as Hst.
  { unfold start_system. cbn. rewrite <- Hn. by destruct (disk_ w). }
  change (start_system (method_of k) w (mkSetup z cm (Z.of_nat n) _ _ _)) with
    (start_system (method_of k) w (mkSetup z cm (Z.of_nat n) (backed w dir n).*1 (files (disk_ w)) c0)). rewrite Hst.
  set (d0 := mkDelta s0 (new_Pre (start_preSFTime w)) []).
  pose proof (delta_loop_system (HM := method_of k) (fuel_ w) (files (disk_ w)) inputs (drop n (readfiles w dir))
    (inputs_of_disk _ _) cm (clock w) n ltac:(by rewrite Hl) d0) as Hsys. cbn [system d0] in Hsys.
  eapply outcome_mono; [exact Ho| |intros e He; rewrite He in Hsys; by rewrite Hsys].
  intros [[] s] Hs Hres. clear Hsys.
  destruct (delta_loop_ok (HM := method_of k) (fuel_ w) (files (disk_ w)) inputs (drop n (readfiles w dir))
    (inputs_of_disk _ _) cm (clock w) (fun i si => for_each (take i inputs) (backup_file (fuel_ w)) s0 = Ok (tt, si))
    d0 n) as (d & reports & E1 & E2 & E3 & E4 & _ & _ & E7); try done.
  - by rewrite Hl.
  - cbn. by rewrite H0.
  - intros i Hi'. cbn [system d0]. destruct (loop_prefix _ _ _ _ i Hs) as [si Hsi]. exists si.
    rewrite take_take in Hsi. by rewrite (Nat.min_l i n) in Hsi.
  - cbn [system d0] in E2. rewrite Hs in E2. injection E2 as E2. rewrite E1. cbn [mbind result_bind snd].
    eexists. split; [reflexivity|]. eexists s, reports, _, _. split_and!; [|exact Hres|exact E4|exact E7].
    rewrite <- E2, E3. done.
Qed.
End Runs.

(** ** The sizes up to a file *)

Lemma queued_data_app z fuel a b : in_order z -> Forall (input_ok z fuel) (a ++ b).*2 ->
  exists rest, queued_data z fuel (a ++ b) = queued_data z fuel a ++ rest.
Proof.
  intros Hz HF. destruct (queued_in_order z fuel _ Hz HF) as (c0 & ce & Hnew & _ & Hall & _).
  rewrite fmap_app, chunk_all_app in Hall. destruct (chunk_all fuel a.*2 c0) as [[x c1]|] eqn:Ha; [|done].
  cbn [mbind result_bind fst snd] in Hall. destruct (chunk_all fuel b.*2 c1) as [[y c2]|]; [|done].
  injection Hall as Hall _. exists (all_data y). unfold queued_data. rewrite fmap_app, <- Hall, all_data_app.
  unfold queued. by rewrite Hnew, Ha.
Qed.

Lemma able_app `{HL : Lz4} `{HX : Xdelta} `{HD : Digest} k z fuel m f a b :
  in_order z -> Forall (input_ok z fuel) (a ++ b).*2 -> able k z fuel m f (a ++ b) -> able k z fuel m f a.
Proof.
  intros Hz HF [A1 A2 A3 A4 A6 A7]. destruct (queued_data_app _ _ _ _ Hz HF) as [rest Hr]. rewrite Hr in A6, A7.
  rewrite len_app in A7. pose proof (len_nonneg rest). split; try done.
  - rewrite length_app in A3. destruct k; cbn in *; try done; unfold up_to_four, up_to_one in *; lia.
  - left. split; [done|]. rewrite fmap_app in HF. by apply Forall_app in HF as [HF _].
  - intros x y Hx Hy. apply A6; apply elem_of_app; by left.
  - lia.
Qed.

Lemma logical_after `{HL : Lz4} `{HX : Xdelta} `{HD : Digest} `{!Lz4Laws} `{!XdeltaLaws} k z fuel m f inputs s0 s i :
  in_order z -> Forall (input_ok z fuel) inputs.*2 -> able k z fuel m f inputs -> NoDup inputs.*1 ->
  init_system (HM := method_of k) z m f = Ok s0 ->
  for_each (take i inputs) (backup_file fuel) s0 = Ok (tt, s) ->
  ~ xdelta_fails k (queued_data z fuel inputs) ->
  eqm64 (stats (absMethodObj s) logicalchunkSize) (len (concat (take i inputs).*2)) /\ balanced (stats (absMethodObj s)).
Proof.
  intros Hz HF Hab Hnd Hi Hs Hx. rewrite <- (take_drop i inputs) in HF, Hab, Hnd, Hx.
  destruct (queued_data_app _ _ _ _ Hz HF) as [rest Hrest].
  pose proof (able_app _ _ _ _ _ _ _ Hz HF Hab) as [A1 A2 A3 A4 A6 A7].
  rewrite fmap_app in HF. rewrite fmap_app in Hnd. apply Forall_app in HF as [HF _]. apply NoDup_app in Hnd as [Hnd _].
  set (pre_ := take i inputs) in *. assert (take (length pre_) pre_ = pre_) as Ht by by apply take_ge.
  destruct (main_backs_up k z fuel m f pre_ (length pre_)) as (HK & inv & c0 & s0' & H1 & H3 & Ho);
    rewrite ?Ht; try done.
  rewrite Hi in H1. injection H1 as <-. rewrite main_loop_take, Ht, Hs in Ho by done. destruct Ho as [Ho|[H4 _]].
  { destruct Hx. rewrite Hrest. eapply xdelta_fails_mono; [|exact Ho]. intros t Ht'. apply elem_of_app. by left. }
  cbn [snd] in H4. split.
  - rewrite (bu_bytes _ _ _ _ _ _ _ _ _ H4), ?Ht. destruct (queued_in_order z fuel _ Hz HF) as (_ & _ & _ & _ & _ & HR).
    by rewrite (all_data_files _ _ HR).
  - eapply loop_balances; [|exact Hs]. rewrite H3. apply balanced_new.
Qed.

(** ** What a report says *)

(** The figures of a report of a version of [size] bytes. *)
Record says (g : stat -> Z) (size : Z) (time : double) (r : list item) : Prop := {
  sy_logical : figure "logicalchunkSize is " r = Some (Number (g logicalchunkSize));
  sy_unique : figure "uniquechunkSize is " r = Some (Number (g uniquechunkSize));
  sy_base : figure "base chunk size: " r = Some (Number (g basechunkSize));
  sy_delta : figure "delta chunk size: " r = Some (Number (g deltachunkSize));
  sy_speed : figure "Throughput: " r = Some (Double (mebi (fdiv (double_of (w64 size)) time)));
  sy_saved : figure "Reduce data speed: " r = Some (Double (mebi (fdiv (double_of (w64 (size - g uniquechunkSize))) time)))
}.

Lemma logged_says `{HM : Method} cm t before after r size : cm <> 5 -> logged cm t before after r ->
  eqm64 (stats (absMethodObj after) logicalchunkSize - stats (absMethodObj before) logicalchunkSize) size ->
  says (stats (absMethodObj after)) size (TimeTmp t) r.
Proof.
  intros Hcm (p & P1 & P2 & ->) Hsz. unfold log_version. rewrite (proj2 (Z.eqb_neq _ _) Hcm). cbn [negb].
  assert (version_bytes (stats (absMethodObj after)) p = w64 size) as Hb by (unfold version_bytes; rewrite P1; exact Hsz).
  assert (version_saved (stats (absMethodObj after)) p = w64 (size - stats (absMethodObj after) uniquechunkSize)) as Hv.
  { unfold version_saved. rewrite P1, P2, Z.add_0_r. apply eqm64_sub; [exact Hsz|done]. }
  destruct (bool_decide _); (split; [done..|by rewrite <- Hb|by rewrite <- Hv]).
Qed.

(** ** Properties *)

(** C1: [delta.cc] from end to end.  The command line names a directory, a way of
    chunking (types 0, 1, 3 or 4), a method (deduplication, Finesse, N-transform,
    Palantir for up to four files, locality for one) and a number [n]; the list
    [std::sort] leaves of the names found (nothing is assumed of the sorting)
    starts with [n] different names of readable files; these suit the chunking (3:
    well-formed archives; 4: with the limits of C3 on sizes and headers), the
    containers can be written, the chunks are fewer than 2^31 - 2 and their
    digests differ.  Then the program ends, and each of the [n] files can be
    restored exactly as it was; unless ([outcome]) xdelta reports an error for two
    chunks of the run, or (Finesse, N-transform) a delta of two of them, larger
    than its chunk, overflows a block.  Moreover, in a tree of files and
    directories only, if the sorting permutes the names and [n] is the number of
    regular files below the directory, each of these is backed up. *)
Theorem delta_main_backs_up_tree `{HL : Lz4} `{HX : Xdelta} `{HD : Digest} `{!Lz4Laws} `{!XdeltaLaws}
    (w : World) (k : compressionMethod) (dir : string) (z cm : Z) (n : nat)
    (Hw : asked w dir z cm n) (Hk : kind_of (draws w) cm = Some k)
    (Hab : able k z (fuel_ w) (memory w) (disk_ w) (backed w dir n)) :
  outcome k (queued_data z (fuel_ w) (backed w dir n)) (delta_main w) (fun ex =>
    exists d out log, ex = Done d out log /\
      forall name file, name ∈ take n (readfiles w dir) -> files (disk_ w) !! name = Some file ->
        writable (disk_ w) (restore_path name) = true ->
        exists d', restore_one z (fuel_ w) name d = Ok (tt, d') /\ files (fs d') !! restore_path name = Some file) /\
  (all_plain (opendir w dir) -> readfiles w dir ≡ₚ traverse_dir nofilter dir (opendir w dir) [] ->
     n = length (regular_files dir (opendir w dir)) ->
     forall name, name ∈ regular_files dir (opendir w dir) -> name ∈ take n (readfiles w dir)).
Proof.
  destruct (delta_main_run w k dir z cm n Hw Hk Hab) as (s0 & _ & _ & Ho). split.
  - eapply outcome_mono; [exact Ho| |by intros e ->]. intros ex -> (s & reports & out & log & -> & Hres & _).
    eexists. split; [done|]. eexists _, _, _. split; [done|]. intros name file Hn Hf Hwr. apply Hres; [|done].
    by apply inputs_of_elem.
  - intros Hplain Hsort -> name Hn. rewrite traverse_seen, nofilter_all, seen_plain in Hsort by done. cbn [app] in Hsort.
    rewrite take_ge by (by rewrite (Permutation_length Hsort)). by rewrite Hsort.
Qed.

(** An order for the names, as [std::sort] may leave them. *)
Fixpoint place (name : string) (l : list string) : list string :=
  match l with
  | [] => [name]
  | x :: l' => if compareNat name x then name :: l else x :: place name l'
  end.

Definition sorted_names (l : list string) : list string := foldr place [] l.

Definition no_meters : Meters := let o := double_of 0 in mkMeters o o o o o o o o o.

Definition demo_world (method : string) : World :=
  mkWorld 9 "MC" [("i"%char, "in"); ("c"%char, "1"); ("m"%char, method); ("n"%char, " 2")]%string
    (fun _ => Opened (Regular "b" (Directory "sub" (Opened (Regular "a" End)) End)))
    sorted_names (mkMem ∅ 0)
    (mkFs (list_to_map [("in/b", [1; 2; 3]); ("in/sub/a", [1; 2; 3])]%string) (fun _ => true))
    (mkDraws [] [] (new_FeatureGenerator (replicate 24 3)) (replicate 24 5))
    (fun i => mkTiming no_meters (double_of (Z.of_nat i + 2)) (double_of 1))
    5 no_meters "2024-01-01 00:00:00 " (double_of 1) (double_of 0) true None 8.

Lemma demo_asked method cm : w32 (atoi method) = cm -> asked (demo_world method) "in" 1 cm 2.
Proof.
  intros Hm. split; [done| |..].
  - eexists. unfold parse_options. cbn [getopt demo_world fold_left set_option fst snd no_options dirName chunkingType compressionMethod_ backupNum ratio].
    rewrite Hm. reflexivity.
  - by vm_compute.
  - apply (bool_decide_unpack _). by vm_compute.
  - apply (bool_decide_unpack _). by vm_compute.
Qed.

Lemma demo_backed method : backed (demo_world method) "in" 2 = [("in/b"%string, [1; 2; 3]); ("in/sub/a"%string, [1; 2; 3])].
Proof. by vm_compute. Qed.

Lemma collision_free_same `{Digest} (a : bytes) : collision_free [a; a].
Proof. intros x y Hx Hy _. set_solver. Qed.

Lemma demo_able method : @able (lz4_c 0 0) StoreCodec.xdelta StoreCodec.digest Use_Finesse 1 8 (mkMem ∅ 0)
  (disk_ (demo_world method)) (backed (demo_world method) "in" 2).
Proof.
  rewrite demo_backed. assert (queued_data 1 8 [("in/b"%string, [1; 2; 3]); ("in/sub/a"%string, [1; 2; 3])] = [[1; 2; 3]; [1; 2; 3]]) as Hq.
  { exact demo_queued. }
  split.
  - reflexivity.
  - reflexivity.
  - exact I.
  - left. split; [right; by left|repeat constructor].
  - rewrite Hq. apply collision_free_same.
  - by rewrite Hq.
Qed.

Lemma demo_outcome {A} method (r : result A) P :
  outcome (H := StoreCodec.xdelta) Use_Finesse (queued_data 1 8 (backed (demo_world method) "in" 2)) r P -> exists a, r = Ok a /\ P a.
Proof.
  intros Ho. eapply (outcome_stored Use_Finesse); [|exact Ho]. rewrite demo_backed.
  assert (queued_data 1 8 [("in/b"%string, [1; 2; 3]); ("in/sub/a"%string, [1; 2; 3])] = [[1; 2; 3]; [1; 2; 3]]) as -> by exact demo_queued.
  by repeat constructor.
Qed.

Lemma delta_main_backs_up_tree_witness : let w := demo_world "2" in
  (exists d out log, @delta_main (lz4_c 0 0) StoreCodec.xdelta StoreCodec.digest w = Ok (Done d out log) /\
     forall name file, name ∈ take 2 (readfiles w "in") -> files (disk_ w) !! name = Some file ->
       writable (disk_ w) (restore_path name) = true ->
       exists d', restore_one (HL := lz4_c 0 0) (HX := StoreCodec.xdelta) 1 8 name d = Ok (tt, d') /\ files (fs d') !! restore_path name = Some file) /\
  forall name, name ∈ regular_files "in" (opendir w "in") -> name ∈ take 2 (readfiles w "in").
Proof.
  intros w. destruct (@delta_main_backs_up_tree (lz4_c 0 0) StoreCodec.xdelta StoreCodec.digest
    (lz4_c_laws 0 0 ltac:(lia) ltac:(lia)) StoreCodec.xdelta_laws w Use_Finesse "in" 1 2 2
    (demo_asked "2" 2 eq_refl) eq_refl (demo_able "2")) as [Ho Htree]. split.
  - apply demo_outcome in Ho as (ex & Hex & d & out & log & -> & Hres). exists d, out, log. exact (conj Hex Hres).
  - apply Htree; [by vm_compute| |reflexivity].
    replace (readfiles w "in") with (traverse_dir nofilter "in" (opendir w "in") []) by (by vm_compute). reflexivity.
Defined.

(** C11: the reports of [delta.cc]: for a command line, files, a disk and digests
    as for C1, but fixed-size, FastCDC or tar-aware chunking only, the program
    ends and [Version_log] has printed one report after every file; in it the
    logical size is that of the files so far, the unique size is the base and
    delta chunks' together, the throughput is the size of the file over its time,
    and the "Reduce data speed" the size of the file less the unique size of all
    the versions so far, modulo [2 ^ 64], over its time: not what this version
    saved, since [preuniquechunkSize] stays 0.  The exceptions are those of
    [outcome]: xdelta reports an error for two chunks of the run, or (Finesse and
    the N-transform) an oversized delta of two of them overflows a block. *)
Theorem delta_main_logs_versions `{HL : Lz4} `{HX : Xdelta} `{HD : Digest} `{!Lz4Laws} `{!XdeltaLaws}
    (w : World) (k : compressionMethod) (dir : string) (z cm : Z) (n : nat)
    (Hz : in_order z) (Hw : asked w dir z cm n) (Hk : kind_of (draws w) cm = Some k)
    (Hin : Forall (input_ok z (fuel_ w)) (backed w dir n).*2)
    (Hab : able k z (fuel_ w) (memory w) (disk_ w) (backed w dir n)) :
  outcome k (queued_data z (fuel_ w) (backed w dir n)) (delta_main w) (fun ex =>
    exists d reports out log, ex = Done d (concat reports ++ out) log /\ length reports = n /\
    forall i name file, backed w dir n !! i = Some (name, file) ->
      exists r g, reports !! i = Some r /\ says g (len file) (TimeTmp (clock w i)) r /\
        eqm64 (g logicalchunkSize) (len (concat (take (S i) (backed w dir n)).*2)) /\
        eqm64 (g uniquechunkSize) (g basechunkSize + g deltachunkSize)).
Proof.
  destruct (xdelta_fails_dec k (queued_data z (fuel_ w) (backed w dir n))) as [Hx|Hx]; [by left|].
  destruct (delta_main_run w k dir z cm n Hw Hk Hab) as (s0 & H1 & _ & Ho).
  eapply outcome_mono; [exact Ho| |by intros e ->]. intros ex -> (s & reports & out & log & -> & _ & H4 & H5).
  eexists. split; [done|]. exists (dataWrite_ (absMethodObj s)), reports, out, log. split; [done|]. split; [exact H4|].
  intros i name file Hi. pose proof (lookup_lt_Some _ _ _ Hi) as Hlt. rewrite (backed_length _ _ _ _ _ Hw) in Hlt.
  destruct (H5 i Hlt) as (si & si' & r & E1 & E2 & E3 & E4).
  destruct (logical_after k z _ _ _ _ s0 si i Hz Hin Hab (backed_distinct _ _ _ _ _ Hw) H1 E1 Hx) as [L1 _].
  destruct (logical_after k z _ _ _ _ s0 si' (S i) Hz Hin Hab (backed_distinct _ _ _ _ _ Hw) H1 E2 Hx) as [L2 [_ _ B3]].
  exists r, (stats (absMethodObj si')). split; [done|]. split; [|by split].
  eapply logged_says; [by eapply select_kind|exact E4|]. rewrite L1, L2, (take_S_input _ _ _ _ Hi), fmap_app, concat_app, len_app.
  cbn [fmap list_fmap snd concat]. rewrite app_nil_r. by rewrite Z.add_simpl_l.
Qed.

Lemma delta_main_logs_versions_witness : let w := demo_world "2" in
  exists d reports out log, @delta_main (lz4_c 0 0) StoreCodec.xdelta StoreCodec.digest w = Ok (Done d (concat reports ++ out) log) /\
    length reports = 2%nat /\
    forall i name file, backed w "in" 2 !! i = Some (name, file) ->
      exists r g, reports !! i = Some r /\ says g (len file) (TimeTmp (clock w i)) r /\
        eqm64 (g logicalchunkSize) (len (concat (take (S i) (backed w "in" 2)).*2)) /\
        eqm64 (g uniquechunkSize) (g basechunkSize + g deltachunkSize).
Proof.
  intros w. assert (Forall (input_ok 1 8) (backed w "in" 2).*2) as Hin by (unfold w; rewrite demo_backed; repeat constructor).
  pose proof (@delta_main_logs_versions (lz4_c 0 0) StoreCodec.xdelta StoreCodec.digest
    (lz4_c_laws 0 0 ltac:(lia) ltac:(lia)) StoreCodec.xdelta_laws w Use_Finesse "in" 1 2 2 (or_intror (or_introl eq_refl))
    (demo_asked "2" 2 eq_refl) eq_refl Hin (demo_able "2")) as Ho.
  apply demo_outcome in Ho as (ex & Hex & d & reports & out & log & -> & Hl & Hr). exists d, reports, out, log.
  exact (conj Hex (conj Hl Hr)).
Defined.

(** ** The regrouping program *)

(** The calls after the loop are those of [finish]. *)
Lemma finish_main_finish `{HL : Lz4} draws u s :
  finish_main (odess_method draws) (Migratory ;; MLC) u s =
  on_method (HM := odess_method draws) (finish (su_names u) (s32 (su_backupNum u))) s.
Proof.
  unfold finish_main, finish, on_method, mbind, M_bind. change (@MExt (odess_method draws)) with OExt.
  destruct (Migratory _) as [[? a]|]; [|done]. destruct (MLC a) as [[? b]|]; [|done]. cbn [absMethodObj chunkerObj].
  by destruct (generate_ori _ _ b) as [[? c]|].
Qed.

(** C4: migratory compression from end to end, as [main.cc] does it with the
    Odess method.  The command line names a directory, fixed-size, FastCDC or
    tar-aware chunking, the method and a number [n]; the list that [std::sort]
    leaves of the names the walk over the directory gives (nothing is assumed of
    the sorting) starts with [n] different names of readable files, none of them
    an output of the program, well-formed archives for tar-aware chunking; the
    outputs can be written.  Then the program ends and leaves [output.me], the
    chunks of these files with those of equal first super-feature next to each
    other (a permutation of the chunks); [ori], the files one after the other; a
    compressed file for each that decompresses to it; and it prints the size of
    the files and of both compressed files (the sizes of the blocks left out). *)
Theorem main_main_migrates_tree `{HL : Lz4} `{HX : Xdelta} `{HD : Digest} `{!Lz4Laws}
    (w : World) (dir : string) (z : Z) (n : nat)
    (Hz : in_order z) (Hw : asked w dir z 3 n) (Hn : Z.of_nat n < 2 ^ 31)
    (Hm : forall l, (next_loc (memory w) <= l)%nat -> heap (memory w) !! l = None)
    (Hroom : Forall (fun p => writable (disk_ w) p = true) outputs)
    (Hout : Forall (fun name => name ∉ outputs) (take n (readfiles w dir)))
    (Hin : Forall (input_ok z (fuel_ w)) (backed w dir n).*2) :
  let datas := (backed w dir n).*2 in
  let chunks := queued_data z (fuel_ w) (backed w dir n) in
  exists a out, main_main w = Ok (Done (dataWrite_ a) out (chunk_info_log w)) /\
    migrated (odess_draws (draws w)) chunks datas a /\
    grouped (key0 (odess_draws (draws w))) chunks ≡ₚ chunks /\ concat chunks = concat datas /\
    figure "logical size : " out = Some (Number (w64 (len (concat datas)))) /\
    figure "Ori lossless compression size : " out = Some (Number (stats a oriLCSize)) /\
    figure "Migratory lossless compression size : " out = Some (Number (stats a MLCSize)).
Proof.
  intros datas chunks. set (dr := odess_draws (draws w)). pose proof (backed_length _ _ _ _ _ Hw) as Hl.
  destruct (migrate_ok dr z (fuel_ w) (memory w) (disk_ w) (backed w dir n) (drop n (readfiles w dir)))
    as (s0 & s' & H1 & H2 & H3 & H4); [done..| |done|].
  { apply Forall_and. split; [apply inputs_of_disk|]. rewrite <- (backed_names _ _ _ _ _ Hw), Forall_fmap in Hout. exact Hout. }
  pose proof H1 as Hi. unfold init_system in Hi. destruct (new_Chunker z) as [c0|] eqn:Hc; [|done]. injection Hi as Hi.
  destruct (as_options _ _ _ _ _ Hw) as [r Hr].
  eexists (absMethodObj s'), _. split_and!; [|exact H3|apply grouped_perm|exact H4|..].
  - unfold main_main. rewrite (as_argc _ _ _ _ _ Hw), Hr.
    rewrite (set_up_ok w dir z 3 n Hw (mkOptions dir (Some z) (Some 3) (Some (Z.of_nat n)) r) c0 eq_refl eq_refl eq_refl eq_refl);
      [|destruct Hz as [->|[->| ->]]; set_solver|done].
    cbn [mbind result_bind su_compressionMethod]. rewrite bool_decide_eq_true_2 by done. unfold main_run.
    match goal with |- context [start_system ?HM w ?u] => assert (start_system HM w u = s0) as ->; [|set (su := u)] end.
    { unfold start_system. cbn. rewrite <- Hi. by destruct (disk_ w). }
    assert ((main_loop_of (odess_method dr) w su ;; finish_main (odess_method dr) (Migratory ;; MLC) su) s0 = Ok (tt, s')) as Hrun.
    { unfold mbind, M_bind in H2. destruct (for_each _ _ s0) as [[[] s1]|] eqn:Hloop; [|done]. rewrite (bind_ok _ _ _ tt s1).
      - rewrite finish_main_finish. cbn [su su_names su_backupNum]. rewrite s32_small by lia. by rewrite len_length, Hl in H2.
      - unfold main_loop_of. cbn [su su_names su_disk su_backupNum]. rewrite Nat2Z.id, <- Hloop.
        rewrite (main_file_loop (HM := odess_method dr) (fuel_ w) (files (disk_ w)) (backed w dir n) (drop n (readfiles w dir)) (inputs_of_disk _ _) n) by (by rewrite Hl).
        by rewrite (backed_take _ _ _ _ _ Hw). }
    match goal with |- context [?m s0] => replace (m s0) with (Ok (tt, s') : result (unit * System (HM := odess_method dr))) by (symmetry; exact Hrun) end.
    reflexivity.
  - rewrite <- (H4 : concat chunks = concat datas). exact (f_equal (fun x => Some (Number x)) (mg_size _ _ _ _ H3)).
  - done.
  - done.
Qed.

Lemma main_main_migrates_tree_witness : let w := demo_world "3" in
  let datas := [[1; 2; 3]; [1; 2; 3]] in
  let chunks := queued_data 1 8 (backed w "in" 2) in
  exists a out, @main_main (lz4_c 0 0) StoreCodec.xdelta StoreCodec.digest w = Ok (Done (dataWrite_ a) out None) /\
    @migrated (lz4_c 0 0) (replicate 24 5) chunks datas a /\
    grouped (key0 (replicate 24 5)) chunks ≡ₚ chunks /\ concat chunks = concat datas /\
    figure "logical size : " out = Some (Number 6) /\
    figure "Ori lossless compression size : " out = Some (Number (stats a oriLCSize)) /\
    figure "Migratory lossless compression size : " out = Some (Number (stats a MLCSize)).
Proof.
  intros w datas chunks. refine (@main_main_migrates_tree (lz4_c 0 0) StoreCodec.xdelta StoreCodec.digest
    (lz4_c_laws 0 0 ltac:(lia) ltac:(lia)) w "in" 1 2 _ (demo_asked "3" 3 eq_refl) _ _ _ _ _).
  - right. by left.
  - done.
  - reflexivity.
  - repeat constructor.
  - apply (bool_decide_unpack _). by vm_compute.
  - unfold w. rewrite demo_backed. repeat constructor.
Defined.
